(* ===== verification/_CoqProject ===== *)
-Q . S2P
Prelude.v
FlatTree.v
Channels.v
Common.v
BitfieldFixed.v
BitfieldDynamic.v
CompactEncoding.v
Encoding.v
Crypto.v
OplogEntry.v
Changeset.v
Storage.v
BitfieldStore.v
Oplog.v
MerkleTree.v
MerkleView.v
MerkleTruncate.v
NodeCache.v
MerkleProof.v
MerkleSound.v
MerkleComplete.v
MerkleHonest.v
MerkleUpgrade.v
UpgradeHonest.v
MerkleSparse.v
MerkleSeek.v
MerkleBoth.v
Models.v
ChannelModels.v
Core.v
Events.v
CoreOpen.v
CoreView.v
CoreSpec.v
CoreReopen.v
CoreReplicate.v
CoreRebuild.v
CoreReader.v
CoreHonest.v
CoreHeader.v
CoreBoth.v
Replication.v
PeerSessions.v
SharedCore.v
Examples.v
Samples.v
HashBE.v
Sha2.v
Blake2bRfc.v
Ed25519Rfc.v
UnitTests.v
BitfieldTests.v
IntegrationTests.v
ModelTest.v
CodecTheorems.v
OplogTheorems.v
BitfieldTheorems.v
TreeTheorems.v
StorageTheorems.v
CoreTheorems.v
ReplicationTheorems.v
ExampleTheorems.v
UnitTestTheorems.v
InteropTheorems.v
