(* ===== verification/Prelude.v ===== *)
(** * Hypercore, modelled and proved

    The program is the Rust crate [hypercore]: a signed append-only log of
    blocks of bytes that is kept in four random access stores and can be
    replicated block by block.  This library models it and proves what it
    promises.  Source paths below are relative to the crate's [src/].

    ** The parts of the program and the files that model them

    - A [Hypercore] ([core.rs], [builder.rs]) holds a key pair, the storage, the
      oplog, the merkle tree, the bitfield, a header and an event channel.
      [Core.v]: the record [Hypercore] with these fields; [Module Core] has one
      definition per method ([new], [append_batch], [get], [has], [clear],
      [create_proof], [verify_and_apply_proof], [missing_nodes], [info],
      [make_read_only], the flushing and retry loops), a computation on that
      state; [Module Builder] is the builder.  The random key of a new core is
      an argument.
    - The merkle tree ([tree/merkle_tree.rs], [tree/merkle_tree_changeset.rs])
      keeps its roots in memory and asks its caller to read nodes it misses.
      [MerkleTree.v]: [Module Tree], opening, lookups, byte offsets, commit,
      truncation, flushing.  [MerkleProof.v]: [Module Proofs], creating and
      verifying proofs for blocks, hashes, seeks and upgrades.  [Changeset.v]:
      appending blocks, hashing, signing, and the reference tree [merkle] over a
      list of blocks.  [NodeCache.v]: the optional node cache ([common/cache.rs]).
    - The bitfield ([bitfield/]) says which blocks are there.
      [BitfieldFixed.v]: a page; [BitfieldDynamic.v]: the sparse pages, their
      searches, opening and flushing.
    - The oplog ([oplog/]) makes changes durable before the other stores are
      flushed.  [OplogEntry.v]: entries and headers with their codecs;
      [Oplog.v]: the two header slots, leaders, checksums, opening, appending,
      flushing.
    - Storage and block store ([storage/mod.rs], [data/mod.rs]).  [Storage.v]:
      the parts hand out instructions to read and infos to flush, which are
      carried out here on the four stores.
    - Data, encodings, cryptography ([common/], [encoding.rs], [crypto/]).
      [Common.v], [Encoding.v], [Crypto.v], [HashBE.v].
    - Replication ([replication/]).  [Events.v]: the event channel;
      [SharedCore.v]: the core behind a mutex; each method of the three traits
      is a list of instructions (lock, await, call of the core, return, drop of
      the guard), and tasks interleave them by a step relation in which the core
      is arbitrary to others while one of its methods runs; [Replication.v]: two cores
      that exchange proofs, and [replicate_index] of [examples/replication.rs].
    - The programs in [../examples].  [Examples.v]: [memory_main], [disk_main] and
      [replication_main], from the construction of the stores to what is printed.
    - The tests in the sources and in [../tests].  [UnitTests.v]: the tests of
      [core.rs], [oplog/header.rs], [crypto/], [replication/]; [BitfieldTests.v]:
      those of [bitfield/]; [IntegrationTests.v]: [tests/core.rs] and the steps
      that [tests/js_interop.rs] runs in Rust; [ModelTest.v]: [tests/model.rs],
      with its operations and its reference list.

    ** Conventions

    A fallible function returns an [outcome]: [Ok], [Err], [Panic] (a failed
    [unwrap], an index out of bounds, an overflow of a checked operation) or
    [Diverge] (a loop that used up its fuel).  A method with [&mut self] is a
    [stateR] computation that keeps its changes when it fails; [wp] says that it
    returns.  [u64] and smaller integers are [Z] with the checks of a build with
    overflow checks written out ([+64], [*64], [-?]); wrapping and bit operations
    use [Z.land] and its relatives.  Bytes are [list Z] of values below 256, maps
    are [gmap].

    Other crates are parameters: the classes [FlatTree], [CompactEncoding],
    [Blake2b], [Blake2bMac], [Ed25519], [Crc32], [RandomAccess], [IntMapOrder] (the order of
    draining an [IntMap]), [Broadcast], [AsyncMutex] and [MokaCache], each with
    a class of laws that state its documented behaviour.  [Models.v] and
    [ChannelModels.v] implement all of them that a theorem assumes laws of, and
    the applications of the theorems, named [.._witness], run on these
    implementations with the sample log of [Samples.v].  Their hash and their
    signatures are simple stand-ins for which the laws can be proved.  Where a test
    has the output of a published algorithm in it, the algorithm is used:
    [Sha2.v] (SHA-256 and SHA-512), [Blake2bRfc.v] (RFC 7693, plain and keyed) and
    [Ed25519Rfc.v] (RFC 8032) are written from their standards.

    ** What the theorems show

    - [CoreTheorems.v].  A core is a log: any sequence of operations with sizes
      in range on a new core is answered exactly as by the log of [CoreSpec.v], a
      list of present or cleared blocks with the length of the data file.  That
      log fails where the code does: when a range behind the end of a log is
      cleared whose last block is present, and when an empty block, or a hole,
      lies behind the end of the data file.  Where ranges start inside the log
      and no present block behind them is empty, it is a plain list.  A core is
      durable: opening the stores at any moment gives the
      same log, and a core that is dropped and opened again any number of times
      goes on as if it had not been, as long as no [clear] fails ([CoreReopen.v];
      after a failed one a block can be lost).  The invariants behind this
      are [core_live], which holds for a core that was opened again too, and
      [core_inv], which adds that the oplog's counters and the contiguous length
      are exact ([CoreView.v], [CoreOpen.v]).  Signatures guard upgrades, [make_read_only]
      leaves no secret behind, the oplog stays short but for failed clears, and
      the header fits its slot whatever calls were made, proofs included, and
      however they ended ([CoreHeader.v]).
    - [ReplicationTheorems.v].  Replication works: every proof that the origin
      creates for what the replica asks is accepted, in any order of exchanges
      and with either core dropped and opened again in between, and the replica
      reads the origin's blocks ([CoreReplicate.v] creates, [CoreReader.v] applies,
      [CoreRebuild.v] replays, [PeerSessions.v] reopens; [MerkleComplete.v],
      [MerkleUpgrade.v] and [MerkleSparse.v] are the tree's side).  It is safe: whatever block proofs
      and upgrades a replica is given by whomever, it reads the log's blocks or
      none, unless one of these proofs is accepted although one of the finitely
      many inputs that were hashed for it collides with an input of the log's tree
      ([verifier_hashed], [collision] in [MerkleSound.v]), or although the bytes of
      its changeset were never signed ([MerkleHonest.v], [UpgradeHonest.v],
      [CoreHonest.v]; for upgrades without additional nodes).
      A shared core is linearizable, free of deadlocks and exclusive.  Subscribers
      get the last 32 events.
    - [ExampleTheorems.v].  A block and an upgrade in one proof: the exchange of
      the replication example works for every block that is [replicable]
      ([MerkleBoth.v], [CoreBoth.v]), and the example programs print what their
      comments say.
    - [TreeTheorems.v].  Appending computes the reference tree, a block that is
      accepted is the log's or an input hashed for it collides ([MerkleSound.v]),
      byte ranges are right, a seek finds its byte ([MerkleSeek.v]), flush and open round-trip ([MerkleView.v],
      [MerkleTruncate.v]), the cache agrees with the tree.  [HashBE.v]: a hash of
      roots binds the roots.
    - [OplogTheorems.v].  The oplog refines a header and a list of entries;
      its file is well-formed after every operation, with the header before the
      current one in the other slot; damage is detected.
    - [BitfieldTheorems.v], [StorageTheorems.v], [CodecTheorems.v].  Bits, stores
      and codecs behave as sets of positions, files and inverse functions
      ([BitfieldStore.v] relates the bitfield to its file).
    - [InteropTheorems.v].  With BLAKE2b and Ed25519 as published, the four files
      of the core have after each step of [tests/js_interop.rs] the SHA-256 hashes
      that the test fixes, which are those of the JavaScript implementation: the
      model writes the same bytes.
    - [UnitTestTheorems.v].  Every test of the sources passes on the model: the
      hashes, signatures, headers, bits and proofs it expects are what the
      definitions compute, the tests of headers for every key.  The model test
      passes for every list of operations it can generate with blocks that are
      not empty, and panics when an empty block lies behind a cleared one.
    - Theorems also state the cases in which the code does not do what it is
      meant to do: a bitfield store that is misread beyond 8192 blocks and makes
      opening panic beyond one page, entries overwritten after a reopen, a loop
      over partial entries that never ends, a search that misses unset bits, an
      index into the wrong list of roots, a seek that skips a root it has to read,
      a stale contiguous length, a [clear] that fails half-way and on a reopened
      core destroys entries that were pending, a cache that
      survives truncation, additional nodes whose lengths are not checked, a block
      that is stored at a wrong place when it comes with an upgrade and lies behind
      roots that are not shared.

    ** Bounds and fuel

    - Logs have less than 2^57 blocks and 2^64 bytes, batches at most 2^18
      blocks; then no arithmetic on indices overflows.  Nodes of the log have a
      hash that is not all zero ([no_blank]), since the code takes such a node
      for a missing one.
    - [tree_fuel] is 64: a walk in a tree over less than 2^57 leaves takes less
      than 58 steps.  [retry_fuel] is 128: a lookup asks at most twice for the
      nodes of a block, and [missing_nodes] once per level.  The theorems about
      operations say that they return, so the fuel suffices.
    - The theorems on reopening are for at most 8192 blocks, the number up to
      which the code reads its bitfield store back correctly.
    - Block proofs of strangers have an index below 2^56 and at most 57 nodes, their
      upgrades end below 2^57 blocks: what a log of that size can need.
    - Runs have less than 2^30 operations and cleared ranges end below 2^63.

    ** What is not modelled

    Logging ([tracing]), formatting of errors and nodes, the memory and disk
    backends themselves and the creation of a temporary directory, I/O errors of a
    backend, and cancellation of a future between two awaits of one method.  The
    context strings of errors are left out.  [crate] roots and re-exports have no
    behaviour.  The benchmarks measure time only.  Of [tests/js_interop.rs] the
    code that starts Node processes is left out, and so are the random number
    generators of the key pair and of the model test, whose draws are arguments.

    Modelled but with no theorem of completeness: proofs that answer a seek,
    additional upgrades, and reorganisations of the log by a truncating upgrade. *)

From stdpp Require Import base tactics numbers list list_numbers gmap fin_maps sorting.
From Stdlib Require Import ZArith Lia Bool.

#[export] Set Default Goal Selector "!".
Open Scope Z_scope.

(** ** Outcomes of Rust code

    A Rust function returns a value, returns an [Err], panics (an [unwrap] of
    [None], an index out of bounds, an arithmetic overflow of a build with
    overflow checks), or never returns.  [Diverge] is what a loop modelled
    with fuel gives when the fuel runs out. *)

Inductive outcome (E A : Type) : Type :=
  | Ok (a : A)
  | Err (e : E)
  | Panic
  | Diverge.

Arguments Ok {E A} a.
Arguments Err {E A} e.
Arguments Panic {E A}.
Arguments Diverge {E A}.

#[global] Instance outcome_ret {E} : MRet (outcome E) := fun A a => Ok a.

#[global] Instance outcome_bind {E} : MBind (outcome E) := fun A B f m =>
  match m with
  | Ok a => f a
  | Err e => Err e
  | Panic => Panic
  | Diverge => Diverge
  end.

#[global] Instance outcome_fmap {E} : FMap (outcome E) := fun A B f m =>
  match m with
  | Ok a => Ok (f a)
  | Err e => Err e
  | Panic => Panic
  | Diverge => Diverge
  end.

(** The [?] operator applied to a result of another error type: the error is
    converted with [From::from]. *)
Definition map_err {E F A} (f : E -> F) (m : outcome E A) : outcome F A :=
  match m with
  | Ok a => Ok a
  | Err e => Err (f e)
  | Panic => Panic
  | Diverge => Diverge
  end.

(** [Option::unwrap] and [Option::expect]. *)
Definition unwrap {E A} (o : option A) : outcome E A :=
  match o with
  | Some a => Ok a
  | None => Panic
  end.

Lemma bind_Ok {E A B} (a : A) (f : A -> outcome E B) : (Ok a ≫= f) = f a.
Proof. reflexivity. Qed.

Lemma bind_inv_Ok {E A B} (m : outcome E A) (f : A -> outcome E B) b :
  (m ≫= f) = Ok b -> exists a, m = Ok a /\ f a = Ok b.
Proof. destruct m; cbn; intros H; try discriminate. eauto. Qed.

Lemma bind_assoc {E A B C} (m : outcome E A) (f : A -> outcome E B) (g : B -> outcome E C) :
  ((m ≫= f) ≫= g) = (m ≫= (fun a => f a ≫= g)).
Proof. by destruct m. Qed.

Lemma map_err_inv_Ok {E F A} (f : E -> F) (m : outcome E A) a :
  map_err f m = Ok a -> m = Ok a.
Proof. destruct m; cbn; congruence. Qed.

(** [inv_ok] turns every hypothesis "this monadic block returned [Ok]" into
    the list of its intermediate results. *)
Ltac inv_ok :=
  repeat match goal with
  | H : (_ ≫= _) = Ok _ |- _ =>
      let a := fresh "r" in let H1 := fresh "H" in
      apply bind_inv_Ok in H as (a & H1 & H)
  | H : map_err _ _ = Ok _ |- _ => apply map_err_inv_Ok in H
  | H : Ok _ = Ok _ |- _ => inversion H; clear H; subst
  | H : mret _ = Ok _ |- _ => inversion H; clear H; subst
  | H : Err _ = Ok _ |- _ => discriminate H
  | H : Panic = Ok _ |- _ => discriminate H
  | H : Diverge = Ok _ |- _ => discriminate H
  end.

(** Code that changes a state through [&mut] and may fail: what was changed
    before a failure stays changed. *)
Definition stateR (S E A : Type) : Type := S -> S * outcome E A.

#[global] Instance stateR_ret {S E} : MRet (stateR S E) := fun A a s => (s, Ok a).

#[global] Instance stateR_bind {S E} : MBind (stateR S E) := fun A B f m s =>
  match m s with
  | (s, Ok a) => f a s
  | (s, Err e) => (s, Err e)
  | (s, Panic) => (s, Panic)
  | (s, Diverge) => (s, Diverge)
  end.

(** A computation that does not change the state, one that reads it and one
    that only changes it. *)
Definition lift {S E A} (m : outcome E A) : stateR S E A := fun s => (s, m).
Definition gets {S E A} (f : S -> A) : stateR S E A := fun s => (s, Ok (f s)).
Definition modify {S E} (f : S -> S) : stateR S E unit := fun s => (f s, Ok tt).

(** [wp m s Q]: run from [s], [m] returns a value and a state as [Q] says; it
    neither fails, panics nor diverges. *)
Definition wp {S E A} (m : stateR S E A) (s : S) (Q : A -> S -> Prop) : Prop :=
  exists s' a, m s = (s', Ok a) /\ Q a s'.

Section Wp.
Context {S E : Type}.
Implicit Types (s : S).

Lemma wp_bind {A B} (m : stateR S E A) (f : A -> stateR S E B) s Q :
  wp m s (fun a s => wp (f a) s Q) -> wp (m ≫= f) s Q.
Proof.
  intros (s1 & a & Hm & s2 & b & Hf & HQ). exists s2, b. split; [|done].
  unfold mbind, stateR_bind. by rewrite Hm.
Qed.

Lemma wp_mono {A} (m : stateR S E A) s (Q Q' : A -> S -> Prop) :
  wp m s Q -> (forall a s, Q a s -> Q' a s) -> wp m s Q'.
Proof. intros (s' & a & ? & ?) Hmono. exists s', a. auto. Qed.

Lemma wp_ret {A} (a : A) s (Q : A -> S -> Prop) : Q a s -> wp (E:=E) (mret a) s Q.
Proof. intros. by exists s, a. Qed.

Lemma wp_lift {A} (m : outcome E A) a s (Q : A -> S -> Prop) : m = Ok a -> Q a s -> wp (lift m) s Q.
Proof. intros -> ?. by exists s, a. Qed.

Lemma wp_gets {A} (g : S -> A) s (Q : A -> S -> Prop) : Q (g s) s -> wp (E:=E) (gets g) s Q.
Proof. intros. by exists s, (g s). Qed.

Lemma wp_modify (g : S -> S) s (Q : unit -> S -> Prop) : Q tt (g s) -> wp (E:=E) (modify g) s Q.
Proof. intros. by exists (g s), tt. Qed.
End Wp.

(** A run of a part that returned a value goes on with the rest. *)
Lemma run_bind {S E A B} (m : stateR S E A) (f : A -> stateR S E B) s s' a :
  m s = (s', Ok a) -> (m ≫= f) s = f a s'.
Proof. unfold mbind, stateR_bind. by intros ->. Qed.

(** What a run that returned a value went through. *)
Lemma run_bind_inv {S E A B} (m : stateR S E A) (f : A -> stateR S E B) s s' b :
  (m ≫= f) s = (s', Ok b) -> exists s1 a, m s = (s1, Ok a) /\ f a s1 = (s', Ok b).
Proof.
  unfold mbind, stateR_bind. destruct (m s) as [s1 [a| | |]]; intros Hrun; try discriminate Hrun. eauto.
Qed.

(** One step of a state computation. *)
Ltac wp_step :=
  cbn beta iota;
  lazymatch goal with
  | |- wp (mbind _ (gets _)) _ _ => apply wp_bind, wp_gets
  | |- wp (mbind _ (modify _)) _ _ => apply wp_bind, wp_modify
  | |- wp (mbind _ (mret _)) _ _ => apply wp_bind, wp_ret
  | |- wp (mbind _ (lift _)) _ _ => apply wp_bind; eapply wp_lift; [eassumption|]
  | |- wp (mret _) _ _ => apply wp_ret
  | |- wp (gets _) _ _ => apply wp_gets
  | |- wp (modify _) _ _ => apply wp_modify
  | |- wp (lift _) _ _ => eapply wp_lift; [eassumption|]
  end; cbn beta iota.

(** ** Machine integers

    An unsigned integer of width [w] is a [Z] in [0, 2^w).  The checked
    operations panic where an overflow-checked build does. *)

Definition U32_MAX : Z := 2 ^ 32 - 1.
Definition U64_MAX : Z := 2 ^ 64 - 1.

Definition is_u8 (x : Z) : Prop := 0 <= x < 2 ^ 8.
Definition is_u32 (x : Z) : Prop := 0 <= x < 2 ^ 32.
Definition is_u64 (x : Z) : Prop := 0 <= x < 2 ^ 64.

Section Checked.
Context {E : Type}.

Definition checked_add (w x y : Z) : outcome E Z :=
  if x + y <? 2 ^ w then Ok (x + y) else Panic.
Definition checked_sub (x y : Z) : outcome E Z :=
  if y <=? x then Ok (x - y) else Panic.
Definition checked_mul (w x y : Z) : outcome E Z :=
  if x * y <? 2 ^ w then Ok (x * y) else Panic.
(** [TryInto] to an unsigned type of width [w], then [unwrap]/[expect]. *)
Definition try_into (w x : Z) : outcome E Z :=
  if (0 <=? x) && (x <? 2 ^ w) then Ok x else Panic.

Lemma checked_add_Ok w x y : x + y < 2 ^ w -> checked_add w x y = Ok (x + y).
Proof. unfold checked_add. intros. by rewrite (proj2 (Z.ltb_lt _ _)). Qed.
Lemma checked_add_Panic w x y : 2 ^ w <= x + y -> checked_add w x y = Panic.
Proof. unfold checked_add. intros. by rewrite (proj2 (Z.ltb_ge _ _)). Qed.
Lemma checked_sub_Ok x y : y <= x -> checked_sub x y = Ok (x - y).
Proof. unfold checked_sub. intros. by rewrite (proj2 (Z.leb_le _ _)). Qed.
Lemma checked_sub_Panic x y : x < y -> checked_sub x y = Panic.
Proof. unfold checked_sub. intros. by rewrite (proj2 (Z.leb_gt _ _)). Qed.
Lemma checked_mul_Ok w x y : x * y < 2 ^ w -> checked_mul w x y = Ok (x * y).
Proof. unfold checked_mul. intros. by rewrite (proj2 (Z.ltb_lt _ _)). Qed.
Lemma try_into_Ok w x : 0 <= x < 2 ^ w -> try_into w x = Ok x.
Proof.
  unfold try_into. intros.
  by rewrite (proj2 (Z.leb_le _ _)), (proj2 (Z.ltb_lt _ _)) by lia.
Qed.
End Checked.

Notation "x '+64' y" := (checked_add 64 x y) (at level 50, left associativity) : Z_scope.
Notation "x '+32' y" := (checked_add 32 x y) (at level 50, left associativity) : Z_scope.
Notation "x '*64' y" := (checked_mul 64 x y) (at level 40, left associativity) : Z_scope.
Notation "x '-?' y" := (checked_sub x y) (at level 50, left associativity) : Z_scope.

(** Discharge the checked operations whose bounds [lia] can see. *)
Ltac checked_step :=
  first
    [ rewrite bind_Ok
    | rewrite checked_add_Ok by lia
    | rewrite checked_sub_Ok by lia
    | rewrite checked_mul_Ok by lia
    | rewrite try_into_Ok by lia ].
Ltac checked := repeat checked_step.

(** ** Arrays indexed by a [usize] *)

Section Arrays.
Context {A : Type}.
Implicit Types (l bs : list A) (i n : Z).

Definition zlen l : Z := Z.of_nat (length l).

(** [l[i]]: panics when out of bounds. *)
Definition index {E} l i : outcome E A :=
  if 0 <=? i then unwrap (l !! Z.to_nat i) else Panic.

(** [l[i] = x]: panics when out of bounds. *)
Definition index_set {E} l i (x : A) : outcome E (list A) :=
  if (0 <=? i) && (i <? zlen l) then Ok (<[Z.to_nat i := x]> l) else Panic.

Definition ztake n l : list A := take (Z.to_nat n) l.
Definition zdrop n l : list A := drop (Z.to_nat n) l.

(** [l[i..i+n]] and the effect of copying [bs] to [l[i..]]; both are total
    here, their users check the bounds. *)
Definition slice l i n : list A := ztake n (zdrop i l).
Definition splice l i bs : list A := ztake i l ++ bs ++ zdrop (i + zlen bs) l.

(** [&l[a..b]]: panics unless [a <= b <= l.len()]. *)
Definition slice_range {E} l (a b : Z) : outcome E (list A) :=
  if (0 <=? a) && (a <=? b) && (b <=? zlen l) then Ok (slice l a (b - a)) else Panic.

Lemma zlen_nonneg l : 0 <= zlen l.
Proof. unfold zlen. lia. Qed.
Lemma zlen_nil : zlen [] = 0.
Proof. reflexivity. Qed.
Lemma zlen_cons x l : zlen (x :: l) = 1 + zlen l.
Proof. unfold zlen. rewrite length_cons. lia. Qed.
Lemma zlen_app l1 l2 : zlen (l1 ++ l2) = zlen l1 + zlen l2.
Proof. unfold zlen. rewrite length_app. lia. Qed.
Lemma zlen_replicate (n : nat) (x : A) : zlen (replicate n x) = Z.of_nat n.
Proof. unfold zlen. by rewrite length_replicate. Qed.

Lemma index_Ok {E} l i x : 0 <= i -> l !! Z.to_nat i = Some x -> index (E:=E) l i = Ok x.
Proof. unfold index. intros ? H. rewrite (proj2 (Z.leb_le _ _)) by lia. by rewrite H. Qed.

Lemma index_inv {E} l i x :
  index (E:=E) l i = Ok x -> 0 <= i < zlen l /\ l !! Z.to_nat i = Some x.
Proof.
  unfold index, unwrap, zlen. destruct (0 <=? i) eqn:Hi; [|done].
  destruct (l !! Z.to_nat i) eqn:Hl; [|done]. intros [= ->].
  apply lookup_lt_Some in Hl as ?. split; [lia|done].
Qed.

Lemma index_Panic {E} l i : zlen l <= i -> index (E:=E) l i = Panic.
Proof.
  unfold index, zlen. intros. destruct (0 <=? i) eqn:Hi; [|done].
  by rewrite lookup_ge_None_2 by lia.
Qed.

Lemma index_set_Ok {E} l i x :
  0 <= i < zlen l -> index_set (E:=E) l i x = Ok (<[Z.to_nat i := x]> l).
Proof.
  unfold index_set. intros.
  by rewrite (proj2 (Z.leb_le _ _)), (proj2 (Z.ltb_lt _ _)) by lia.
Qed.

Lemma index_set_Panic {E} l i x : zlen l <= i -> index_set (E:=E) l i x = Panic.
Proof.
  unfold index_set. intros. rewrite (proj2 (Z.ltb_ge _ _)) by lia.
  by rewrite andb_false_r.
Qed.

Lemma index_app_l {E} l1 l2 i : 0 <= i < zlen l1 -> index (E:=E) (l1 ++ l2) i = index l1 i.
Proof.
  unfold index, zlen. intros. rewrite lookup_app_l by lia. done.
Qed.

Lemma index_app_r {E} l1 l2 i :
  zlen l1 <= i -> index (E:=E) (l1 ++ l2) i = index l2 (i - zlen l1).
Proof.
  unfold index, zlen. intros.
  rewrite !(proj2 (Z.leb_le _ _)) by lia.
  rewrite lookup_app_r by lia. do 2 f_equal. lia.
Qed.

(** *** Slices *)

Lemma zlen_ztake n l : 0 <= n <= zlen l -> zlen (ztake n l) = n.
Proof. unfold zlen, ztake. rewrite length_take. lia. Qed.
Lemma zlen_zdrop n l : 0 <= n <= zlen l -> zlen (zdrop n l) = zlen l - n.
Proof. unfold zlen, zdrop. rewrite length_drop. lia. Qed.
Lemma zlen_slice l i n : 0 <= i -> 0 <= n -> i + n <= zlen l -> zlen (slice l i n) = n.
Proof. unfold slice. intros. rewrite zlen_ztake; [done|]. rewrite zlen_zdrop; lia. Qed.
Lemma zlen_splice l i bs : 0 <= i -> i + zlen bs <= zlen l -> zlen (splice l i bs) = zlen l.
Proof.
  unfold splice. intros. pose proof (zlen_nonneg bs).
  rewrite !zlen_app, zlen_ztake, zlen_zdrop by lia. lia.
Qed.

Lemma slice_full l : slice l 0 (zlen l) = l.
Proof. unfold slice, ztake, zdrop, zlen. rewrite Nat2Z.id. cbn. apply take_ge. lia. Qed.

Lemma slice_nil l i : slice l i 0 = [].
Proof. reflexivity. Qed.

Lemma slice_split l i n m :
  0 <= i -> 0 <= n -> 0 <= m -> slice l i (n + m) = slice l i n ++ slice l (i + n) m.
Proof.
  unfold slice, ztake, zdrop. intros.
  rewrite !Z2Nat.inj_add by lia.
  by rewrite <-drop_drop, take_take_drop.
Qed.

(** A slice of a buffer that is a known concatenation splits accordingly. *)
Lemma slice_app_inv l i b1 b2 :
  0 <= i -> slice l i (zlen (b1 ++ b2)) = b1 ++ b2 ->
  slice l i (zlen b1) = b1 /\ slice l (i + zlen b1) (zlen b2) = b2.
Proof.
  intros Hi H. rewrite zlen_app, slice_split in H by auto using zlen_nonneg.
  apply (f_equal length) in H as Hlen. rewrite !length_app in Hlen.
  assert (length (slice l i (zlen b1)) <= length b1)%nat as Hb1.
  { unfold slice, ztake, zlen. rewrite length_take. lia. }
  assert (length (slice l (i + zlen b1) (zlen b2)) <= length b2)%nat as Hb2.
  { unfold slice, ztake, zlen. rewrite length_take. lia. }
  apply app_inj_1 in H; [done|lia].
Qed.

Lemma slice_app_skip l1 l2 i n :
  0 <= i -> slice (l1 ++ l2) (zlen l1 + i) n = slice l2 i n.
Proof.
  unfold slice, zdrop, zlen. intros.
  rewrite Z2Nat.inj_add, Nat2Z.id by lia. by rewrite <-drop_drop, drop_app_length.
Qed.

Lemma slice_app_l l1 l2 i n :
  0 <= i -> 0 <= n -> i + n <= zlen l1 -> slice (l1 ++ l2) i n = slice l1 i n.
Proof.
  unfold slice, ztake, zdrop, zlen. intros.
  rewrite drop_app_le by lia. rewrite take_app_le; [done|].
  rewrite length_drop. lia.
Qed.

Lemma slice_app_here l1 l2 : slice (l1 ++ l2) 0 (zlen l1) = l1.
Proof.
  rewrite slice_app_l; [apply slice_full|lia| |lia]. apply zlen_nonneg.
Qed.

Lemma slice_app_mid l1 l2 l3 : slice (l1 ++ l2 ++ l3) (zlen l1) (zlen l2) = l2.
Proof.
  replace (zlen l1) with (zlen l1 + 0) by lia.
  rewrite slice_app_skip by lia. apply slice_app_here.
Qed.

Lemma slice_splice_same l i bs :
  0 <= i -> i + zlen bs <= zlen l -> slice (splice l i bs) i (zlen bs) = bs.
Proof.
  intros. unfold splice. pose proof (zlen_nonneg bs).
  pose proof (slice_app_mid (ztake i l) bs (zdrop (i + zlen bs) l)) as Hm.
  rewrite zlen_ztake in Hm by lia. exact Hm.
Qed.

Lemma lookup_splice l i bs (k : nat) :
  0 <= i -> i + zlen bs <= zlen l ->
  splice l i bs !! k =
    if decide (i <= Z.of_nat k < i + zlen bs) then bs !! (k - Z.to_nat i)%nat else l !! k.
Proof.
  unfold splice, ztake, zdrop, zlen. intros.
  destruct (decide (Z.of_nat k < i)).
  - rewrite decide_False by lia.
    rewrite lookup_app_l by (rewrite length_take; lia).
    by rewrite lookup_take_lt by lia.
  - rewrite lookup_app_r by (rewrite length_take; lia).
    rewrite length_take, Nat.min_l by lia. case_decide.
    + by rewrite lookup_app_l by lia.
    + rewrite lookup_app_r by lia. rewrite lookup_drop. f_equal. lia.
Qed.

Lemma insert_splice l i x : 0 <= i < zlen l -> <[Z.to_nat i := x]> l = splice l i [x].
Proof.
  intros Hi. apply list_eq. intros k. rewrite lookup_splice by (rewrite ?zlen_cons, ?zlen_nil; lia).
  change (zlen [x]) with 1. unfold zlen in *. case_decide.
  - replace k with (Z.to_nat i) by lia. rewrite list_lookup_insert_eq by lia.
    by replace (Z.to_nat i - Z.to_nat i)%nat with 0%nat by lia.
  - rewrite list_lookup_insert_ne; [done|]. lia.
Qed.

Lemma index_set_splice {E} l i x :
  0 <= i < zlen l -> index_set (E:=E) l i x = Ok (splice l i [x]).
Proof. intros. rewrite index_set_Ok by lia. by rewrite insert_splice by lia. Qed.

Lemma splice_all l bs : zlen bs = zlen l -> splice l 0 bs = bs.
Proof.
  intros H. unfold splice, ztake, zdrop. change (Z.to_nat 0) with 0%nat. rewrite take_0. cbn.
  rewrite drop_ge; [by rewrite app_nil_r|]. unfold zlen in *. lia.
Qed.

Lemma splice_splice l i b1 b2 :
  0 <= i -> i + zlen b1 + zlen b2 <= zlen l ->
  splice (splice l i b1) (i + zlen b1) b2 = splice l i (b1 ++ b2).
Proof.
  intros. pose proof (zlen_nonneg b1). pose proof (zlen_nonneg b2).
  apply list_eq. intros k.
  rewrite !lookup_splice by (rewrite ?zlen_splice, ?zlen_app; lia).
  rewrite zlen_app.
  destruct (decide (i <= Z.of_nat k < i + zlen b1)).
  - rewrite !decide_False by lia. rewrite !decide_True by lia.
    rewrite lookup_app_l; [done|]. unfold zlen in *. lia.
  - destruct (decide (i + zlen b1 <= Z.of_nat k < i + zlen b1 + zlen b2)).
    + rewrite !decide_True by lia.
      rewrite lookup_app_r by (unfold zlen in *; lia). f_equal. unfold zlen in *. lia.
    + by rewrite !decide_False by lia.
Qed.

Lemma slice_splice_other l i bs j n :
  0 <= i -> i + zlen bs <= zlen l -> 0 <= j -> 0 <= n ->
  j + n <= i \/ i + zlen bs <= j ->
  slice (splice l i bs) j n = slice l j n.
Proof.
  intros ? ? ? ? Hd. unfold slice, ztake, zdrop. apply list_eq. intros k.
  destruct (decide (k < Z.to_nat n)%nat).
  - rewrite !lookup_take_lt by lia. rewrite !lookup_drop.
    rewrite lookup_splice by lia. rewrite decide_False by lia. done.
  - by rewrite !lookup_take_ge by lia.
Qed.
End Arrays.

Create Rewrite HintDb zlen.
#[export] Hint Rewrite @zlen_nil @zlen_cons @zlen_app @zlen_replicate : zlen.
#[export] Hint Resolve zlen_nonneg : core.

(** ** Little-endian integers *)

Fixpoint le_bytes (n : nat) (v : Z) : list Z :=
  match n with
  | O => []
  | S n => v mod 256 :: le_bytes n (v / 256)
  end.

Fixpoint le_value (bs : list Z) : Z :=
  match bs with
  | [] => 0
  | b :: bs => b + 256 * le_value bs
  end.

Lemma zlen_le_bytes n v : zlen (le_bytes n v) = Z.of_nat n.
Proof.
  revert v. induction n as [|n IH]; intros v; cbn [le_bytes]; [done|].
  rewrite zlen_cons, IH. lia.
Qed.

Lemma le_value_bytes n v : 0 <= v < 256 ^ Z.of_nat n -> le_value (le_bytes n v) = v.
Proof.
  revert v. induction n as [|n IH]; intros v Hv; cbn [le_bytes le_value].
  - cbn in Hv. lia.
  - rewrite Nat2Z.inj_succ, Z.pow_succ_r in Hv by lia. rewrite IH.
    + pose proof (Z.div_mod v 256). lia.
    + split; [apply Z.div_pos; lia|]. apply Z.div_lt_upper_bound; lia.
Qed.

Lemma le_bytes_value bs : Forall is_u8 bs -> le_bytes (length bs) (le_value bs) = bs.
Proof.
  induction 1 as [|b bs Hb _ IH]; cbn [length le_bytes le_value]; [done|].
  assert ((b + 256 * le_value bs) mod 256 = b) as ->.
  { rewrite Z.mul_comm, Z_mod_plus_full. apply Z.mod_small. unfold is_u8 in Hb. lia. }
  assert ((b + 256 * le_value bs) / 256 = le_value bs) as ->; [|by rewrite IH].
  rewrite Z.mul_comm, Z_div_plus_full by lia.
  rewrite Z.div_small by (unfold is_u8 in Hb; lia). lia.
Qed.

Lemma le_bytes_u8 n v : Forall is_u8 (le_bytes n v).
Proof.
  revert v. induction n as [|n IH]; intros v; cbn [le_bytes]; constructor; [|apply IH].
  unfold is_u8. pose proof (Z.mod_pos_bound v 256). lia.
Qed.

Lemma le_value_range bs : Forall is_u8 bs -> 0 <= le_value bs < 256 ^ zlen bs.
Proof.
  induction 1 as [|b bs Hb _ IH]; [change (0 <= 0 < 1); lia|].
  rewrite zlen_cons. cbn [le_value]. rewrite Z.pow_add_r, Z.pow_1_r by (pose proof (zlen_nonneg bs); lia).
  unfold is_u8 in Hb. change (2 ^ 8) with 256 in Hb. nia.
Qed.

Lemma le_bytes_inj n v w :
  0 <= v < 256 ^ Z.of_nat n -> 0 <= w < 256 ^ Z.of_nat n ->
  le_bytes n v = le_bytes n w -> v = w.
Proof.
  intros Hv Hw H. rewrite <-(le_value_bytes n v Hv), <-(le_value_bytes n w Hw). congruence.
Qed.

(** ** Bounded search over integers *)

Lemma range_search (p : Z -> bool) (a b : Z) :
  (exists k, a <= k < b /\ p k = true) \/ (forall k, a <= k < b -> p k = false).
Proof.
  destruct (existsb p (seqZ a (b - a))) eqn:He.
  - left. apply existsb_exists in He as (k & Hk & Hp). exists k.
    apply list_elem_of_In, elem_of_seqZ in Hk. split; [lia|done].
  - right. intros k Hk. destruct (p k) eqn:Hp; [|done].
    assert (existsb p (seqZ a (b - a)) = true) as Ht; [|congruence].
    apply existsb_exists. exists k. split; [|done].
    apply list_elem_of_In, elem_of_seqZ. lia.
Qed.

(** The smallest and the largest element of a range with a property. *)
Lemma range_first (p : Z -> bool) (a b : Z) :
  (exists k, a <= k < b /\ p k = true /\ forall j, a <= j < k -> p j = false) \/
  (forall k, a <= k < b -> p k = false).
Proof.
  remember (Z.to_nat (b - a)) as n eqn:Hn. revert a Hn.
  induction n as [|n IH]; intros a Hn; [right; lia|].
  destruct (p a) eqn:Hp.
  - left. exists a. split_and!; [lia..|done|lia].
  - destruct (IH (a + 1) ltac:(lia)) as [(k & Hk & Hpk & Hj)|Hall].
    + left. exists k. split_and!; [lia..|done|]. intros j Hj'.
      destruct (decide (j = a)) as [->|]; [done|]. apply Hj. lia.
    + right. intros k Hk. destruct (decide (k = a)) as [->|]; [done|]. apply Hall. lia.
Qed.

(** [r] is the first (last) element of [a, b) where [p] holds, if any. *)
Definition is_first (p : Z -> bool) (a b : Z) (r : option Z) : Prop :=
  match r with
  | Some k => a <= k < b /\ p k = true /\ forall j, a <= j < k -> p j = false
  | None => forall j, a <= j < b -> p j = false
  end.
Definition is_last (p : Z -> bool) (a b : Z) (r : option Z) : Prop :=
  match r with
  | Some k => a <= k < b /\ p k = true /\ forall j, k < j < b -> p j = false
  | None => forall j, a <= j < b -> p j = false
  end.

(** [a..b] *)
Fixpoint count_up (n : nat) (a : Z) : list Z :=
  match n with
  | O => []
  | S n => a :: count_up n (a + 1)
  end.
Definition range (a b : Z) : list Z := count_up (Z.to_nat (b - a)) a.

Lemma range_seqZ a b : range a b = seqZ a (b - a).
Proof.
  unfold range, seqZ. generalize (Z.to_nat (b - a)). intros n. revert a. induction n as [|n IH]; intros a; [done|].
  cbn [count_up seq fmap list_fmap]. rewrite IH, Z.add_0_l, <-fmap_S_seq, <-list_fmap_compose. f_equal.
  apply list_fmap_ext. intros i x _. cbn. lia.
Qed.

Lemma find_seqZ_first p a n : 0 <= n -> is_first p a (a + n) (List.find p (seqZ a n)).
Proof.
  intros Hn. remember (Z.to_nat n) as m eqn:Hm. revert a n Hn Hm.
  induction m as [|m IH]; intros a n Hn Hm.
  { replace n with 0 by lia. intros j Hj. lia. }
  rewrite seqZ_cons by lia. cbn [List.find]. destruct (p a) eqn:Hp.
  - cbn. split_and!; [lia..|done|]. intros j Hj. lia.
  - specialize (IH (Z.succ a) (Z.pred n) ltac:(lia) ltac:(lia)).
    replace (Z.succ a + Z.pred n) with (a + n) in IH by lia.
    destruct (List.find p _) as [k|]; cbn in *.
    + destruct IH as (? & ? & Hj). split_and!; [lia..|done|]. intros j Hj'.
      destruct (decide (j = a)) as [->|]; [done|]. apply Hj. lia.
    + intros j Hj. destruct (decide (j = a)) as [->|]; [done|]. apply IH. lia.
Qed.

Lemma find_rev_seqZ_last p a n : 0 <= n -> is_last p a (a + n) (List.find p (reverse (seqZ a n))).
Proof.
  intros Hn. remember (Z.to_nat n) as m eqn:Hm. revert n Hn Hm.
  induction m as [|m IH]; intros n Hn Hm.
  { replace n with 0 by lia. intros j Hj. lia. }
  replace n with (Z.pred n + 1) at 2 by lia. rewrite seqZ_app by lia.
  rewrite reverse_app. change (seqZ (a + Z.pred n) 1) with [a + Z.pred n].
  cbn [reverse rev_append app List.find]. destruct (p (a + Z.pred n)) eqn:Hp.
  - cbn. split_and!; [lia..|done|]. intros j Hj. lia.
  - specialize (IH (Z.pred n) ltac:(lia) ltac:(lia)).
    destruct (List.find p _) as [k|]; cbn in *.
    + destruct IH as (? & ? & Hj). split_and!; [lia..|done|]. intros j Hj'.
      destruct (decide (j = a + Z.pred n)) as [->|]; [done|]. apply Hj. lia.
    + intros j Hj. destruct (decide (j = a + Z.pred n)) as [->|]; [done|]. apply IH. lia.
Qed.

Lemma is_first_unique p a b r r' : is_first p a b r -> is_first p a b r' -> r = r'.
Proof.
  destruct r as [k|], r' as [k'|]; cbn; try done.
  - intros (Hk & Hp & Hj) (Hk' & Hp' & Hj'). f_equal.
    destruct (Z.lt_trichotomy k k') as [Hlt|[->|Hlt]]; [|done|].
    + rewrite Hj' in Hp by lia. done.
    + rewrite Hj in Hp' by lia. done.
  - intros (Hk & Hp & _) Hn. rewrite Hn in Hp by lia. done.
  - intros Hn (Hk & Hp & _). rewrite Hn in Hp by lia. done.
Qed.

Lemma is_last_unique p a b r r' : is_last p a b r -> is_last p a b r' -> r = r'.
Proof.
  destruct r as [k|], r' as [k'|]; cbn; try done.
  - intros (Hk & Hp & Hj) (Hk' & Hp' & Hj'). f_equal.
    destruct (Z.lt_trichotomy k k') as [Hlt|[->|Hlt]]; [|done|].
    + rewrite Hj in Hp' by lia. done.
    + rewrite Hj' in Hp by lia. done.
  - intros (Hk & Hp & _) Hn. rewrite Hn in Hp by lia. done.
  - intros Hn (Hk & Hp & _). rewrite Hn in Hp by lia. done.
Qed.
