(* ===== verification/FlatTree.v ===== *)
(** * Interface of the [flat-tree] crate

    [flat_tree] numbers the nodes of a binary tree by in-order position: the
    leaves are the even numbers and node number [o] (from the left) of depth
    [d] is [2^d * (1 + 2*o) - 1].  The crate is a dependency of the program;
    its operations are parameters of the development ([FlatTree]) and its
    documented behaviour is the class [FlatTreeLaws].  The laws only speak of
    nodes whose subtree lies below [2^62], far away from the overflow of a
    [u64]. *)

From stdpp Require Import base tactics numbers list.
From Stdlib Require Import ZArith Lia.
From S2P Require Import Prelude.
Open Scope Z_scope.

Class FlatTree := {
  (** [flat_tree::parent], [left_span], [right_span], [full_roots] *)
  ft_parent : Z -> Z;
  ft_left_span : Z -> Z;
  ft_right_span : Z -> Z;
  ft_full_roots : Z -> list Z;
  (** [flat_tree::Iterator]: a cursor into the tree.  The moves return the
      new index, which is [iter_index] of the moved cursor. *)
  ft_iterator : Type;
  iter_new : Z -> ft_iterator;
  iter_index : ft_iterator -> Z;
  iter_offset : ft_iterator -> Z;
  iter_factor : ft_iterator -> Z;
  iter_is_right : ft_iterator -> bool;
  iter_contains : ft_iterator -> Z -> bool;
  iter_seek : ft_iterator -> Z -> ft_iterator;
  iter_sibling : ft_iterator -> ft_iterator;
  iter_parent : ft_iterator -> ft_iterator;
  iter_left_child : ft_iterator -> ft_iterator;
  iter_next_tree : ft_iterator -> ft_iterator;
  iter_full_root : ft_iterator -> Z -> ft_iterator * bool;
}.

(** ** The numbering *)

(** Node [o] of depth [d], and the first and last leaf below it. *)
Definition node_at (d o : Z) : Z := 2 ^ d * (1 + 2 * o) - 1.
Definition span_left (d o : Z) : Z := 2 ^ (d + 1) * o.
Definition span_right (d o : Z) : Z := 2 ^ (d + 1) * (o + 1) - 2.

(** The node exists and its subtree ends below [2^62]. *)
Definition in_tree (d o : Z) : Prop := 0 <= d /\ 0 <= o /\ 2 ^ (d + 1) * (o + 1) <= 2 ^ 62.

(** The other child of the parent. *)
Definition sibling_offset (o : Z) : Z := if Z.even o then o + 1 else o - 1.

(** The full trees over [n] leaves, largest first, as pairs of a depth and an
    offset: one for every bit of [n].  [peaks_at d q] are the ones of depth [d]
    or more when [q] trees of depth [d] are full. *)
Fixpoint peaks_pos (d : Z) (p : positive) : list (Z * Z) :=
  match p with
  | xH => [(d, 0)]
  | xO p => peaks_pos (d + 1) p
  | xI p => peaks_pos (d + 1) p ++ [(d, 2 * Zpos p)]
  end.
Definition peaks_at (d q : Z) : list (Z * Z) :=
  match q with
  | Zpos p => peaks_pos d p
  | _ => []
  end.
Definition peaks (n : Z) : list (Z * Z) := peaks_at 0 n.
Definition roots_of (n : Z) : list Z := (fun '(d, o) => node_at d o) <$> peaks n.

(** The cursor stands on node [(d, o)]. *)
Definition iter_at `{FlatTree} (d o : Z) (it : ft_iterator) : Prop :=
  iter_index it = node_at d o /\ iter_offset it = o /\ iter_factor it = 2 ^ (d + 1).

Class FlatTreeLaws (FT : FlatTree) : Prop := {
  ft_parent_law d o : in_tree (d + 1) (o / 2) -> 0 <= d ->
    ft_parent (node_at d o) = node_at (d + 1) (o / 2);
  ft_left_span_law d o : in_tree d o -> ft_left_span (node_at d o) = span_left d o;
  ft_right_span_law d o : in_tree d o -> ft_right_span (node_at d o) = span_right d o;
  ft_full_roots_law n : 0 <= n < 2 ^ 61 -> ft_full_roots (2 * n) = roots_of n;
  iter_new_law d o : in_tree d o -> iter_at d o (iter_new (node_at d o));
  iter_seek_law it d o : in_tree d o -> iter_at d o (iter_seek it (node_at d o));
  iter_is_right_law it d o : in_tree d o -> iter_at d o it -> iter_is_right it = Z.odd o;
  iter_contains_law it d o i : in_tree d o -> iter_at d o it -> 0 <= i ->
    iter_contains it i = (span_left d o <=? i) && (i <=? span_right d o);
  iter_sibling_law it d o : in_tree (d + 1) (o / 2) -> 0 <= d -> iter_at d o it ->
    iter_at d (sibling_offset o) (iter_sibling it);
  iter_parent_law it d o : in_tree (d + 1) (o / 2) -> 0 <= d -> iter_at d o it ->
    iter_at (d + 1) (o / 2) (iter_parent it);
  iter_left_child_law it d o : in_tree d o -> iter_at d o it ->
    iter_at (Z.max 0 (d - 1)) (if d =? 0 then o else 2 * o) (iter_left_child it);
  iter_next_tree_law it d o : in_tree d o -> iter_at d o it ->
    iter_at 0 (2 ^ d * (o + 1)) (iter_next_tree it);
  (** [full_root(to)]: the largest tree that starts at the current leaf, which
      must be aligned with it, and whose leaves are all below [to]. *)
  iter_full_root_done it o n : 0 <= o -> n <= o -> iter_at 0 o it ->
    iter_full_root it (2 * n) = (it, false);
  (** The factor is a [u64]. *)
  iter_factor_nonneg it : 0 <= iter_factor it;
  iter_full_root_law it o n : 0 <= o < n -> n < 2 ^ 61 -> (2 ^ Z.log2 (n - o) | o) ->
    iter_at 0 o it ->
    exists it', iter_full_root it (2 * n) = (it', true) /\
                iter_at (Z.log2 (n - o)) (o / 2 ^ Z.log2 (n - o)) it';
}.

(** ** Facts about the numbering *)

Lemma node_at_leaf o : node_at 0 o = 2 * o.
Proof. unfold node_at. lia. Qed.

Lemma node_at_nonneg d o : 0 <= d -> 0 <= o -> 0 <= node_at d o.
Proof. unfold node_at. intros. pose proof (Z.pow_pos_nonneg 2 d). nia. Qed.

Lemma pow2_succ d : 0 <= d -> 2 ^ (d + 1) = 2 * 2 ^ d.
Proof. intros. rewrite Z.pow_add_r by lia. lia. Qed.

Lemma node_at_in_span d o : 0 <= d -> 0 <= o ->
  span_left d o <= node_at d o <= span_right d o.
Proof.
  unfold span_left, span_right, node_at. intros. rewrite pow2_succ by lia.
  pose proof (Z.pow_pos_nonneg 2 d). nia.
Qed.

(** A node has one place in the tree. *)
Lemma node_at_inj d o d' o' :
  0 <= d -> 0 <= d' -> 0 <= o -> 0 <= o' -> node_at d o = node_at d' o' -> d = d' /\ o = o'.
Proof.
  unfold node_at. intros Hd Hd' Ho Ho' H.
  assert (2 ^ d * (1 + 2 * o) = 2 ^ d' * (1 + 2 * o')) as Heq by lia. clear H.
  assert (forall a b x y, 0 <= a -> a < b -> 2 ^ a * (1 + 2 * x) = 2 ^ b * (1 + 2 * y) -> False) as Hlt.
  { intros a b x y Ha Hab He. replace b with (a + 1 + (b - a - 1)) in He by lia.
    rewrite !Z.pow_add_r in He by lia. pose proof (Z.pow_pos_nonneg 2 a).
    rewrite <-!Z.mul_assoc in He. apply Z.mul_reg_l in He; [|lia]. lia. }
  destruct (Z.lt_trichotomy d d') as [Hl|[->|Hg]].
  - exfalso. eauto.
  - split; [done|]. apply Z.mul_reg_l in Heq; [lia|].
    pose proof (Z.pow_pos_nonneg 2 d'). lia.
  - exfalso. eapply (Hlt d' d); eauto.
Qed.

(** ** Facts about the full trees *)

Lemma peaks_at_even d q : 0 <= q -> peaks_at d (2 * q) = peaks_at (d + 1) q.
Proof. by destruct q. Qed.

Lemma peaks_at_odd d q : 0 <= q -> peaks_at d (2 * q + 1) = peaks_at (d + 1) q ++ [(d, 2 * q)].
Proof. by destruct q. Qed.

Lemma peaks_at_parity d q : 0 <= q ->
  peaks_at d q = peaks_at (d + 1) (q / 2) ++ (if Z.odd q then [(d, q - 1)] else []).
Proof.
  intros Hq. pose proof (Z.div2_odd q) as Hd. rewrite Z.div2_div in Hd.
  assert (0 <= q / 2) by (apply Z.div_pos; lia).
  destruct (Z.odd q); cbn [Z.b2z] in Hd.
  - rewrite Hd at 1. rewrite peaks_at_odd by lia. do 3 f_equal. lia.
  - rewrite Hd at 1. rewrite Z.add_0_r, peaks_at_even by lia. by rewrite app_nil_r.
Qed.

(** The trees are complete and a left child of their parent. *)
Lemma peaks_at_elem d q e o :
  0 <= d -> (e, o) ∈ peaks_at d q ->
  d <= e /\ 0 <= o /\ 2 ^ (e - d) * (o + 1) <= q /\ Z.even o = true.
Proof.
  intros Hd. destruct q as [|p|]; cbn; [by intros ?%elem_of_nil| |by intros ?%elem_of_nil].
  revert d Hd. induction p as [p IH|p IH|]; intros d Hd; cbn.
  - intros [H|H]%elem_of_app.
    + apply IH in H as (? & ? & Hle & ?); [|lia]. split_and!; [lia..| |done].
      replace (e - d) with (Z.succ (e - (d + 1))) by lia. rewrite Z.pow_succ_r by lia. nia.
    + apply list_elem_of_singleton in H as [= -> ->]. split_and!; [lia..| |done].
      rewrite Z.sub_diag. lia.
  - intros H. apply IH in H as (? & ? & Hle & ?); [|lia]. split_and!; [lia..| |done].
    replace (e - d) with (Z.succ (e - (d + 1))) by lia. rewrite Z.pow_succ_r by lia. nia.
  - intros H. apply list_elem_of_singleton in H as [= -> ->]. rewrite Z.sub_diag. done || split_and!; lia.
Qed.

Lemma peaks_elem n e o : (e, o) ∈ peaks n -> 0 <= e /\ 0 <= o /\ 2 ^ e * (o + 1) <= n.
Proof.
  intros H. apply peaks_at_elem in H as (? & ? & Hle & _); [|lia].
  by rewrite Z.sub_0_r in Hle.
Qed.
