(* ===== verification/Channels.v ===== *)
(** * Channels and locks

    The two crates behind the parts of the library that several tasks share:
    [async_broadcast], on which a core sends its events, and [async_lock], whose
    [Mutex] guards a shared core.  Both are parameters, with what their
    documentation promises as laws. *)

From stdpp Require Import base list gmap.
From Stdlib Require Import ZArith Lia.
From S2P Require Import Prelude.

(** ** The broadcast channel *)

(** What [try_broadcast] and [try_recv] return. *)
Inductive try_send := Sent | SendFull | SendClosed | SendInactive.
Inductive try_recv (T : Type) := Received (msg : T) | RecvEmpty | RecvClosed | RecvOverflowed (n : nat).
Arguments Received {T} _.
Arguments RecvEmpty {T}.
Arguments RecvClosed {T}.
Arguments RecvOverflowed {T} _.

(** A channel with all of its receivers, which are told apart by a number.
    [broadcast] returns the channel with one active receiver. *)
Class Broadcast := {
  channel : Type -> Type;
  broadcast {T} : nat -> channel T * nat;
  set_await_active {T} : bool -> channel T -> channel T;
  set_overflow {T} : bool -> channel T -> channel T;
  deactivate {T} : nat -> channel T -> channel T;
  new_receiver {T} : channel T -> channel T * nat;
  try_broadcast {T} : T -> channel T -> channel T * try_send;
  bc_try_recv {T} : nat -> channel T -> channel T * try_recv T;
  (** the messages an active receiver has not taken, and how many it has lost *)
  pending {T} : channel T -> nat -> option (list T);
  lost {T} : channel T -> nat -> nat;
  capacity {T} : channel T -> nat;
  overflow {T} : channel T -> bool;
}.

(** The last [n] messages. *)
Definition lastn {A} (n : nat) (l : list A) : list A := drop (length l - n) l.

Class BroadcastLaws (BC : Broadcast) : Prop := {
  broadcast_law T n : let '(ch, r) := broadcast (T:=T) n in
    capacity ch = n /\ overflow ch = false /\ forall k, pending ch k = if decide (k = r) then Some [] else None;
  set_await_active_law T b (ch : channel T) :
    (forall k, pending (set_await_active b ch) k = pending ch k /\ lost (set_await_active b ch) k = lost ch k) /\
    capacity (set_await_active b ch) = capacity ch /\ overflow (set_await_active b ch) = overflow ch;
  set_overflow_law T b (ch : channel T) :
    (forall k, pending (set_overflow b ch) k = pending ch k /\ lost (set_overflow b ch) k = lost ch k) /\
    capacity (set_overflow b ch) = capacity ch /\ overflow (set_overflow b ch) = b;
  deactivate_law T r (ch : channel T) :
    (forall k, pending (deactivate r ch) k = if decide (k = r) then None else pending ch k) /\
    capacity (deactivate r ch) = capacity ch /\ overflow (deactivate r ch) = overflow ch;
  (** "The new receiver starts with zero messages available." *)
  new_receiver_law T (ch : channel T) : let '(ch', r) := new_receiver ch in
    pending ch r = None /\ pending ch' r = Some [] /\ lost ch' r = 0%nat /\
    (forall k, k <> r -> pending ch' k = pending ch k /\ lost ch' k = lost ch k) /\
    capacity ch' = capacity ch /\ overflow ch' = overflow ch;
  (** With no active receiver the message is given back; in overflow mode the
      oldest messages make place for the new one. *)
  try_broadcast_inactive T (m : T) ch : (forall k, pending ch k = None) -> (try_broadcast m ch).1 = ch;
  try_broadcast_law T (m : T) ch : overflow ch = true -> (exists k, is_Some (pending ch k)) ->
    let ch' := (try_broadcast m ch).1 in
    (try_broadcast m ch).2 = Sent /\ capacity ch' = capacity ch /\ overflow ch' = true /\
    forall k, match pending ch k with
              | Some q => pending ch' k = Some (lastn (capacity ch) (q ++ [m])) /\
                  lost ch' k = (lost ch k + (length (q ++ [m]) - capacity ch))%nat
              | None => pending ch' k = None
              end;
  (** Lost messages are reported first. *)
  try_recv_law T r (ch : channel T) q : pending ch r = Some q ->
    let '(ch', x) := bc_try_recv r ch in
    capacity ch' = capacity ch /\ overflow ch' = overflow ch /\
    (forall k, k <> r -> pending ch' k = pending ch k /\ lost ch' k = lost ch k) /\
    lost ch' r = 0%nat /\
    if decide (lost ch r = 0%nat) then
      match q with
      | m :: q => x = Received m /\ pending ch' r = Some q
      | [] => x = RecvEmpty /\ pending ch' r = Some []
      end
    else x = RecvOverflowed (lost ch r) /\ pending ch' r = Some q;
}.

(** ** The mutex *)

(** A lock with the tasks that wait for it.  [lock] registers a task,
    [poll_lock] lets it in if it may go in now, [unlock] is the drop of the
    guard. *)
Class AsyncMutex := {
  mutex : Type;
  mutex_new : mutex;
  lock : nat -> mutex -> mutex;
  poll_lock : nat -> mutex -> option mutex;
  unlock : mutex -> mutex;
  holder : mutex -> option nat;
  waiting : mutex -> gset nat;
}.

Class AsyncMutexLaws (AM : AsyncMutex) : Prop := {
  mutex_new_law : holder mutex_new = None /\ waiting mutex_new = ∅;
  lock_law t m : holder (lock t m) = holder m /\ waiting (lock t m) = {[t]} ∪ waiting m;
  (** Mutual exclusion: only a free lock is taken. *)
  poll_lock_law t m m' : poll_lock t m = Some m' ->
    holder m = None /\ t ∈ waiting m /\ holder m' = Some t /\ waiting m' = waiting m ∖ {[t]};
  (** A free lock lets one of the waiting tasks in. *)
  poll_lock_free m : holder m = None -> waiting m <> ∅ ->
    exists t, t ∈ waiting m /\ is_Some (poll_lock t m);
  unlock_law m : holder (unlock m) = None /\ waiting (unlock m) = waiting m;
}.
