(* ===== verification/Common.v ===== *)
(** * Shared data types ([src/common], [src/storage] infos, errors)

    The structs and enums that travel between the components: store infos and
    instructions, merkle tree nodes, bitfield updates, the requests and proofs
    exchanged with peers, and the error types.  The human readable [context]
    strings of errors are left out; everything a caller can branch on is kept. *)

From stdpp Require Import base tactics numbers list strings.
From Stdlib Require Import ZArith Lia.
From S2P Require Import Prelude FlatTree.
Open Scope Z_scope.

(** ** Stores *)

Inductive Store := Tree | Data | Bitfield | Oplog.

#[global] Instance Store_eq_dec : EqDecision Store.
Proof. solve_decision. Defined.

(** [impl Display for Store]. *)
Definition Store_display (self : Store) : string :=
  match self with
  | Tree => "tree"
  | Data => "data"
  | Bitfield => "bitfield"
  | Oplog => "oplog"
  end.

Inductive StoreInfoType := Content | Size.

#[global] Instance StoreInfoType_eq_dec : EqDecision StoreInfoType.
Proof. solve_decision. Defined.

Record StoreInfo := mkStoreInfo {
  si_store : Store;
  si_info_type : StoreInfoType;
  si_index : Z;
  si_length : option Z;
  si_data : option (list Z);
  si_miss : bool;
}.

Module StoreInfo.
Definition new_content (store : Store) (index : Z) (data : list Z) : StoreInfo :=
  mkStoreInfo store Content index (Some (zlen data)) (Some data) false.
Definition new_content_miss (store : Store) (index : Z) : StoreInfo :=
  mkStoreInfo store Content index None None true.
Definition new_delete (store : Store) (index length : Z) : StoreInfo :=
  mkStoreInfo store Content index (Some length) None true.
Definition new_truncate (store : Store) (index : Z) : StoreInfo :=
  mkStoreInfo store Size index None None true.
Definition new_size (store : Store) (index length : Z) : StoreInfo :=
  mkStoreInfo store Size index (Some length) None false.
End StoreInfo.

Record StoreInfoInstruction := mkInstruction {
  sii_store : Store;
  sii_info_type : StoreInfoType;
  sii_index : Z;
  sii_length : option Z;
  sii_allow_miss : bool;
}.

Module Instruction.
Definition new_content (store : Store) (index length : Z) : StoreInfoInstruction :=
  mkInstruction store Content index (Some length) false.
Definition new_content_allow_miss (store : Store) (index length : Z) : StoreInfoInstruction :=
  mkInstruction store Content index (Some length) true.
Definition new_all_content (store : Store) : StoreInfoInstruction :=
  mkInstruction store Content 0 None false.
Definition new_size (store : Store) (index : Z) : StoreInfoInstruction :=
  mkInstruction store Size index None false.
End Instruction.

(** ** Errors *)

(** [compact_encoding::EncodingErrorKind]. *)
Inductive EncodingError := OutOfBounds | Overflow | InvalidData.

Inductive HypercoreError :=
  | BadArgument
  | NotWritable
  | InvalidSignature
  | InvalidChecksum
  | EmptyStorage (store : Store)
  | CorruptStorage (store : Store)
  | InvalidOperation
  | IO.

(** [impl From<EncodingError> for HypercoreError]. *)
Definition from_encoding_error (_ : EncodingError) : HypercoreError := InvalidOperation.

Abbreviation result := (outcome HypercoreError).
Abbreviation eresult := (outcome EncodingError).

(** The [?] that turns an encoding error into a hypercore error. *)
Definition enc_try {A} (m : eresult A) : result A := map_err from_encoding_error m.

(** [futures::future::Either]: an instruction still to carry out, or a value. *)
Inductive Either (L R : Type) := Left (l : L) | Right (r : R).
Arguments Left {L R} l.
Arguments Right {L R} r.

(** ** Merkle tree nodes *)

Record NodeByteRange := mkByteRange { nbr_index : Z; nbr_length : Z }.

Record Node := mkNode {
  node_index : Z;
  node_hash : list Z;
  node_length : Z;
  node_parent : Z;
  node_data : option (list Z);
  node_blank : bool;
}.

#[global] Instance Node_eq_dec : EqDecision Node.
Proof. solve_decision. Defined.

(** The loop over the bytes of the hash: blank unless one of them is not zero. *)
Fixpoint all_zero (hash : list Z) : bool :=
  match hash with
  | [] => true
  | byte :: hash => if negb (byte =? 0) then false else all_zero hash
  end.

Definition Node_new `{FlatTree} (index : Z) (hash : list Z) (length : Z) : Node :=
  mkNode index hash length (ft_parent index) (Some []) (all_zero hash).

Definition Node_new_blank (index : Z) : Node :=
  mkNode index [0; 32] 0 0 None true.

(** The traits of a node.  Nodes are ordered by their index, while [==] compares
    all fields. *)
Module NodeTrait.
Definition index (self : Node) : Z := node_index self.
Definition hash (self : Node) : list Z := node_hash self.
Definition len (self : Node) : Z := node_length self.
Definition is_empty (self : Node) : bool := node_length self =? 0.
Definition parent (self : Node) : Z := node_parent self.
Definition cmp (self other : Node) : comparison := node_index self ?= node_index other.
Definition partial_cmp (self other : Node) : option comparison := Some (node_index self ?= node_index other).
End NodeTrait.

(** [merkle_tree_stream::NodeKind] and [NodeParts], of which a node can be made. *)
Module NodeKind.
Inductive t := Leaf (data : list Z) | Parent.
End NodeKind.

Class NodeParts := {
  node_parts : Type;
  np_index : node_parts -> Z;
  np_parent : node_parts -> Z;
  np_len : node_parts -> Z;
  np_data : node_parts -> NodeKind.t;
  np_hash : node_parts -> list Z;
}.

Definition Node_from_parts `{NodeParts} (parts : node_parts) : Node :=
  let data := match np_data parts with
              | NodeKind.Leaf data => Some data
              | NodeKind.Parent => None
              end in
  mkNode (np_index parts) (np_hash parts) (np_len parts) (np_parent parts) data (all_zero (np_hash parts)).

(** ** Bitfield updates *)

Record BitfieldUpdate := mkBitfieldUpdate {
  bu_drop : bool;
  bu_start : Z;
  bu_length : Z;
}.

(** ** Requests and proofs *)

Record RequestBlock := mkRequestBlock { rb_index : Z; rb_nodes : Z }.
Record RequestSeek := mkRequestSeek { rs_bytes : Z }.
Record RequestUpgrade := mkRequestUpgrade { ru_start : Z; ru_length : Z }.

Record DataBlock := mkDataBlock { db_index : Z; db_value : list Z; db_nodes : list Node }.
Record DataHash := mkDataHash { dh_index : Z; dh_nodes : list Node }.
Record DataSeek := mkDataSeek { ds_bytes : Z; ds_nodes : list Node }.
Record DataUpgrade := mkDataUpgrade {
  du_start : Z;
  du_length : Z;
  du_nodes : list Node;
  du_additional_nodes : list Node;
  du_signature : list Z;
}.

Record Proof_ := mkProof {
  proof_fork : Z;
  proof_block : option DataBlock;
  proof_hash : option DataHash;
  proof_seek : option DataSeek;
  proof_upgrade : option DataUpgrade;
}.

Record ValuelessProof := mkValuelessProof {
  vp_fork : Z;
  vp_block : option DataHash;
  vp_hash : option DataHash;
  vp_seek : option DataSeek;
  vp_upgrade : option DataUpgrade;
}.

(** [ValuelessProof::into_proof]: panics when there is a block and no value. *)
Definition into_proof {E} (vp : ValuelessProof) (block_value : option (list Z)) : outcome E Proof_ :=
  block ← match vp_block vp with
          | Some block =>
              value ← unwrap block_value;
              Ok (Some (mkDataBlock (dh_index block) value (dh_nodes block)))
          | None => Ok None
          end;
  Ok (mkProof (vp_fork vp) block (vp_hash vp) (vp_seek vp) (vp_upgrade vp)).
