(* ===== verification/BitfieldFixed.v ===== *)
(** * Fixed size bitfield ([src/bitfield/fixed.rs])

    A page of 32768 bits stored as 1024 words of 32 bits.  The abstract view of
    a page is the function [fbit] from bit positions to booleans. *)

From stdpp Require Import base tactics numbers list list_numbers sets.
From Stdlib Require Import ZArith Lia Bool.
From S2P Require Import Prelude Common.
Open Scope Z_scope.

Definition FIXED_BITFIELD_LENGTH : Z := 1024.
Definition FIXED_BITFIELD_BYTES_LENGTH : Z := FIXED_BITFIELD_LENGTH * 4.
Definition FIXED_BITFIELD_BITS_LENGTH : Z := FIXED_BITFIELD_BYTES_LENGTH * 8.
Definition FIXED_BITFIELD_BITS_PER_ELEM : Z := 4 * 8.

Record FixedBitfield := mkFixed { fb_dirty : bool; fb_bitfield : list Z }.

(** [for x in l { if f(x) { return Some(x) } } None] *)
Fixpoint find_m {E} (f : Z -> outcome E bool) (l : list Z) : outcome E (option Z) :=
  match l with
  | [] => Ok None
  | x :: l => b ← f x; if (b : bool) then Ok (Some x) else find_m f l
  end.

(** Shifts and complement of a [u32]. *)
Definition u32_shl (x k : Z) : Z := Z.land (Z.shiftl x k) U32_MAX.
Definition u32_not (x : Z) : Z := Z.land (Z.lnot x) U32_MAX.
Definition u32_pow {E} (b p : Z) : outcome E Z :=
  if b ^ p <? 2 ^ 32 then Ok (b ^ p) else Panic.

Module Fixed.

Definition new : FixedBitfield := mkFixed false (replicate (Z.to_nat FIXED_BITFIELD_LENGTH) 0).

Fixpoint from_data_loop (fuel : nat) (data : list Z) (limit i : Z) (bitfield : list Z)
  : result (list Z) :=
  if i <=? limit then
    match fuel with
    | O => Diverge
    | S fuel =>
        b0 ← index data i;
        b1 ← index data (i + 1);
        b2 ← index data (i + 2);
        b3 ← index data (i + 3);
        let value := Z.lor (Z.lor (Z.lor b0 (u32_shl b1 8)) (u32_shl b2 16)) (u32_shl b3 24) in
        bitfield ← index_set bitfield (i / 4) value;
        from_data_loop fuel data limit (i + 4) bitfield
    end
  else Ok bitfield.

Definition from_data (data_index : Z) (data : list Z) : result FixedBitfield :=
  let bitfield := replicate (Z.to_nat FIXED_BITFIELD_LENGTH) 0 in
  bitfield ←
    (if data_index + 4 <=? zlen data then
       let limit := Z.min (data_index + FIXED_BITFIELD_BYTES_LENGTH) (zlen data) - 4 in
       from_data_loop (length data) data limit data_index bitfield
     else Ok bitfield);
  Ok (mkFixed false bitfield).

(** The loop of [to_bytes].  Here [data] is the array from index [i] on: what is
    before it has been written. *)
Fixpoint to_bytes_loop (elems : list Z) (data : list Z) : result (list Z) :=
  match elems with
  | [] => Ok data
  | elem :: elems =>
      let bytes := le_bytes 4 elem in
      b0 ← index bytes 0; b1 ← index bytes 1; b2 ← index bytes 2; b3 ← index bytes 3;
      match data with
      | _ :: _ :: _ :: _ :: data => data ← to_bytes_loop elems data; Ok (b0 :: b1 :: b2 :: b3 :: data)
      | _ => Panic
      end
  end.

Definition to_bytes (self : FixedBitfield) : result (list Z) :=
  to_bytes_loop (fb_bitfield self) (replicate (Z.to_nat FIXED_BITFIELD_BYTES_LENGTH) 0).

Definition get (self : FixedBitfield) (idx : Z) : result bool :=
  let n := FIXED_BITFIELD_BITS_PER_ELEM in
  let offset := Z.land idx (n - 1) in
  d ← idx -? offset;
  let i := d / n in
  w ← index (fb_bitfield self) i;
  Ok (negb (Z.land w (u32_shl 1 offset) =? 0)).

Definition set (self : FixedBitfield) (idx : Z) (value : bool) : result (FixedBitfield * bool) :=
  let n := FIXED_BITFIELD_BITS_PER_ELEM in
  let offset := Z.land idx (n - 1) in
  d ← idx -? offset;
  let i := d / n in
  let mask := u32_shl 1 offset in
  w ← index (fb_bitfield self) i;
  if (if value then negb (Z.land w mask =? 0) else Z.land w mask =? 0) then Ok (self, false)
  else
    bitfield ← index_set (fb_bitfield self) i (Z.lxor w mask);
    Ok (mkFixed (fb_dirty self) bitfield, true).

(** The loop of [set_range].  [remaining] is an [i64]; every turn takes at
    least one bit off it, so [length] turns are enough. *)
Fixpoint set_range_loop (fuel : nat) (value : bool) (remaining offset i : Z)
    (bitfield : list Z) (changed : bool) : result (list Z * bool) :=
  if 0 <? remaining then
    match fuel with
    | O => Diverge
    | S fuel =>
        let n := FIXED_BITFIELD_BITS_PER_ELEM in
        power ← try_into 32 (Z.min remaining (n - offset));
        mask_seed ← (if power =? 32 then Ok U32_MAX else p ← u32_pow 2 power; p -? 1);
        let mask := u32_shl mask_seed offset in
        w ← index bitfield i;
        '(bitfield, changed) ←
          (if value then
             if negb (Z.land w mask =? mask) then
               bitfield ← index_set bitfield i (Z.lor w mask); Ok (bitfield, true)
             else Ok (bitfield, changed)
           else
             if negb (Z.land w mask =? 0) then
               bitfield ← index_set bitfield i (Z.land w (u32_not mask)); Ok (bitfield, true)
             else Ok (bitfield, changed));
        set_range_loop fuel value (remaining - (n - offset)) 0 (i + 1) bitfield changed
    end
  else Ok (bitfield, changed).

Definition set_range (self : FixedBitfield) (start length : Z) (value : bool)
  : result (FixedBitfield * bool) :=
  end_ ← start +32 length;
  let n := FIXED_BITFIELD_BITS_PER_ELEM in
  let remaining := end_ - start in
  let offset := Z.land start (n - 1) in
  d ← start -? offset;
  let i := d / n in
  '(bitfield, changed) ←
    set_range_loop (Z.to_nat remaining) value remaining offset i (fb_bitfield self) false;
  Ok (mkFixed (fb_dirty self) bitfield, changed).

Definition index_of (self : FixedBitfield) (value : bool) (position : Z) : result (option Z) :=
  find_m (fun i => b ← get self i; Ok (Bool.eqb b value))
    (range position FIXED_BITFIELD_BITS_LENGTH).

Definition last_index_of (self : FixedBitfield) (value : bool) (position : Z)
  : result (option Z) :=
  end_ ← position +32 1;
  find_m (fun i => b ← get self i; Ok (Bool.eqb b value)) (reverse (range 0 end_)).

End Fixed.

(** ** Abstract view *)

(** Bit [k] of an array of 32 bit words. *)
Definition wbit (l : list Z) (k : Z) : bool :=
  Z.testbit (default 0 (l !! Z.to_nat (k / 32))) (k mod 32).
Definition fbit (fb : FixedBitfield) (k : Z) : bool := wbit (fb_bitfield fb) k.

(** A page holds 1024 words of 32 bits. *)
Definition words_wf (l : list Z) : Prop := zlen l = FIXED_BITFIELD_LENGTH /\ Forall is_u32 l.
Definition fixed_wf (fb : FixedBitfield) : Prop := words_wf (fb_bitfield fb).

Ltac fixed_consts :=
  unfold fixed_wf, words_wf, FIXED_BITFIELD_BITS_LENGTH, FIXED_BITFIELD_BYTES_LENGTH,
    FIXED_BITFIELD_LENGTH, FIXED_BITFIELD_BITS_PER_ELEM in *.

(** ** Words and masks *)

Lemma u32_mask_land x : Z.land x U32_MAX = x mod 2 ^ 32.
Proof. unfold U32_MAX. change (2 ^ 32 - 1) with (Z.ones 32). by rewrite Z.land_ones by lia. Qed.

Lemma u32_testbit_high x k : is_u32 x -> 32 <= k -> Z.testbit x k = false.
Proof.
  unfold is_u32. intros Hx Hk. rewrite <-(Z.mod_small x (2 ^ 32)) by lia.
  apply Z.mod_pow2_bits_high. lia.
Qed.

Lemma u32_of_bits x : 0 <= x -> (forall k, 32 <= k -> Z.testbit x k = false) -> is_u32 x.
Proof.
  unfold is_u32. intros Hx Hb. split; [lia|]. apply Z.lt_nge. intros Hge.
  pose proof (Z.log2_le_mono _ _ Hge) as Hl. rewrite Z.log2_pow2 in Hl by lia.
  pose proof (Z.bit_log2 x) as Hbit. rewrite Hb in Hbit by lia.
  assert (0 < x) by (cbn in Hge; lia). by specialize (Hbit ltac:(lia)).
Qed.

Lemma u32_bits_ext x y :
  is_u32 x -> is_u32 y -> (forall k, 0 <= k < 32 -> Z.testbit x k = Z.testbit y k) -> x = y.
Proof.
  intros Hx Hy H. apply Z.bits_inj'. intros k Hk.
  destruct (decide (k < 32)); [apply H; lia|]. by rewrite !u32_testbit_high by (done || lia).
Qed.

Lemma land_31 x : Z.land x (FIXED_BITFIELD_BITS_PER_ELEM - 1) = x mod 32.
Proof. change (FIXED_BITFIELD_BITS_PER_ELEM - 1) with (Z.ones 5). by rewrite Z.land_ones by lia. Qed.

Lemma sub_mod_div x : (x - x mod 32) / FIXED_BITFIELD_BITS_PER_ELEM = x / 32.
Proof.
  change FIXED_BITFIELD_BITS_PER_ELEM with 32.
  replace (x - x mod 32) with (x / 32 * 32); [apply Z.div_mul; lia|].
  pose proof (Z.div_mod x 32). lia.
Qed.

Lemma ones_testbit p k : 0 <= p -> 0 <= k -> Z.testbit (Z.ones p) k = (k <? p).
Proof.
  intros. destruct (Z.ltb_spec k p); [apply Z.ones_spec_low|apply Z.ones_spec_high]; lia.
Qed.

(** The mask [set_range] builds for [p] bits from bit [o] of a word. *)
Lemma mask_testbit o p k :
  0 <= o -> 0 <= p -> o + p <= 32 -> 0 <= k ->
  Z.testbit (u32_shl (Z.ones p) o) k = (o <=? k) && (k <? o + p).
Proof.
  intros. unfold u32_shl. change U32_MAX with (Z.ones 32).
  rewrite Z.land_spec, ones_testbit by lia.
  destruct (Z.leb_spec o k).
  - rewrite Z.shiftl_spec_high by lia. rewrite ones_testbit by lia.
    destruct (Z.ltb_spec (k - o) p), (Z.ltb_spec k 32), (Z.ltb_spec k (o + p)); (done || lia).
  - rewrite Z.shiftl_spec_low by lia. done.
Qed.

Lemma mask_u32 x o : is_u32 (u32_shl x o).
Proof.
  unfold u32_shl. rewrite u32_mask_land. unfold is_u32.
  pose proof (Z.mod_pos_bound (Z.shiftl x o) (2 ^ 32)). lia.
Qed.

Lemma mask_seed_Ok {E} p :
  0 < p <= 32 ->
  (if p =? 32 then Ok U32_MAX else x ← u32_pow 2 p; x -? 1) = Ok (Z.ones p) :> outcome E Z.
Proof.
  intros Hp. destruct (Z.eqb_spec p 32) as [->|]; [done|]. unfold u32_pow.
  pose proof (Z.pow_lt_mono_r 2 p 32). pose proof (Z.pow_pos_nonneg 2 p).
  rewrite (proj2 (Z.ltb_lt _ _)) by lia. checked. rewrite Z.ones_equiv. done.
Qed.

Lemma testbit_land_one w o :
  0 <= o < 32 -> negb (Z.land w (u32_shl 1 o) =? 0) = Z.testbit w o.
Proof.
  intros. change 1 with (Z.ones 1). destruct (Z.eqb_spec (Z.land w (u32_shl (Z.ones 1) o)) 0) as [He|Hne].
  - apply (f_equal (fun z => Z.testbit z o)) in He.
    rewrite Z.land_spec, mask_testbit, Z.bits_0 in He by lia.
    destruct (Z.leb_spec o o), (Z.ltb_spec o (o + 1)); [|lia..].
    destruct (Z.testbit w o); done.
  - destruct (Z.testbit w o) eqn:Hw; [done|]. exfalso. apply Hne.
    apply Z.bits_inj'. intros k Hk. rewrite Z.land_spec, mask_testbit, Z.bits_0 by lia.
    destruct (Z.leb_spec o k), (Z.ltb_spec k (o + 1)); cbn; rewrite ?andb_false_r; [|done..].
    replace k with o by lia. by rewrite Hw.
Qed.

(** What one turn of [set_range] stores, as a function of the old word. *)
Definition put_bits (value : bool) (w mask : Z) : Z :=
  if value then Z.lor w mask else Z.land w (u32_not mask).

Lemma put_bits_testbit value w o p k :
  0 <= o -> 0 <= p -> o + p <= 32 -> 0 <= k < 32 ->
  Z.testbit (put_bits value w (u32_shl (Z.ones p) o)) k =
    if (o <=? k) && (k <? o + p) then value else Z.testbit w k.
Proof.
  intros. unfold put_bits, u32_not. change U32_MAX with (Z.ones 32). destruct value.
  - rewrite Z.lor_spec, mask_testbit by lia. destruct (_ && _); by rewrite ?orb_true_r, ?orb_false_r.
  - rewrite !Z.land_spec, Z.lnot_spec, mask_testbit, ones_testbit by lia.
    rewrite (proj2 (Z.ltb_lt k 32)) by lia. rewrite andb_true_r.
    destruct ((o <=? k) && (k <? o + p)); cbn; by rewrite ?andb_false_r, ?andb_true_r.
Qed.

Lemma put_bits_u32 value w o p : is_u32 w -> is_u32 (put_bits value w (u32_shl p o)).
Proof.
  intros Hw. pose proof (mask_u32 p o) as Hm. unfold put_bits. destruct value.
  - apply u32_of_bits; [apply Z.lor_nonneg; unfold is_u32 in *; lia|]. intros k Hk.
    by rewrite Z.lor_spec, !u32_testbit_high by done.
  - apply u32_of_bits; [apply Z.land_nonneg; unfold is_u32 in *; lia|]. intros k Hk.
    by rewrite Z.land_spec, u32_testbit_high by done.
Qed.

(** Both branches of the [if] in the loop store [put_bits]: where the code
    leaves the word alone, [put_bits] would not have changed it. *)
Lemma put_bits_test (value : bool) w mask :
  is_u32 w -> is_u32 mask ->
  (if value then negb (Z.land w mask =? mask) else negb (Z.land w mask =? 0)) =
    negb (put_bits value w mask =? w).
Proof.
  intros Hw Hm. unfold put_bits, u32_not.
  destruct value; f_equal; apply eq_true_iff_eq; rewrite !Z.eqb_eq.
  - split; intros H.
    + apply Z.bits_inj'. intros k Hk. apply (f_equal (fun z => Z.testbit z k)) in H.
      rewrite Z.land_spec in H. rewrite Z.lor_spec.
      destruct (Z.testbit w k), (Z.testbit mask k); done.
    + apply Z.bits_inj'. intros k Hk. apply (f_equal (fun z => Z.testbit z k)) in H.
      rewrite Z.lor_spec in H. rewrite Z.land_spec.
      destruct (Z.testbit w k), (Z.testbit mask k); done.
  - change U32_MAX with (Z.ones 32). split; intros H.
    + apply u32_bits_ext; [|done|].
      { pose proof (put_bits_u32 false w 0 mask Hw). unfold put_bits, u32_not, u32_shl in H0.
        rewrite Z.shiftl_0_r in H0. rewrite (u32_mask_land mask) in H0.
        unfold is_u32 in Hm. rewrite Z.mod_small in H0 by lia. exact H0. }
      intros k Hk. apply (f_equal (fun z => Z.testbit z k)) in H.
      rewrite Z.land_spec, Z.bits_0 in H.
      rewrite !Z.land_spec, Z.lnot_spec, ones_testbit by lia.
      rewrite (proj2 (Z.ltb_lt _ _)) by lia.
      destruct (Z.testbit w k), (Z.testbit mask k); done.
    + apply Z.bits_inj'. intros k Hk. apply (f_equal (fun z => Z.testbit z k)) in H.
      rewrite !Z.land_spec, Z.lnot_spec in H by lia. rewrite Z.land_spec, Z.bits_0.
      destruct (Z.testbit w k), (Z.testbit mask k), (Z.testbit (Z.ones 32) k); done.
Qed.

(** ** Bits of an array of words *)

Lemma words_lookup l i : words_wf l -> 0 <= i < 1024 -> exists w, l !! Z.to_nat i = Some w /\ is_u32 w.
Proof.
  intros [Hlen Hall] Hi. fixed_consts. unfold zlen in Hlen.
  destruct (lookup_lt_is_Some_2 l (Z.to_nat i)) as [w Hw]; [lia|].
  exists w. split; [done|]. by eapply Forall_lookup_1.
Qed.

Lemma words_wf_insert l i w : words_wf l -> is_u32 w -> words_wf (<[Z.to_nat i := w]> l).
Proof.
  intros [Hlen Hall] Hw. split; [|by apply Forall_insert].
  unfold zlen. by rewrite length_insert.
Qed.

Lemma wbit_insert l i w k :
  words_wf l -> 0 <= i < 1024 -> 0 <= k ->
  wbit (<[Z.to_nat i := w]> l) k = if decide (k / 32 = i) then Z.testbit w (k mod 32) else wbit l k.
Proof.
  intros Hwf Hi Hk. destruct (words_lookup l i Hwf Hi) as (w0 & Hl & _).
  apply lookup_lt_Some in Hl. unfold wbit. pose proof (Z.div_pos k 32). case_decide.
  - subst i. by rewrite list_lookup_insert_eq.
  - rewrite list_lookup_insert_ne; [done|]. intros Heq. apply Z2Nat.inj in Heq; lia.
Qed.

Lemma wbit_lookup l i w k :
  l !! Z.to_nat i = Some w -> k / 32 = i -> wbit l k = Z.testbit w (k mod 32).
Proof. intros Hl <-. unfold wbit. by rewrite Hl. Qed.

(** Two pages with the same bits are the same page. *)
Lemma wbit_ext l1 l2 :
  words_wf l1 -> words_wf l2 -> (forall k, 0 <= k < 32768 -> wbit l1 k = wbit l2 k) -> l1 = l2.
Proof.
  intros H1 H2 Hb. apply list_eq_same_length with (n := 1024%nat);
    [destruct H2 as [Hl _]|destruct H1 as [Hl _]|]; [fixed_consts; unfold zlen in Hl; lia..|].
  intros n w1 w2 Hn Hw1 Hw2.
  assert (is_u32 w1) by (eapply Forall_lookup_1; [apply H1|done]).
  assert (is_u32 w2) by (eapply Forall_lookup_1; [apply H2|done]).
  apply u32_bits_ext; [done..|]. intros k Hk.
  specialize (Hb (32 * Z.of_nat n + k) ltac:(lia)).
  assert ((32 * Z.of_nat n + k) / 32 = Z.of_nat n) as Hd
    by (rewrite Z.mul_comm, Z.div_add_l, Z.div_small by lia; lia).
  assert ((32 * Z.of_nat n + k) mod 32 = k) as Hm
    by (rewrite Z.mul_comm, Z.add_comm, Z_mod_plus_full; apply Z.mod_small; lia).
  rewrite (wbit_lookup l1 (Z.of_nat n) w1), (wbit_lookup l2 (Z.of_nat n) w2) in Hb
    by (rewrite ?Nat2Z.id; done).
  by rewrite Hm in Hb.
Qed.

Lemma words_wf_zero : words_wf (replicate (Z.to_nat FIXED_BITFIELD_LENGTH) 0).
Proof. split; [done|]. apply Forall_replicate. unfold is_u32. lia. Qed.

Lemma wbit_zero n k : wbit (replicate n 0) k = false.
Proof.
  unfold wbit. destruct (replicate n 0 !! Z.to_nat (k / 32)) as [w|] eqn:Hl; cbn.
  - apply lookup_replicate in Hl as [-> _]. apply Z.bits_0.
  - apply Z.bits_0.
Qed.


Lemma fixed_new_wf : fixed_wf Fixed.new.
Proof. apply words_wf_zero. Qed.

Lemma fixed_new_bits k : fbit Fixed.new k = false.
Proof. apply wbit_zero. Qed.

Lemma fixed_get_Ok fb k : fixed_wf fb -> 0 <= k < 32768 -> Fixed.get fb k = Ok (fbit fb k).
Proof.
  intros Hwf Hk. unfold Fixed.get. rewrite land_31.
  pose proof (Z.mod_pos_bound k 32). pose proof (Z.mod_le k 32). checked. rewrite sub_mod_div.
  assert (0 <= k / 32 < 1024) as Hi
    by (split; [apply Z.div_pos; lia|apply Z.div_lt_upper_bound; lia]).
  destruct (words_lookup _ (k / 32) Hwf Hi) as (w & Hw & _).
  rewrite (index_Ok _ _ w) by (lia || done). checked.
  rewrite testbit_land_one by lia. unfold fbit. by rewrite (wbit_lookup _ (k / 32) w).
Qed.

Lemma fixed_get_Panic fb k : fixed_wf fb -> 32768 <= k -> Fixed.get fb k = Panic.
Proof.
  intros Hwf Hk. unfold Fixed.get. rewrite land_31.
  pose proof (Z.mod_pos_bound k 32). pose proof (Z.mod_le k 32). checked. rewrite sub_mod_div.
  rewrite index_Panic; [done|]. destruct Hwf as [Hl _]. fixed_consts. rewrite Hl.
  apply Z.div_le_lower_bound; lia.
Qed.

Lemma fixed_set_Ok fb k value :
  fixed_wf fb -> 0 <= k < 32768 ->
  exists fb', Fixed.set fb k value = Ok (fb', negb (Bool.eqb (fbit fb k) value)) /\
    fixed_wf fb' /\ fb_dirty fb' = fb_dirty fb /\
    forall j, 0 <= j -> fbit fb' j = if decide (j = k) then value else fbit fb j.
Proof.
  intros Hwf Hk. unfold Fixed.set. rewrite land_31.
  pose proof (Z.mod_pos_bound k 32). pose proof (Z.mod_le k 32). checked. rewrite sub_mod_div.
  assert (0 <= k / 32 < 1024) as Hi
    by (split; [apply Z.div_pos; lia|apply Z.div_lt_upper_bound; lia]).
  destruct (words_lookup _ (k / 32) Hwf Hi) as (w & Hw & Hu).
  rewrite (index_Ok _ _ w) by (lia || done). checked.
  assert (fbit fb k = Z.testbit w (k mod 32)) as Hbit
    by (unfold fbit; by rewrite (wbit_lookup _ (k / 32) w)).
  replace (if value then negb (Z.land w (u32_shl 1 (k mod 32)) =? 0)
           else Z.land w (u32_shl 1 (k mod 32)) =? 0) with (Bool.eqb (fbit fb k) value).
  2: { rewrite <-(negb_involutive (Z.land w _ =? 0)), testbit_land_one, <-Hbit by lia.
       by destruct value, (fbit fb k). }
  destruct (Bool.eqb (fbit fb k) value) eqn:He; cbn [negb].
  { exists fb. split_and!; [done..|]. intros j Hj. case_decide; [|done].
    subst j. by apply eqb_prop. }
  rewrite index_set_Ok by (destruct Hwf as [-> _]; fixed_consts; lia). checked.
  eexists. split_and!; [done| |done|].
  - apply words_wf_insert; [done|]. pose proof (mask_u32 1 (k mod 32)) as Hm.
    apply u32_of_bits; [apply Z.lxor_nonneg; unfold is_u32 in *; lia|].
    intros j Hj. by rewrite Z.lxor_spec, !u32_testbit_high.
  - intros j Hj. unfold fbit. cbn [fb_bitfield]. rewrite wbit_insert by done.
    rewrite Z.lxor_spec. change 1 with (Z.ones 1).
    pose proof (Z.mod_pos_bound j 32). rewrite mask_testbit by lia.
    destruct (decide (j / 32 = k / 32)) as [Hd|Hd].
    + rewrite (wbit_lookup (fb_bitfield fb) (k / 32) w) by done.
      pose proof (Z.div_mod j 32). pose proof (Z.div_mod k 32).
      destruct (Z.leb_spec (k mod 32) (j mod 32)), (Z.ltb_spec (j mod 32) (k mod 32 + 1));
        cbn; rewrite ?xorb_false_r; (case_decide; [|try done]); try lia.
      assert (j mod 32 = k mod 32) as -> by lia. rewrite <-Hbit.
      destruct (fbit fb k), value; done.
    + rewrite decide_False; [done|]. congruence.
Qed.

(** One turn of the loop of [set_range]. *)
Lemma set_range_loop_step fuel value r o i bf ch w :
  words_wf bf -> 0 < r -> 0 <= o < 32 -> 0 <= i -> bf !! Z.to_nat i = Some w ->
  let w' := put_bits value w (u32_shl (Z.ones (Z.min r (32 - o))) o) in
  Fixed.set_range_loop (S fuel) value r o i bf ch =
  Fixed.set_range_loop fuel value (r - (32 - o)) 0 (i + 1) (<[Z.to_nat i := w']> bf)
    (ch || negb (w' =? w)).
Proof.
  intros Hwf Hr Ho Hi Hl w'. cbn [Fixed.set_range_loop].
  rewrite (proj2 (Z.ltb_lt 0 r)) by lia. change FIXED_BITFIELD_BITS_PER_ELEM with 32.
  rewrite try_into_Ok by lia. rewrite bind_Ok, mask_seed_Ok, bind_Ok by lia.
  rewrite (index_Ok bf i w) by done. rewrite bind_Ok.
  set (mask := u32_shl (Z.ones (Z.min r (32 - o))) o) in *.
  assert (is_u32 w) as Hw by (eapply Forall_lookup_1; [apply Hwf|done]).
  pose proof (put_bits_test value w mask Hw (mask_u32 _ _)) as Ht.
  fold w' in Ht. pose proof (lookup_lt_Some _ _ _ Hl) as Hlt.
  assert (forall x : Z, index_set (E:=HypercoreError) bf i x = Ok (<[Z.to_nat i := x]> bf)) as Hset.
  { intros x. apply index_set_Ok. unfold zlen. lia. }
  destruct (negb (w' =? w)) eqn:Hch.
  - rewrite orb_true_r. destruct value; rewrite Ht, Hset, !bind_Ok; done.
  - rewrite orb_false_r.
    assert (<[Z.to_nat i:=w']> bf = bf) as ->.
    { apply list_insert_id. rewrite Hl. f_equal. symmetry.
      apply negb_false_iff, Z.eqb_eq in Hch. done. }
    destruct value; rewrite Ht, bind_Ok; done.
Qed.

(** The bits one turn writes. *)
Lemma put_bits_insert value i o n bf w k :
  words_wf bf -> 0 <= i < 1024 -> 0 <= o -> 0 <= n -> o + n <= 32 -> bf !! Z.to_nat i = Some w ->
  0 <= k ->
  wbit (<[Z.to_nat i := put_bits value w (u32_shl (Z.ones n) o)]> bf) k =
    if decide (32 * i + o <= k < 32 * i + o + n) then value else wbit bf k.
Proof.
  intros Hwf Hi Ho Hn Hon Hl Hk. rewrite wbit_insert by done.
  pose proof (Z.mod_pos_bound k 32). pose proof (Z.div_mod k 32). case_decide.
  - rewrite put_bits_testbit by lia. rewrite (wbit_lookup bf i w) by done.
    destruct (Z.leb_spec o (k mod 32)), (Z.ltb_spec (k mod 32) (o + n)); cbn;
      case_decide; try done; lia.
  - rewrite decide_False; [done|]. lia.
Qed.

Lemma put_bits_changed value i o n bf w :
  words_wf bf -> 0 <= i < 1024 -> 0 <= o -> 0 <= n -> o + n <= 32 -> bf !! Z.to_nat i = Some w ->
  put_bits value w (u32_shl (Z.ones n) o) <> w <->
  exists k, 32 * i + o <= k < 32 * i + o + n /\ wbit bf k <> value.
Proof.
  intros Hwf Hi Ho Hn Hon Hl. assert (is_u32 w) as Hw by (eapply Forall_lookup_1; [apply Hwf|done]).
  assert (forall k, 32 * i <= k < 32 * i + 32 -> k / 32 = i /\ k mod 32 = k - 32 * i) as Hdiv.
  { intros k Hk. pose proof (Z.div_mod k 32). pose proof (Z.mod_pos_bound k 32). lia. }
  split.
  - intros Hne.
    destruct (range_search (fun k => negb (Bool.eqb (wbit bf k) value)) (32 * i + o) (32 * i + o + n))
      as [(k & Hk & Hp)|Hno].
    { exists k. split; [done|]. intros He. by rewrite He, eqb_reflx in Hp. }
    exfalso. apply Hne. apply u32_bits_ext; [by apply put_bits_u32|done|]. intros j Hj.
    rewrite put_bits_testbit by lia.
    destruct (Z.leb_spec o j), (Z.ltb_spec j (o + n)); cbn; try done.
    destruct (Hdiv (32 * i + j)) as [Hd Hm]; [lia|].
    specialize (Hno (32 * i + j) ltac:(lia)). cbn in Hno.
    rewrite (wbit_lookup bf i w), Hm in Hno by done.
    replace (32 * i + j - 32 * i) with j in Hno by lia.
    symmetry. by apply eqb_prop, negb_false_iff.
  - intros (k & Hk & Hv) He. apply Hv. destruct (Hdiv k) as [Hd Hm]; [lia|].
    rewrite (wbit_lookup bf i w) by done. rewrite Hm, <-He.
    rewrite put_bits_testbit by lia. rewrite (proj2 (Z.leb_le _ _)), (proj2 (Z.ltb_lt _ _)) by lia.
    done.
Qed.

Lemma set_range_loop_spec fuel value r o i bf ch :
  words_wf bf -> 0 <= o < 32 -> 0 <= i -> (0 < r -> 32 * i + o + r <= 32768) ->
  r <= Z.of_nat fuel ->
  exists bf' ch', Fixed.set_range_loop fuel value r o i bf ch = Ok (bf', ch') /\ words_wf bf' /\
    (forall k, 0 <= k ->
       wbit bf' k = if decide (32 * i + o <= k < 32 * i + o + r) then value else wbit bf k) /\
    (ch' = true <-> ch = true \/ exists k, 32 * i + o <= k < 32 * i + o + r /\ wbit bf k <> value).
Proof.
  revert r o i bf ch. induction fuel as [|fuel IH]; intros r o i bf ch Hwf Ho Hi Hb Hf.
  all: destruct (decide (r <= 0)) as [Hr|Hr].
  1, 3: exists bf, ch; cbn [Fixed.set_range_loop]; rewrite (proj2 (Z.ltb_ge 0 r)) by lia;
    (split_and!; [done..| |]); [intros k Hk; by rewrite decide_False by lia|].
  1, 2: split; [tauto|]; intros [|(k & ? & _)]; [done|lia].
  - lia.
  - specialize (Hb ltac:(lia)). assert (0 <= i < 1024) as Hi' by lia.
    destruct (words_lookup bf i Hwf Hi') as (w & Hl & Hw).
    rewrite (set_range_loop_step _ _ _ _ _ _ _ w) by (done || lia).
    set (n := Z.min r (32 - o)). set (w' := put_bits value w (u32_shl (Z.ones n) o)).
    assert (0 < n /\ o + n <= 32) as Hn by lia.
    destruct (IH (r - (32 - o)) 0 (i + 1) (<[Z.to_nat i := w']> bf) (ch || negb (w' =? w)))
      as (bf' & ch' & Hrun & Hwf' & Hbits & Hch); [|lia..|].
    { apply words_wf_insert; [done|]. by apply put_bits_u32. }
    exists bf', ch'. split_and!; [done..| |].
    + intros k Hk. rewrite Hbits by done. unfold w'. rewrite put_bits_insert by (done || lia).
      repeat case_decide; done || lia.
    + rewrite Hch, orb_true_iff, negb_true_iff, Z.eqb_neq. unfold w' at 1.
      rewrite (put_bits_changed value i o n bf w) by (done || lia). split.
      * intros [[?|(k & ? & ?)]|(k & Hk & Hv)]; [by left|right; exists k; split; [lia|done]|].
        right. exists k. split; [lia|]. unfold w' in Hv.
        rewrite put_bits_insert, decide_False in Hv by (done || lia). done.
      * intros [?|(k & Hk & Hv)]; [by left; left|].
        destruct (decide (k < 32 * i + o + n)).
        { left. right. exists k. split; [lia|done]. }
        right. exists k. split; [lia|]. unfold w'.
        rewrite put_bits_insert, decide_False by (done || lia). done.
Qed.

Lemma set_range_loop_oob fuel value r o i bf ch :
  words_wf bf -> 0 <= o < 32 -> 0 <= i -> 0 < r -> 32768 < 32 * i + o + r ->
  r <= Z.of_nat fuel ->
  Fixed.set_range_loop fuel value r o i bf ch = Panic.
Proof.
  revert r o i bf ch. induction fuel as [|fuel IH]; intros r o i bf ch Hwf Ho Hi Hr Hb Hf; [lia|].
  destruct (decide (i < 1024)) as [Hlt|Hge].
  - destruct (words_lookup bf i Hwf) as (w & Hl & Hw); [lia|].
    rewrite (set_range_loop_step _ _ _ _ _ _ _ w) by (done || lia).
    apply IH; [|lia..]. apply words_wf_insert; [done|]. by apply put_bits_u32.
  - cbn [Fixed.set_range_loop]. rewrite (proj2 (Z.ltb_lt 0 r)) by lia.
    change FIXED_BITFIELD_BITS_PER_ELEM with 32.
    rewrite try_into_Ok by lia. rewrite bind_Ok, mask_seed_Ok, bind_Ok by lia.
    rewrite index_Panic; [done|]. destruct Hwf as [-> _]. fixed_consts. lia.
Qed.

Lemma fixed_set_range_Ok fb start len value :
  fixed_wf fb -> 0 <= start -> 0 <= len -> start + len <= 32768 ->
  exists fb' changed, Fixed.set_range fb start len value = Ok (fb', changed) /\
    fixed_wf fb' /\ fb_dirty fb' = fb_dirty fb /\
    (forall k, 0 <= k ->
       fbit fb' k = if decide (start <= k < start + len) then value else fbit fb k) /\
    (changed = true <-> exists k, start <= k < start + len /\ fbit fb k <> value).
Proof.
  intros Hwf Hs Hl Hb. unfold Fixed.set_range. rewrite land_31.
  pose proof (Z.mod_pos_bound start 32). pose proof (Z.mod_le start 32).
  pose proof (Z.div_mod start 32). checked. rewrite sub_mod_div.
  replace (start + len - start) with len by lia.
  assert (0 <= start / 32) by (apply Z.div_pos; lia).
  destruct (set_range_loop_spec (Z.to_nat len) value len (start mod 32) (start / 32)
              (fb_bitfield fb) false) as (bf' & ch' & -> & Hwf' & Hbits & Hch); [done|lia..|].
  replace (32 * (start / 32) + start mod 32) with start in * by lia.
  eexists _, ch'. split_and!; [reflexivity|done..|]. rewrite Hch. split; [|tauto].
  intros [|]; done.
Qed.

Lemma fixed_set_range_Panic fb start len value :
  fixed_wf fb -> 0 <= start -> 0 < len -> 32768 < start + len ->
  Fixed.set_range fb start len value = Panic.
Proof.
  intros Hwf Hs Hl Hb. unfold Fixed.set_range. rewrite land_31.
  destruct (decide (start + len < 2 ^ 32)); [|by rewrite checked_add_Panic by lia].
  pose proof (Z.mod_pos_bound start 32). pose proof (Z.mod_le start 32).
  pose proof (Z.div_mod start 32). checked. rewrite sub_mod_div.
  replace (start + len - start) with len by lia.
  assert (0 <= start / 32) by (apply Z.div_pos; lia).
  rewrite set_range_loop_oob; [done|apply Hwf|lia..].
Qed.

(** *** Searching *)

Lemma find_m_find {E} (f : Z -> outcome E bool) p l :
  (forall x, x ∈ l -> f x = Ok (p x)) -> find_m f l = Ok (List.find p l).
Proof.
  induction l as [|x l IH]; intros H; [done|]. cbn [find_m List.find].
  rewrite H by set_solver. rewrite bind_Ok. destruct (p x); [done|].
  apply IH. intros y Hy. apply H. set_solver.
Qed.

Lemma fixed_index_of_spec fb value pos :
  fixed_wf fb -> 0 <= pos ->
  exists r, Fixed.index_of fb value pos = Ok r /\
    is_first (fun k => Bool.eqb (fbit fb k) value) pos 32768 r.
Proof.
  intros Hwf Hp. unfold Fixed.index_of. change FIXED_BITFIELD_BITS_LENGTH with 32768. rewrite range_seqZ.
  rewrite (find_m_find _ (fun k => Bool.eqb (fbit fb k) value)).
  - eexists. split; [done|]. destruct (decide (pos <= 32768)).
    + replace 32768 with (pos + (32768 - pos)) at 1 by lia. apply find_seqZ_first. lia.
    + unfold seqZ. replace (Z.to_nat (32768 - pos)) with 0%nat by lia. intros j Hj. lia.
  - intros k Hk. apply elem_of_seqZ in Hk. by rewrite fixed_get_Ok by (done || lia).
Qed.

Lemma fixed_last_index_of_spec fb value pos :
  fixed_wf fb -> 0 <= pos < 32768 ->
  exists r, Fixed.last_index_of fb value pos = Ok r /\
    is_last (fun k => Bool.eqb (fbit fb k) value) 0 (pos + 1) r.
Proof.
  intros Hwf Hp. unfold Fixed.last_index_of. checked. rewrite range_seqZ, Z.sub_0_r.
  rewrite (find_m_find _ (fun k => Bool.eqb (fbit fb k) value)).
  - eexists. split; [done|]. apply (find_rev_seqZ_last _ 0). lia.
  - intros k Hk. rewrite elem_of_reverse in Hk. apply elem_of_seqZ in Hk.
    by rewrite fixed_get_Ok by (done || lia).
Qed.

(** *** Bytes *)

Definition words_bytes (l : list Z) : list Z := concat (le_bytes 4 <$> l).

Lemma zlen_words_bytes l : zlen (words_bytes l) = 4 * zlen l.
Proof.
  unfold words_bytes. induction l as [|w l IH]; [done|].
  rewrite fmap_cons. cbn [concat]. rewrite zlen_app, zlen_cons, IH, zlen_le_bytes. lia.
Qed.

Lemma to_bytes_loop_spec elems data :
  zlen data = 4 * zlen elems -> Fixed.to_bytes_loop elems data = Ok (words_bytes elems).
Proof.
  revert data. induction elems as [|e elems IH]; intros data Hlen; [by destruct data|].
  rewrite zlen_cons in Hlen. pose proof (zlen_nonneg elems).
  destruct data as [|? [|? [|? [|? data]]]]; rewrite ?zlen_cons in Hlen; change (zlen []) with 0 in *; [lia..|].
  cbn [Fixed.to_bytes_loop]. unfold words_bytes. rewrite fmap_cons. cbn [concat].
  change (le_bytes 4 e) with [e mod 256; e / 256 mod 256; e / 256 / 256 mod 256; e / 256 / 256 / 256 mod 256].
  set (b0 := e mod 256). set (b1 := e / 256 mod 256).
  set (b2 := e / 256 / 256 mod 256). set (b3 := e / 256 / 256 / 256 mod 256).
  change (index [b0; b1; b2; b3] 0) with (Ok (E:=HypercoreError) b0).
  change (index [b0; b1; b2; b3] 1) with (Ok (E:=HypercoreError) b1).
  change (index [b0; b1; b2; b3] 2) with (Ok (E:=HypercoreError) b2).
  change (index [b0; b1; b2; b3] 3) with (Ok (E:=HypercoreError) b3).
  rewrite !bind_Ok, IH by lia. done.
Qed.

Lemma fixed_to_bytes_Ok fb :
  fixed_wf fb -> Fixed.to_bytes fb = Ok (words_bytes (fb_bitfield fb)).
Proof.
  intros [Hlen _]. unfold Fixed.to_bytes. fixed_consts. apply to_bytes_loop_spec.
  rewrite zlen_replicate. lia.
Qed.

(** Word [j] of a byte buffer, little endian. *)
Definition word_at (data : list Z) (j : Z) : Z := le_value (slice data (4 * j) 4).

Lemma lor_shiftl_add a b k : 0 <= k -> 0 <= a < 2 ^ k -> Z.lor a (Z.shiftl b k) = a + b * 2 ^ k.
Proof.
  intros Hk Ha. rewrite <-Z.shiftl_mul_pow2 by lia.
  assert (Z.land a (Z.shiftl b k) = 0) as Hl.
  { apply Z.bits_inj'. intros n Hn. rewrite Z.land_spec, Z.bits_0.
    destruct (decide (n < k)); [by rewrite Z.shiftl_spec_low, andb_false_r by lia|].
    rewrite <-(Z.mod_small a (2 ^ k)) by lia. by rewrite Z.mod_pow2_bits_high by lia. }
  rewrite Z.add_nocarry_lxor by done. by rewrite <-Z.lxor_lor.
Qed.

Lemma lor_word b0 b1 b2 b3 :
  is_u8 b0 -> is_u8 b1 -> is_u8 b2 -> is_u8 b3 ->
  Z.lor (Z.lor (Z.lor b0 (u32_shl b1 8)) (u32_shl b2 16)) (u32_shl b3 24) =
    le_value [b0; b1; b2; b3].
Proof.
  unfold is_u8. intros. unfold u32_shl. rewrite !u32_mask_land.
  rewrite !(Z.mod_small (Z.shiftl _ _)) by (rewrite Z.shiftl_mul_pow2 by lia; lia).
  rewrite (lor_shiftl_add b0 b1 8), (lor_shiftl_add _ b2 16), (lor_shiftl_add _ b3 24) by lia.
  cbn [le_value]. lia.
Qed.

Lemma slice_4 (data : list Z) i :
  0 <= i -> i + 4 <= zlen data ->
  exists b0 b1 b2 b3, slice data i 4 = [b0; b1; b2; b3] /\
    index (E:=HypercoreError) data i = Ok b0 /\ index (E:=HypercoreError) data (i + 1) = Ok b1 /\
    index (E:=HypercoreError) data (i + 2) = Ok b2 /\ index (E:=HypercoreError) data (i + 3) = Ok b3.
Proof.
  intros Hi Hlen. pose proof (zlen_slice data i 4 Hi ltac:(lia) ltac:(lia)) as Hs.
  assert (forall k, (k < 4)%nat -> slice data i 4 !! k = data !! (Z.to_nat (i + Z.of_nat k))) as Hk.
  { intros k ?. unfold slice, ztake, zdrop. rewrite lookup_take_lt by lia. rewrite lookup_drop.
    f_equal. lia. }
  destruct (slice data i 4) as [|b0 [|b1 [|b2 [|b3 [|]]]]];
    rewrite ?zlen_cons, ?zlen_nil in Hs; try (pose proof (zlen_nonneg l)); try lia.
  exists b0, b1, b2, b3. split_and!; [done|..]; (apply index_Ok; [lia|]).
  - rewrite <-(Z.add_0_r i). apply eq_sym, (Hk 0%nat). lia.
  - apply eq_sym, (Hk 1%nat). lia.
  - apply eq_sym, (Hk 2%nat). lia.
  - apply eq_sym, (Hk 3%nat). lia.
Qed.

Lemma word_at_u32 data j :
  Forall is_u8 data -> 0 <= j -> 4 * j + 4 <= zlen data -> is_u32 (word_at data j).
Proof.
  intros Hu Hj Hl. unfold word_at, is_u32. change (2 ^ 32) with (256 ^ 4).
  pose proof (le_value_range (slice data (4 * j) 4)) as Hr. rewrite zlen_slice in Hr by lia.
  apply Hr. unfold slice, ztake, zdrop. by apply Forall_take, Forall_drop.
Qed.

Lemma from_data_loop_step fuel data m a bf :
  Forall is_u8 data -> 0 <= a < m -> 4 * m <= zlen data ->
  Fixed.from_data_loop (S fuel) data (4 * m - 4) (4 * a) bf =
  bf' ← index_set bf a (word_at data a);
  Fixed.from_data_loop fuel data (4 * m - 4) (4 * (a + 1)) bf'.
Proof.
  intros Hu Ha Hm. cbn [Fixed.from_data_loop]. rewrite (proj2 (Z.leb_le _ _)) by lia.
  destruct (slice_4 data (4 * a)) as (b0 & b1 & b2 & b3 & Hs & -> & -> & -> & ->); [lia..|].
  rewrite !bind_Ok. assert (Forall is_u8 [b0; b1; b2; b3]) as Hb.
  { rewrite <-Hs. unfold slice, ztake, zdrop. by apply Forall_take, Forall_drop. }
  rewrite !Forall_cons in Hb. destruct Hb as (? & ? & ? & ? & _).
  rewrite lor_word by done. unfold word_at. rewrite Hs.
  replace (4 * a / 4) with a by (rewrite Z.mul_comm, Z.div_mul; lia).
  by replace (4 * a + 4) with (4 * (a + 1)) by lia.
Qed.

Lemma from_data_loop_spec fuel data m a bf :
  Forall is_u8 data -> 0 <= a -> m <= 1024 -> 4 * m <= zlen data -> words_wf bf ->
  m - a <= Z.of_nat fuel ->
  exists bf', Fixed.from_data_loop fuel data (4 * m - 4) (4 * a) bf = Ok bf' /\ words_wf bf' /\
    forall j, bf' !! j = if decide (a <= Z.of_nat j < m) then Some (word_at data (Z.of_nat j)) else bf !! j.
Proof.
  intros Hu. revert a bf. induction fuel as [|fuel IH]; intros a bf Ha Hm Hl Hwf Hf.
  all: destruct (decide (m <= a)) as [Hma|Hma].
  1, 3: exists bf; cbn [Fixed.from_data_loop]; rewrite (proj2 (Z.leb_gt _ _)) by lia;
    split_and!; [done..|]; intros j; by rewrite decide_False by lia.
  1: lia.
  rewrite from_data_loop_step by (done || lia).
  assert (zlen bf = 1024) as Hbf by apply Hwf.
  rewrite index_set_Ok, bind_Ok by lia.
  destruct (IH (a + 1) (<[Z.to_nat a := word_at data a]> bf)) as (bf' & -> & Hwf' & Hlk);
    [lia..| |lia|].
  { apply words_wf_insert; [done|]. apply word_at_u32; [done|lia..]. }
  exists bf'. split_and!; [done..|]. intros j. rewrite Hlk.
  destruct (decide (a + 1 <= Z.of_nat j < m)); [by rewrite decide_True by lia|].
  destruct (decide (Z.of_nat j = a)).
  - rewrite decide_True by lia. replace j with (Z.to_nat a) by lia.
    rewrite list_lookup_insert_eq by (unfold zlen in *; lia). by rewrite Z2Nat.id by lia.
  - rewrite decide_False by lia. rewrite list_lookup_insert_ne; [done|]. lia.
Qed.

Lemma from_data_loop_oob fuel data m a bf :
  Forall is_u8 data -> 0 <= a < m -> 1024 < m -> 4 * m <= zlen data -> zlen bf = 1024 ->
  m - a <= Z.of_nat fuel ->
  Fixed.from_data_loop fuel data (4 * m - 4) (4 * a) bf = Panic.
Proof.
  intros Hu. revert a bf. induction fuel as [|fuel IH]; intros a bf Ha Hm Hl Hbf Hf; [lia|].
  rewrite from_data_loop_step by (done || lia).
  destruct (decide (a < 1024)).
  - rewrite index_set_Ok, bind_Ok by lia. apply IH; try lia. unfold zlen in *.
    by rewrite length_insert.
  - by rewrite index_set_Panic by lia.
Qed.

(** [from_data] over whole words: word [j] of the buffer, counted from the
    start of the buffer, becomes word [j] of the page. *)
Lemma from_data_Ok data a b :
  Forall is_u8 data -> 0 <= a < b -> zlen data = 4 * b -> Z.min (a + 1024) b <= 1024 ->
  exists fb, Fixed.from_data (4 * a) data = Ok fb /\ fixed_wf fb /\ fb_dirty fb = false /\
    forall j, 0 <= j < 1024 ->
      fb_bitfield fb !! Z.to_nat j =
        Some (if decide (a <= j < Z.min (a + 1024) b) then word_at data j else 0).
Proof.
  intros Hu Ha Hl Hm. unfold Fixed.from_data. rewrite (proj2 (Z.leb_le _ _)) by lia.
  change FIXED_BITFIELD_BYTES_LENGTH with 4096.
  replace (Z.min (4 * a + 4096) (zlen data) - 4) with (4 * Z.min (a + 1024) b - 4) by lia.
  destruct (from_data_loop_spec (length data) data (Z.min (a + 1024) b) a
              (replicate (Z.to_nat FIXED_BITFIELD_LENGTH) 0)) as (bf & -> & Hwf & Hlk);
    [done|lia..|apply words_wf_zero|unfold zlen in *; lia|].
  eexists. split_and!; [done|apply Hwf|done|]. intros j Hj. cbn [fb_bitfield]. rewrite Hlk.
  rewrite Z2Nat.id by lia. case_decide; [done|].
  apply lookup_replicate_2. change FIXED_BITFIELD_LENGTH with 1024. lia.
Qed.

Lemma from_data_Panic data a b :
  Forall is_u8 data -> 0 <= a < b -> zlen data = 4 * b -> 1024 < Z.min (a + 1024) b ->
  Fixed.from_data (4 * a) data = Panic.
Proof.
  intros Hu Ha Hl Hm. unfold Fixed.from_data. rewrite (proj2 (Z.leb_le _ _)) by lia.
  change FIXED_BITFIELD_BYTES_LENGTH with 4096.
  replace (Z.min (4 * a + 4096) (zlen data) - 4) with (4 * Z.min (a + 1024) b - 4) by lia.
  rewrite from_data_loop_oob; [done|done|lia..| |unfold zlen in *; lia].
  by rewrite zlen_replicate.
Qed.

Lemma slice_words_bytes l j w :
  l !! j = Some w -> slice (words_bytes l) (4 * Z.of_nat j) 4 = le_bytes 4 w.
Proof.
  intros Hl. apply list_elem_of_split_length in Hl as (l1 & l2 & -> & Hj).
  unfold words_bytes. rewrite fmap_app, fmap_cons, concat_app. cbn [concat].
  change (concat (le_bytes 4 <$> l1)) with (words_bytes l1).
  replace (4 * Z.of_nat j) with (zlen (words_bytes l1)) by (rewrite zlen_words_bytes; unfold zlen; lia).
  change 4 with (zlen (le_bytes 4 w)) at 1. apply slice_app_mid.
Qed.

Lemma words_bytes_u8 l : Forall is_u8 (words_bytes l).
Proof.
  unfold words_bytes. apply Forall_concat, Forall_fmap, Forall_true. intros w. apply le_bytes_u8.
Qed.

Lemma word_at_words_bytes l j w :
  Forall is_u32 l -> l !! j = Some w -> word_at (words_bytes l) (Z.of_nat j) = w.
Proof.
  intros Hu Hl. unfold word_at. rewrite (slice_words_bytes _ _ w) by done.
  apply le_value_bytes. apply (Forall_lookup_1 _ _ _ _ Hu) in Hl. exact Hl.
Qed.

(** Reading back the bytes of a page gives the page. *)
Lemma fixed_bytes_roundtrip fb :
  fixed_wf fb ->
  exists bytes, Fixed.to_bytes fb = Ok bytes /\ zlen bytes = 4096 /\ Forall is_u8 bytes /\
    Fixed.from_data 0 bytes = Ok (mkFixed false (fb_bitfield fb)).
Proof.
  intros Hwf. assert (zlen (fb_bitfield fb) = 1024) as Hlen by apply Hwf.
  exists (words_bytes (fb_bitfield fb)). rewrite fixed_to_bytes_Ok by done.
  split_and!; [done|rewrite zlen_words_bytes; lia|apply words_bytes_u8|].
  change (Fixed.from_data 0) with (Fixed.from_data (4 * 0)).
  destruct (from_data_Ok (words_bytes (fb_bitfield fb)) 0 1024) as ([d bf] & -> & Hwf' & Hd & Hlk);
    [apply words_bytes_u8|lia|rewrite zlen_words_bytes; lia|lia|].
  cbn in *. subst d. do 2 f_equal. apply list_eq_same_length with (n := 1024%nat).
  - unfold zlen in *. lia.
  - destruct Hwf' as [Hz _]. cbn in Hz. fixed_consts. unfold zlen in *. lia.
  - intros j x y Hj Hx Hy. specialize (Hlk (Z.of_nat j) ltac:(lia)).
    rewrite Nat2Z.id, Hx, decide_True in Hlk by lia. inversion Hlk; subst.
    by apply word_at_words_bytes; [apply Hwf|].
Qed.
