(* ===== verification/BitfieldDynamic.v ===== *)
(** * Dynamic bitfield ([src/bitfield/dynamic.rs])

    A map from page numbers to fixed pages of 32768 bits, with the list of
    pages that wait to be flushed.  The abstract view is the function [dbit]
    from [u64] positions to booleans.  [IntMap] is a finite map; the [RefCell]
    around a page only moves the borrow check to run time, and no borrow
    overlaps another one, so a page is updated in place in the map. *)

From stdpp Require Import base tactics numbers list list_numbers gmap fin_maps sorting sets.
From Stdlib Require Import ZArith Lia Bool.
From S2P Require Import Prelude Common BitfieldFixed.
Open Scope Z_scope.

Definition DYNAMIC_BITFIELD_PAGE_SIZE : Z := 32768.

Record DynamicBitfield := mkDynamic {
  pages : gmap Z FixedBitfield;
  biggest_page_index : Z;
  unflushed : list Z;
}.

Definition set_dirty (p : FixedBitfield) (b : bool) : FixedBitfield := mkFixed b (fb_bitfield p).

Module Dynamic.

Fixpoint open_loop (fuel : nat) (data : list Z) (data_index : Z)
    (pages : gmap Z FixedBitfield) (biggest_page_index : Z)
  : result (gmap Z FixedBitfield * Z) :=
  if data_index <? zlen data then
    match fuel with
    | O => Diverge
    | S fuel =>
        let parent_index := data_index / FIXED_BITFIELD_LENGTH in
        page ← Fixed.from_data data_index data;
        let pages := <[parent_index := page]> pages in
        let biggest_page_index :=
          if biggest_page_index <? parent_index then parent_index else biggest_page_index in
        open_loop fuel data (data_index + FIXED_BITFIELD_LENGTH) pages biggest_page_index
    end
  else Ok (pages, biggest_page_index).

Definition open (info : option StoreInfo)
  : result (Either StoreInfoInstruction DynamicBitfield) :=
  match info with
  | None => Ok (Left (Instruction.new_size Bitfield 0))
  | Some info =>
      if decide (si_info_type info = Size) then
        bitfield_store_length ← unwrap (si_length info);
        length ← bitfield_store_length -? Z.land bitfield_store_length 3;
        Ok (Left (Instruction.new_content Bitfield 0 length))
      else
        data ← unwrap (si_data info);
        let resumed := 4 <=? zlen data in
        if resumed then
          '(pages, biggest_page_index) ← open_loop (length data) data 0 ∅ 0;
          Ok (Right (mkDynamic pages biggest_page_index []))
        else Ok (Right (mkDynamic ∅ 0 []))
  end.

(** The loop of [flush] over the unflushed pages. *)
Fixpoint flush_loop (ids : list Z) (pages : gmap Z FixedBitfield)
  : result (gmap Z FixedBitfield * list StoreInfo) :=
  match ids with
  | [] => Ok (pages, [])
  | unflushed_id :: ids =>
      p ← unwrap (pages !! unflushed_id);
      data ← Fixed.to_bytes p;
      idx ← unflushed_id *64 zlen data;
      '(pages, infos) ← flush_loop ids (<[unflushed_id := set_dirty p false]> pages);
      Ok (pages, StoreInfo.new_content Bitfield idx data :: infos)
  end.

Definition flush (self : DynamicBitfield) : result (DynamicBitfield * list StoreInfo) :=
  '(pages, infos_to_flush) ← flush_loop (unflushed self) (pages self);
  Ok (mkDynamic pages (biggest_page_index self) [], infos_to_flush).

Definition get (self : DynamicBitfield) (idx : Z) : result bool :=
  let j := Z.land idx (DYNAMIC_BITFIELD_PAGE_SIZE - 1) in
  d ← idx -? j;
  let i := d / DYNAMIC_BITFIELD_PAGE_SIZE in
  match pages self !! i with
  | None => Ok false
  | Some p => j ← try_into 32 j; Fixed.get p j
  end.

(** [if !self.pages.contains_key(i) { insert a new page, track the biggest }] *)
Definition ensure_page (self : DynamicBitfield) (i : Z) : DynamicBitfield :=
  match pages self !! i with
  | Some _ => self
  | None =>
      mkDynamic (<[i := Fixed.new]> (pages self))
        (if biggest_page_index self <? i then i else biggest_page_index self)
        (unflushed self)
  end.

(** [if changed && !p.dirty { p.dirty = true; self.unflushed.push(i) }], with
    the page [p] written back to its place. *)
Definition store_page (self : DynamicBitfield) (i : Z) (p : FixedBitfield) (changed : bool)
  : DynamicBitfield :=
  if changed && negb (fb_dirty p) then
    mkDynamic (<[i := set_dirty p true]> (pages self)) (biggest_page_index self)
      (unflushed self ++ [i])
  else mkDynamic (<[i := p]> (pages self)) (biggest_page_index self) (unflushed self).

Definition set (self : DynamicBitfield) (idx : Z) (value : bool)
  : result (DynamicBitfield * bool) :=
  let j := Z.land idx (DYNAMIC_BITFIELD_PAGE_SIZE - 1) in
  d ← idx -? j;
  let i := d / DYNAMIC_BITFIELD_PAGE_SIZE in
  if bool_decide (pages self !! i = None) && negb value then Ok (self, false)
  else
    let self := ensure_page self i in
    p ← unwrap (pages self !! i);
    j ← try_into 32 j;
    '(p, changed) ← Fixed.set p j value;
    Ok (store_page self i p changed, changed).

Fixpoint set_range_loop (fuel : nat) (value : bool) (i j length : Z) (self : DynamicBitfield)
  : result DynamicBitfield :=
  if 0 <? length then
    match fuel with
    | O => Diverge
    | S fuel =>
        let self := ensure_page self i in
        p ← unwrap (pages self !! i);
        jl ← j +64 length;
        let end_ := Z.min jl DYNAMIC_BITFIELD_PAGE_SIZE in
        range_start ← try_into 32 j;
        e ← end_ -? j;
        range_end ← try_into 32 e;
        '(p, changed) ← Fixed.set_range p range_start range_end value;
        let self := store_page self i p changed in
        i ← i +64 1;
        length ← length -? range_end;
        set_range_loop fuel value i 0 length self
    end
  else Ok self.

Definition set_range (self : DynamicBitfield) (start length : Z) (value : bool)
  : result DynamicBitfield :=
  let j := Z.land start (DYNAMIC_BITFIELD_PAGE_SIZE - 1) in
  d ← start -? j;
  let i := d / DYNAMIC_BITFIELD_PAGE_SIZE in
  set_range_loop (Z.to_nat length) value i j length self.

Definition update (self : DynamicBitfield) (bitfield_update : BitfieldUpdate)
  : result DynamicBitfield :=
  set_range self (bu_start bitfield_update) (bu_length bitfield_update)
    (negb (bu_drop bitfield_update)).

(** The position of a hit inside page [i]. *)
Definition hit (i idx : Z) : result (option Z) :=
  base ← i *64 DYNAMIC_BITFIELD_PAGE_SIZE; r ← base +64 idx; Ok (Some r).

Fixpoint index_of_keys (self : DynamicBitfield) (keys : list Z) : result (option Z) :=
  match keys with
  | [] => Ok None
  | key :: keys =>
      match pages self !! key with
      | Some p =>
          r ← Fixed.index_of p true 0;
          match r with
          | Some idx => hit key idx
          | None => index_of_keys self keys
          end
      | None => index_of_keys self keys
      end
  end.

Fixpoint index_of_false (fuel : nat) (self : DynamicBitfield) (first_page i j : Z)
  : result (option Z) :=
  if (i =? first_page) || (i <=? biggest_page_index self) then
    match fuel with
    | O => Diverge
    | S fuel =>
        match pages self !! i with
        | Some p =>
            r ← Fixed.index_of p false j;
            match r with
            | Some idx => hit i idx
            | None => i ← i +64 1; index_of_false fuel self first_page i 0
            end
        | None => hit i j
        end
    end
  else Ok None.

Definition index_of (self : DynamicBitfield) (value : bool) (position : Z) : result (option Z) :=
  let first_index := Z.land position (DYNAMIC_BITFIELD_PAGE_SIZE - 1) in
  d ← position -? first_index;
  let first_page := d / DYNAMIC_BITFIELD_PAGE_SIZE in
  if value then
    r ← match pages self !! first_page with
        | Some p => Fixed.index_of p value first_index
        | None => Ok None
        end;
    match r with
    | Some idx => hit first_page idx
    | None =>
        let keys := filter (fun key => first_page < key) (map_to_list (pages self)).*1 in
        index_of_keys self (merge_sort Z.le keys)
    end
  else
    index_of_false (Z.to_nat (biggest_page_index self + 2)) self first_page first_page first_index.

Fixpoint last_index_of_keys (self : DynamicBitfield) (keys : list Z) : result (option Z) :=
  match keys with
  | [] => Ok None
  | key :: keys =>
      match pages self !! key with
      | Some p =>
          r ← Fixed.last_index_of p true (FIXED_BITFIELD_BITS_LENGTH - 1);
          match r with
          | Some idx => hit key idx
          | None => last_index_of_keys self keys
          end
      | None => last_index_of_keys self keys
      end
  end.

Fixpoint last_index_of_false (fuel : nat) (self : DynamicBitfield) (last_page i j : Z)
  : result (option Z) :=
  if (i =? last_page) || (i =? 0) then
    match fuel with
    | O => Diverge
    | S fuel =>
        match pages self !! i with
        | Some p =>
            r ← Fixed.last_index_of p false j;
            match r with
            | Some idx => hit i idx
            | None =>
                i ← i -? 1;
                last_index_of_false fuel self last_page i (FIXED_BITFIELD_BITS_LENGTH - 1)
            end
        | None => hit i j
        end
    end
  else Ok None.

Definition last_index_of (self : DynamicBitfield) (value : bool) (position : Z)
  : result (option Z) :=
  let last_index := Z.land position (DYNAMIC_BITFIELD_PAGE_SIZE - 1) in
  d ← position -? last_index;
  let last_page := d / DYNAMIC_BITFIELD_PAGE_SIZE in
  if value then
    r ← match pages self !! last_page with
        | Some p => Fixed.last_index_of p value last_index
        | None => Ok None
        end;
    match r with
    | Some idx => hit last_page idx
    | None =>
        let keys := filter (fun key => key < last_page) (map_to_list (pages self)).*1 in
        last_index_of_keys self (reverse (merge_sort Z.le keys))
    end
  else last_index_of_false 3 self last_page last_page last_index.

End Dynamic.

(** Division and remainder by constants, for [lia]. *)
#[local] Ltac Zify.zify_post_hook ::= Z.div_mod_to_equations.

(** ** Abstract view and invariant *)

Definition dbit (db : DynamicBitfield) (k : Z) : bool :=
  match pages db !! (k / 32768) with
  | Some p => fbit p (k mod 32768)
  | None => false
  end.

(** Pages are well formed and not beyond the biggest page; the unflushed list
    names the dirty pages, each once. *)
Record dyn_wf (db : DynamicBitfield) : Prop := {
  dw_page i p : pages db !! i = Some p -> fixed_wf p /\ 0 <= i <= biggest_page_index db;
  dw_big : 0 <= biggest_page_index db < 2 ^ 49;
  dw_nodup : NoDup (unflushed db);
  dw_dirty i : i ∈ unflushed db <-> exists p, pages db !! i = Some p /\ fb_dirty p = true;
}.

Lemma land_page x : Z.land x (DYNAMIC_BITFIELD_PAGE_SIZE - 1) = x mod 32768.
Proof. change (DYNAMIC_BITFIELD_PAGE_SIZE - 1) with (Z.ones 15). by rewrite Z.land_ones by lia. Qed.

Lemma sub_mod_page x : (x - x mod 32768) / DYNAMIC_BITFIELD_PAGE_SIZE = x / 32768.
Proof.
  change DYNAMIC_BITFIELD_PAGE_SIZE with 32768.
  replace (x - x mod 32768) with (x / 32768 * 32768); [apply Z.div_mul; lia|].
  pose proof (Z.div_mod x 32768). lia.
Qed.

Lemma page_coords x : 0 <= x < 2 ^ 64 ->
  0 <= x / 32768 < 2 ^ 49 /\ 0 <= x mod 32768 < 32768 /\ x mod 32768 <= x /\
  x = 32768 * (x / 32768) + x mod 32768.
Proof.
  intros. pose proof (Z.mod_pos_bound x 32768). pose proof (Z.mod_le x 32768).
  pose proof (Z.div_mod x 32768). lia.
Qed.

Lemma page_div i j : 0 <= j < 32768 -> (32768 * i + j) / 32768 = i.
Proof. intros. rewrite Z.mul_comm, Z.div_add_l, Z.div_small by lia. lia. Qed.
Lemma page_mod i j : 0 <= j < 32768 -> (32768 * i + j) mod 32768 = j.
Proof.
  intros. rewrite Z.mul_comm, Z.add_comm, Z_mod_plus_full. by apply Z.mod_small.
Qed.

(** Splits [idx] into page and offset and discharges the subtraction. *)
Ltac page_split x :=
  rewrite land_page; pose proof (page_coords x ltac:(lia)) as (? & ? & ? & ?);
  checked; rewrite ?sub_mod_page.


Lemma dyn_empty_wf : dyn_wf (mkDynamic ∅ 0 []).
Proof.
  constructor; cbn; [done|lia|constructor|]. intros i. split; [by intros ?%not_elem_of_nil|].
  intros (p & Hp & _). by rewrite lookup_empty in Hp.
Qed.

Lemma dyn_get_Ok db k : dyn_wf db -> 0 <= k < 2 ^ 64 -> Dynamic.get db k = Ok (dbit db k).
Proof.
  intros Hwf Hk. unfold Dynamic.get, dbit. page_split k.
  destruct (pages db !! (k / 32768)) as [p|] eqn:Hp; [|done]. checked.
  apply fixed_get_Ok; [|lia]. by eapply dw_page.
Qed.

Lemma ensure_page_spec db i :
  dyn_wf db -> 0 <= i < 2 ^ 49 ->
  dyn_wf (Dynamic.ensure_page db i) /\
  (forall k, 0 <= k -> dbit (Dynamic.ensure_page db i) k = dbit db k) /\
  exists p, pages (Dynamic.ensure_page db i) !! i = Some p /\ fixed_wf p /\
            forall k, 0 <= k < 32768 -> fbit p k = dbit db (32768 * i + k).
Proof.
  intros Hwf Hi. unfold Dynamic.ensure_page. destruct (pages db !! i) as [p|] eqn:Hp.
  { split_and!; [done..|]. exists p. split_and!; [done|by eapply dw_page|].
    intros k Hk. unfold dbit. by rewrite page_div, page_mod, Hp by lia. }
  split_and!.
  - pose proof (dw_big _ Hwf). constructor; cbn.
    + intros i' p'. rewrite lookup_insert. case_decide.
      * intros [= <-]. subst i'. split; [apply fixed_new_wf|].
        destruct (Z.ltb_spec (biggest_page_index db) i); lia.
      * intros Hp'. apply (dw_page _ Hwf) in Hp' as [? ?]. split; [done|].
        destruct (Z.ltb_spec (biggest_page_index db) i); lia.
    + destruct (Z.ltb_spec (biggest_page_index db) i); lia.
    + apply Hwf.
    + intros i'. rewrite (dw_dirty _ Hwf). rewrite lookup_insert. case_decide; [|done].
      subst i'. rewrite Hp. split; intros (? & [= <-] & [=]).
  - intros k Hk. unfold dbit. cbn. rewrite lookup_insert. case_decide as Heq; [|done].
    subst i. by rewrite Hp, fixed_new_bits.
  - exists Fixed.new. cbn. rewrite lookup_insert_eq.
    split_and!; [done|apply fixed_new_wf|]. intros k Hk. unfold dbit.
    by rewrite page_div, Hp, fixed_new_bits by lia.
Qed.

Lemma store_page_spec db i p0 p changed :
  dyn_wf db -> pages db !! i = Some p0 -> fixed_wf p -> fb_dirty p = fb_dirty p0 ->
  dyn_wf (Dynamic.store_page db i p changed) /\
  forall k, 0 <= k -> dbit (Dynamic.store_page db i p changed) k =
    if decide (k / 32768 = i) then fbit p (k mod 32768) else dbit db k.
Proof.
  intros Hwf Hp0 Hp Hd. destruct (dw_page _ Hwf _ _ Hp0) as [_ Hi]. unfold Dynamic.store_page.
  destruct (changed && negb (fb_dirty p)) eqn:Hch.
  - apply andb_true_iff in Hch as [_ Hnd]. apply negb_true_iff in Hnd. split.
    + constructor; cbn.
      * intros i' p'. rewrite lookup_insert. case_decide; [|apply Hwf].
        intros [= <-]. subst i'. done.
      * apply Hwf.
      * apply NoDup_app. split_and!; [apply Hwf| |apply NoDup_singleton].
        intros x Hx ->%list_elem_of_singleton. apply (dw_dirty _ Hwf) in Hx as (? & ? & ?).
        congruence.
      * intros i'. rewrite elem_of_app, list_elem_of_singleton, (dw_dirty _ Hwf), lookup_insert.
        case_decide as Heq.
        -- subst i'. split; [|by right]. intros _. eexists. split; done.
        -- split; [intros [?| ->]; [done|congruence]|]. by left.
    + intros k Hk. unfold dbit. cbn. rewrite lookup_insert.
      repeat case_decide; try done; congruence.
  - split.
    + constructor; cbn; [| |apply Hwf|].
      * intros i' p'. rewrite lookup_insert. case_decide; [|apply Hwf].
        intros [= <-]. subst i'. done.
      * apply Hwf.
      * intros i'. rewrite (dw_dirty _ Hwf), lookup_insert. case_decide; [|done].
        subst i'. rewrite Hp0. split; intros (? & [= <-] & ?); eexists; split; done || congruence.
    + intros k Hk. unfold dbit. cbn. rewrite lookup_insert.
      repeat case_decide; try done; congruence.
Qed.

Lemma dyn_set_Ok db k value :
  dyn_wf db -> 0 <= k < 2 ^ 64 ->
  exists db', Dynamic.set db k value = Ok (db', negb (Bool.eqb (dbit db k) value)) /\ dyn_wf db' /\
    forall j, 0 <= j -> dbit db' j = if decide (j = k) then value else dbit db j.
Proof.
  intros Hwf Hk. unfold Dynamic.set. page_split k.
  destruct (bool_decide (pages db !! (k / 32768) = None) && negb value) eqn:Hskip.
  { apply andb_true_iff in Hskip as [Hn Hv]. apply bool_decide_eq_true in Hn.
    apply negb_true_iff in Hv. subst value. exists db.
    assert (dbit db k = false) as Hb by (unfold dbit; by rewrite Hn).
    rewrite Hb. split_and!; [done..|]. intros j Hj. case_decide; congruence. }
  destruct (ensure_page_spec db (k / 32768)) as (Hwf1 & Hb1 & p & Hp & Hpwf & Hpb); [done|lia|].
  rewrite Hp. cbn [unwrap]. checked.
  destruct (fixed_set_Ok p (k mod 32768) value) as (p' & -> & Hwf' & Hd & Hb'); [done|lia|].
  rewrite bind_Ok.
  destruct (store_page_spec _ _ _ p' (negb (Bool.eqb (fbit p (k mod 32768)) value)) Hwf1 Hp Hwf' Hd)
    as [Hwf2 Hb2].
  assert (fbit p (k mod 32768) = dbit db k) as Hpk by (rewrite Hpb by lia; f_equal; lia).
  eexists. rewrite <-Hpk. split_and!; [done..|]. intros j Hj. rewrite Hb2 by done.
  pose proof (Z.mod_pos_bound j 32768). pose proof (Z.div_mod j 32768).
  destruct (decide (j / 32768 = k / 32768)).
  - rewrite Hb' by lia. rewrite Hpb by lia. repeat case_decide; try lia; [done|]. f_equal. lia.
  - rewrite Hb1 by done. rewrite decide_False; [done|]. congruence.
Qed.

Lemma dyn_set_range_loop_spec fuel value i j len db :
  dyn_wf db -> 0 <= j < 32768 -> 0 <= i -> 0 <= len -> (0 < len -> 32768 * i + j + len < 2 ^ 64) ->
  len <= Z.of_nat fuel ->
  exists db', Dynamic.set_range_loop fuel value i j len db = Ok db' /\ dyn_wf db' /\
    forall k, 0 <= k ->
      dbit db' k = if decide (32768 * i + j <= k < 32768 * i + j + len) then value else dbit db k.
Proof.
  revert i j len db. induction fuel as [|fuel IH]; intros i j len db Hwf Hj Hi Hl Hb Hf.
  all: destruct (decide (len = 0)) as [->|Hne].
  1, 3: exists db; cbn; split_and!; [done..|]; intros k Hk; by rewrite decide_False by lia.
  1: lia.
  cbn [Dynamic.set_range_loop]. rewrite (proj2 (Z.ltb_lt 0 len)) by lia.
  destruct (ensure_page_spec db i) as (Hwf1 & Hb1 & p & Hp & Hpwf & Hpb); [done|lia|].
  rewrite Hp. cbn [unwrap]. change DYNAMIC_BITFIELD_PAGE_SIZE with 32768. checked.
  destruct (fixed_set_range_Ok p j (Z.min (j + len) 32768 - j) value)
    as (p' & ch & -> & Hwf' & Hd & Hb' & _); [done|lia..|].
  rewrite bind_Ok. checked.
  destruct (store_page_spec _ _ _ p' ch Hwf1 Hp Hwf' Hd) as [Hwf2 Hb2].
  destruct (IH (i + 1) 0 (len - (Z.min (j + len) 32768 - j)) _ Hwf2)
    as (db' & -> & Hwf3 & Hb3); [lia..|].
  exists db'. split_and!; [done..|]. intros k Hk. rewrite Hb3, Hb2 by done.
  pose proof (Z.mod_pos_bound k 32768). pose proof (Z.div_mod k 32768).
  destruct (decide (k / 32768 = i)).
  - rewrite Hb', Hpb by lia. repeat case_decide; try lia; try done. f_equal. lia.
  - rewrite Hb1 by done. repeat case_decide; done || lia.
Qed.

Lemma dyn_set_range_Ok db start len value :
  dyn_wf db -> 0 <= start -> 0 <= len -> start + len < 2 ^ 64 ->
  exists db', Dynamic.set_range db start len value = Ok db' /\ dyn_wf db' /\
    forall k, 0 <= k ->
      dbit db' k = if decide (start <= k < start + len) then value else dbit db k.
Proof.
  intros Hwf Hs Hl Hb. unfold Dynamic.set_range. page_split start.
  destruct (dyn_set_range_loop_spec (Z.to_nat len) value (start / 32768) (start mod 32768) len db)
    as (db' & -> & Hwf' & Hbits); [done|lia..|].
  exists db'. split_and!; [done..|]. intros k Hk. rewrite Hbits by done.
  by replace (32768 * (start / 32768) + start mod 32768) with start by lia.
Qed.

Lemma dyn_update_Ok db u :
  dyn_wf db -> 0 <= bu_start u -> 0 <= bu_length u -> bu_start u + bu_length u < 2 ^ 64 ->
  exists db', Dynamic.update db u = Ok db' /\ dyn_wf db' /\
    forall k, 0 <= k ->
      dbit db' k = if decide (bu_start u <= k < bu_start u + bu_length u)
                   then negb (bu_drop u) else dbit db k.
Proof. intros. by apply dyn_set_range_Ok. Qed.

(** *** Flushing *)

(** The info [flush] emits for page [i]. *)
Definition page_info (pgs : gmap Z FixedBitfield) (i : Z) : StoreInfo :=
  StoreInfo.new_content Bitfield (i * 4096) (words_bytes (default [] (fb_bitfield <$> pgs !! i))).

Lemma flush_loop_spec ids pgs :
  NoDup ids ->
  (forall i, i ∈ ids -> 0 <= i < 2 ^ 49 /\ exists p, pgs !! i = Some p /\ fixed_wf p) ->
  exists pgs', Dynamic.flush_loop ids pgs = Ok (pgs', page_info pgs <$> ids) /\
    forall i, pgs' !! i = (fun p => if decide (i ∈ ids) then set_dirty p false else p) <$> pgs !! i.
Proof.
  revert pgs. induction ids as [|id ids IH]; intros pgs Hnd Hids.
  { exists pgs. split; [done|]. intros i. destruct (pgs !! i); [|done]. done. }
  apply NoDup_cons in Hnd as [Hid Hnd].
  destruct (Hids id) as (Hr & p & Hp & Hwf); [by left|].
  cbn [Dynamic.flush_loop]. rewrite Hp. cbn [unwrap].
  rewrite bind_Ok, fixed_to_bytes_Ok, bind_Ok by done.
  assert (zlen (words_bytes (fb_bitfield p)) = 4096) as Hz.
  { rewrite zlen_words_bytes. destruct Hwf as [-> _]. done. }
  rewrite Hz. checked.
  destruct (IH (<[id := set_dirty p false]> pgs)) as (pgs' & -> & Hlk); [done| |].
  { intros i Hi. destruct (Hids i) as (? & q & Hq & ?); [by right|]. split; [done|].
    exists q. rewrite lookup_insert_ne by (intros ->; done). done. }
  rewrite bind_Ok. exists pgs'. split.
  - rewrite fmap_cons. do 2 f_equal. f_equal.
    + unfold page_info. rewrite Hp. done.
    + apply list_fmap_ext. intros k i Hi. apply list_elem_of_lookup_2 in Hi.
      unfold page_info. by rewrite lookup_insert_ne by (intros ->; done).
  - intros i. rewrite Hlk, lookup_insert. destruct (decide (id = i)) as [He|He].
    + rewrite <-He, Hp. cbn. rewrite (decide_False (P := id ∈ ids)) by done.
      by rewrite decide_True by by left.
    + destruct (pgs !! i) as [q|]; [|done]. cbn. f_equal.
      apply decide_ext. rewrite elem_of_cons. split; [by right|]. by intros [->|?].
Qed.

Lemma dyn_flush_Ok db :
  dyn_wf db ->
  exists db', Dynamic.flush db = Ok (db', page_info (pages db) <$> unflushed db) /\ dyn_wf db' /\
    unflushed db' = [] /\ (forall k, 0 <= k -> dbit db' k = dbit db k).
Proof.
  intros Hwf. unfold Dynamic.flush.
  destruct (flush_loop_spec (unflushed db) (pages db)) as (pgs' & -> & Hlk); [apply Hwf| |].
  { intros i Hi. apply (dw_dirty _ Hwf) in Hi as (p & Hp & _).
    destruct (dw_page _ Hwf _ _ Hp). pose proof (dw_big _ Hwf). split; [lia|]. eauto. }
  rewrite bind_Ok. eexists. split_and!; [done| |done|].
  - constructor; cbn; [|apply Hwf|constructor|].
    + intros i p. rewrite Hlk. destruct (pages db !! i) as [q|] eqn:Hq; [|done].
      cbn. intros [= <-]. destruct (dw_page _ Hwf _ _ Hq). split; [|done]. by case_decide.
    + intros i. split; [by intros ?%not_elem_of_nil|]. intros (p & Hp & Hd).
      rewrite Hlk in Hp. destruct (pages db !! i) as [q|] eqn:Hq; [|done].
      cbn in Hp. injection Hp as <-. case_decide as Hin; [done|].
      destruct Hin. apply (dw_dirty _ Hwf). eauto.
  - intros k Hk. unfold dbit. cbn. rewrite Hlk. destruct (pages db !! _); [|done].
    cbn. by case_decide.
Qed.

(** *** Searching for a set bit *)

Lemma hit_Ok i idx : 0 <= i < 2 ^ 49 -> 0 <= idx < 32768 ->
  Dynamic.hit i idx = Ok (Some (32768 * i + idx)).
Proof.
  intros. unfold Dynamic.hit. change DYNAMIC_BITFIELD_PAGE_SIZE with 32768. checked.
  do 2 f_equal. lia.
Qed.

Lemma dbit_page db i p k :
  pages db !! i = Some p -> 0 <= k < 32768 -> dbit db (32768 * i + k) = fbit p k.
Proof. intros Hp Hk. unfold dbit. by rewrite page_div, page_mod, Hp by lia. Qed.

Lemma dbit_page' db i p k :
  pages db !! i = Some p -> 32768 * i <= k < 32768 * i + 32768 -> dbit db k = fbit p (k - 32768 * i).
Proof.
  intros Hp Hk. replace k with (32768 * i + (k - 32768 * i)) at 1 by lia. apply dbit_page; [done|lia].
Qed.

Lemma dbit_no_page db i k :
  pages db !! i = None -> 32768 * i <= k < 32768 * i + 32768 -> dbit db k = false.
Proof.
  intros Hp Hk. unfold dbit. replace k with (32768 * i + (k - 32768 * i)) by lia.
  by rewrite page_div, Hp by lia.
Qed.

Lemma eqb_true_r' b : Bool.eqb b true = b.
Proof. by destruct b. Qed.

Lemma dw_page_bound db i p : dyn_wf db -> pages db !! i = Some p -> fixed_wf p /\ 0 <= i < 2 ^ 49.
Proof. intros Hwf Hp. destruct (dw_page _ Hwf _ _ Hp). pose proof (dw_big _ Hwf). split; [done|lia]. Qed.

Lemma index_of_keys_spec db lo keys :
  dyn_wf db -> 0 <= lo -> StronglySorted Z.lt keys ->
  (forall i p, pages db !! i = Some p -> lo <= i -> i ∈ keys) ->
  (forall i, i ∈ keys -> lo <= i /\ is_Some (pages db !! i)) ->
  exists r, Dynamic.index_of_keys db keys = Ok r /\ is_first (dbit db) (32768 * lo) (2 ^ 64) r.
Proof.
  intros Hwf. revert lo. induction keys as [|key keys IH]; intros lo Hlo Hs Hin Hdom.
  { exists None. split; [done|]. intros j Hj. unfold dbit.
    destruct (pages db !! (j / 32768)) as [p|] eqn:Hp; [|done].
    apply Hin in Hp; [|lia]. by apply not_elem_of_nil in Hp. }
  destruct (Hdom key) as [Hle [p Hp]]; [by left|]. cbn [Dynamic.index_of_keys]. rewrite Hp.
  destruct (dw_page_bound _ _ _ Hwf Hp) as [Hpwf Hk].
  apply StronglySorted_inv in Hs as [Hs Hgt]. rewrite Forall_forall in Hgt.
  assert (forall j, 32768 * lo <= j < 32768 * key -> dbit db j = false) as Hbelow.
  { intros j Hj. unfold dbit. destruct (pages db !! (j / 32768)) as [q|] eqn:Hq; [|done].
    apply Hin in Hq; [|lia]. apply elem_of_cons in Hq as [Hq|Hq]; [lia|].
    apply Hgt in Hq. lia. }
  destruct (fixed_index_of_spec p true 0 Hpwf) as ([idx|] & -> & Hf); [lia|..]; rewrite bind_Ok.
  - destruct Hf as (Hidx & Hb & Hj). rewrite hit_Ok by lia. eexists. split; [done|].
    split_and!; [lia..| |].
    + rewrite (dbit_page _ _ p), <-(eqb_true_r' (fbit p idx)) by (done || lia). done.
    + intros j Hj'. destruct (decide (j < 32768 * key)); [apply Hbelow; lia|].
      rewrite (dbit_page' _ key p), <-(eqb_true_r' (fbit p _)) by (done || lia).
      apply Hj. lia.
  - destruct (IH (key + 1)) as (r & -> & Hr); [lia|done| | |].
    + intros i q Hq Hi. apply Hin in Hq; [|lia]. apply elem_of_cons in Hq as [Hq|Hq]; [lia|done].
    + intros i Hi. pose proof (Hgt _ Hi). split; [lia|]. apply Hdom. by right.
    + exists r. split; [done|].
      assert (forall j, 32768 * lo <= j < 32768 * (key + 1) -> dbit db j = false) as Hbelow'.
      { intros j Hj. destruct (decide (j < 32768 * key)); [apply Hbelow; lia|].
        rewrite (dbit_page' _ key p), <-(eqb_true_r' (fbit p _)) by (done || lia).
        apply (Hf (j - 32768 * key)). lia. }
      destruct r as [k|]; cbn in *.
      * destruct Hr as (? & ? & Hj). split_and!; [lia..|done|]. intros j Hj'.
        destruct (decide (j < 32768 * (key + 1))); [apply Hbelow'|apply Hj]; lia.
      * intros j Hj. destruct (decide (j < 32768 * (key + 1))); [apply Hbelow'|apply Hr]; lia.
Qed.

Lemma sorted_keys_lt (keys : list Z) : NoDup keys -> StronglySorted Z.lt (merge_sort Z.le keys).
Proof.
  intros Hnd. pose proof (StronglySorted_merge_sort Z.le keys) as Hs.
  rewrite <-(merge_sort_Permutation Z.le keys) in Hnd.
  induction Hs as [|x l Hs IH Hle]; [constructor|].
  apply NoDup_cons in Hnd as [Hx Hnd]. constructor; [by apply IH|].
  rewrite Forall_forall in *. intros y Hy. specialize (Hle y Hy).
  assert (x <> y) by (intros ->; done). lia.
Qed.

Lemma elem_of_page_keys db (P : Z -> Prop) `{!forall x, Decision (P x)} i :
  i ∈ filter P (map_to_list (pages db)).*1 <-> P i /\ is_Some (pages db !! i).
Proof.
  rewrite list_elem_of_filter, list_elem_of_fmap. split; intros [HP Hi]; (split; [done|]).
  - destruct Hi as ([? p] & -> & Hp%elem_of_map_to_list). eauto.
  - destruct Hi as [p Hp]. exists (i, p). split; [done|]. by apply elem_of_map_to_list.
Qed.

Lemma page_keys_nodup db (P : Z -> Prop) `{!forall x, Decision (P x)} :
  NoDup (filter P (map_to_list (pages db)).*1).
Proof. apply NoDup_filter, NoDup_fst_map_to_list. Qed.

Lemma dyn_index_of_true db pos :
  dyn_wf db -> 0 <= pos < 2 ^ 64 ->
  exists r, Dynamic.index_of db true pos = Ok r /\ is_first (dbit db) pos (2 ^ 64) r.
Proof.
  intros Hwf Hpos. unfold Dynamic.index_of. page_split pos.
  set (pg := pos / 32768) in *. set (off := pos mod 32768) in *.
  assert (exists r, match pages db !! pg with
                    | Some p => Fixed.index_of p true off
                    | None => Ok None end = Ok r /\
          match r with
          | Some idx => off <= idx < 32768 /\ dbit db (32768 * pg + idx) = true /\
                        forall j, pos <= j < 32768 * pg + idx -> dbit db j = false
          | None => forall j, pos <= j < 32768 * (pg + 1) -> dbit db j = false
          end) as (r & -> & Hr).
  { destruct (pages db !! pg) as [p|] eqn:Hp.
    - destruct (dw_page_bound _ _ _ Hwf Hp) as [Hpwf _].
      destruct (fixed_index_of_spec p true off Hpwf) as (r & -> & Hf); [lia|].
      exists r. split; [done|]. destruct r as [idx|]; cbn in Hf.
      + destruct Hf as (Hidx & Hb & Hj). split_and!; [lia..| |].
        * rewrite (dbit_page _ _ p), <-(eqb_true_r' (fbit p idx)) by (done || lia). done.
        * intros j Hj'. rewrite (dbit_page' _ pg p), <-(eqb_true_r' (fbit p _)) by (done || lia).
          apply Hj. lia.
      + intros j Hj. rewrite (dbit_page' _ pg p), <-(eqb_true_r' (fbit p _)) by (done || lia).
        apply Hf. lia.
    - exists None. split; [done|]. intros j Hj. apply (dbit_no_page db pg); [done|lia]. }
  rewrite bind_Ok. destruct r as [idx|].
  { destruct Hr as (? & ? & ?). rewrite hit_Ok by lia. eexists. split; [done|].
    split_and!; [lia..|done|done]. }
  destruct (index_of_keys_spec db (pg + 1)
              (merge_sort Z.le (filter (fun key => pg < key) (map_to_list (pages db)).*1)))
    as (r & -> & Hf); [done|lia|apply sorted_keys_lt, page_keys_nodup| | |].
  - intros i p Hp Hi. rewrite merge_sort_Permutation, elem_of_page_keys. split; [lia|eauto].
  - intros i. rewrite merge_sort_Permutation, elem_of_page_keys. intros [? ?]. split; [lia|done].
  - exists r. split; [done|]. destruct r as [k|]; cbn in *.
    + destruct Hf as (? & ? & Hj). split_and!; [lia..|done|]. intros j Hj'.
      destruct (decide (j < 32768 * (pg + 1))); [apply Hr|apply Hj]; lia.
    + intros j Hj. destruct (decide (j < 32768 * (pg + 1))); [apply Hr|apply Hf]; lia.
Qed.


Lemma last_index_of_keys_spec db hi keys :
  dyn_wf db -> 0 <= hi -> StronglySorted Z.gt keys ->
  (forall i p, pages db !! i = Some p -> i < hi -> i ∈ keys) ->
  (forall i, i ∈ keys -> i < hi /\ is_Some (pages db !! i)) ->
  exists r, Dynamic.last_index_of_keys db keys = Ok r /\ is_last (dbit db) 0 (32768 * hi) r.
Proof.
  intros Hwf. revert hi. induction keys as [|key keys IH]; intros hi Hhi Hs Hin Hdom.
  { exists None. split; [done|]. intros j Hj. unfold dbit.
    destruct (pages db !! (j / 32768)) as [p|] eqn:Hp; [|done].
    apply Hin in Hp; [|lia]. by apply not_elem_of_nil in Hp. }
  destruct (Hdom key) as [Hle [p Hp]]; [by left|]. cbn [Dynamic.last_index_of_keys]. rewrite Hp.
  destruct (dw_page_bound _ _ _ Hwf Hp) as [Hpwf Hk].
  apply StronglySorted_inv in Hs as [Hs Hgt]. rewrite Forall_forall in Hgt.
  assert (forall j, 32768 * (key + 1) <= j < 32768 * hi -> dbit db j = false) as Habove.
  { intros j Hj. unfold dbit. destruct (pages db !! (j / 32768)) as [q|] eqn:Hq; [|done].
    apply Hin in Hq; [|lia]. apply elem_of_cons in Hq as [Hq|Hq]; [lia|].
    apply Hgt in Hq. lia. }
  change (FIXED_BITFIELD_BITS_LENGTH - 1) with 32767.
  destruct (fixed_last_index_of_spec p true 32767 Hpwf) as ([idx|] & -> & Hf); [lia|..]; rewrite bind_Ok.
  - destruct Hf as (Hidx & Hb & Hj). rewrite hit_Ok by lia. eexists. split; [done|].
    split_and!; [lia..| |].
    + rewrite (dbit_page _ _ p), <-(eqb_true_r' (fbit p idx)) by (done || lia). done.
    + intros j Hj'. destruct (decide (32768 * (key + 1) <= j)); [apply Habove; lia|].
      rewrite (dbit_page' _ key p), <-(eqb_true_r' (fbit p _)) by (done || lia).
      apply Hj. lia.
  - destruct (IH key) as (r & -> & Hr); [lia|done| | |].
    + intros i q Hq Hi. apply Hin in Hq; [|lia]. apply elem_of_cons in Hq as [Hq|Hq]; [lia|done].
    + intros i Hi. pose proof (Hgt _ Hi). split; [lia|]. apply Hdom. by right.
    + exists r. split; [done|].
      assert (forall j, 32768 * key <= j < 32768 * hi -> dbit db j = false) as Habove'.
      { intros j Hj. destruct (decide (32768 * (key + 1) <= j)); [apply Habove; lia|].
        rewrite (dbit_page' _ key p), <-(eqb_true_r' (fbit p _)) by (done || lia).
        apply (Hf (j - 32768 * key)). lia. }
      destruct r as [k|]; cbn in *.
      * destruct Hr as (? & ? & Hj). split_and!; [lia..|done|]. intros j Hj'.
        destruct (decide (j < 32768 * key)); [apply Hj|apply Habove']; lia.
      * intros j Hj. destruct (decide (j < 32768 * key)); [apply Hr|apply Habove']; lia.
Qed.

Lemma reverse_sorted_gt (keys : list Z) : StronglySorted Z.lt keys -> StronglySorted Z.gt (reverse keys).
Proof.
  induction 1 as [|x l Hs IH Hlt]; [constructor|]. rewrite reverse_cons.
  apply StronglySorted_app_2; [|done|repeat constructor].
  intros y z Hy Hz. rewrite elem_of_reverse in Hy. apply list_elem_of_singleton in Hz as ->.
  rewrite Forall_forall in Hlt. specialize (Hlt _ Hy). lia.
Qed.

Lemma dyn_last_index_of_true db pos :
  dyn_wf db -> 0 <= pos < 2 ^ 64 ->
  exists r, Dynamic.last_index_of db true pos = Ok r /\ is_last (dbit db) 0 (pos + 1) r.
Proof.
  intros Hwf Hpos. unfold Dynamic.last_index_of. page_split pos.
  set (pg := pos / 32768) in *. set (off := pos mod 32768) in *.
  assert (exists r, match pages db !! pg with
                    | Some p => Fixed.last_index_of p true off
                    | None => Ok None end = Ok r /\
          match r with
          | Some idx => 0 <= idx <= off /\ dbit db (32768 * pg + idx) = true /\
                        forall j, 32768 * pg + idx < j <= pos -> dbit db j = false
          | None => forall j, 32768 * pg <= j <= pos -> dbit db j = false
          end) as (r & -> & Hr).
  { destruct (pages db !! pg) as [p|] eqn:Hp.
    - destruct (dw_page_bound _ _ _ Hwf Hp) as [Hpwf _].
      destruct (fixed_last_index_of_spec p true off Hpwf) as (r & -> & Hf); [lia|].
      exists r. split; [done|]. destruct r as [idx|]; cbn in Hf.
      + destruct Hf as (Hidx & Hb & Hj). split_and!; [lia..| |].
        * rewrite (dbit_page _ _ p), <-(eqb_true_r' (fbit p idx)) by (done || lia). done.
        * intros j Hj'. rewrite (dbit_page' _ pg p), <-(eqb_true_r' (fbit p _)) by (done || lia).
          apply Hj. lia.
      + intros j Hj. rewrite (dbit_page' _ pg p), <-(eqb_true_r' (fbit p _)) by (done || lia).
        apply Hf. lia.
    - exists None. split; [done|]. intros j Hj. apply (dbit_no_page db pg); [done|lia]. }
  rewrite bind_Ok. destruct r as [idx|].
  { destruct Hr as (? & ? & Hj). rewrite hit_Ok by lia. eexists. split; [done|].
    split_and!; [lia..|done|]. intros j Hj'. apply Hj. lia. }
  destruct (last_index_of_keys_spec db pg
              (reverse (merge_sort Z.le (filter (fun key => key < pg) (map_to_list (pages db)).*1))))
    as (r & -> & Hf); [done|lia|apply reverse_sorted_gt, sorted_keys_lt, page_keys_nodup| | |].
  - intros i p Hp Hi. rewrite elem_of_reverse, merge_sort_Permutation, elem_of_page_keys.
    split; [lia|eauto].
  - intros i. rewrite elem_of_reverse, merge_sort_Permutation, elem_of_page_keys.
    intros [? ?]. split; [lia|done].
  - exists r. split; [done|]. destruct r as [k|]; cbn in *.
    + destruct Hf as (? & ? & Hj). split_and!; [lia..|done|]. intros j Hj'.
      destruct (decide (j < 32768 * pg)); [apply Hj|apply Hr]; lia.
    + intros j Hj. destruct (decide (j < 32768 * pg)); [apply Hf|apply Hr]; lia.
Qed.

(** *** Searching for a clear bit *)

Lemma eqb_false_r' b : Bool.eqb b false = negb b.
Proof. by destruct b. Qed.

Lemma index_of_false_spec fuel db fp i j :
  dyn_wf db -> 0 <= fp <= i -> 0 <= j < 32768 -> i < 2 ^ 49 + 1 ->
  (i = fp -> i < 2 ^ 49) ->
  i = fp \/ i <= biggest_page_index db + 1 ->
  Z.max fp (biggest_page_index db) + 1 - i <= Z.of_nat fuel ->
  exists r, Dynamic.index_of_false fuel db fp i (if decide (i = fp) then j else 0) = Ok r /\
    is_first (fun k => negb (dbit db k)) (32768 * i + if decide (i = fp) then j else 0)
      (32768 * (Z.max fp (biggest_page_index db) + 1)) r.
Proof.
  intros Hwf. pose proof (dw_big _ Hwf) as Hbig.
  revert i. induction fuel as [|fuel IH]; intros i Hi Hj Hi2 Hi3 Hcase Hf.
  all: set (j' := if decide (i = fp) then j else 0); assert (0 <= j' < 32768) as Hj'
    by (unfold j'; case_decide; lia).
  all: destruct ((i =? fp) || (i <=? biggest_page_index db)) eqn:Hcond.
  1: apply orb_true_iff in Hcond; lia.
  1, 3: exists None; cbn [Dynamic.index_of_false]; rewrite Hcond; split; [done|];
    apply orb_false_iff in Hcond; intros k Hk; lia.
  cbn [Dynamic.index_of_false]. rewrite Hcond.
  assert (i = fp \/ i <= biggest_page_index db) as Hc
    by (apply orb_true_iff in Hcond; lia). clear Hcond.
  destruct (pages db !! i) as [p|] eqn:Hp.
  - destruct (dw_page_bound _ _ _ Hwf Hp) as [Hpwf Hir].
    destruct (fixed_index_of_spec p false j' Hpwf) as ([idx|] & -> & Hidx); [lia|..]; rewrite bind_Ok.
    + destruct Hidx as (Hr & Hb & Hlow). rewrite hit_Ok by lia. eexists. split; [done|].
      split_and!; [lia..| |].
      * by rewrite (dbit_page _ _ p), <-eqb_false_r' by (done || lia).
      * intros k Hk. rewrite (dbit_page' _ i p), <-eqb_false_r' by (done || lia). apply Hlow. lia.
    + destruct (dw_page _ Hwf _ _ Hp) as [_ ?].
      checked. destruct (IH (i + 1)) as (r & Hrun & Hr); [lia..|].
      rewrite decide_False in Hrun, Hr by lia. rewrite Hrun. exists r. split; [done|].
      assert (forall k, 32768 * i + j' <= k < 32768 * (i + 1) -> negb (dbit db k) = false) as Hlow.
      { intros k Hk. rewrite (dbit_page' _ i p), <-eqb_false_r' by (done || lia). apply Hidx. lia. }
      destruct r as [k|]; cbn in *.
      * destruct Hr as (? & ? & Hl). split_and!; [lia..|done|]. intros k' Hk'.
        destruct (decide (k' < 32768 * (i + 1))); [apply Hlow|apply Hl]; lia.
      * intros k' Hk'. destruct (decide (k' < 32768 * (i + 1))); [apply Hlow|apply Hr]; lia.
  - rewrite hit_Ok by lia. eexists. split; [done|]. split_and!; [lia..| |intros; lia].
    by rewrite (dbit_no_page db i) by (done || lia).
Qed.

Lemma dyn_index_of_false db pos :
  dyn_wf db -> 0 <= pos < 2 ^ 64 ->
  exists r, Dynamic.index_of db false pos = Ok r /\
    is_first (fun k => negb (dbit db k)) pos
      (32768 * (Z.max (pos / 32768) (biggest_page_index db) + 1)) r.
Proof.
  intros Hwf Hpos. unfold Dynamic.index_of. page_split pos. pose proof (dw_big _ Hwf).
  destruct (index_of_false_spec (Z.to_nat (biggest_page_index db + 2)) db (pos / 32768) (pos / 32768)
    (pos mod 32768)) as (r & Hrun & Hr); [done|lia..|].
  rewrite decide_True in Hrun, Hr by done. exists r. split; [done|].
  by replace (32768 * (pos / 32768) + pos mod 32768) with pos in Hr by lia.
Qed.

(** *** Searching backwards for a clear bit *)

Lemma last_index_of_false_full fuel db lp p j :
  pages db !! lp = Some p -> fixed_wf p -> 0 <= j < 32768 ->
  (forall k, 0 <= k <= j -> fbit p k = true) -> (0 < fuel)%nat ->
  Dynamic.last_index_of_false fuel db lp lp j =
    (i ← lp -? 1; Dynamic.last_index_of_false (pred fuel) db lp i 32767).
Proof.
  intros Hp Hpwf Hj Hfull Hf. destruct fuel as [|fuel]; [lia|]. cbn [Dynamic.last_index_of_false].
  rewrite Z.eqb_refl, Hp. cbn [orb].
  destruct (fixed_last_index_of_spec p false j Hpwf) as ([idx|] & -> & Hidx); [lia|..]; [|done].
  destruct Hidx as (? & Hb & _). rewrite Hfull in Hb by lia. done.
Qed.

(** *** Opening *)

(** The page [open] builds at index [k] out of a store of [b] words: the words
    from number [256 k] on, each at its own place in the store. *)
Definition opened_page (data : list Z) (b k : Z) (p : FixedBitfield) : Prop :=
  fixed_wf p /\ fb_dirty p = false /\
  forall j, 0 <= j < 1024 ->
    fb_bitfield p !! Z.to_nat j = Some (if decide (256 * k <= j < b) then word_at data j else 0).

Lemma open_loop_spec fuel data b i pgs big :
  Forall is_u8 data -> zlen data = 4 * b -> b <= 1024 -> 0 <= i -> 0 <= big ->
  4 * b - 1024 * i <= Z.of_nat fuel ->
  exists pgs', Dynamic.open_loop fuel data (1024 * i) pgs big =
      Ok (pgs', if decide (256 * i < b) then Z.max big ((b - 1) / 256) else big) /\
    forall k, if decide (i <= k /\ 256 * k < b)
              then exists p, pgs' !! k = Some p /\ opened_page data b k p
              else pgs' !! k = pgs !! k.
Proof.
  intros Hu Hl Hb. revert i pgs big. induction fuel as [|fuel IH]; intros i pgs big Hi Hbig Hf.
  all: destruct (decide (256 * i < b)) as [Hlt|Hge].
  2, 4: exists pgs; cbn [Dynamic.open_loop]; rewrite (proj2 (Z.ltb_ge _ _)) by lia; split; [done|];
    intros k; by rewrite decide_False by lia.
  1: lia.
  cbn [Dynamic.open_loop]. rewrite (proj2 (Z.ltb_lt _ _)) by lia.
  change FIXED_BITFIELD_LENGTH with 1024.
  destruct (from_data_Ok data (256 * i) b) as (p & Hp & Hpwf & Hpd & Hpw); [done|lia..|].
  replace (4 * (256 * i)) with (1024 * i) in Hp by lia. rewrite Hp, bind_Ok. replace (1024 * i / 1024) with i by lia.
  replace (1024 * i + 1024) with (1024 * (i + 1)) by lia.
  set (big' := if big <? i then i else big).
  destruct (IH (i + 1) (<[i := p]> pgs) big') as (pgs' & -> & Hlk);
    [lia|unfold big'; destruct (Z.ltb_spec big i); lia|lia|].
  exists pgs'. split.
  - do 2 f_equal. unfold big'. case_decide; destruct (Z.ltb_spec big i); lia.
  - intros k. specialize (Hlk k). destruct (decide (k = i)) as [->|Hne].
    + rewrite decide_False in Hlk by lia. rewrite decide_True by lia.
      rewrite lookup_insert_eq in Hlk. exists p. split; [done|]. split_and!; [done..|].
      intros j Hj. rewrite Hpw by done. f_equal. apply decide_ext. lia.
    + rewrite lookup_insert_ne in Hlk by done.
      destruct (decide (i + 1 <= k ∧ 256 * k < b)).
      * by rewrite decide_True by lia.
      * by rewrite decide_False by lia.
Qed.

Lemma dyn_open_words data b :
  Forall is_u8 data -> zlen data = 4 * b -> 1 <= b <= 1024 ->
  exists db, Dynamic.open (Some (StoreInfo.new_content Bitfield 0 data)) = Ok (Right db) /\
    dyn_wf db /\ unflushed db = [] /\
    forall i k, 0 <= i -> 0 <= k < 32768 ->
      dbit db (32768 * i + k) =
        (256 * i <=? k / 32) && (k / 32 <? b) && Z.testbit (word_at data (k / 32)) (k mod 32).
Proof.
  intros Hu Hl Hb. unfold Dynamic.open. cbn [StoreInfo.new_content si_info_type si_data unwrap].
  rewrite decide_False, bind_Ok by done. rewrite (proj2 (Z.leb_le _ _)) by lia.
  change 0 with (1024 * 0) at 1.
  destruct (open_loop_spec (length data) data b 0 ∅ 0) as (pgs & -> & Hlk);
    [done|lia..|unfold zlen in *; lia|].
  rewrite bind_Ok, decide_True by lia. eexists. split_and!; [done| |done|].
  - constructor; cbn; [|lia|constructor|].
    + intros i p Hp. specialize (Hlk i). case_decide; [|by rewrite Hp, lookup_empty in Hlk].
      destruct Hlk as (p' & Hp' & Hopen). assert (p' = p) as -> by congruence.
      split; [apply Hopen|]. lia.
    + intros i. split; [by intros ?%not_elem_of_nil|]. intros (p & Hp & Hd). specialize (Hlk i).
      case_decide; [|by rewrite Hp, lookup_empty in Hlk]. destruct Hlk as (p' & Hp' & _ & Hd' & _).
      congruence.
  - intros i k Hi Hk. unfold dbit. cbn. rewrite page_div, page_mod by lia. specialize (Hlk i).
    case_decide as Hin.
    + destruct Hlk as (p & -> & _ & _ & Hw). unfold fbit, wbit. rewrite Hw by lia. cbn.
      destruct (Z.leb_spec (256 * i) (k / 32)), (Z.ltb_spec (k / 32) b); cbn.
      * by rewrite decide_True by lia.
      * rewrite decide_False by lia. apply Z.bits_0.
      * rewrite decide_False by lia. apply Z.bits_0.
      * rewrite decide_False by lia. apply Z.bits_0.
    + rewrite Hlk, lookup_empty.
      destruct (Z.leb_spec (256 * i) (k / 32)), (Z.ltb_spec (k / 32) b); cbn; try done. lia.
Qed.

Lemma dyn_open_Panic data b :
  Forall is_u8 data -> zlen data = 4 * b -> 1024 < b ->
  Dynamic.open (Some (StoreInfo.new_content Bitfield 0 data)) = Panic.
Proof.
  intros Hu Hl Hb. unfold Dynamic.open. cbn [StoreInfo.new_content si_info_type si_data unwrap].
  rewrite decide_False, bind_Ok by done. rewrite (proj2 (Z.leb_le _ _)) by lia.
  destruct (length data) as [|[|fuel]] eqn:Hlen; [unfold zlen in *; lia..|].
  cbn [Dynamic.open_loop]. rewrite !(proj2 (Z.ltb_lt _ _)) by (change FIXED_BITFIELD_LENGTH with 1024; lia).
  destruct (from_data_Ok data 0 b) as (p & Hp & _); [done|lia..|]. change (4 * 0) with 0 in Hp.
  rewrite Hp, bind_Ok. change (0 + FIXED_BITFIELD_LENGTH) with (4 * 256).
  rewrite (from_data_Panic data 256 b) by (done || lia). done.
Qed.

Lemma word_at_bit bf k :
  words_wf bf -> 0 <= k < 32768 -> Z.testbit (word_at (words_bytes bf) (k / 32)) (k mod 32) = wbit bf k.
Proof.
  intros Hwf Hk. destruct (words_lookup bf (k / 32)) as (w & Hw & _); [done|lia|].
  rewrite (wbit_lookup _ _ _ _ Hw) by done.
  rewrite <-(Z2Nat.id (k / 32)) at 1 by lia.
  by rewrite (word_at_words_bytes _ _ w) by (apply Hwf || done).
Qed.
