(* ===== verification/CompactEncoding.v ===== *)
(** * Interface of the [compact-encoding] crate

    The crate keeps a cursor ([State], with a [start] and an [end]) over a byte
    buffer and has codecs for the primitive types.  It is a dependency of the
    program: the operations the program calls are the class [CompactEncoding],
    what they promise is the class [CompactEncodingLaws].  The trait
    [CompactEncoding<T> for State] is the class [Codec]; a codec keeps its
    promise with respect to a byte format when it satisfies [CodecLaws]. *)

From stdpp Require Import base tactics numbers list strings.
From Stdlib Require Import ZArith Lia Ascii String.
From S2P Require Import Prelude FlatTree Common.
Open Scope Z_scope.

Class CompactEncoding := {
  State : Type;
  st_start : State -> Z;
  st_end : State -> Z;
  st_new_with_start_and_end : Z -> Z -> State;
  st_new_with_size : Z -> State * list Z;
  st_from_buffer : list Z -> State;
  st_set_start : State -> Z -> eresult State;
  st_set_end : State -> Z -> State;
  st_add_start : State -> Z -> eresult State;
  st_add_end : State -> Z -> eresult State;
  st_create_buffer : State -> list Z;
  st_set_byte_to_buffer : State -> Z -> list Z -> eresult (State * list Z);
  decode_u8 : State -> list Z -> eresult (State * Z);
  encode_u32 : State -> Z -> list Z -> eresult (State * list Z);
  decode_u32 : State -> list Z -> eresult (State * Z);
  encode_u64 : State -> Z -> list Z -> eresult (State * list Z);
  decode_u64 : State -> list Z -> eresult (State * Z);
  preencode_fixed_32 : State -> eresult State;
  encode_fixed_32 : State -> list Z -> list Z -> eresult (State * list Z);
  decode_fixed_32 : State -> list Z -> eresult (State * list Z);
  (** [CompactEncoding<u64>] and [<usize>]: a variable length integer *)
  uint_preencode : State -> Z -> eresult State;
  uint_encode : State -> Z -> list Z -> eresult (State * list Z);
  uint_decode : State -> list Z -> eresult (State * Z);
  (** [CompactEncoding<Vec<u8>>] and [<Box<[u8]>>] *)
  buffer_preencode : State -> list Z -> eresult State;
  buffer_encode : State -> list Z -> list Z -> eresult (State * list Z);
  buffer_decode : State -> list Z -> eresult (State * list Z);
  (** [CompactEncoding<Vec<String>>] *)
  strings_preencode : State -> list string -> eresult State;
  strings_encode : State -> list string -> list Z -> eresult (State * list Z);
  strings_decode : State -> list Z -> eresult (State * list string);
}.

(** The trait [CompactEncoding<T>]. *)
Class Codec `{CompactEncoding} (A : Type) := {
  preencode : State -> A -> eresult State;
  encode : State -> A -> list Z -> eresult (State * list Z);
  decode : State -> list Z -> eresult (State * A);
}.

#[export] Instance uint_codec `{CompactEncoding} : Codec Z :=
  { preencode := uint_preencode; encode := uint_encode; decode := uint_decode }.
#[export] Instance buffer_codec `{CompactEncoding} : Codec (list Z) :=
  { preencode := buffer_preencode; encode := buffer_encode; decode := buffer_decode }.
#[export] Instance strings_codec `{CompactEncoding} : Codec (list string) :=
  { preencode := strings_preencode; encode := strings_encode; decode := strings_decode }.

(** ** What the three operations of a codec do, given the bytes of the value *)

Section Specs.
Context `{CompactEncoding}.

(** [preencode] reserves room for the bytes. *)
Definition pre_ok (f : State -> eresult State) (bs : list Z) : Prop :=
  forall st, 0 <= st_end st -> st_end st + zlen bs < 2 ^ 64 ->
  exists st', f st = Ok st' /\ st_start st' = st_start st /\ st_end st' = st_end st + zlen bs.

(** [encode] writes the bytes at the cursor and moves it. *)
Definition enc_ok (f : State -> list Z -> eresult (State * list Z)) (bs : list Z) : Prop :=
  forall st buf, 0 <= st_start st -> st_start st + zlen bs <= st_end st -> st_end st <= zlen buf ->
  exists st', f st buf = Ok (st', splice buf (st_start st) bs) /\
    st_start st' = st_start st + zlen bs /\ st_end st' = st_end st.

(** [decode] finds the bytes at the cursor, returns the value and moves it. *)
Definition dec_ok {A} (f : State -> list Z -> eresult (State * A)) (bs : list Z) (a : A) : Prop :=
  forall st buf, 0 <= st_start st -> st_start st + zlen bs <= st_end st -> st_end st <= zlen buf ->
  slice buf (st_start st) (zlen bs) = bs ->
  exists st', f st buf = Ok (st', a) /\
    st_start st' = st_start st + zlen bs /\ st_end st' = st_end st.

Lemma pre_ok_ext f g bs :
  (forall st, f st = g st) -> pre_ok g bs -> pre_ok f bs.
Proof. intros Hfg Hg st. rewrite Hfg. apply Hg. Qed.

Lemma pre_ok_nil : pre_ok (fun st => Ok st) [].
Proof. intros st Hs He. exists st. autorewrite with zlen. split_and!; [done..|lia]. Qed.

Lemma pre_ok_bind f g b1 b2 :
  pre_ok f b1 -> pre_ok g b2 -> pre_ok (fun st => st ← f st; g st) (b1 ++ b2).
Proof.
  intros Hf Hg st Hs He. pose proof (zlen_nonneg b1). pose proof (zlen_nonneg b2).
  rewrite zlen_app in *. destruct (Hf st) as (st1 & -> & Hs1 & He1); [lia..|].
  rewrite bind_Ok. destruct (Hg st1) as (st2 & -> & Hs2 & He2); [lia..|].
  exists st2. split_and!; [done|congruence|lia].
Qed.

Lemma enc_ok_nil : enc_ok (fun st buf => Ok (st, buf)) [].
Proof.
  intros st buf Hs He Hb. exists st. autorewrite with zlen. split_and!; [|lia|done].
  unfold splice. autorewrite with zlen. rewrite Z.add_0_r. cbn. unfold ztake, zdrop.
  by rewrite take_drop.
Qed.

Lemma enc_ok_bind f g b1 b2 :
  enc_ok f b1 -> enc_ok g b2 ->
  enc_ok (fun st buf => '(st, buf) ← f st buf; g st buf) (b1 ++ b2).
Proof.
  intros Hf Hg st buf Hs He Hb. pose proof (zlen_nonneg b1). pose proof (zlen_nonneg b2).
  rewrite zlen_app in *. destruct (Hf st buf) as (st1 & -> & Hs1 & He1); [lia..|].
  rewrite bind_Ok.
  destruct (Hg st1 (splice buf (st_start st) b1)) as (st2 & -> & Hs2 & He2);
    [rewrite ?zlen_splice; lia..|].
  exists st2. split_and!; [|lia|congruence].
  rewrite Hs1, splice_splice by lia. done.
Qed.

Lemma enc_ok_ext f g bs :
  (forall st buf, f st buf = g st buf) -> enc_ok g bs -> enc_ok f bs.
Proof. intros Hfg Hg st buf. rewrite Hfg. apply Hg. Qed.

(** A part that is there only under a condition. *)
Lemma pre_ok_if (b : bool) f bs :
  (b = true -> pre_ok f bs) -> pre_ok (fun st => if b then f st else Ok st) (if b then bs else []).
Proof. destruct b; [by eauto|intros _; apply pre_ok_nil]. Qed.

Lemma enc_ok_if (b : bool) f bs :
  (b = true -> enc_ok f bs) ->
  enc_ok (fun st buf => if b then f st buf else Ok (st, buf)) (if b then bs else []).
Proof. destruct b; [by eauto|intros _; apply enc_ok_nil]. Qed.

Lemma dec_ok_ext {A} (f g : State -> list Z -> eresult (State * A)) bs a :
  (forall st buf, f st buf = g st buf) -> dec_ok g bs a -> dec_ok f bs a.
Proof. intros Hfg Hg st buf. rewrite Hfg. apply Hg. Qed.

Lemma dec_ok_ret {A} (a : A) : dec_ok (fun st buf => Ok (st, a)) [] a.
Proof. intros st buf Hs He Hb _. exists st. autorewrite with zlen. split_and!; [done|lia|done]. Qed.

Lemma dec_ok_bind {A B} f (g : A -> State -> list Z -> eresult (State * B)) b1 b2 a b :
  dec_ok f b1 a -> dec_ok (g a) b2 b ->
  dec_ok (fun st buf => '(st, x) ← f st buf; g x st buf) (b1 ++ b2) b.
Proof.
  intros Hf Hg st buf Hs He Hb Hsl. pose proof (zlen_nonneg b1). pose proof (zlen_nonneg b2).
  apply slice_app_inv in Hsl as [Hsl1 Hsl2]; [|done]. rewrite zlen_app in *.
  destruct (Hf st buf) as (st1 & -> & Hs1 & He1); [lia..|done|].
  rewrite bind_Ok. destruct (Hg st1 buf) as (st2 & -> & Hs2 & He2); [lia..|by rewrite Hs1|].
  exists st2. split_and!; [done|lia|congruence].
Qed.

(** The last read of a decoder, followed by packing the results. *)
Lemma dec_ok_last {A B} f (g : A -> State -> list Z -> eresult (State * B)) bs a b :
  dec_ok f bs a -> (forall st buf, g a st buf = Ok (st, b)) ->
  dec_ok (fun st buf => '(st, x) ← f st buf; g x st buf) bs b.
Proof.
  intros Hf Hg st buf Hs He Hb Hsl. destruct (Hf st buf) as (st' & -> & ? & ?); [done..|].
  rewrite bind_Ok, Hg. eauto.
Qed.
End Specs.

(** A codec follows a format: [bytes] is what a well-formed value looks like. *)
Class CodecLaws `{CompactEncoding} (A : Type) `{!Codec A} (wf : A -> Prop) (bytes : A -> list Z)
  : Prop := {
  codec_pre a : wf a -> pre_ok (fun st => preencode st a) (bytes a);
  codec_enc a : wf a -> enc_ok (fun st buf => encode st a buf) (bytes a);
  codec_dec a : wf a -> dec_ok decode (bytes a) a;
}.

(** ** What the crate promises *)

Definition is_bytes (bs : list Z) : Prop := Forall is_u8 bs /\ zlen bs < 2 ^ 63.
Definition is_bytes32 (bs : list Z) : Prop := Forall is_u8 bs /\ zlen bs = 32.

(** Strings of ASCII characters, which are their own UTF-8 encoding. *)
Definition is_ascii_string (s : string) : Prop :=
  Forall (fun c => (nat_of_ascii c < 128)%nat) (list_ascii_of_string s) /\
  Z.of_nat (String.length s) < 2 ^ 32.
Definition is_strings (ss : list string) : Prop := Forall is_ascii_string ss /\ zlen ss < 2 ^ 32.

Class CompactEncodingLaws (CE : CompactEncoding) := {
  (** the formats of the primitive types *)
  uint_bytes : Z -> list Z;
  strings_bytes : list string -> list Z;
  buffer_bytes (bs : list Z) : list Z := uint_bytes (zlen bs) ++ bs;
  uint_bytes_small v : 0 <= v <= 252 -> uint_bytes v = [v];
  uint_bytes_u8 v : is_u64 v -> Forall is_u8 (uint_bytes v);
  uint_bytes_length v : is_u64 v -> zlen (uint_bytes v) <= 9;
  strings_bytes_nil : strings_bytes [] = [0];
  uint_laws : CodecLaws Z is_u64 uint_bytes;
  buffer_laws : CodecLaws (list Z) is_bytes buffer_bytes;
  strings_laws : CodecLaws (list string) is_strings strings_bytes;
  (** the cursor *)
  new_start s e : 0 <= s <= e -> st_start (st_new_with_start_and_end s e) = s;
  new_end s e : 0 <= s <= e -> st_end (st_new_with_start_and_end s e) = e;
  new_with_size_law n : 0 <= n ->
    exists st, st_new_with_size n = (st, replicate (Z.to_nat n) 0) /\ st_start st = 0 /\ st_end st = n;
  from_buffer_start buf : st_start (st_from_buffer buf) = 0;
  from_buffer_end buf : st_end (st_from_buffer buf) = zlen buf;
  set_start_law st v : 0 <= v <= st_end st ->
    exists st', st_set_start st v = Ok st' /\ st_start st' = v /\ st_end st' = st_end st;
  set_end_start st v : st_start (st_set_end st v) = st_start st;
  set_end_end st v : st_end (st_set_end st v) = v;
  add_start_law st n : 0 <= n -> 0 <= st_start st -> st_start st + n <= st_end st ->
    exists st', st_add_start st n = Ok st' /\ st_start st' = st_start st + n /\ st_end st' = st_end st;
  add_end_law bs : pre_ok (fun st => st_add_end st (zlen bs)) bs;
  create_buffer_law st : 0 <= st_end st -> st_create_buffer st = replicate (Z.to_nat (st_end st)) 0;
  (** fixed width *)
  set_byte_law b : is_u8 b -> enc_ok (fun st buf => st_set_byte_to_buffer st b buf) [b];
  decode_u8_law b : dec_ok decode_u8 [b] b;
  encode_u32_law v : is_u32 v -> enc_ok (fun st buf => encode_u32 st v buf) (le_bytes 4 v);
  decode_u32_law bs : Forall is_u8 bs -> zlen bs = 4 -> dec_ok decode_u32 bs (le_value bs);
  encode_u64_law v : is_u64 v -> enc_ok (fun st buf => encode_u64 st v buf) (le_bytes 8 v);
  decode_u64_law bs : Forall is_u8 bs -> zlen bs = 8 -> dec_ok decode_u64 bs (le_value bs);
  preencode_fixed_32_law bs : zlen bs = 32 -> pre_ok preencode_fixed_32 bs;
  encode_fixed_32_law bs : is_bytes32 bs -> enc_ok (fun st buf => encode_fixed_32 st bs buf) bs;
  decode_fixed_32_law bs : is_bytes32 bs -> dec_ok decode_fixed_32 bs bs;
}.

#[export] Existing Instances uint_laws buffer_laws strings_laws.

Lemma zlen_buffer_bytes `{CompactEncodingLaws} bs :
  zlen (buffer_bytes bs) = zlen (uint_bytes (zlen bs)) + zlen bs.
Proof. unfold buffer_bytes. by rewrite zlen_app. Qed.

Create HintDb codec.
#[export] Hint Resolve pre_ok_nil enc_ok_nil dec_ok_ret set_byte_law decode_u8_law
  encode_u32_law encode_u64_law encode_fixed_32_law decode_fixed_32_law : codec.
#[export] Hint Extern 1 (pre_ok _ _) => apply codec_pre : codec.
#[export] Hint Extern 1 (enc_ok _ _) => apply codec_enc : codec.
#[export] Hint Extern 1 (dec_ok _ _ _) => apply codec_dec : codec.

(** Size the buffer with [preencode], fill it with [encode], read it with
    [decode]: what every user of a codec does. *)
Definition write_value `{CompactEncoding} `{!Codec A} (a : A) : eresult (list Z) :=
  st ← preencode (st_new_with_start_and_end 0 0) a;
  '(_, buf) ← encode st a (st_create_buffer st);
  Ok buf.
Definition read_value `{CompactEncoding} `{!Codec A} (buf : list Z) : eresult A :=
  '(_, a) ← decode (st_from_buffer buf) buf;
  Ok a.

Section RoundTrip.
Context `{CE : CompactEncoding} {CL : CompactEncodingLaws CE} `{!Codec A} {wf bytes}
  `{!CodecLaws A wf bytes}.

Lemma write_value_ok a : wf a -> zlen (bytes a) < 2 ^ 64 -> write_value a = Ok (bytes a).
Proof.
  intros Hwf Hlen. unfold write_value. pose proof (zlen_nonneg (bytes a)).
  set (st0 := st_new_with_start_and_end 0 0).
  assert (st_start st0 = 0) as Hs0 by by apply new_start.
  assert (st_end st0 = 0) as He0 by by apply new_end.
  destruct (codec_pre a Hwf st0) as (st1 & -> & Hs1 & He1); [lia..|].
  rewrite bind_Ok, create_buffer_law by lia.
  destruct (codec_enc a Hwf st1 (replicate (Z.to_nat (st_end st1)) 0)) as (st2 & -> & _);
    [rewrite ?zlen_replicate; lia..|].
  rewrite bind_Ok, Hs1, Hs0, splice_all; [done|]. rewrite zlen_replicate. lia.
Qed.

Lemma read_value_ok a : wf a -> read_value (bytes a) = Ok a.
Proof.
  intros Hwf. unfold read_value.
  destruct (codec_dec a Hwf (st_from_buffer (bytes a)) (bytes a)) as (st & -> & _); [..|done];
    rewrite ?from_buffer_start, ?from_buffer_end; [lia..|]. apply slice_full.
Qed.

Lemma value_roundtrip a :
  wf a -> zlen (bytes a) < 2 ^ 64 ->
  exists buf, write_value a = Ok buf /\ read_value buf = Ok a.
Proof. intros. exists (bytes a). split; [by apply write_value_ok|by apply read_value_ok]. Qed.
End RoundTrip.
