(* ===== verification/Encoding.v ===== *)
(** * Hypercore codecs ([src/encoding.rs], [src/crypto/manifest.rs])

    The codecs of nodes, requests, proof parts and the manifest, built from the
    primitive codecs of [compact-encoding].  [HypercoreState] is a newtype of
    [State] and is not told apart from it.  Every codec comes with the byte
    format it implements, and with the instance of [CodecLaws] that says so:
    [preencode] reserves exactly the bytes [encode] writes, and [decode] reads
    them back. *)

From stdpp Require Import base tactics numbers list strings.
From Stdlib Require Import ZArith Lia.
From S2P Require Import Prelude FlatTree Common CompactEncoding.
Open Scope Z_scope.

(** ** Manifest *)

Record ManifestSigner := mkManifestSigner {
  ms_signature : string;
  ms_namespace : list Z;
  ms_public_key : list Z;
}.

Record Manifest := mkManifest {
  mf_hash : string;
  mf_signer : ManifestSigner;
}.

Definition DEFAULT_NAMESPACE : list Z :=
  [0x41; 0x44; 0xEE; 0xA5; 0x31; 0xE4; 0x83; 0xD5; 0x4E; 0x0C; 0x14; 0xF4; 0xCA; 0x68; 0xE0; 0x64;
   0x4F; 0x35; 0x53; 0x43; 0xFF; 0x6F; 0xCB; 0x0F; 0x00; 0x52; 0x00; 0xE1; 0x2C; 0xD7; 0x47; 0xCB].

Definition default_signer_manifest (public_key : list Z) : Manifest :=
  mkManifest "blake2b" (mkManifestSigner "ed25519" DEFAULT_NAMESPACE public_key).

(** [try_into] of a [Vec<u8>] to a [[u8; 32]]. *)
Definition into_array32 (bs : list Z) : eresult (list Z) :=
  if zlen bs =? 32 then Ok bs else Err InvalidData.

Section Codecs.
Context `{FT : FlatTree} `{CE : CompactEncoding}.

(** ** Nodes *)

#[export] Instance node_codec : Codec Node := {
  preencode st value :=
    st ← preencode st (node_index value);
    st ← preencode st (node_length value);
    preencode_fixed_32 st;
  encode st value buffer :=
    '(st, buffer) ← encode st (node_index value) buffer;
    '(st, buffer) ← encode st (node_length value) buffer;
    encode_fixed_32 st (node_hash value) buffer;
  decode st buffer :=
    '(st, index) ← decode (A:=Z) st buffer;
    '(st, length) ← decode (A:=Z) st buffer;
    '(st, hash) ← decode_fixed_32 st buffer;
    Ok (st, Node_new index hash length);
}.

Fixpoint preencode_nodes (st : State) (value : list Node) : eresult State :=
  match value with
  | [] => Ok st
  | val :: value => st ← preencode st val; preencode_nodes st value
  end.

Fixpoint encode_nodes (st : State) (value : list Node) (buffer : list Z)
  : eresult (State * list Z) :=
  match value with
  | [] => Ok (st, buffer)
  | val :: value => '(st, buffer) ← encode st val buffer; encode_nodes st value buffer
  end.

(** [for _ in 0..len { value.push(self.decode(buffer)?) }] *)
Fixpoint decode_nodes (len : nat) (st : State) (buffer : list Z) : eresult (State * list Node) :=
  match len with
  | O => Ok (st, [])
  | S len =>
      '(st, val) ← decode (A:=Node) st buffer;
      '(st, value) ← decode_nodes len st buffer;
      Ok (st, val :: value)
  end.

#[export] Instance nodes_codec : Codec (list Node) := {
  preencode st value :=
    st ← preencode st (zlen value);
    preencode_nodes st value;
  encode st value buffer :=
    '(st, buffer) ← encode st (zlen value) buffer;
    encode_nodes st value buffer;
  decode st buffer :=
    '(st, len) ← decode (A:=Z) st buffer;
    decode_nodes (Z.to_nat len) st buffer;
}.

(** ** Requests *)

#[export] Instance request_block_codec : Codec RequestBlock := {
  preencode st value :=
    st ← preencode st (rb_index value);
    preencode st (rb_nodes value);
  encode st value buffer :=
    '(st, buffer) ← encode st (rb_index value) buffer;
    encode st (rb_nodes value) buffer;
  decode st buffer :=
    '(st, index) ← decode (A:=Z) st buffer;
    '(st, nodes) ← decode (A:=Z) st buffer;
    Ok (st, mkRequestBlock index nodes);
}.

#[export] Instance request_seek_codec : Codec RequestSeek := {
  preencode st value := preencode st (rs_bytes value);
  encode st value buffer := encode st (rs_bytes value) buffer;
  decode st buffer :=
    '(st, bytes) ← decode (A:=Z) st buffer;
    Ok (st, mkRequestSeek bytes);
}.

#[export] Instance request_upgrade_codec : Codec RequestUpgrade := {
  preencode st value :=
    st ← preencode st (ru_start value);
    preencode st (ru_length value);
  encode st value buffer :=
    '(st, buffer) ← encode st (ru_start value) buffer;
    encode st (ru_length value) buffer;
  decode st buffer :=
    '(st, start) ← decode (A:=Z) st buffer;
    '(st, length) ← decode (A:=Z) st buffer;
    Ok (st, mkRequestUpgrade start length);
}.

(** ** Parts of a proof *)

#[export] Instance data_block_codec : Codec DataBlock := {
  preencode st value :=
    st ← preencode st (db_index value);
    st ← preencode st (db_value value);
    preencode st (db_nodes value);
  encode st value buffer :=
    '(st, buffer) ← encode st (db_index value) buffer;
    '(st, buffer) ← encode st (db_value value) buffer;
    encode st (db_nodes value) buffer;
  decode st buffer :=
    '(st, index) ← decode (A:=Z) st buffer;
    '(st, value) ← decode (A:=list Z) st buffer;
    '(st, nodes) ← decode (A:=list Node) st buffer;
    Ok (st, mkDataBlock index value nodes);
}.

#[export] Instance data_hash_codec : Codec DataHash := {
  preencode st value :=
    st ← preencode st (dh_index value);
    preencode st (dh_nodes value);
  encode st value buffer :=
    '(st, buffer) ← encode st (dh_index value) buffer;
    encode st (dh_nodes value) buffer;
  decode st buffer :=
    '(st, index) ← decode (A:=Z) st buffer;
    '(st, nodes) ← decode (A:=list Node) st buffer;
    Ok (st, mkDataHash index nodes);
}.

#[export] Instance data_seek_codec : Codec DataSeek := {
  preencode st value :=
    st ← preencode st (ds_bytes value);
    preencode st (ds_nodes value);
  encode st value buffer :=
    '(st, buffer) ← encode st (ds_bytes value) buffer;
    encode st (ds_nodes value) buffer;
  decode st buffer :=
    '(st, bytes) ← decode (A:=Z) st buffer;
    '(st, nodes) ← decode (A:=list Node) st buffer;
    Ok (st, mkDataSeek bytes nodes);
}.

#[export] Instance data_upgrade_codec : Codec DataUpgrade := {
  preencode st value :=
    st ← preencode st (du_start value);
    st ← preencode st (du_length value);
    st ← preencode st (du_nodes value);
    st ← preencode st (du_additional_nodes value);
    preencode st (du_signature value);
  encode st value buffer :=
    '(st, buffer) ← encode st (du_start value) buffer;
    '(st, buffer) ← encode st (du_length value) buffer;
    '(st, buffer) ← encode st (du_nodes value) buffer;
    '(st, buffer) ← encode st (du_additional_nodes value) buffer;
    encode st (du_signature value) buffer;
  decode st buffer :=
    '(st, start) ← decode (A:=Z) st buffer;
    '(st, length) ← decode (A:=Z) st buffer;
    '(st, nodes) ← decode (A:=list Node) st buffer;
    '(st, additional_nodes) ← decode (A:=list Node) st buffer;
    '(st, signature) ← decode (A:=list Z) st buffer;
    Ok (st, mkDataUpgrade start length nodes additional_nodes signature);
}.

(** ** Manifest codecs *)

#[export] Instance manifest_signer_codec : Codec ManifestSigner := {
  preencode st _ :=
    st ← st_add_end st 1;
    st ← preencode_fixed_32 st;
    preencode_fixed_32 st;
  encode st value buffer :=
    '(st, buffer) ←
      (if decide (ms_signature value = "ed25519") then st_set_byte_to_buffer st 0 buffer
       else Err InvalidData);
    '(st, buffer) ← encode_fixed_32 st (ms_namespace value) buffer;
    encode_fixed_32 st (ms_public_key value) buffer;
  decode st buffer :=
    '(st, signature_id) ← decode_u8 st buffer;
    signature ← (if negb (signature_id =? 0) then Err InvalidData else Ok "ed25519"%string);
    '(st, ns) ← decode_fixed_32 st buffer;
    namespace ← into_array32 ns;
    '(st, pk) ← decode_fixed_32 st buffer;
    public_key ← into_array32 pk;
    Ok (st, mkManifestSigner signature namespace public_key);
}.

#[export] Instance manifest_codec : Codec Manifest := {
  preencode st value :=
    st ← st_add_end st 1;
    st ← st_add_end st 1;
    st ← st_add_end st 1;
    preencode st (mf_signer value);
  encode st value buffer :=
    '(st, buffer) ← st_set_byte_to_buffer st 0 buffer;
    '(st, buffer) ←
      (if decide (mf_hash value = "blake2b") then st_set_byte_to_buffer st 0 buffer
       else Err InvalidData);
    '(st, buffer) ← st_set_byte_to_buffer st 1 buffer;
    encode st (mf_signer value) buffer;
  decode st buffer :=
    '(st, version) ← decode_u8 st buffer;
    if negb (version =? 0) then Panic
    else
      '(st, hash_id) ← decode_u8 st buffer;
      hash ← (if negb (hash_id =? 0) then Err InvalidData else Ok "blake2b"%string);
      '(st, manifest_type) ← decode_u8 st buffer;
      if negb (manifest_type =? 1) then Err InvalidData
      else
        '(st, signer) ← decode (A:=ManifestSigner) st buffer;
        Ok (st, mkManifest hash signer);
}.

End Codecs.

(** ** Formats *)

Section Formats.
Context `{FT : FlatTree} `{CE : CompactEncoding} {CL : CompactEncodingLaws CE}.

Definition node_bytes (n : Node) : list Z :=
  uint_bytes (node_index n) ++ uint_bytes (node_length n) ++ node_hash n.
Definition nodes_bytes (ns : list Node) : list Z :=
  uint_bytes (zlen ns) ++ concat (node_bytes <$> ns).
Definition request_block_bytes (r : RequestBlock) : list Z :=
  uint_bytes (rb_index r) ++ uint_bytes (rb_nodes r).
Definition request_seek_bytes (r : RequestSeek) : list Z := uint_bytes (rs_bytes r).
Definition request_upgrade_bytes (r : RequestUpgrade) : list Z :=
  uint_bytes (ru_start r) ++ uint_bytes (ru_length r).
Definition data_block_bytes (d : DataBlock) : list Z :=
  uint_bytes (db_index d) ++ buffer_bytes (db_value d) ++ nodes_bytes (db_nodes d).
Definition data_hash_bytes (d : DataHash) : list Z :=
  uint_bytes (dh_index d) ++ nodes_bytes (dh_nodes d).
Definition data_seek_bytes (d : DataSeek) : list Z :=
  uint_bytes (ds_bytes d) ++ nodes_bytes (ds_nodes d).
Definition data_upgrade_bytes (d : DataUpgrade) : list Z :=
  uint_bytes (du_start d) ++ uint_bytes (du_length d) ++ nodes_bytes (du_nodes d) ++
  nodes_bytes (du_additional_nodes d) ++ buffer_bytes (du_signature d).
Definition manifest_signer_bytes (m : ManifestSigner) : list Z :=
  [0] ++ ms_namespace m ++ ms_public_key m.
Definition manifest_bytes (m : Manifest) : list Z :=
  [0] ++ [0] ++ [1] ++ manifest_signer_bytes (mf_signer m).

(** A node as [Node::new] makes it, with a hash of 32 bytes: what survives the
    trip through the encoding. *)
Definition node_wf (n : Node) : Prop :=
  is_u64 (node_index n) /\ is_u64 (node_length n) /\ is_bytes32 (node_hash n) /\
  n = Node_new (node_index n) (node_hash n) (node_length n).
Definition nodes_wf (ns : list Node) : Prop := Forall node_wf ns /\ is_u64 (zlen ns).
Definition request_block_wf (r : RequestBlock) : Prop := is_u64 (rb_index r) /\ is_u64 (rb_nodes r).
Definition request_seek_wf (r : RequestSeek) : Prop := is_u64 (rs_bytes r).
Definition request_upgrade_wf (r : RequestUpgrade) : Prop := is_u64 (ru_start r) /\ is_u64 (ru_length r).
Definition data_block_wf (d : DataBlock) : Prop :=
  is_u64 (db_index d) /\ is_bytes (db_value d) /\ nodes_wf (db_nodes d).
Definition data_hash_wf (d : DataHash) : Prop := is_u64 (dh_index d) /\ nodes_wf (dh_nodes d).
Definition data_seek_wf (d : DataSeek) : Prop := is_u64 (ds_bytes d) /\ nodes_wf (ds_nodes d).
Definition data_upgrade_wf (d : DataUpgrade) : Prop :=
  is_u64 (du_start d) /\ is_u64 (du_length d) /\ nodes_wf (du_nodes d) /\
  nodes_wf (du_additional_nodes d) /\ is_bytes (du_signature d).
Definition manifest_signer_wf (m : ManifestSigner) : Prop :=
  ms_signature m = "ed25519"%string /\ is_bytes32 (ms_namespace m) /\ is_bytes32 (ms_public_key m).
Definition manifest_wf (m : Manifest) : Prop :=
  mf_hash m = "blake2b"%string /\ manifest_signer_wf (mf_signer m).

End Formats.

(** Chains of codecs: peel one primitive at a time. *)
Ltac codec_pre :=
  repeat (apply pre_ok_bind; [by eauto with codec|]); try by eauto with codec.
Ltac codec_enc :=
  repeat (apply enc_ok_bind; [by eauto with codec|]); try by eauto with codec.
Ltac codec_dec :=
  repeat (eapply dec_ok_bind; [by eauto with codec|]);
  first [ by eauto with codec | eapply dec_ok_last; [by eauto with codec|done] ].

Section Laws.
Context `{FT : FlatTree} `{CE : CompactEncoding} {CL : CompactEncodingLaws CE}.

#[export] Instance node_laws : CodecLaws Node node_wf node_bytes.
Proof.
  split; intros [index hash len par data blank] (Hi & Hl & Hh & Heq);
    unfold node_bytes; cbn [preencode encode decode node_codec node_index node_length node_hash] in *.
  - codec_pre. by apply preencode_fixed_32_law, Hh.
  - codec_enc.
  - rewrite Heq. codec_dec.
Qed.

Lemma preencode_nodes_ok ns :
  Forall node_wf ns -> pre_ok (fun st => preencode_nodes st ns) (concat (node_bytes <$> ns)).
Proof.
  induction 1 as [|n ns Hn _ IH]; cbn [preencode_nodes fmap list_fmap concat]; codec_pre.
Qed.

Lemma encode_nodes_ok ns :
  Forall node_wf ns -> enc_ok (fun st buf => encode_nodes st ns buf) (concat (node_bytes <$> ns)).
Proof.
  induction 1 as [|n ns Hn _ IH]; cbn [encode_nodes fmap list_fmap concat]; codec_enc.
Qed.

Lemma decode_nodes_ok ns :
  Forall node_wf ns -> dec_ok (decode_nodes (length ns)) (concat (node_bytes <$> ns)) ns.
Proof.
  induction 1 as [|n ns Hn _ IH]; cbn [decode_nodes length fmap list_fmap concat].
  - apply dec_ok_ret.
  - eapply dec_ok_bind; [by eauto with codec|]. by eapply dec_ok_last.
Qed.

#[export] Instance nodes_laws : CodecLaws (list Node) nodes_wf nodes_bytes.
Proof.
  split; intros ns [Hall Hlen]; unfold nodes_bytes; cbn [preencode encode decode nodes_codec].
  - codec_pre. by apply preencode_nodes_ok.
  - codec_enc. by apply encode_nodes_ok.
  - eapply dec_ok_bind; [by eauto with codec|]. unfold zlen. rewrite Nat2Z.id.
    by apply decode_nodes_ok.
Qed.

#[export] Instance request_block_laws :
  CodecLaws RequestBlock request_block_wf request_block_bytes.
Proof.
  split; intros [index nodes] [Hi Hn]; unfold request_block_bytes;
    cbn [preencode encode decode request_block_codec rb_index rb_nodes] in *.
  - codec_pre.
  - codec_enc.
  - codec_dec.
Qed.

#[export] Instance request_seek_laws : CodecLaws RequestSeek request_seek_wf request_seek_bytes.
Proof.
  split; intros [bytes] Hb; unfold request_seek_wf, request_seek_bytes in *;
    cbn [preencode encode decode request_seek_codec rs_bytes] in *.
  - codec_pre.
  - codec_enc.
  - codec_dec.
Qed.

#[export] Instance request_upgrade_laws :
  CodecLaws RequestUpgrade request_upgrade_wf request_upgrade_bytes.
Proof.
  split; intros [start len] [Hs Hl]; unfold request_upgrade_bytes;
    cbn [preencode encode decode request_upgrade_codec ru_start ru_length] in *.
  - codec_pre.
  - codec_enc.
  - codec_dec.
Qed.

#[export] Instance data_block_laws : CodecLaws DataBlock data_block_wf data_block_bytes.
Proof.
  split; intros [index value nodes] (Hi & Hv & Hn); unfold data_block_bytes;
    cbn [preencode encode decode data_block_codec db_index db_value db_nodes] in *.
  - codec_pre.
  - codec_enc.
  - codec_dec.
Qed.

#[export] Instance data_hash_laws : CodecLaws DataHash data_hash_wf data_hash_bytes.
Proof.
  split; intros [index nodes] (Hi & Hn); unfold data_hash_bytes;
    cbn [preencode encode decode data_hash_codec dh_index dh_nodes] in *.
  - codec_pre.
  - codec_enc.
  - codec_dec.
Qed.

#[export] Instance data_seek_laws : CodecLaws DataSeek data_seek_wf data_seek_bytes.
Proof.
  split; intros [bytes nodes] (Hi & Hn); unfold data_seek_bytes;
    cbn [preencode encode decode data_seek_codec ds_bytes ds_nodes] in *.
  - codec_pre.
  - codec_enc.
  - codec_dec.
Qed.

#[export] Instance data_upgrade_laws : CodecLaws DataUpgrade data_upgrade_wf data_upgrade_bytes.
Proof.
  split; intros [start len nodes extra sig] (Hs & Hl & Hn & He & Hsig); unfold data_upgrade_bytes;
    cbn [preencode encode decode data_upgrade_codec du_start du_length du_nodes
           du_additional_nodes du_signature] in *.
  - codec_pre.
  - codec_enc.
  - codec_dec.
Qed.

Lemma into_array32_Ok bs : is_bytes32 bs -> into_array32 bs = Ok bs.
Proof. intros [_ H]. unfold into_array32. by rewrite H. Qed.

#[export] Instance manifest_signer_laws :
  CodecLaws ManifestSigner manifest_signer_wf manifest_signer_bytes.
Proof.
  split; intros [sig ns pk] (Hs & Hns & Hpk); unfold manifest_signer_bytes;
    cbn [preencode encode decode manifest_signer_codec ms_signature ms_namespace ms_public_key] in *;
    subst sig.
  - apply pre_ok_bind; [apply (add_end_law [0])|].
    apply pre_ok_bind; apply preencode_fixed_32_law; [apply Hns|apply Hpk].
  - case_decide; [|done]. apply enc_ok_bind; [apply set_byte_law; unfold is_u8; lia|]. codec_enc.
  - eapply dec_ok_bind; [by eauto with codec|].
    eapply dec_ok_ext; [intros; cbn [negb Z.eqb]; rewrite bind_Ok; reflexivity|].
    eapply dec_ok_bind; [by eauto with codec|].
    eapply dec_ok_ext; [intros; rewrite into_array32_Ok, bind_Ok by done; reflexivity|].
    eapply dec_ok_last; [by eauto with codec|]. intros. by rewrite into_array32_Ok by done.
Qed.

#[export] Instance manifest_laws : CodecLaws Manifest manifest_wf manifest_bytes.
Proof.
  split; intros [hash signer] (Hh & Hs); unfold manifest_bytes;
    cbn [preencode encode decode manifest_codec mf_hash mf_signer] in *; subst hash.
  - do 3 (apply pre_ok_bind; [apply (add_end_law [0])|]). codec_pre.
  - case_decide; [|done].
    do 3 (apply enc_ok_bind; [apply set_byte_law; unfold is_u8; lia|]). codec_enc.
  - do 3 (eapply dec_ok_bind; [by eauto with codec|];
          eapply dec_ok_ext; [intros; cbn [negb Z.eqb Pos.eqb]; rewrite ?bind_Ok; reflexivity|]).
    codec_dec.
Qed.
End Laws.
