(* ===== verification/Crypto.v ===== *)
(** * Cryptography ([src/crypto])

    BLAKE2b and Ed25519 come from dependencies: they are parameters, with the
    properties the program relies on as laws.  The file models what the
    program hashes and signs, and the key pairs.  Hashing several [update]s is
    hashing their concatenation. *)

From stdpp Require Import base tactics numbers list strings.
From Stdlib Require Import ZArith Lia.
From S2P Require Import Prelude FlatTree Common CompactEncoding.
Open Scope Z_scope.

(** ** Dependencies *)

Class Blake2b := { blake2b256 : list Z -> list Z }.
Class Blake2bLaws (B : Blake2b) : Prop := { blake2b256_bytes m : is_bytes32 (blake2b256 m) }.

Definition PUBLIC_KEY_LENGTH : Z := 32.
Definition SECRET_KEY_LENGTH : Z := 32.
Definition SIGNATURE_LENGTH : Z := 64.

Class Ed25519 := {
  VerifyingKey : Type;
  SigningKey : Type;
  Signature : Type;
  vk_to_bytes : VerifyingKey -> list Z;
  vk_from_bytes : list Z -> option VerifyingKey;
  sk_to_bytes : SigningKey -> list Z;
  sk_from_bytes : list Z -> SigningKey;
  sk_verifying_key : SigningKey -> VerifyingKey;
  sig_to_bytes : Signature -> list Z;
  sig_try_from : list Z -> option Signature;
  ed_sign : SigningKey -> list Z -> Signature;
  ed_verify : VerifyingKey -> list Z -> Signature -> bool;
}.

Class Ed25519Laws (ED : Ed25519) : Prop := {
  vk_bytes32 k : is_bytes32 (vk_to_bytes k);
  vk_from_to k : vk_from_bytes (vk_to_bytes k) = Some k;
  sk_bytes32 k : is_bytes32 (sk_to_bytes k);
  sk_from_to k : sk_from_bytes (sk_to_bytes k) = k;
  sig_bytes s : Forall is_u8 (sig_to_bytes s) /\ zlen (sig_to_bytes s) = SIGNATURE_LENGTH;
  sig_from_to s : sig_try_from (sig_to_bytes s) = Some s;
  ed_verify_sign sk m : ed_verify (sk_verifying_key sk) m (ed_sign sk m) = true;
}.

(** [Result::expect] *)
Definition expect {E F A} (m : outcome E A) : outcome F A :=
  match m with
  | Ok a => Ok a
  | Err _ => Panic
  | Panic => Panic
  | Diverge => Diverge
  end.

Lemma expect_Ok {E F A} (a : A) : expect (E:=E) (F:=F) (Ok a) = Ok a.
Proof. reflexivity. Qed.

(** ** Key pairs ([key_pair.rs]) *)

Record PartialKeypair `{Ed25519} := mkKeypair {
  kp_public : VerifyingKey;
  kp_secret : option SigningKey;
}.

Definition sign `{Ed25519} (signing_key : SigningKey) (msg : list Z) : Signature :=
  ed_sign signing_key msg.

Definition verify `{Ed25519} (public : VerifyingKey) (msg : list Z) (sig : option Signature)
  : result unit :=
  match sig with
  | None => Err InvalidSignature
  | Some sig => if ed_verify public msg sig then Ok tt else Err InvalidSignature
  end.

(** ** Hashes ([hash.rs]) *)

Definition LEAF_TYPE : list Z := [0].
Definition PARENT_TYPE : list Z := [1].
Definition ROOT_TYPE : list Z := [2].

Definition TREE : list Z :=
  [0x9F; 0xAC; 0x70; 0xB5; 0xC; 0xA1; 0x4E; 0xFC; 0x4E; 0x91; 0xC8; 0x33; 0xB2; 0x4; 0xE7; 0x5B;
   0x8B; 0x5A; 0xAD; 0x8B; 0x58; 0x81; 0xBF; 0xC0; 0xAD; 0xB5; 0xEF; 0x38; 0xA3; 0x27; 0x5B; 0x9C].

Section Hashes.
Context `{FT : FlatTree} `{CE : CompactEncoding} `{B2 : Blake2b}.

(** [Hash::data] *)
Definition Hash_data (data : list Z) : result (list Z) :=
  let '(state, size) := st_new_with_size 8 in
  '(_, size) ← expect (encode_u64 state (zlen data) size);
  Ok (blake2b256 (LEAF_TYPE ++ size ++ data)).

(** [Hash::parent] *)
Definition Hash_parent (left right : Node) : result (list Z) :=
  let '(node1, node2) :=
    if node_index left <=? node_index right then (left, right) else (right, left) in
  let '(state, size) := st_new_with_size 8 in
  len ← node_length node1 +64 node_length node2;
  '(_, size) ← expect (encode_u64 state len size);
  Ok (blake2b256 (PARENT_TYPE ++ size ++ node_hash node1 ++ node_hash node2)).

(** The part of [Hash::tree]'s input one root adds. *)
Definition root_update (node : Node) : result (list Z) :=
  let '(state, buffer) := st_new_with_size 16 in
  '(state, buffer) ← expect (encode_u64 state (node_index node) buffer);
  '(_, buffer) ← expect (encode_u64 state (node_length node) buffer);
  b1 ← slice_range buffer 0 8;
  b2 ← slice_range buffer 8 (zlen buffer);
  Ok (node_hash node ++ b1 ++ b2).

Fixpoint roots_update (roots : list Node) : result (list Z) :=
  match roots with
  | [] => Ok []
  | node :: roots => u ← root_update node; us ← roots_update roots; Ok (u ++ us)
  end.

(** [Hash::tree] *)
Definition Hash_tree (roots : list Node) : result (list Z) :=
  us ← roots_update roots;
  Ok (blake2b256 (ROOT_TYPE ++ us)).

(** [signable_tree] *)
Definition signable_tree (hash : list Z) (length fork : Z) : result (list Z) :=
  let '(state, buffer) := st_new_with_size 80 in
  '(state, buffer) ← expect (encode_fixed_32 state TREE buffer);
  '(state, buffer) ← expect (encode_fixed_32 state hash buffer);
  '(state, buffer) ← expect (encode_u64 state length buffer);
  '(_, buffer) ← expect (encode_u64 state fork buffer);
  Ok buffer.

(** *** What is hashed and signed *)

Definition leaf_preimage (data : list Z) : list Z := [0] ++ le_bytes 8 (zlen data) ++ data.
Definition parent_preimage (n1 n2 : Node) : list Z :=
  [1] ++ le_bytes 8 (node_length n1 + node_length n2) ++ node_hash n1 ++ node_hash n2.
Definition root_part (n : Node) : list Z :=
  node_hash n ++ le_bytes 8 (node_index n) ++ le_bytes 8 (node_length n).
Definition tree_preimage (roots : list Node) : list Z := [2] ++ concat (root_part <$> roots).
Definition signable_bytes (hash : list Z) (length fork : Z) : list Z :=
  TREE ++ hash ++ le_bytes 8 length ++ le_bytes 8 fork.

Context {CL : CompactEncodingLaws CE}.

(** Encoding into a fresh buffer of exactly the right size. *)
Lemma fresh_encode f bs :
  enc_ok f bs ->
  exists st st', st_new_with_size (zlen bs) = (st, replicate (Z.to_nat (zlen bs)) 0) /\
    f st (replicate (Z.to_nat (zlen bs)) 0) = Ok (st', bs).
Proof.
  intros Hf. pose proof (zlen_nonneg bs).
  destruct (new_with_size_law (zlen bs)) as (st & Hn & Hs & He); [done|].
  destruct (Hf st (replicate (Z.to_nat (zlen bs)) 0)) as (st' & Hrun & _);
    [rewrite ?zlen_replicate; lia..|].
  exists st, st'. split; [done|]. rewrite Hrun, Hs, splice_all; [done|].
  rewrite zlen_replicate. lia.
Qed.

Lemma Hash_data_Ok data :
  zlen data < 2 ^ 64 -> Hash_data data = Ok (blake2b256 (leaf_preimage data)).
Proof.
  intros Hl. unfold Hash_data. pose proof (zlen_nonneg data).
  destruct (fresh_encode _ _ (encode_u64_law (zlen data) ltac:(unfold is_u64; lia)))
    as (st & st' & Hn & Hrun).
  rewrite zlen_le_bytes in Hn, Hrun. change (Z.of_nat 8) with 8 in *.
  rewrite Hn. by rewrite Hrun.
Qed.

Definition node_in_order (a b : Node) : Node * Node :=
  if node_index a <=? node_index b then (a, b) else (b, a).

Lemma Hash_parent_Ok a b :
  0 <= node_length a -> 0 <= node_length b -> node_length a + node_length b < 2 ^ 64 ->
  Hash_parent a b =
    Ok (blake2b256 (parent_preimage (node_in_order a b).1 (node_in_order a b).2)).
Proof.
  intros Ha Hb Hl. unfold Hash_parent, node_in_order, parent_preimage.
  destruct (node_index a <=? node_index b); cbn [fst snd].
  all: match goal with |- context [node_length ?x +64 node_length ?y] =>
         destruct (fresh_encode _ _ (encode_u64_law (node_length x + node_length y)
           ltac:(unfold is_u64; lia))) as (st & st' & Hn & Hrun) end;
    rewrite zlen_le_bytes in Hn, Hrun; change (Z.of_nat 8) with 8 in *;
    rewrite Hn; checked; by rewrite Hrun.
Qed.

Lemma root_update_Ok n :
  is_u64 (node_index n) -> is_u64 (node_length n) -> root_update n = Ok (root_part n).
Proof.
  intros Hi Hl. unfold root_update.
  destruct (new_with_size_law 16) as (st & -> & Hs & He); [lia|].
  destruct (encode_u64_law (node_index n) Hi st (replicate (Z.to_nat 16) 0)) as (st1 & -> & Hs1 & He1);
    [rewrite ?zlen_le_bytes, ?zlen_replicate; lia..|]. rewrite expect_Ok, bind_Ok, Hs.
  rewrite zlen_le_bytes in Hs1.
  destruct (encode_u64_law (node_length n) Hl st1
     (splice (replicate (Z.to_nat 16) 0) 0 (le_bytes 8 (node_index n)))) as (st2 & -> & _);
    [rewrite ?zlen_splice; rewrite ?zlen_le_bytes, ?zlen_replicate; lia..|].
  rewrite expect_Ok, bind_Ok, Hs1, Hs.
  replace (0 + Z.of_nat 8) with (0 + zlen (le_bytes 8 (node_index n))) by (by rewrite zlen_le_bytes).
  rewrite splice_splice by (rewrite ?zlen_le_bytes, ?zlen_replicate; lia).
  rewrite splice_all by (rewrite ?zlen_app, ?zlen_le_bytes, ?zlen_replicate; lia).
  unfold slice_range. rewrite zlen_app, !zlen_le_bytes. cbn [Z.of_nat]. cbn -[slice].
  reflexivity.
Qed.

Lemma Hash_tree_Ok roots :
  Forall (fun n => is_u64 (node_index n) /\ is_u64 (node_length n)) roots ->
  Hash_tree roots = Ok (blake2b256 (tree_preimage roots)).
Proof.
  intros Hall. unfold Hash_tree.
  assert (roots_update roots = Ok (concat (root_part <$> roots))) as ->; [|done].
  induction Hall as [|n roots [? ?] _ IH]; [done|]. cbn [roots_update].
  rewrite root_update_Ok, bind_Ok, IH by done. done.
Qed.

Lemma signable_tree_Ok hash length fork :
  is_bytes32 hash -> is_u64 length -> is_u64 fork ->
  signable_tree hash length fork = Ok (signable_bytes hash length fork).
Proof.
  intros Hh Hl Hf. unfold signable_tree.
  assert (is_bytes32 TREE) as HT.
  { split; [|done]. unfold TREE. repeat constructor; unfold is_u8; lia. }
  destruct (new_with_size_law 80) as (st & -> & Hs & He); [lia|].
  assert (enc_ok (fun st buf => '(st, buf) ← encode_fixed_32 st TREE buf;
    '(st, buf) ← encode_fixed_32 st hash buf; '(st, buf) ← encode_u64 st length buf;
    encode_u64 st fork buf) (signable_bytes hash length fork)) as Henc.
  { unfold signable_bytes. repeat (apply enc_ok_bind; [by eauto with codec|]). by eauto with codec. }
  assert (zlen (signable_bytes hash length fork) = 80) as Hz.
  { unfold signable_bytes. rewrite !zlen_app, !zlen_le_bytes. destruct Hh as [_ ->].
    destruct HT as [_ ->]. done. }
  destruct (Henc st (replicate (Z.to_nat 80) 0)) as (st' & Hrun & _);
    [rewrite ?Hz, ?zlen_replicate; lia..|].
  rewrite Hs, splice_all in Hrun by (rewrite Hz, zlen_replicate; lia).
  destruct (encode_fixed_32 st TREE _) as [[st1 b1]| | |]; try done. rewrite bind_Ok in Hrun.
  rewrite expect_Ok, bind_Ok. destruct (encode_fixed_32 st1 hash b1) as [[st2 b2]| | |]; try done.
  rewrite bind_Ok in Hrun. rewrite expect_Ok, bind_Ok.
  destruct (encode_u64 st2 length b2) as [[st3 b3]| | |]; try done. rewrite bind_Ok in Hrun.
  rewrite expect_Ok, bind_Ok, Hrun. done.
Qed.

End Hashes.
