(* ===== verification/OplogEntry.v ===== *)
(** * Oplog entries and headers ([src/oplog/entry.rs], [src/oplog/header.rs])

    The records the oplog stores, and their codecs with the byte formats they
    implement. *)

From stdpp Require Import base tactics numbers list strings.
From Stdlib Require Import ZArith Lia Bool.
From S2P Require Import Prelude FlatTree Common CompactEncoding Encoding Crypto.
Open Scope Z_scope.

(** ** Entries *)

Record EntryTreeUpgrade := mkEntryTreeUpgrade {
  etu_fork : Z;
  etu_ancestors : Z;
  etu_length : Z;
  etu_signature : list Z;
}.

Record Entry := mkEntry {
  en_user_data : list string;
  en_tree_nodes : list Node;
  en_tree_upgrade : option EntryTreeUpgrade;
  en_bitfield : option BitfieldUpdate;
}.

Definition is_empty {A} (l : list A) : bool := match l with [] => true | _ => false end.

(** ** Headers *)

Record HeaderTree := mkHeaderTree {
  ht_fork : Z;
  ht_length : Z;
  ht_root_hash : list Z;
  ht_signature : list Z;
}.

Definition HeaderTree_new : HeaderTree := mkHeaderTree 0 0 [] [].

Record HeaderHints := mkHeaderHints {
  hh_reorgs : list string;
  hh_contiguous_length : Z;
}.

Record Header `{Ed25519} := mkHeader {
  hd_key : list Z;
  hd_manifest : Manifest;
  hd_key_pair : PartialKeypair;
  hd_user_data : list string;
  hd_tree : HeaderTree;
  hd_hints : HeaderHints;
}.

Section Codecs.
Context `{FT : FlatTree} `{CE : CompactEncoding} `{ED : Ed25519}.

#[export] Instance entry_tree_upgrade_codec : Codec EntryTreeUpgrade := {
  preencode st value :=
    st ← preencode st (etu_fork value);
    st ← preencode st (etu_ancestors value);
    st ← preencode st (etu_length value);
    preencode st (etu_signature value);
  encode st value buffer :=
    '(st, buffer) ← encode st (etu_fork value) buffer;
    '(st, buffer) ← encode st (etu_ancestors value) buffer;
    '(st, buffer) ← encode st (etu_length value) buffer;
    encode st (etu_signature value) buffer;
  decode st buffer :=
    '(st, fork) ← decode (A:=Z) st buffer;
    '(st, ancestors) ← decode (A:=Z) st buffer;
    '(st, length) ← decode (A:=Z) st buffer;
    '(st, signature) ← decode (A:=list Z) st buffer;
    Ok (st, mkEntryTreeUpgrade fork ancestors length signature);
}.

#[export] Instance bitfield_update_codec : Codec BitfieldUpdate := {
  preencode st value :=
    st ← st_add_end st 1;
    st ← preencode st (bu_start value);
    preencode st (bu_length value);
  encode st value buffer :=
    let flags := if bu_drop value then 1 else 0 in
    '(st, buffer) ← st_set_byte_to_buffer st flags buffer;
    '(st, buffer) ← encode st (bu_start value) buffer;
    encode st (bu_length value) buffer;
  decode st buffer :=
    '(st, flags) ← decode_u8 st buffer;
    '(st, start) ← decode (A:=Z) st buffer;
    '(st, length) ← decode (A:=Z) st buffer;
    Ok (st, mkBitfieldUpdate (flags =? 1) start length);
}.

(** The flag byte that [encode] collects while it writes the parts. *)
Definition entry_flags (value : Entry) : Z :=
  let flags := 0 in
  let flags := if negb (is_empty (en_user_data value)) then Z.lor flags 1 else flags in
  let flags := if negb (is_empty (en_tree_nodes value)) then Z.lor flags 2 else flags in
  let flags := match en_tree_upgrade value with Some _ => Z.lor flags 4 | None => flags end in
  match en_bitfield value with Some _ => Z.lor flags 8 | None => flags end.

#[export] Instance entry_codec : Codec Entry := {
  preencode st value :=
    st ← st_add_end st 1;
    st ← (if negb (is_empty (en_user_data value)) then preencode st (en_user_data value) else Ok st);
    st ← (if negb (is_empty (en_tree_nodes value)) then preencode st (en_tree_nodes value) else Ok st);
    st ← match en_tree_upgrade value with
         | Some tree_upgrade => preencode st tree_upgrade
         | None => Ok st
         end;
    match en_bitfield value with
    | Some bitfield => preencode st bitfield
    | None => Ok st
    end;
  encode st value buffer :=
    let start := st_start st in
    st ← st_add_start st 1;
    '(st, buffer) ←
      (if negb (is_empty (en_user_data value)) then encode st (en_user_data value) buffer
       else Ok (st, buffer));
    '(st, buffer) ←
      (if negb (is_empty (en_tree_nodes value)) then encode st (en_tree_nodes value) buffer
       else Ok (st, buffer));
    '(st, buffer) ←
      match en_tree_upgrade value with
      | Some tree_upgrade => encode st tree_upgrade buffer
      | None => Ok (st, buffer)
      end;
    '(st, buffer) ←
      match en_bitfield value with
      | Some bitfield => encode st bitfield buffer
      | None => Ok (st, buffer)
      end;
    buffer ← index_set buffer start (entry_flags value);
    Ok (st, buffer);
  decode st buffer :=
    '(st, flags) ← decode_u8 st buffer;
    '(st, user_data) ←
      (if negb (Z.land flags 1 =? 0) then decode (A:=list string) st buffer else Ok (st, []));
    '(st, tree_nodes) ←
      (if negb (Z.land flags 2 =? 0) then decode (A:=list Node) st buffer else Ok (st, []));
    '(st, tree_upgrade) ←
      (if negb (Z.land flags 4 =? 0) then
         '(st, value) ← decode (A:=EntryTreeUpgrade) st buffer; Ok (st, Some value)
       else Ok (st, None));
    '(st, bitfield) ←
      (if negb (Z.land flags 8 =? 0) then
         '(st, value) ← decode (A:=BitfieldUpdate) st buffer; Ok (st, Some value)
       else Ok (st, None));
    Ok (st, mkEntry user_data tree_nodes tree_upgrade bitfield);
}.

#[export] Instance header_tree_codec : Codec HeaderTree := {
  preencode st value :=
    st ← preencode st (ht_fork value);
    st ← preencode st (ht_length value);
    st ← preencode st (ht_root_hash value);
    preencode st (ht_signature value);
  encode st value buffer :=
    '(st, buffer) ← encode st (ht_fork value) buffer;
    '(st, buffer) ← encode st (ht_length value) buffer;
    '(st, buffer) ← encode st (ht_root_hash value) buffer;
    encode st (ht_signature value) buffer;
  decode st buffer :=
    '(st, fork) ← decode (A:=Z) st buffer;
    '(st, length) ← decode (A:=Z) st buffer;
    '(st, root_hash) ← decode (A:=list Z) st buffer;
    '(st, signature) ← decode (A:=list Z) st buffer;
    Ok (st, mkHeaderTree fork length root_hash signature);
}.

#[export] Instance partial_keypair_codec : Codec PartialKeypair := {
  preencode st value :=
    st ← st_add_end st (1 + PUBLIC_KEY_LENGTH);
    match kp_secret value with
    | Some _ => st_add_end st (1 + SECRET_KEY_LENGTH + PUBLIC_KEY_LENGTH)
    | None => st_add_end st 1
    end;
  encode st value buffer :=
    let public_key_bytes := vk_to_bytes (kp_public value) in
    '(st, buffer) ← encode st public_key_bytes buffer;
    match kp_secret value with
    | Some secret_key => encode st (sk_to_bytes secret_key ++ public_key_bytes) buffer
    | None => st_set_byte_to_buffer st 0 buffer
    end;
  decode st buffer :=
    '(st, public_key_bytes) ← decode (A:=list Z) st buffer;
    public_key_bytes ← slice_range public_key_bytes 0 PUBLIC_KEY_LENGTH;
    '(st, secret_key_bytes) ← decode (A:=list Z) st buffer;
    secret ←
      (if is_empty secret_key_bytes then Ok None
       else
         secret_key_bytes ← slice_range secret_key_bytes 0 SECRET_KEY_LENGTH;
         Ok (Some (sk_from_bytes secret_key_bytes)));
    public ← unwrap (vk_from_bytes public_key_bytes);
    Ok (st, mkKeypair _ public secret);
}.

#[export] Instance header_hints_codec : Codec HeaderHints := {
  preencode st value :=
    st ← preencode st (hh_reorgs value);
    preencode st (hh_contiguous_length value);
  encode st value buffer :=
    '(st, buffer) ← encode st (hh_reorgs value) buffer;
    encode st (hh_contiguous_length value) buffer;
  decode st buffer :=
    '(st, reorgs) ← decode (A:=list string) st buffer;
    '(st, contiguous_length) ← decode (A:=Z) st buffer;
    Ok (st, mkHeaderHints reorgs contiguous_length);
}.

#[export] Instance header_codec : Codec Header := {
  preencode st value :=
    st ← st_add_end st 1;
    st ← st_add_end st 1;
    st ← preencode_fixed_32 st;
    st ← preencode st (hd_manifest value);
    st ← preencode st (hd_key_pair value);
    st ← preencode st (hd_user_data value);
    st ← preencode st (hd_tree value);
    preencode st (hd_hints value);
  encode st value buffer :=
    '(st, buffer) ← st_set_byte_to_buffer st 1 buffer;
    let flags := Z.lor 2 4 in
    '(st, buffer) ← st_set_byte_to_buffer st flags buffer;
    '(st, buffer) ← encode_fixed_32 st (hd_key value) buffer;
    '(st, buffer) ← encode st (hd_manifest value) buffer;
    '(st, buffer) ← encode st (hd_key_pair value) buffer;
    '(st, buffer) ← encode st (hd_user_data value) buffer;
    '(st, buffer) ← encode st (hd_tree value) buffer;
    encode st (hd_hints value) buffer;
  decode st buffer :=
    '(st, version) ← decode_u8 st buffer;
    if negb (version =? 1) then Panic
    else
      '(st, _flags) ← decode_u8 st buffer;
      '(st, k) ← decode_fixed_32 st buffer;
      key ← into_array32 k;
      '(st, manifest) ← decode (A:=Manifest) st buffer;
      '(st, key_pair) ← decode (A:=PartialKeypair) st buffer;
      '(st, user_data) ← decode (A:=list string) st buffer;
      '(st, tree) ← decode (A:=HeaderTree) st buffer;
      '(st, hints) ← decode (A:=HeaderHints) st buffer;
      Ok (st, mkHeader _ key manifest key_pair user_data tree hints);
}.

(** [Header::new] *)
Definition Header_new (key_pair : PartialKeypair) : Header :=
  let key := vk_to_bytes (kp_public key_pair) in
  mkHeader _ key (default_signer_manifest key) key_pair [] HeaderTree_new (mkHeaderHints [] 0).

End Codecs.

(** ** Formats *)

Section Formats.
Context `{FT : FlatTree} `{CE : CompactEncoding} {CL : CompactEncodingLaws CE} `{ED : Ed25519}.

Definition entry_tree_upgrade_bytes (u : EntryTreeUpgrade) : list Z :=
  uint_bytes (etu_fork u) ++ uint_bytes (etu_ancestors u) ++ uint_bytes (etu_length u) ++
  buffer_bytes (etu_signature u).
Definition bitfield_update_bytes (u : BitfieldUpdate) : list Z :=
  [if bu_drop u then 1 else 0] ++ uint_bytes (bu_start u) ++ uint_bytes (bu_length u).
Definition opt_bytes {A} (f : A -> list Z) (o : option A) : list Z :=
  match o with Some a => f a | None => [] end.
Definition entry_body_bytes (e : Entry) : list Z :=
  (if negb (is_empty (en_user_data e)) then strings_bytes (en_user_data e) else []) ++
  (if negb (is_empty (en_tree_nodes e)) then nodes_bytes (en_tree_nodes e) else []) ++
  opt_bytes entry_tree_upgrade_bytes (en_tree_upgrade e) ++
  opt_bytes bitfield_update_bytes (en_bitfield e).
Definition entry_bytes (e : Entry) : list Z := [entry_flags e] ++ entry_body_bytes e.
Definition header_tree_bytes (t : HeaderTree) : list Z :=
  uint_bytes (ht_fork t) ++ uint_bytes (ht_length t) ++ buffer_bytes (ht_root_hash t) ++
  buffer_bytes (ht_signature t).
Definition partial_keypair_bytes (k : PartialKeypair) : list Z :=
  let pk := vk_to_bytes (kp_public k) in
  ([32] ++ pk) ++
  match kp_secret k with Some sk => [64] ++ sk_to_bytes sk ++ pk | None => [0] end.
Definition header_hints_bytes (h : HeaderHints) : list Z :=
  strings_bytes (hh_reorgs h) ++ uint_bytes (hh_contiguous_length h).
Definition header_bytes (h : Header) : list Z :=
  [1] ++ [6] ++ hd_key h ++ manifest_bytes (hd_manifest h) ++
  partial_keypair_bytes (hd_key_pair h) ++ strings_bytes (hd_user_data h) ++
  header_tree_bytes (hd_tree h) ++ header_hints_bytes (hd_hints h).

Definition entry_tree_upgrade_wf (u : EntryTreeUpgrade) : Prop :=
  is_u64 (etu_fork u) /\ is_u64 (etu_ancestors u) /\ is_u64 (etu_length u) /\
  is_bytes (etu_signature u).
Definition bitfield_update_wf (u : BitfieldUpdate) : Prop :=
  is_u64 (bu_start u) /\ is_u64 (bu_length u).
Definition opt_wf {A} (P : A -> Prop) (o : option A) : Prop :=
  match o with Some a => P a | None => True end.
Definition entry_wf (e : Entry) : Prop :=
  is_strings (en_user_data e) /\ nodes_wf (en_tree_nodes e) /\
  opt_wf entry_tree_upgrade_wf (en_tree_upgrade e) /\ opt_wf bitfield_update_wf (en_bitfield e).
Definition header_tree_wf (t : HeaderTree) : Prop :=
  is_u64 (ht_fork t) /\ is_u64 (ht_length t) /\ is_bytes (ht_root_hash t) /\
  is_bytes (ht_signature t).
Definition header_hints_wf (h : HeaderHints) : Prop :=
  is_strings (hh_reorgs h) /\ is_u64 (hh_contiguous_length h).
Definition header_wf (h : Header) : Prop :=
  is_bytes32 (hd_key h) /\ manifest_wf (hd_manifest h) /\ is_strings (hd_user_data h) /\
  header_tree_wf (hd_tree h) /\ header_hints_wf (hd_hints h).

End Formats.

Section Laws.
Context `{FT : FlatTree} `{CE : CompactEncoding} {CL : CompactEncodingLaws CE}
  `{ED : Ed25519} {EL : Ed25519Laws ED}.

#[export] Instance entry_tree_upgrade_laws :
  CodecLaws EntryTreeUpgrade entry_tree_upgrade_wf entry_tree_upgrade_bytes.
Proof.
  split; intros [fork anc len sig] (Hf & Ha & Hl & Hs); unfold entry_tree_upgrade_bytes;
    cbn [preencode encode decode entry_tree_upgrade_codec etu_fork etu_ancestors etu_length
           etu_signature] in *.
  - codec_pre.
  - codec_enc.
  - codec_dec.
Qed.

#[export] Instance header_tree_laws : CodecLaws HeaderTree header_tree_wf header_tree_bytes.
Proof.
  split; intros [fork len hash sig] (Hf & Hl & Hh & Hs); unfold header_tree_bytes;
    cbn [preencode encode decode header_tree_codec ht_fork ht_length ht_root_hash ht_signature] in *.
  - codec_pre.
  - codec_enc.
  - codec_dec.
Qed.

#[export] Instance header_hints_laws : CodecLaws HeaderHints header_hints_wf header_hints_bytes.
Proof.
  split; intros [reorgs len] (Hr & Hl); unfold header_hints_bytes;
    cbn [preencode encode decode header_hints_codec hh_reorgs hh_contiguous_length] in *.
  - codec_pre.
  - codec_enc.
  - codec_dec.
Qed.

#[export] Instance bitfield_update_laws :
  CodecLaws BitfieldUpdate bitfield_update_wf bitfield_update_bytes.
Proof.
  split; intros [drop start len] (Hs & Hl); unfold bitfield_update_bytes;
    cbn [preencode encode decode bitfield_update_codec bu_drop bu_start bu_length] in *.
  - apply pre_ok_bind; [apply (add_end_law [_])|]. codec_pre.
  - apply enc_ok_bind; [apply set_byte_law; unfold is_u8; destruct drop; lia|]. codec_enc.
  - do 2 (eapply dec_ok_bind; [by eauto with codec|]).
    eapply dec_ok_last; [by eauto with codec|]. intros. by destruct drop.
Qed.

(** *** Key pairs *)

Lemma buffer_bytes_small bs : zlen bs <= 252 -> buffer_bytes bs = [zlen bs] ++ bs.
Proof. intros. unfold buffer_bytes. rewrite uint_bytes_small; [done|]. pose proof (zlen_nonneg bs). lia. Qed.

Lemma add_end_n n bs : zlen bs = n -> pre_ok (fun st => st_add_end st n) bs.
Proof. intros <-. apply add_end_law. Qed.

Lemma vk_buffer k : buffer_bytes (vk_to_bytes k) = [32] ++ vk_to_bytes k.
Proof. destruct (vk_bytes32 k) as [_ Hz]. rewrite buffer_bytes_small by lia. by rewrite Hz. Qed.

Lemma sk_buffer sk k :
  buffer_bytes (sk_to_bytes sk ++ vk_to_bytes k) = [64] ++ sk_to_bytes sk ++ vk_to_bytes k.
Proof.
  destruct (vk_bytes32 k) as [_ Hz], (sk_bytes32 sk) as [_ Hz'].
  rewrite buffer_bytes_small; rewrite zlen_app, Hz, Hz'; [done|lia].
Qed.

Lemma vk_is_bytes k : is_bytes (vk_to_bytes k).
Proof. destruct (vk_bytes32 k). split; [done|lia]. Qed.

Lemma sk_is_bytes sk k : is_bytes (sk_to_bytes sk ++ vk_to_bytes k).
Proof.
  destruct (vk_bytes32 k), (sk_bytes32 sk).
  split; [by apply Forall_app|]. rewrite zlen_app. lia.
Qed.

Lemma slice_range_prefix {E A} (l1 l2 : list A) n :
  zlen l1 = n -> slice_range (E:=E) (l1 ++ l2) 0 n = Ok l1.
Proof.
  intros <-. unfold slice_range. pose proof (zlen_nonneg l1). pose proof (zlen_nonneg l2).
  rewrite zlen_app, !(proj2 (Z.leb_le _ _)) by lia. rewrite Z.sub_0_r. cbn [andb].
  by rewrite slice_app_here.
Qed.

Lemma slice_range_all {E A} (l : list A) n : zlen l = n -> slice_range (E:=E) l 0 n = Ok l.
Proof. intros. rewrite <-(app_nil_r l) at 1. by apply slice_range_prefix. Qed.

#[export] Instance partial_keypair_laws :
  CodecLaws PartialKeypair (fun _ => True) partial_keypair_bytes.
Proof.
  split; intros [pk sk] _; unfold partial_keypair_bytes;
    cbn [preencode encode decode partial_keypair_codec kp_public kp_secret];
    destruct (vk_bytes32 pk) as [_ Hpk].
  - apply pre_ok_bind; [apply add_end_n; rewrite zlen_app, Hpk; done|].
    destruct sk as [sk|]; apply add_end_n; [|done].
    destruct (sk_bytes32 sk) as [_ Hsk]. by rewrite !zlen_app, Hpk, Hsk.
  - rewrite <-vk_buffer. apply enc_ok_bind; [apply codec_enc, vk_is_bytes|].
    destruct sk as [sk|]; [|apply set_byte_law; unfold is_u8; lia].
    rewrite <-sk_buffer. apply codec_enc, sk_is_bytes.
  - rewrite <-vk_buffer. eapply dec_ok_bind; [apply codec_dec, vk_is_bytes|].
    eapply dec_ok_ext; [intros; rewrite slice_range_all, bind_Ok by exact Hpk; reflexivity|].
    destruct sk as [sk|].
    + rewrite <-sk_buffer. eapply dec_ok_last; [apply codec_dec, sk_is_bytes|]. intros.
      destruct (sk_bytes32 sk) as [_ Hsk].
      destruct (sk_to_bytes sk ++ vk_to_bytes pk) as [|b bs] eqn:He.
      { apply app_eq_nil in He as [He _]. rewrite He in Hsk. discriminate. }
      cbn [is_empty]. rewrite <-He, slice_range_prefix, bind_Ok by exact Hsk.
      by rewrite sk_from_to, bind_Ok, vk_from_to.
    + change [0] with ([zlen (@nil Z)] ++ []). rewrite <-buffer_bytes_small by done.
      eapply dec_ok_last; [apply codec_dec; split; [constructor|done]|].
      intros. cbn [is_empty]. by rewrite bind_Ok, vk_from_to.
Qed.

(** *** Entries: the flag byte is written last *)

Lemma enc_ok_backpatch f body x :
  enc_ok f body ->
  enc_ok (fun st buf =>
    st' ← st_add_start st 1; '(st', buf) ← f st' buf;
    buf ← index_set buf (st_start st) x; Ok (st', buf)) ([x] ++ body).
Proof.
  intros Hf st buf Hs He Hb. rewrite zlen_app in *. change (zlen [x]) with 1 in *.
  pose proof (zlen_nonneg body).
  destruct (add_start_law st 1) as (st1 & -> & Hs1 & He1); [lia..|]. rewrite bind_Ok.
  destruct (Hf st1 buf) as (st2 & -> & Hs2 & He2); [lia..|]. rewrite bind_Ok.
  rewrite index_set_splice by (rewrite zlen_splice; lia). rewrite bind_Ok.
  exists st2. split_and!; [|lia..]. rewrite Hs1. do 2 f_equal.
  apply list_eq. intros k.
  rewrite !lookup_splice by (rewrite ?zlen_splice, ?zlen_app; change (zlen [x]) with 1; lia).
  rewrite zlen_app. change (zlen [x]) with 1. repeat case_decide; try lia; try done.
  - replace (k - Z.to_nat (st_start st))%nat with 0%nat by lia. done.
  - rewrite lookup_app_r by (cbn; lia). f_equal. cbn. lia.
Qed.

Definition flag_bits (b1 b2 b3 b4 : bool) : Z :=
  Z.b2z b1 + 2 * Z.b2z b2 + 4 * Z.b2z b3 + 8 * Z.b2z b4.
Definition is_some {A} (o : option A) : bool := match o with Some _ => true | None => false end.

Lemma entry_flags_bits e :
  entry_flags e = flag_bits (negb (is_empty (en_user_data e))) (negb (is_empty (en_tree_nodes e)))
                    (is_some (en_tree_upgrade e)) (is_some (en_bitfield e)).
Proof.
  unfold entry_flags.
  by destruct (is_empty (en_user_data e)), (is_empty (en_tree_nodes e)), (en_tree_upgrade e),
    (en_bitfield e).
Qed.

Lemma flag_bits_test b1 b2 b3 b4 :
  let f := flag_bits b1 b2 b3 b4 in
  negb (Z.land f 1 =? 0) = b1 /\ negb (Z.land f 2 =? 0) = b2 /\
  negb (Z.land f 4 =? 0) = b3 /\ negb (Z.land f 8 =? 0) = b4.
Proof. by destruct b1, b2, b3, b4. Qed.

Lemma entry_flags_u8 e : is_u8 (entry_flags e).
Proof.
  rewrite entry_flags_bits. unfold flag_bits, is_u8.
  destruct (negb _), (negb _), (is_some _), (is_some _); cbn; lia.
Qed.

(** The optional parts, decoded under their flag. *)
Lemma dec_ok_list {A} `{!Codec (list A)} {wf bytes} `{!CodecLaws (list A) wf bytes} (l : list A) :
  wf l ->
  dec_ok (fun st buf => if negb (is_empty l) then decode st buf else Ok (st, []))
    (if negb (is_empty l) then bytes l else []) l.
Proof. intros Hl. destruct l; [apply dec_ok_ret|by apply codec_dec]. Qed.

Lemma dec_ok_option `{!Codec A} {wf bytes} `{!CodecLaws A wf bytes} (o : option A) :
  opt_wf wf o ->
  dec_ok (fun st buf => if is_some o then '(st, value) ← decode st buf; Ok (st, Some value)
                        else Ok (st, None))
    (opt_bytes bytes o) o.
Proof.
  intros Ho. destruct o as [a|]; [|apply dec_ok_ret]. cbn [is_some opt_bytes].
  eapply dec_ok_last; [by apply codec_dec|]. done.
Qed.

#[export] Instance entry_laws : CodecLaws Entry entry_wf entry_bytes.
Proof.
  split; intros e (Hu & Hn & Ht & Hb); unfold entry_bytes;
    cbn [preencode encode decode entry_codec].
  - apply pre_ok_bind; [apply (add_end_law [_])|]. unfold entry_body_bytes.
    do 2 (apply pre_ok_bind; [apply pre_ok_if; by eauto with codec|]).
    apply pre_ok_bind; [destruct (en_tree_upgrade e); cbn [opt_bytes]; [by apply codec_pre|apply pre_ok_nil]|].
    destruct (en_bitfield e); cbn [opt_bytes]; [by apply codec_pre|apply pre_ok_nil].
  - eapply enc_ok_ext; [|apply (enc_ok_backpatch
      (fun st buf =>
        '(st, buf) ← (if negb (is_empty (en_user_data e)) then encode st (en_user_data e) buf
                      else Ok (st, buf));
        '(st, buf) ← (if negb (is_empty (en_tree_nodes e)) then encode st (en_tree_nodes e) buf
                      else Ok (st, buf));
        '(st, buf) ← match en_tree_upgrade e with
                     | Some u => encode st u buf | None => Ok (st, buf) end;
        match en_bitfield e with Some u => encode st u buf | None => Ok (st, buf) end))].
    + intros. cbn beta zeta. destruct (st_add_start st 1); try done. rewrite !bind_Ok.
      rewrite !bind_assoc. destruct (if negb (is_empty (en_user_data e)) then _ else _)
        as [[? ?]| | |]; try done. rewrite !bind_Ok, !bind_assoc.
      destruct (if negb (is_empty (en_tree_nodes e)) then _ else _) as [[? ?]| | |]; try done.
      rewrite !bind_Ok, !bind_assoc. destruct (match en_tree_upgrade e with Some _ => _ | _ => _ end)
        as [[? ?]| | |]; try done.
    + unfold entry_body_bytes.
      do 2 (apply enc_ok_bind; [apply enc_ok_if; by eauto with codec|]).
      apply enc_ok_bind; [destruct (en_tree_upgrade e); cbn [opt_bytes]; [by apply codec_enc|apply enc_ok_nil]|].
      destruct (en_bitfield e); cbn [opt_bytes]; [by apply codec_enc|apply enc_ok_nil].
  - eapply dec_ok_bind; [apply decode_u8_law|]. rewrite entry_flags_bits.
    destruct (flag_bits_test (negb (is_empty (en_user_data e))) (negb (is_empty (en_tree_nodes e)))
                (is_some (en_tree_upgrade e)) (is_some (en_bitfield e))) as (-> & -> & -> & ->).
    unfold entry_body_bytes.
    do 2 (eapply dec_ok_bind; [by apply dec_ok_list|]).
    eapply dec_ok_bind; [by apply dec_ok_option|].
    eapply dec_ok_last; [by apply dec_ok_option|]. by destruct e.
Qed.

#[export] Instance header_laws : CodecLaws Header header_wf header_bytes.
Proof.
  split; intros [key mf kp ud tree hints] (Hk & Hm & Hu & Ht & Hh); unfold header_bytes;
    cbn [preencode encode decode header_codec hd_key hd_manifest hd_key_pair hd_user_data
           hd_tree hd_hints] in *.
  - do 2 (apply pre_ok_bind; [apply (add_end_law [_])|]).
    apply pre_ok_bind; [apply preencode_fixed_32_law, Hk|]. codec_pre.
  - do 2 (apply enc_ok_bind; [apply set_byte_law; unfold is_u8; cbn; lia|]). codec_enc.
  - eapply dec_ok_bind; [apply decode_u8_law|]. cbn [negb Z.eqb Pos.eqb].
    eapply dec_ok_bind; [apply decode_u8_law|].
    eapply dec_ok_bind; [by eauto with codec|].
    eapply dec_ok_ext; [intros; rewrite into_array32_Ok, bind_Ok by done; reflexivity|].
    codec_dec.
Qed.

(** A header as [Header::new] makes it can be written. *)
Lemma Header_new_wf kp : header_wf (Header_new kp).
Proof.
  assert (is_strings []) as Hs by (split; [constructor|done]).
  assert (is_bytes []) as Hb by (split; [constructor|done]).
  pose proof (vk_bytes32 (kp_public kp)) as Hk.
  assert (is_bytes32 DEFAULT_NAMESPACE) as Hn.
  { split; [|done]. unfold DEFAULT_NAMESPACE. repeat constructor; unfold is_u8; lia. }
  unfold header_wf, manifest_wf, manifest_signer_wf, header_tree_wf, header_hints_wf, is_u64.
  split_and!; cbn; done || lia.
Qed.
End Laws.
