(* ===== verification/Changeset.v ===== *)
(** * Changesets of the merkle tree ([src/tree/merkle_tree_changeset.rs])

    A changeset starts from the roots of the tree, takes new leaves or roots,
    and is hashed, signed and committed as a whole.  The reference is the
    merkle tree over the list of all blocks ([merkle]): appending a block to a
    changeset that stands for a list of blocks gives the changeset that stands
    for the list with the block at its end. *)

From stdpp Require Import base tactics numbers list strings.
From Stdlib Require Import ZArith Lia Bool.
From S2P Require Import Prelude FlatTree Common CompactEncoding Crypto.
Open Scope Z_scope.

Record MerkleTreeChangeset `{Ed25519} := mkChangeset {
  cs_length : Z;
  cs_ancestors : Z;
  cs_byte_length : Z;
  cs_batch_length : Z;
  cs_fork : Z;
  cs_roots : list Node;
  cs_nodes : list Node;
  cs_hash : option (list Z);
  cs_signature : option Signature;
  cs_upgraded : bool;
  cs_original_tree_length : Z;
  cs_original_tree_fork : Z;
}.

Module Changeset.
Section Ops.
Context `{FT : FlatTree} `{CE : CompactEncoding} `{B2 : Blake2b} `{ED : Ed25519}.
Implicit Types self : MerkleTreeChangeset.

Definition new (length byte_length fork : Z) (roots : list Node) : MerkleTreeChangeset :=
  mkChangeset _ length length byte_length 0 fork roots [] None None false length fork.

(** Assignments to single fields. *)
Definition set_roots_nodes self (roots nodes : list Node) : MerkleTreeChangeset :=
  mkChangeset _ (cs_length self) (cs_ancestors self) (cs_byte_length self) (cs_batch_length self)
    (cs_fork self) roots nodes (cs_hash self) (cs_signature self) (cs_upgraded self)
    (cs_original_tree_length self) (cs_original_tree_fork self).
Definition set_upgraded_length_byte_length self (upgraded : bool) (length byte_length : Z)
  : MerkleTreeChangeset :=
  mkChangeset _ length (cs_ancestors self) byte_length (cs_batch_length self)
    (cs_fork self) (cs_roots self) (cs_nodes self) (cs_hash self) (cs_signature self) upgraded
    (cs_original_tree_length self) (cs_original_tree_fork self).
Definition set_batch_length self (batch_length : Z) : MerkleTreeChangeset :=
  mkChangeset _ (cs_length self) (cs_ancestors self) (cs_byte_length self) batch_length
    (cs_fork self) (cs_roots self) (cs_nodes self) (cs_hash self) (cs_signature self)
    (cs_upgraded self) (cs_original_tree_length self) (cs_original_tree_fork self).
Definition set_hash_signature self (hash : option (list Z)) (signature : option Signature)
  : MerkleTreeChangeset :=
  mkChangeset _ (cs_length self) (cs_ancestors self) (cs_byte_length self) (cs_batch_length self)
    (cs_fork self) (cs_roots self) (cs_nodes self) hash signature (cs_upgraded self)
    (cs_original_tree_length self) (cs_original_tree_fork self).

(** [while self.roots.len() > 1] of [append_root]: every turn but the last
    leaves one root less. *)
Fixpoint append_root_loop (fuel : nat) self (iter : ft_iterator)
  : result (MerkleTreeChangeset * ft_iterator) :=
  let roots := cs_roots self in
  if zlen roots <=? 1 then Ok (self, iter)
  else
    match fuel with
    | O => Diverge
    | S fuel =>
        a ← index roots (zlen roots - 1);
        b ← index roots (zlen roots - 2);
        let iter := iter_sibling iter in
        if negb (iter_index iter =? node_index b) then Ok (self, iter_sibling iter)
        else
          let iter := iter_parent iter in
          hash ← Hash_parent a b;
          length ← node_length a +64 node_length b;
          let node := Node_new (iter_index iter) hash length in
          append_root_loop fuel
            (set_roots_nodes self (ztake (zlen roots - 2) roots ++ [node]) (cs_nodes self ++ [node]))
            iter
    end.

Definition append_root self (node : Node) (iter : ft_iterator)
  : result (MerkleTreeChangeset * ft_iterator) :=
  length ← cs_length self +64 iter_factor iter / 2;
  byte_length ← cs_byte_length self +64 node_length node;
  let self := set_upgraded_length_byte_length self true length byte_length in
  let self := set_roots_nodes self (cs_roots self ++ [node]) (cs_nodes self ++ [node]) in
  append_root_loop (List.length (cs_roots self)) self iter.

Definition append self (data : list Z) : result (MerkleTreeChangeset * Z) :=
  let len := zlen data in
  head ← cs_length self *64 2;
  let iter := iter_new head in
  hash ← Hash_data data;
  let node := Node_new head hash len in
  '(self, _) ← append_root self node iter;
  batch_length ← cs_batch_length self +64 1;
  Ok (set_batch_length self batch_length, len).

Definition hash self : result (list Z) := Hash_tree (cs_roots self).

Definition signable self (hash : list Z) : result (list Z) :=
  signable_tree hash (cs_length self) (cs_fork self).

Definition hash_and_sign self (signing_key : SigningKey) : result MerkleTreeChangeset :=
  h ← hash self;
  s ← signable self h;
  let signature := sign signing_key s in
  Ok (set_hash_signature self (Some h) (Some signature)).

Definition verify_and_set_signature self (signature : list Z) (public_key : VerifyingKey)
  : result MerkleTreeChangeset :=
  signature ← match sig_try_from signature with
              | Some signature => Ok signature
              | None => Err InvalidSignature
              end;
  h ← hash self;
  s ← signable self h;
  _ ← verify public_key s (Some signature);
  Ok (set_hash_signature self (Some h) (Some signature)).

End Ops.
End Changeset.

(** ** The reference tree *)

(** The number of bytes of the first [i] blocks. *)
Definition byte_sum (blocks : list (list Z)) (i : Z) : Z := zlen (concat (ztake i blocks)).

Section Reference.
Context `{FT : FlatTree} `{B2 : Blake2b}.
Implicit Types blocks : list (list Z).

(** Node [o] of depth [d] of the merkle tree over the blocks. *)
Fixpoint merkle blocks (d : nat) (o : Z) : Node :=
  match d with
  | O =>
      let block := default [] (blocks !! Z.to_nat o) in
      Node_new (node_at 0 o) (blake2b256 (leaf_preimage block)) (zlen block)
  | S d' =>
      let l := merkle blocks d' (2 * o) in
      let r := merkle blocks d' (2 * o + 1) in
      Node_new (node_at (Z.of_nat d) o) (blake2b256 (parent_preimage l r))
        (node_length l + node_length r)
  end.

Definition merkle_peaks blocks (ps : list (Z * Z)) : list Node :=
  (fun '(d, o) => merkle blocks (Z.to_nat d) o) <$> ps.

Definition merkle_roots blocks : list Node := merkle_peaks blocks (peaks (zlen blocks)).

(** The nodes that the next block, number [q] of depth [d], completes. *)
Fixpoint completed_at (fuel : nat) (d q : Z) : list (Z * Z) :=
  (d, q) ::
  match fuel with
  | O => []
  | S fuel => if Z.odd q then completed_at fuel (d + 1) (q / 2) else []
  end.
Definition completed (n : Z) : list (Z * Z) := completed_at (Z.to_nat (Z.log2_up (n + 1))) 0 n.

(** *** Facts *)

Lemma merkle_index blocks d o : node_index (merkle blocks d o) = node_at (Z.of_nat d) o.
Proof. by destruct d. Qed.

Lemma merkle_length_nonneg blocks d o : 0 <= node_length (merkle blocks d o).
Proof.
  revert o. induction d as [|d IH]; intros o; cbn; [apply zlen_nonneg|].
  pose proof (IH (2 * o)). pose proof (IH (2 * o + 1)). lia.
Qed.

(** Only the leaves below a node matter. *)
Lemma merkle_ext blocks blocks' d o :
  0 <= o ->
  (forall i, 2 ^ Z.of_nat d * o <= i < 2 ^ Z.of_nat d * (o + 1) ->
     blocks !! Z.to_nat i = blocks' !! Z.to_nat i) ->
  merkle blocks d o = merkle blocks' d o.
Proof.
  revert o. induction d as [|d IH]; intros o Ho H.
  - cbn. rewrite H by lia. done.
  - rewrite Nat2Z.inj_succ, Z.pow_succ_r in H by lia.
    cbn [merkle]. rewrite (IH (2 * o)), (IH (2 * o + 1)); [done|lia| |lia|];
      intros i Hi; apply H; nia.
Qed.

Lemma merkle_app blocks more d o :
  0 <= o -> 2 ^ Z.of_nat d * (o + 1) <= zlen blocks ->
  merkle (blocks ++ more) d o = merkle blocks d o.
Proof.
  intros Ho Hle. apply merkle_ext; [done|]. intros i Hi.
  apply lookup_app_l. unfold zlen in Hle. nia.
Qed.

Lemma merkle_peaks_app blocks more n :
  n <= zlen blocks -> merkle_peaks (blocks ++ more) (peaks n) = merkle_peaks blocks (peaks n).
Proof.
  intros Hn. unfold merkle_peaks. apply list_fmap_ext. intros i [d o] Hl.
  apply list_elem_of_lookup_2, peaks_elem in Hl as (? & ? & ?).
  apply merkle_app; [done|]. rewrite Z2Nat.id by lia. lia.
Qed.
End Reference.

(** *** Bytes below a node *)

Lemma ztake_succ {A} (l : list A) i :
  0 <= i -> ztake (i + 1) l = ztake i l ++ option_list (l !! Z.to_nat i).
Proof.
  intros Hi. unfold ztake. rewrite Z2Nat.inj_add by lia. change (Z.to_nat 1) with 1%nat.
  rewrite Nat.add_1_r. destruct (l !! Z.to_nat i) as [x|] eqn:Hx.
  - by apply take_S_r.
  - apply lookup_ge_None in Hx. rewrite !take_ge by lia. by rewrite app_nil_r.
Qed.

Lemma byte_sum_succ blocks i :
  0 <= i -> byte_sum blocks (i + 1) = byte_sum blocks i + zlen (default [] (blocks !! Z.to_nat i)).
Proof.
  intros Hi. unfold byte_sum. rewrite ztake_succ, concat_app, zlen_app by done. f_equal.
  destruct (blocks !! Z.to_nat i); cbn; [by rewrite app_nil_r|done].
Qed.

Lemma byte_sum_mono blocks i j : 0 <= i <= j -> byte_sum blocks i <= byte_sum blocks j.
Proof.
  intros [Hi Hij]. replace j with (i + Z.of_nat (Z.to_nat (j - i))) by lia.
  induction (Z.to_nat (j - i)) as [|k IH]; [rewrite Z.add_0_r; lia|].
  rewrite Nat2Z.inj_succ, <-Z.add_1_r, Z.add_assoc, byte_sum_succ by lia.
  pose proof (zlen_nonneg (default [] (blocks !! Z.to_nat (i + Z.of_nat k)))). lia.
Qed.

Lemma byte_sum_nonneg blocks i : 0 <= byte_sum blocks i.
Proof. apply zlen_nonneg. Qed.

Lemma byte_sum_all blocks : byte_sum blocks (zlen blocks) = zlen (concat blocks).
Proof. unfold byte_sum, ztake, zlen. rewrite Nat2Z.id, take_ge by lia. done. Qed.

Lemma byte_sum_app blocks more i :
  i <= zlen blocks -> byte_sum (blocks ++ more) i = byte_sum blocks i.
Proof. intros Hi. unfold byte_sum, ztake, zlen in *. by rewrite take_app_le by lia. Qed.

Lemma byte_sum_le blocks i : 0 <= i <= zlen blocks -> byte_sum blocks i <= zlen (concat blocks).
Proof. intros Hi. rewrite <-byte_sum_all. by apply byte_sum_mono. Qed.

Lemma list_nil_or_snoc {A} (l : list A) : l = [] \/ exists l' x, l = l' ++ [x].
Proof. destruct l using rev_ind; eauto. Qed.

(** Two roots with the same parent are the last two of the list. *)
Lemma index_last {E A} (l : list A) b a :
  index (E:=E) (l ++ [b] ++ [a]) (zlen (l ++ [b] ++ [a]) - 1) = Ok a /\
  index (E:=E) (l ++ [b] ++ [a]) (zlen (l ++ [b] ++ [a]) - 2) = Ok b /\
  ztake (zlen (l ++ [b] ++ [a]) - 2) (l ++ [b] ++ [a]) = l.
Proof.
  autorewrite with zlen. pose proof (zlen_nonneg l).
  split_and!.
  - apply index_Ok; [lia|]. rewrite lookup_app_r by (unfold zlen in *; lia).
    replace (Z.to_nat _ - length l)%nat with 1%nat by (unfold zlen; lia). done.
  - apply index_Ok; [lia|]. rewrite lookup_app_r by (unfold zlen in *; lia).
    replace (Z.to_nat _ - length l)%nat with 0%nat by (unfold zlen; lia). done.
  - unfold ztake. apply take_app_length'. unfold zlen. lia.
Qed.

Section Append.
Context `{FT : FlatTree} {FL : FlatTreeLaws FT} `{CE : CompactEncoding} {CL : CompactEncodingLaws CE}
  `{B2 : Blake2b} `{ED : Ed25519}.
Implicit Types (blocks : list (list Z)) (self : MerkleTreeChangeset).

Lemma merkle_length blocks d o :
  0 <= o ->
  node_length (merkle blocks d o) =
    byte_sum blocks (2 ^ Z.of_nat d * (o + 1)) - byte_sum blocks (2 ^ Z.of_nat d * o).
Proof.
  revert o. induction d as [|d IH]; intros o Ho.
  - cbn [merkle]. change (2 ^ Z.of_nat 0) with 1. rewrite !Z.mul_1_l, byte_sum_succ by done.
    cbn. lia.
  - rewrite Nat2Z.inj_succ, Z.pow_succ_r by lia. cbn [merkle node_length Node_new].
    rewrite !IH by lia.
    replace (2 * 2 ^ Z.of_nat d * (o + 1)) with (2 ^ Z.of_nat d * (2 * o + 1 + 1)) by lia.
    replace (2 * 2 ^ Z.of_nat d * o) with (2 ^ Z.of_nat d * (2 * o)) by lia. lia.
Qed.

Lemma merkle_length_le blocks d o :
  0 <= o -> 2 ^ Z.of_nat d * (o + 1) <= zlen blocks ->
  node_length (merkle blocks d o) <= zlen (concat blocks).
Proof.
  intros Ho Hle. rewrite merkle_length by done.
  pose proof (Z.pow_pos_nonneg 2 (Z.of_nat d)).
  pose proof (byte_sum_nonneg blocks (2 ^ Z.of_nat d * o)).
  assert (byte_sum blocks (2 ^ Z.of_nat d * (o + 1)) <= zlen (concat blocks)); [|lia].
  apply byte_sum_le. nia.
Qed.

(** Sizes a log can have without any of its numbers leaving its width. *)
Definition log_fits blocks : Prop := zlen blocks < 2 ^ 57 /\ zlen (concat blocks) < 2 ^ 64.

Lemma sibling_in_tree d q n :
  0 <= d -> 0 <= q -> 2 ^ d * (q + 1) <= n -> n < 2 ^ 57 -> in_tree (d + 1) (q / 2).
Proof.
  intros Hd Hq Hle Hn. pose proof (Z.pow_pos_nonneg 2 d).
  assert (0 <= q / 2) by (apply Z.div_pos; lia). pose proof (Z.mul_div_le q 2).
  split_and!; [lia..|]. rewrite !pow2_succ by lia. nia.
Qed.

Lemma sibling_twice q : sibling_offset (sibling_offset q) = q.
Proof.
  unfold sibling_offset. destruct (Z.even q) eqn:He.
  - rewrite Z.even_add, He. cbn. lia.
  - rewrite Z.even_sub, He. cbn. lia.
Qed.

(** Hashing two siblings, given right one first, gives their parent. *)
Lemma parent_of_siblings blocks d o :
  0 <= o -> 2 ^ Z.of_nat d * (2 * o + 2) <= zlen blocks -> log_fits blocks ->
  exists h, Hash_parent (merkle blocks d (2 * o + 1)) (merkle blocks d (2 * o)) = Ok h /\
    forall i, i = node_at (Z.of_nat (S d)) o ->
    Node_new i h (node_length (merkle blocks d (2 * o + 1)) + node_length (merkle blocks d (2 * o)))
      = merkle blocks (S d) o.
Proof.
  intros Ho Hle [_ Hb]. pose proof (Z.pow_pos_nonneg 2 (Z.of_nat d)).
  pose proof (merkle_length_nonneg blocks d (2 * o)).
  pose proof (merkle_length_nonneg blocks d (2 * o + 1)).
  assert (node_length (merkle blocks d (2 * o + 1)) + node_length (merkle blocks d (2 * o))
          < 2 ^ 64) as Hlt.
  { pose proof (merkle_length_le blocks (S d) o Ho) as Hp. cbn [merkle node_length Node_new] in Hp.
    rewrite Nat2Z.inj_succ, Z.pow_succ_r in Hp by lia. lia. }
  rewrite Hash_parent_Ok by lia. eexists. split; [done|]. intros i ->.
  unfold node_in_order. rewrite !merkle_index.
  rewrite (proj2 (Z.leb_gt _ _)) by (unfold node_at; nia). cbn [fst snd merkle].
  f_equal. lia.
Qed.

(** The loop stands at node [(d, q)], the last root; the roots before it are
    the full trees of at least its depth. *)
Definition loop_at blocks (d q : Z) self (it : ft_iterator) : Prop :=
  0 <= d /\ 0 <= q /\ 2 ^ d * (q + 1) <= zlen blocks /\ log_fits blocks /\ iter_at d q it /\
  cs_roots self = merkle_peaks blocks (peaks_at d q) ++ [merkle blocks (Z.to_nat d) q].

Lemma append_root_loop_single fuel self it r :
  cs_roots self = [r] -> Changeset.append_root_loop fuel self it = Ok (self, it).
Proof. intros Hr. destruct fuel; cbn [Changeset.append_root_loop]; by rewrite Hr. Qed.

(** The last root is a left child: nothing to merge. *)
Lemma append_root_loop_stop blocks d q self it fuel :
  loop_at blocks d q self it -> Z.odd q = false -> (length (cs_roots self) <= S fuel)%nat ->
  exists it', Changeset.append_root_loop fuel self it = Ok (self, it') /\ iter_at d q it'.
Proof.
  intros (Hd & Hq & Hle & [Hn Hb] & Hit & Hr) Hodd Hfuel.
  pose proof (sibling_in_tree _ _ _ Hd Hq Hle Hn) as Hin.
  destruct (list_nil_or_snoc (peaks_at d q)) as [Hps|(ps & [e o] & Hps)]; rewrite Hps in Hr.
  { exists it. split; [|done]. exact (append_root_loop_single _ _ _ _ Hr). }
  unfold merkle_peaks in Hr. rewrite fmap_app, <-app_assoc in Hr. cbn [fmap list_fmap] in Hr.
  destruct fuel as [|fuel]; [rewrite Hr, !length_app in Hfuel; cbn in Hfuel; lia|].
  cbn [Changeset.append_root_loop]. rewrite Hr.
  edestruct (@index_last HypercoreError Node) as (-> & -> & _).
  rewrite (proj2 (Z.leb_gt _ _)) by
    (rewrite !zlen_app; change (zlen [_]) with 1; pose proof (zlen_nonneg (fmap (M:=list) (fun '(d, o) => merkle blocks (Z.to_nat d) o) ps)); lia).
  rewrite !bind_Ok, merkle_index.
  pose proof (iter_sibling_law it d q Hin Hd Hit) as Hsib.
  assert (sibling_offset q = q + 1) as Hs.
  { unfold sibling_offset. by rewrite <-Z.negb_odd, Hodd. }
  destruct Hsib as (Hi & Ho & Hf). rewrite Hi.
  assert (d + 1 <= e /\ 0 <= o) as [He Ho'].
  { assert ((e, o) ∈ peaks_at d q) as Hel by (rewrite Hps; apply elem_of_app; right; by left).
    rewrite peaks_at_parity, Hodd, app_nil_r in Hel by done.
    apply peaks_at_elem in Hel as (? & ? & _); lia. }
  rewrite (proj2 (Z.eqb_neq _ _)).
  - cbn [negb]. eexists. split; [done|]. rewrite <-(sibling_twice q).
    apply iter_sibling_law; [|done|done].
    rewrite Hs. replace ((q + 1) / 2) with (q / 2); [done|].
    pose proof (Z.div2_odd q) as Hdiv. rewrite Z.div2_div, Hodd in Hdiv. cbn [Z.b2z] in Hdiv.
    clear -Hdiv. Z.div_mod_to_equations. lia.
  - rewrite Hs, Z2Nat.id by lia. intros Heq. apply node_at_inj in Heq; lia.
Qed.

(** The last root is a right child: it merges with the root before it. *)
Lemma append_root_loop_merge blocks d o self it fuel :
  loop_at blocks d (2 * o + 1) self it -> (length (cs_roots self) <= S fuel)%nat ->
  exists fuel' it',
    let parent := merkle blocks (Z.to_nat (d + 1)) o in
    let self' := Changeset.set_roots_nodes self (merkle_peaks blocks (peaks_at (d + 1) o) ++ [parent])
                   (cs_nodes self ++ [parent]) in
    Changeset.append_root_loop fuel self it = Changeset.append_root_loop fuel' self' it' /\
    loop_at blocks (d + 1) o self' it' /\ (length (cs_roots self') <= S fuel')%nat.
Proof.
  intros (Hd & Hq & Hle & Hfit & Hit & Hr) Hfuel. pose proof Hfit as [Hn Hb].
  assert (0 <= o) as Ho by lia.
  pose proof (sibling_in_tree _ _ _ Hd Hq Hle Hn) as Hin.
  pose proof (iter_sibling_law it d _ Hin Hd Hit) as Hsib.
  assert ((2 * o + 1) / 2 = o) as Ho2 by (Z.div_mod_to_equations; lia).
  assert (sibling_offset (2 * o + 1) = 2 * o) as Hs.
  { unfold sibling_offset. rewrite Z.even_add, Z.even_mul. cbn. lia. }
  rewrite Hs in Hsib. rewrite Ho2 in Hin.
  assert (2 * o / 2 = o) as Ho3 by (Z.div_mod_to_equations; lia).
  pose proof (iter_parent_law _ d (2 * o) ltac:(by rewrite Ho3) Hd Hsib) as Hpar.
  rewrite Ho3 in Hpar.
  rewrite peaks_at_odd in Hr by lia. unfold merkle_peaks in Hr at 1.
  rewrite fmap_app, <-app_assoc in Hr. cbn [fmap list_fmap] in Hr.
  fold (merkle_peaks blocks (peaks_at (d + 1) o)) in Hr.
  change (list_fmap _ _ _ _) with (merkle_peaks blocks (peaks_at (d + 1) o)) in Hr.
  destruct fuel as [|fuel]; [rewrite Hr, !length_app in Hfuel; cbn in Hfuel; lia|].
  exists fuel, (iter_parent (iter_sibling it)). cbn zeta. split_and!.
  - cbn [Changeset.append_root_loop]. rewrite Hr.
    edestruct (@index_last HypercoreError Node) as (-> & -> & ->).
    rewrite (proj2 (Z.leb_gt _ _)) by (autorewrite with zlen;
      pose proof (zlen_nonneg (merkle_peaks blocks (peaks_at (d + 1) o))); lia).
    rewrite !bind_Ok, merkle_index, Z2Nat.id by lia. destruct Hsib as [-> _].
    rewrite Z.eqb_refl. cbn [negb].
    destruct (parent_of_siblings blocks (Z.to_nat d) o) as (h & -> & Hnode); [done| |done|].
    { rewrite Z2Nat.id by lia. lia. }
    rewrite bind_Ok.
    pose proof (merkle_length_le blocks (S (Z.to_nat d)) o Ho) as Hp.
    cbn [merkle node_length Node_new] in Hp.
    rewrite Nat2Z.inj_succ, Z2Nat.id, Z.pow_succ_r in Hp by lia.
    rewrite checked_add_Ok by lia. rewrite bind_Ok.
    replace (Z.to_nat (d + 1)) with (S (Z.to_nat d)) by lia.
    destruct Hpar as [Hpi _]. rewrite Hnode; [done|]. rewrite Hpi. f_equal. lia.
  - split_and!; [lia..| |done|done|done]. rewrite pow2_succ by lia. lia.
  - cbn. rewrite Hr, !length_app in Hfuel. rewrite length_app. cbn in *. lia.
Qed.

Lemma append_root_loop_ok blocks m :
  forall d q self it fuel,
  loop_at blocks d q self it -> q < 2 ^ Z.of_nat m -> (length (cs_roots self) <= S fuel)%nat ->
  exists it' e o ps,
    Changeset.append_root_loop fuel self it =
      Ok (Changeset.set_roots_nodes self (merkle_peaks blocks (peaks_at d (q + 1)))
            (cs_nodes self ++ merkle_peaks blocks (tail (completed_at m d q))), it') /\
    peaks_at d (q + 1) = ps ++ [(e, o)] /\ iter_at e o it'.
Proof.
  induction m as [|m IH]; intros d q self it fuel Hat Hm Hfuel;
    pose proof Hat as (Hd & Hq & Hle & Hfit & Hit & Hr); cbn [completed_at tail];
    pose proof (Z.div2_odd q) as Hdiv; rewrite Z.div2_div in Hdiv.
  1: assert (Z.odd q = false) as Hodd by (replace q with 0 by (cbn in Hm; lia); done).
  2: destruct (Z.odd q) eqn:Hodd; cbn [Z.b2z] in Hdiv.
  2: { assert (0 <= q / 2) by (apply Z.div_pos; lia). revert Hat Hm. rewrite Hdiv.
    set (o := q / 2) in *. intros Hat Hm.
    destruct (append_root_loop_merge _ _ _ _ _ _ Hat Hfuel) as (fuel' & it1 & -> & Hat' & Hf').
    destruct (IH (d + 1) o _ it1 fuel' Hat') as (it' & e & o' & ps & -> & Hps & Hit'); [|done|].
    { rewrite Nat2Z.inj_succ, Z.pow_succ_r in Hm by lia. lia. }
    exists it', e, o', ps.
    replace (2 * o + 1 + 1) with (2 * (o + 1)) by lia. rewrite peaks_at_even by lia.
    split_and!; [|done..]. do 2 f_equal. unfold Changeset.set_roots_nodes. cbn. f_equal.
    rewrite <-app_assoc. f_equal. replace ((2 * o + 1) / 2) with o; [by destruct m|].
    Z.div_mod_to_equations; lia. }
  all: destruct (append_root_loop_stop _ _ _ _ _ _ Hat Hodd Hfuel) as (it' & -> & Hit');
    assert (peaks_at d (q + 1) = peaks_at d q ++ [(d, q)]) as Hpk by
      (rewrite Hdiv, ?Hodd, Z.add_0_r, peaks_at_odd, peaks_at_even by (apply Z.div_pos; lia); done);
    exists it', d, q, (peaks_at d q); split_and!; [|done..];
    rewrite Hpk; unfold merkle_peaks; rewrite fmap_app; cbn [fmap list_fmap];
    fold (merkle_peaks blocks (peaks_at d q)); rewrite app_nil_r;
    unfold Changeset.set_roots_nodes; change (list_fmap _ _ _ _) with (merkle_peaks blocks (peaks_at d q)); rewrite <-Hr; by destruct self.
Qed.
Lemma completed_at_cons m d q : completed_at m d q = (d, q) :: tail (completed_at m d q).
Proof. by destruct m. Qed.

(** A changeset that stands for a list of blocks. *)
Definition cs_for blocks self : Prop :=
  cs_roots self = merkle_roots blocks /\ cs_length self = zlen blocks /\
  cs_byte_length self = zlen (concat blocks).

Lemma log_fits_prefix blocks more : log_fits (blocks ++ more) -> log_fits blocks.
Proof.
  unfold log_fits. rewrite concat_app, !zlen_app.
  pose proof (zlen_nonneg more). pose proof (zlen_nonneg (concat more)). lia.
Qed.

Lemma merkle_new_leaf blocks data :
  merkle (blocks ++ [data]) 0 (zlen blocks) =
    Node_new (zlen blocks * 2) (blake2b256 (leaf_preimage data)) (zlen data).
Proof.
  cbn [merkle]. assert ((blocks ++ [data]) !! Z.to_nat (zlen blocks) = Some data) as ->.
  { unfold zlen. rewrite Nat2Z.id. by apply list_lookup_middle. }
  rewrite node_at_leaf, Z.mul_comm. done.
Qed.

(** [append]: what the changeset is afterwards, in full. *)
Lemma append_ok blocks self data :
  cs_for blocks self -> log_fits (blocks ++ [data]) -> cs_batch_length self + 1 < 2 ^ 64 ->
  Changeset.append self data =
    Ok (mkChangeset _ (zlen (blocks ++ [data])) (cs_ancestors self) (zlen (concat (blocks ++ [data])))
          (cs_batch_length self + 1) (cs_fork self) (merkle_roots (blocks ++ [data]))
          (cs_nodes self ++ merkle_peaks (blocks ++ [data]) (completed (zlen blocks)))
          (cs_hash self) (cs_signature self) true (cs_original_tree_length self)
          (cs_original_tree_fork self), zlen data).
Proof.
  intros (Hr & Hl & Hbl) Hfit Hbatch. pose proof Hfit as [Hn Hb].
  rewrite concat_app, !zlen_app in Hb. rewrite zlen_app in Hn. change (zlen [data]) with 1 in Hn.
  cbn [concat] in Hb. rewrite app_nil_r in Hb. pose proof (zlen_nonneg blocks) as Hz.
  pose proof (zlen_nonneg data). pose proof (zlen_nonneg (concat blocks)).
  unfold Changeset.append. rewrite Hl. rewrite checked_mul_Ok, bind_Ok by lia.
  rewrite Hash_data_Ok, bind_Ok by lia. unfold Changeset.append_root. rewrite Hl, Hbl.
  assert (iter_at 0 (zlen blocks) (iter_new (zlen blocks * 2))) as Hit.
  { replace (zlen blocks * 2) with (node_at 0 (zlen blocks)) by (rewrite node_at_leaf; lia).
    apply iter_new_law. split_and!; change (2 ^ (0 + 1)) with 2; lia. }
  pose proof Hit as (_ & _ & Hfac). rewrite Hfac. change (2 ^ (0 + 1) / 2) with 1.
  cbn [node_length Node_new]. checked. rewrite <-merkle_new_leaf.
  match goal with |- context [Changeset.append_root_loop _ ?s _] => set (self1 := s) end.
  edestruct (append_root_loop_ok (blocks ++ [data]) (Z.to_nat (Z.log2_up (zlen blocks + 1)))
    0 (zlen blocks) self1) as (it' & e & o & ps & -> & _); [..|lia|].
  - split_and!; [lia..|rewrite zlen_app; change (zlen [data]) with 1; lia|done|exact Hit|].
    cbn. rewrite Hr. unfold merkle_roots. fold (peaks (zlen blocks)). by rewrite merkle_peaks_app by lia.
  - rewrite Z2Nat.id by apply Z.log2_up_nonneg.
    pose proof (Z.log2_log2_up_spec (zlen blocks + 1)). lia.
  - rewrite bind_Ok. cbn [cs_batch_length self1 Changeset.set_roots_nodes
      Changeset.set_upgraded_length_byte_length]. rewrite checked_add_Ok, bind_Ok by lia.
    do 2 f_equal. unfold Changeset.set_batch_length, self1. cbn -[merkle completed_at].
    unfold merkle_roots, completed.
    rewrite concat_app, !zlen_app. cbn [concat]. rewrite app_nil_r. change (zlen [data]) with 1.
    f_equal. rewrite <-app_assoc. f_equal.
    rewrite (completed_at_cons _ 0 (zlen blocks)) at 2. done.
Qed.

(** Signing and verifying a changeset of the same blocks, length and fork. *)
Definition signed_bytes blocks (fork : Z) : list Z :=
  signable_bytes (blake2b256 (tree_preimage (merkle_roots blocks))) (zlen blocks) fork.

Context {BL : Blake2bLaws B2} {EL : Ed25519Laws ED}.

Lemma merkle_roots_fit blocks :
  log_fits blocks ->
  Forall (fun n => is_u64 (node_index n) /\ is_u64 (node_length n)) (merkle_roots blocks).
Proof.
  intros [Hn Hb]. apply Forall_fmap, Forall_forall. intros [d o] (Hd & Ho & Hle)%peaks_elem. cbn.
  pose proof (Z.pow_pos_nonneg 2 d). split; unfold is_u64.
  - rewrite merkle_index, Z2Nat.id by lia. pose proof (node_at_nonneg d o Hd Ho).
    unfold node_at in *. split; [lia|]. nia.
  - pose proof (merkle_length_nonneg blocks (Z.to_nat d) o).
    pose proof (merkle_length_le blocks (Z.to_nat d) o Ho) as Hm. rewrite Z2Nat.id in Hm by lia. lia.
Qed.

Lemma hash_signable_ok blocks self :
  cs_for blocks self -> log_fits blocks -> is_u64 (cs_fork self) ->
  Changeset.hash self = Ok (blake2b256 (tree_preimage (merkle_roots blocks))) /\
  Changeset.signable self (blake2b256 (tree_preimage (merkle_roots blocks))) =
    Ok (signed_bytes blocks (cs_fork self)).
Proof.
  intros (Hr & Hl & _) Hfit Hf. unfold Changeset.hash, Changeset.signable. rewrite Hr, Hl.
  rewrite Hash_tree_Ok by by apply merkle_roots_fit. split; [done|].
  apply signable_tree_Ok; [apply blake2b256_bytes| |done].
  destruct Hfit. pose proof (zlen_nonneg blocks). unfold is_u64. lia.
Qed.

Lemma hash_and_sign_ok blocks self sk :
  cs_for blocks self -> log_fits blocks -> is_u64 (cs_fork self) ->
  Changeset.hash_and_sign self sk =
    Ok (Changeset.set_hash_signature self
          (Some (blake2b256 (tree_preimage (merkle_roots blocks))))
          (Some (ed_sign sk (signed_bytes blocks (cs_fork self))))).
Proof.
  intros Hfor Hfit Hf. destruct (hash_signable_ok _ _ Hfor Hfit Hf) as [Hh Hs].
  unfold Changeset.hash_and_sign. by rewrite Hh, bind_Ok, Hs.
Qed.

(** A received signature is accepted exactly when it is one of the public key
    for the tree, and then it is what the changeset keeps. *)
Lemma verify_and_set_signature_ok blocks self bytes pk :
  cs_for blocks self -> log_fits blocks -> is_u64 (cs_fork self) ->
  Changeset.verify_and_set_signature self bytes pk =
    match sig_try_from bytes with
    | Some sig =>
        if ed_verify pk (signed_bytes blocks (cs_fork self)) sig
        then Ok (Changeset.set_hash_signature self
                   (Some (blake2b256 (tree_preimage (merkle_roots blocks)))) (Some sig))
        else Err InvalidSignature
    | None => Err InvalidSignature
    end.
Proof.
  intros Hfor Hfit Hf. destruct (hash_signable_ok _ _ Hfor Hfit Hf) as [Hh Hs].
  unfold Changeset.verify_and_set_signature. destruct (sig_try_from bytes) as [sig|]; [|done].
  rewrite bind_Ok, Hh, bind_Ok, Hs, bind_Ok. unfold verify. by destruct (ed_verify _ _ _).
Qed.
End Append.
