(* ===== verification/Storage.v ===== *)
(** * Storage ([src/storage/mod.rs]) and the block store ([src/data/mod.rs])

    Four random access stores.  The [RandomAccess] trait and its
    implementations come from the [random-access-storage] crates and are a
    parameter; the class [RandomAccessLaws] states the documented behaviour of
    a backend without I/O errors through the bytes it holds.  The components
    never touch a store themselves: they hand out instructions to read and
    infos to flush, and this file carries them out. *)

From stdpp Require Import base tactics numbers list strings.
From Stdlib Require Import ZArith Lia Bool.
From S2P Require Import Prelude FlatTree Common.
Open Scope Z_scope.

(** [random_access_storage::RandomAccessError] *)
Inductive RandomAccessError := RA_IO | RA_OutOfBounds (offset : Z) (end_ : option Z) (length : Z).

Class RandomAccess := {
  ra : Type;
  ra_len : ra -> outcome RandomAccessError Z;
  ra_read : ra -> Z -> Z -> outcome RandomAccessError (list Z);
  ra_write : ra -> Z -> list Z -> outcome RandomAccessError ra;
  ra_del : ra -> Z -> Z -> outcome RandomAccessError ra;
  ra_truncate : ra -> Z -> outcome RandomAccessError ra;
}.

Definition map_random_access_err (err : RandomAccessError) : HypercoreError :=
  match err with
  | RA_IO => IO
  | RA_OutOfBounds _ _ _ => InvalidOperation
  end.

Section Storage.
Context `{RA : RandomAccess}.

Record Storage := mkStorage {
  st_tree : ra;
  st_data : ra;
  st_bitfield : ra;
  st_oplog : ra;
}.

Definition get_random_access (self : Storage) (store : Store) : ra :=
  match store with
  | Tree => st_tree self
  | Data => st_data self
  | Bitfield => st_bitfield self
  | Oplog => st_oplog self
  end.

(** What the code changes through the reference [get_random_access] returns. *)
Definition put_random_access (self : Storage) (store : Store) (r : ra) : Storage :=
  match store with
  | Tree => mkStorage r (st_data self) (st_bitfield self) (st_oplog self)
  | Data => mkStorage (st_tree self) r (st_bitfield self) (st_oplog self)
  | Bitfield => mkStorage (st_tree self) (st_data self) r (st_oplog self)
  | Oplog => mkStorage (st_tree self) (st_data self) (st_bitfield self) r
  end.

(** [if x.len()? > 0 { x.truncate(0)? }] *)
Definition clear_store (r : ra) : result ra :=
  length ← map_err map_random_access_err (ra_len r);
  if 0 <? length then map_err map_random_access_err (ra_truncate r 0) else Ok r.

Definition Storage_open (create : Store -> outcome RandomAccessError ra) (overwrite : bool)
  : result Storage :=
  tree ← map_err map_random_access_err (create Tree);
  data ← map_err map_random_access_err (create Data);
  bitfield ← map_err map_random_access_err (create Bitfield);
  oplog ← map_err map_random_access_err (create Oplog);
  if overwrite then
    tree ← clear_store tree;
    data ← clear_store data;
    bitfield ← clear_store bitfield;
    oplog ← clear_store oplog;
    Ok (mkStorage tree data bitfield oplog)
  else Ok (mkStorage tree data bitfield oplog).

(** [RandomAccessMemory::default()] and [RandomAccessDisk::open] are the
    backends' own; a path is the list of its components. *)
Definition Storage_new_memory (memory_default : ra) : result Storage :=
  Storage_open (fun _ => Ok memory_default) false.

Definition store_file (store : Store) : string :=
  match store with
  | Tree => "tree"
  | Data => "data"
  | Bitfield => "bitfield"
  | Oplog => "oplog"
  end.

Definition Storage_new_disk (disk_open : list string -> outcome RandomAccessError ra)
    (dir : list string) (overwrite : bool) : result Storage :=
  Storage_open (fun store => disk_open (dir ++ [store_file store])) overwrite.

(** One turn of the loop of [read_infos_to_vec]. *)
Definition read_instruction (storage : ra) (instruction : StoreInfoInstruction) : result StoreInfo :=
  match sii_info_type instruction with
  | Content =>
      read_length ← match sii_length instruction with
                    | Some length => Ok length
                    | None => map_err map_random_access_err (ra_len storage)
                    end;
      match ra_read storage (sii_index instruction) read_length with
      | Ok buf => Ok (StoreInfo.new_content (sii_store instruction) (sii_index instruction) buf)
      | Err (RA_OutOfBounds _ _ _) =>
          if sii_allow_miss instruction
          then Ok (StoreInfo.new_content_miss (sii_store instruction) (sii_index instruction))
          else Err InvalidOperation
      | Err e => Err (map_random_access_err e)
      | Panic => Panic
      | Diverge => Diverge
      end
  | Size =>
      length ← map_err map_random_access_err (ra_len storage);
      size ← length -? sii_index instruction;
      Ok (StoreInfo.new_size (sii_store instruction) (sii_index instruction) size)
  end.

Fixpoint read_loop (self : Storage) (current_store : Store)
    (info_instructions : list StoreInfoInstruction) : result (list StoreInfo) :=
  match info_instructions with
  | [] => Ok []
  | instruction :: rest =>
      let current_store :=
        if decide (sii_store instruction = current_store) then current_store
        else sii_store instruction in
      info ← read_instruction (get_random_access self current_store) instruction;
      infos ← read_loop self current_store rest;
      Ok (info :: infos)
  end.

Definition read_infos_to_vec (self : Storage) (info_instructions : list StoreInfoInstruction)
  : result (list StoreInfo) :=
  match info_instructions with
  | [] => Ok []
  | first :: _ => read_loop self (sii_store first) info_instructions
  end.

Definition read_infos (self : Storage) (info_instructions : list StoreInfoInstruction)
  : result (list StoreInfo) := read_infos_to_vec self info_instructions.

Definition read_info (self : Storage) (info_instruction : StoreInfoInstruction)
  : result StoreInfo :=
  infos ← read_infos_to_vec self [info_instruction];
  unwrap (last infos).

(** One turn of the loop of [flush_infos]. *)
Definition flush_one (storage : ra) (info : StoreInfo) : result ra :=
  match si_info_type info with
  | Content =>
      if negb (si_miss info) then
        match si_data info with
        | Some data => map_err map_random_access_err (ra_write storage (si_index info) data)
        | None => Ok storage
        end
      else
        length ← unwrap (si_length info);
        map_err map_random_access_err (ra_del storage (si_index info) length)
  | Size =>
      if si_miss info then map_err map_random_access_err (ra_truncate storage (si_index info))
      else Panic
  end.

Fixpoint flush_loop (current_store : Store) (infos : list StoreInfo)
  : stateR Storage HypercoreError unit := fun self =>
  match infos with
  | [] => (self, Ok tt)
  | info :: infos =>
      let current_store :=
        if decide (si_store info = current_store) then current_store else si_store info in
      match flush_one (get_random_access self current_store) info with
      | Ok storage =>
          flush_loop current_store infos (put_random_access self current_store storage)
      | Err e => (self, Err e)
      | Panic => (self, Panic)
      | Diverge => (self, Diverge)
      end
  end.

Definition flush_infos (infos : list StoreInfo) : stateR Storage HypercoreError unit :=
  match infos with
  | [] => mret tt
  | first :: _ => flush_loop (si_store first) infos
  end.

Definition flush_info (slice : StoreInfo) : stateR Storage HypercoreError unit :=
  flush_infos [slice].
End Storage.

(** ** The block store *)

Module BlockStore.
(** [append_batch]: the loop that collects the blocks is [concat]. *)
Fixpoint extend_all (buffer : list Z) (batch : list (list Z)) : list Z :=
  match batch with
  | [] => buffer
  | data :: batch => extend_all (buffer ++ data) batch
  end.
Definition append_batch (batch : list (list Z)) (batch_length byte_length : Z) : StoreInfo :=
  StoreInfo.new_content Data byte_length (extend_all [] batch).
Definition put (value : list Z) (offset : Z) : StoreInfo :=
  StoreInfo.new_content Data offset value.
Definition read {E} (byte_range : NodeByteRange) (info : option StoreInfo)
  : outcome E (Either StoreInfoInstruction (list Z)) :=
  match info with
  | Some info => data ← unwrap (si_data info); Ok (Right data)
  | None => Ok (Left (Instruction.new_content Data (nbr_index byte_range) (nbr_length byte_range)))
  end.
Definition clear (start length : Z) : StoreInfo := StoreInfo.new_delete Data start length.

Lemma extend_all_concat buffer batch : extend_all buffer batch = buffer ++ concat batch.
Proof.
  revert buffer. induction batch as [|data batch IH]; intros buffer; cbn; [by rewrite app_nil_r|].
  by rewrite IH, <-app_assoc.
Qed.
End BlockStore.

(** ** Files *)

(** The bytes of a file after a write at any offset (a gap reads as zeros),
    after setting its length and after deleting a range. *)
Definition file_write (f : list Z) (o : Z) (bs : list Z) : list Z :=
  splice (resize (Nat.max (length f) (Z.to_nat o + length bs)) 0 f) o bs.
Definition file_truncate (f : list Z) (n : Z) : list Z := resize (Z.to_nat n) 0 f.
Definition file_del (f : list Z) (o n : Z) : list Z :=
  if zlen f <=? o + n then file_truncate f o else splice f o (replicate (Z.to_nat n) 0).

Class RandomAccessLaws (RA : RandomAccess) := {
  contents : ra -> list Z;
  ra_len_law r : ra_len r = Ok (zlen (contents r));
  ra_read_law r o n : 0 <= o -> 0 <= n -> o + n <= zlen (contents r) ->
    ra_read r o n = Ok (slice (contents r) o n);
  ra_read_bounds r o n : 0 <= o -> 0 <= n -> zlen (contents r) < o + n ->
    exists e, ra_read r o n = Err (RA_OutOfBounds o e (zlen (contents r)));
  ra_write_law r o bs : 0 <= o ->
    exists r', ra_write r o bs = Ok r' /\ contents r' = file_write (contents r) o bs;
  ra_del_law r o n : 0 <= o <= zlen (contents r) -> 0 <= n ->
    exists r', ra_del r o n = Ok r' /\ contents r' = file_del (contents r) o n;
  ra_del_bounds r o n : zlen (contents r) < o -> 0 <= n ->
    exists e, ra_del r o n = Err (RA_OutOfBounds o e (zlen (contents r)));
  ra_truncate_law r n : 0 <= n ->
    exists r', ra_truncate r n = Ok r' /\ contents r' = file_truncate (contents r) n;
}.

(** What flushing an info does to the bytes of its store, and when it works. *)
Definition info_effect (info : StoreInfo) (f : list Z) : list Z :=
  match si_info_type info with
  | Content =>
      if si_miss info then file_del f (si_index info) (default 0 (si_length info))
      else match si_data info with Some data => file_write f (si_index info) data | None => f end
  | Size => file_truncate f (si_index info)
  end.
Definition info_ok (info : StoreInfo) (f : list Z) : Prop :=
  0 <= si_index info /\
  match si_info_type info with
  | Content => si_miss info = true ->
      exists n, si_length info = Some n /\ 0 <= n /\ si_index info <= zlen f
  | Size => si_miss info = true
  end.

(** The four stores as files; only the store of the info changes. *)
Definition effect (fs : Store -> list Z) (info : StoreInfo) : Store -> list Z :=
  fun k => if decide (k = si_store info) then info_effect info (fs k) else fs k.

Fixpoint infos_ok (fs : Store -> list Z) (infos : list StoreInfo) : Prop :=
  match infos with
  | [] => True
  | info :: infos => info_ok info (fs (si_store info)) /\ infos_ok (effect fs info) infos
  end.

Section Laws.
Context `{RA : RandomAccess} {RL : RandomAccessLaws RA}.

(** The storage holds these files. *)
Definition holds (self : Storage) (fs : Store -> list Z) : Prop :=
  forall k, contents (get_random_access self k) = fs k.

(** Opening with [overwrite] empties all four stores. *)
Lemma clear_store_ok r : exists r', clear_store r = Ok r' /\ contents r' = [].
Proof.
  unfold clear_store. rewrite ra_len_law. cbn [map_err]. rewrite bind_Ok.
  destruct (Z.ltb_spec 0 (zlen (contents r))).
  - destruct (ra_truncate_law r 0) as (r' & -> & Hr'); [lia|]. exists r'. split; [done|].
    rewrite Hr'. unfold file_truncate. by destruct (contents r).
  - exists r. split; [done|]. unfold zlen in *. destruct (contents r); [done|cbn in *; lia].
Qed.

Lemma storage_open_ok (create : Store -> outcome RandomAccessError ra) (opened : Store -> ra) (overwrite : bool) :
  (forall k, create k = Ok (opened k)) ->
  exists self, Storage_open create overwrite = Ok self /\
    holds self (fun k => if overwrite then [] else contents (opened k)).
Proof.
  intros Hc. unfold Storage_open. rewrite !Hc. cbn [map_err]. rewrite !bind_Ok. destruct overwrite.
  - destruct (clear_store_ok (opened Tree)) as (t & -> & ?), (clear_store_ok (opened Data)) as (d & -> & ?),
      (clear_store_ok (opened Bitfield)) as (b & -> & ?), (clear_store_ok (opened Oplog)) as (o & -> & ?).
    rewrite !bind_Ok. eexists. split; [done|]. by intros [].
  - eexists. split; [done|]. by intros [].
Qed.

Lemma get_put_same self k r : get_random_access (put_random_access self k r) k = r.
Proof. by destruct k. Qed.
Lemma get_put_other self k k' r :
  k' <> k -> get_random_access (put_random_access self k r) k' = get_random_access self k'.
Proof. by destruct k, k'. Qed.

Lemma flush_one_ok r info :
  info_ok info (contents r) ->
  exists r', flush_one r info = Ok r' /\ contents r' = info_effect info (contents r).
Proof.
  intros [Hi Hok]. unfold flush_one, info_effect. destruct (si_info_type info).
  - destruct (si_miss info); cbn [negb].
    + destruct (Hok eq_refl) as (n & -> & Hn & Hle). cbn [unwrap default]. rewrite bind_Ok.
      destruct (ra_del_law r (si_index info) n) as (r' & -> & Hc); [lia..|]. eauto.
    + destruct (si_data info) as [data|]; [|by eauto].
      destruct (ra_write_law r (si_index info) data) as (r' & -> & Hc); [done|]. eauto.
  - rewrite Hok. destruct (ra_truncate_law r (si_index info)) as (r' & -> & Hc); [done|]. eauto.
Qed.

Lemma flush_loop_ok infos : forall self cur fs,
  holds self fs -> infos_ok fs infos ->
  exists self', flush_loop cur infos self = (self', Ok tt) /\ holds self' (foldl effect fs infos).
Proof.
  induction infos as [|info infos IH]; intros self cur fs Hh; [by eauto|].
  intros [Hok Hrest]. cbn [flush_loop foldl].
  assert ((if decide (si_store info = cur) then cur else si_store info) = si_store info) as ->
    by by case_decide.
  rewrite <-Hh in Hok. apply flush_one_ok in Hok as (r & -> & Hr).
  apply IH; [|done]. intros k. unfold effect. case_decide as Hk.
  - subst k. by rewrite get_put_same, Hr, Hh.
  - by rewrite get_put_other.
Qed.

(** Flushing a list of infos has the effect of each of them, in order. *)
Lemma flush_infos_ok self fs infos :
  holds self fs -> infos_ok fs infos ->
  exists self', flush_infos infos self = (self', Ok tt) /\ holds self' (foldl effect fs infos).
Proof.
  intros Hh Hok. destruct infos as [|info infos]; [by eauto|]. by apply flush_loop_ok.
Qed.

(** A deletion that starts behind the end of its file is refused. *)
Lemma flush_delete_short self fs k o n :
  holds self fs -> zlen (fs k) < o -> 0 <= n ->
  flush_infos [StoreInfo.new_delete k o n] self = (self, Err InvalidOperation).
Proof.
  intros Hh Ho Hn. rewrite <-(Hh k) in Ho. destruct (ra_del_bounds _ o n Ho Hn) as [e He].
  unfold flush_infos. cbn [flush_loop si_store StoreInfo.new_delete]. rewrite decide_True by done.
  unfold flush_one. cbn [si_info_type si_miss si_length si_index StoreInfo.new_delete negb unwrap].
  by rewrite bind_Ok, He.
Qed.

(** Infos that all go to one store and always work. *)
Definition writes_to (k : Store) (info : StoreInfo) : Prop :=
  si_store info = k /\ forall f, info_ok info f.
Definition update_store (fs : Store -> list Z) (k : Store) (f : list Z) : Store -> list Z :=
  fun k' => if decide (k' = k) then f else fs k'.
Definition file_effects (f : list Z) (infos : list StoreInfo) : list Z :=
  foldl (fun f info => info_effect info f) f infos.

Lemma update_store_same fs k f : update_store fs k f k = f.
Proof. unfold update_store. by rewrite decide_True. Qed.
Lemma update_store_other fs k k' f : k' <> k -> update_store fs k f k' = fs k'.
Proof. intros. unfold update_store. by rewrite decide_False. Qed.

Lemma foldl_effect_one k infos : forall fs k',
  Forall (writes_to k) infos ->
  foldl effect fs infos k' = update_store fs k (file_effects (fs k) infos) k'.
Proof.
  induction infos as [|info infos IH]; intros fs k' Hall.
  { unfold update_store. by case_decide; subst. }
  apply Forall_cons in Hall as [[Hk _] Hall]. cbn [foldl file_effects].
  rewrite IH by done. unfold update_store, effect. rewrite Hk. case_decide; [|done].
  by rewrite decide_True.
Qed.

Lemma writes_infos_ok k infos : forall fs, Forall (writes_to k) infos -> infos_ok fs infos.
Proof.
  induction infos as [|info infos IH]; intros fs Hall; [done|].
  apply Forall_cons in Hall as [[_ Hok] Hall]. split; [apply Hok|by apply IH].
Qed.

Lemma flush_writes_ok self fs k infos :
  holds self fs -> Forall (writes_to k) infos ->
  exists self', flush_infos infos self = (self', Ok tt) /\
    holds self' (update_store fs k (file_effects (fs k) infos)).
Proof.
  intros Hh Hall. destruct (flush_infos_ok self fs infos) as (self' & He & Hh');
    [done|by eapply writes_infos_ok|].
  exists self'. split; [done|]. intros k'. rewrite (Hh' k'). by apply foldl_effect_one.
Qed.

(** What an instruction reads. *)
Definition read_effect (fs : Store -> list Z) (i : StoreInfoInstruction) : option StoreInfo :=
  let f := fs (sii_store i) in
  match sii_info_type i with
  | Content =>
      let n := default (zlen f) (sii_length i) in
      if sii_index i + n <=? zlen f
      then Some (StoreInfo.new_content (sii_store i) (sii_index i) (slice f (sii_index i) n))
      else if sii_allow_miss i
      then Some (StoreInfo.new_content_miss (sii_store i) (sii_index i)) else None
  | Size =>
      if sii_index i <=? zlen f
      then Some (StoreInfo.new_size (sii_store i) (sii_index i) (zlen f - sii_index i)) else None
  end.
Definition instruction_wf (i : StoreInfoInstruction) : Prop :=
  0 <= sii_index i /\ forall n, sii_length i = Some n -> 0 <= n.

Lemma read_instruction_ok self fs i info :
  holds self fs -> instruction_wf i -> read_effect fs i = Some info ->
  read_instruction (get_random_access self (sii_store i)) i = Ok info.
Proof.
  intros Hh [Hi Hn] Hr. unfold read_effect, read_instruction in *. rewrite <-(Hh (sii_store i)) in Hr.
  set (r := get_random_access self (sii_store i)) in *. destruct (sii_info_type i).
  - assert (match sii_length i with
            | Some length => Ok length
            | None => map_err map_random_access_err (ra_len r)
            end = Ok (default (zlen (contents r)) (sii_length i))) as ->.
    { destruct (sii_length i); [done|]. by rewrite ra_len_law. }
    rewrite bind_Ok. set (n := default (zlen (contents r)) (sii_length i)) in *.
    assert (0 <= n). { subst n. destruct (sii_length i); cbn; [by apply Hn|apply zlen_nonneg]. }
    destruct (sii_index i + n <=? zlen (contents r)) eqn:Hle.
    + rewrite ra_read_law by lia. congruence.
    + destruct (ra_read_bounds r (sii_index i) n) as [e ->]; [lia..|].
      destruct (sii_allow_miss i); congruence.
  - rewrite ra_len_law. cbn [map_err]. rewrite bind_Ok.
    destruct (sii_index i <=? zlen (contents r)) eqn:Hle; [|done].
    rewrite checked_sub_Ok, bind_Ok by lia. congruence.
Qed.

Lemma read_loop_ok self fs ins : forall cur infos,
  holds self fs -> Forall instruction_wf ins ->
  Forall2 (fun i info => read_effect fs i = Some info) ins infos ->
  read_loop self cur ins = Ok infos.
Proof.
  induction ins as [|i ins IH]; intros cur infos Hh Hwf Hr.
  { by apply Forall2_nil_inv_l in Hr as ->. }
  apply Forall2_cons_inv_l in Hr as (info & infos' & Hi & Hrest & ->).
  apply Forall_cons in Hwf as [Hw Hwf]. cbn [read_loop].
  assert ((if decide (sii_store i = cur) then cur else sii_store i) = sii_store i) as ->
    by by case_decide.
  erewrite read_instruction_ok by done. rewrite bind_Ok. by erewrite IH.
Qed.

(** Reading a list of instructions gives what each of them reads, in order. *)
Lemma read_infos_ok self fs ins infos :
  holds self fs -> Forall instruction_wf ins ->
  Forall2 (fun i info => read_effect fs i = Some info) ins infos ->
  read_infos self ins = Ok infos.
Proof.
  intros Hh Hwf Hr. destruct ins as [|i ins]; [by apply Forall2_nil_inv_l in Hr as ->|].
  by eapply read_loop_ok.
Qed.

Lemma read_info_ok self fs i info :
  holds self fs -> instruction_wf i -> read_effect fs i = Some info ->
  read_info self i = Ok info.
Proof.
  intros Hh Hwf Hr. unfold read_info. cbn [read_infos_to_vec].
  erewrite read_loop_ok; [|done|by constructor|constructor; [done|constructor]]. done.
Qed.

(** A read that goes past the end of its file is refused. *)
Lemma read_content_short self fs k o n :
  holds self fs -> 0 <= o -> 0 <= n -> zlen (fs k) < o + n ->
  read_info self (Instruction.new_content k o n) = Err InvalidOperation.
Proof.
  intros Hh Ho Hn Hlt. rewrite <-(Hh k) in Hlt. destruct (ra_read_bounds _ o n Ho Hn Hlt) as [e He].
  unfold read_info. cbn [read_infos_to_vec read_loop sii_store Instruction.new_content]. rewrite decide_True by done.
  unfold read_instruction. cbn [sii_info_type sii_length sii_index sii_allow_miss Instruction.new_content].
  by rewrite bind_Ok, He.
Qed.
End Laws.

(** *** Facts about files *)

Lemma zlen_resize (n : nat) (f : list Z) : zlen (resize n 0 f) = Z.of_nat n.
Proof. unfold zlen. by rewrite length_resize. Qed.

Lemma zlen_file_write f o bs :
  0 <= o -> zlen (file_write f o bs) = Z.max (zlen f) (o + zlen bs).
Proof.
  intros Ho. unfold file_write. rewrite zlen_splice; rewrite ?zlen_resize; unfold zlen; lia.
Qed.

(** A write that stays inside or starts at the end leaves no gap. *)
Lemma file_write_inside f o bs :
  0 <= o -> o + zlen bs <= zlen f -> file_write f o bs = splice f o bs.
Proof.
  intros Ho Hle. unfold file_write. rewrite resize_all_alt; [done|]. unfold zlen in *. lia.
Qed.

Lemma file_write_end f bs : file_write f (zlen f) bs = f ++ bs.
Proof.
  unfold file_write, splice, ztake, zdrop, zlen. rewrite Nat2Z.id.
  rewrite resize_ge by lia. rewrite take_app_length, drop_ge; [by rewrite app_nil_r|].
  rewrite length_app, length_replicate. lia.
Qed.

Lemma slice_file_write_same f o bs :
  0 <= o -> slice (file_write f o bs) o (zlen bs) = bs.
Proof.
  intros Ho. unfold file_write. apply slice_splice_same; [done|].
  rewrite zlen_resize. unfold zlen. lia.
Qed.

Lemma slice_resize (n : nat) (f : list Z) j m :
  0 <= j -> 0 <= m -> j + m <= zlen f -> j + m <= Z.of_nat n -> slice (resize n 0 f) j m = slice f j m.
Proof.
  intros Hj Hm Hf Hn. unfold slice, ztake, zdrop, zlen in *. apply list_eq. intros k.
  destruct (decide (k < Z.to_nat m)%nat).
  - rewrite !lookup_take_lt, !lookup_drop by lia. rewrite lookup_resize by lia. done.
  - by rewrite !lookup_take_ge by lia.
Qed.

Lemma slice_file_write_other f o bs j m :
  0 <= o -> 0 <= j -> 0 <= m -> j + m <= zlen f -> j + m <= o \/ o + zlen bs <= j ->
  slice (file_write f o bs) j m = slice f j m.
Proof.
  intros Ho Hj Hm Hf Hd. unfold file_write.
  rewrite slice_splice_other by (rewrite ?zlen_resize; unfold zlen in *; lia).
  apply slice_resize; unfold zlen in *; lia.
Qed.

Lemma slice_file_truncate f n j m :
  0 <= j -> 0 <= m -> j + m <= zlen f -> j + m <= n ->
  slice (file_truncate f n) j m = slice f j m.
Proof. intros. apply slice_resize; lia. Qed.

Lemma zlen_file_truncate f n : 0 <= n -> zlen (file_truncate f n) = n.
Proof. intros. unfold file_truncate. rewrite zlen_resize. lia. Qed.

(** [bs] is a piece of the file. *)
Definition at_offset (f : list Z) (o : Z) (bs : list Z) : Prop :=
  o + zlen bs <= zlen f /\ slice f o (zlen bs) = bs.

Lemma at_offset_app f o b1 b2 :
  0 <= o -> at_offset f o (b1 ++ b2) -> at_offset f o b1 /\ at_offset f (o + zlen b1) b2.
Proof.
  intros Ho [Hl Hs]. apply slice_app_inv in Hs as [H1 H2]; [|done]. rewrite zlen_app in Hl.
  pose proof (zlen_nonneg b1). pose proof (zlen_nonneg b2). split; (split; [lia|done]).
Qed.

Lemma at_offset_write_other f o bs o' bs' :
  0 <= o -> 0 <= o' -> o' + zlen bs' <= o \/ o + zlen bs <= o' ->
  at_offset f o' bs' -> at_offset (file_write f o bs) o' bs'.
Proof.
  intros Ho Ho' Hd [Hl Hs]. pose proof (zlen_nonneg bs'). pose proof (zlen_nonneg bs). split.
  - rewrite zlen_file_write; lia.
  - rewrite slice_file_write_other; [done|lia..].
Qed.

Lemma at_offset_write_same f o bs : 0 <= o -> at_offset (file_write f o bs) o bs.
Proof.
  intros Ho. split; [|by apply slice_file_write_same]. rewrite zlen_file_write by done. lia.
Qed.

Lemma at_offset_truncate f n o bs :
  0 <= o -> o + zlen bs <= n -> at_offset f o bs -> at_offset (file_truncate f n) o bs.
Proof.
  intros Ho Hn [Hl Hs]. pose proof (zlen_nonneg bs). split.
  - rewrite zlen_file_truncate; lia.
  - by rewrite slice_file_truncate by lia.
Qed.

(** What a deletion keeps: everything before it, and everything of some
    length behind it. *)
Lemma at_offset_del f o n o' bs' :
  0 <= o <= zlen f -> 0 <= n -> 0 <= o' ->
  o' + zlen bs' <= o \/ (o + n <= o' /\ bs' <> []) ->
  at_offset f o' bs' -> at_offset (file_del f o n) o' bs'.
Proof.
  intros Ho Hn Ho' Hd Hat. pose proof Hat as [Hl Hs]. unfold file_del.
  assert (bs' <> [] -> 0 < zlen bs') as Hpos.
  { destruct bs'; [done|]. rewrite zlen_cons. pose proof (zlen_nonneg bs'). lia. }
  destruct (Z.leb_spec (zlen f) (o + n)).
  - destruct Hd as [Hd|[Hd Hne]]; [by apply at_offset_truncate|]. specialize (Hpos Hne). lia.
  - pose proof (zlen_nonneg bs').
    assert (zlen (replicate (Z.to_nat n) 0) = n) as Hz by (rewrite zlen_replicate; lia). split.
    + rewrite zlen_splice by lia. lia.
    + rewrite slice_splice_other; [done|lia..].
Qed.

Lemma zlen_file_del f o n :
  0 <= o <= zlen f -> 0 <= n -> zlen (file_del f o n) = if zlen f <=? o + n then o else zlen f.
Proof.
  intros Ho Hn. unfold file_del. destruct (Z.leb_spec (zlen f) (o + n)); [apply zlen_file_truncate; lia|].
  rewrite zlen_splice; [done|lia|]. rewrite zlen_replicate. lia.
Qed.

Lemma at_offset_join f o b1 b2 :
  0 <= o -> at_offset f o b1 -> at_offset f (o + zlen b1) b2 -> at_offset f o (b1 ++ b2).
Proof.
  intros Ho [H1 Hs1] [H2 Hs2]. unfold at_offset. rewrite zlen_app. split; [lia|].
  rewrite slice_split by auto. by rewrite Hs1, Hs2.
Qed.

Lemma truncate_zeros f n o (k : nat) :
  zlen f <= o -> o + Z.of_nat k <= n -> at_offset (file_truncate f n) o (replicate k 0).
Proof.
  intros Ho Hk. pose proof (zlen_nonneg f). split.
  - rewrite zlen_file_truncate, zlen_replicate; lia.
  - rewrite zlen_replicate. unfold file_truncate, slice, ztake, zdrop.
    rewrite resize_ge by (unfold zlen in *; lia). rewrite drop_app_ge by (unfold zlen in *; lia).
    rewrite drop_replicate, take_replicate. f_equal. unfold zlen in *. lia.
Qed.
