(* ===== verification/BitfieldStore.v ===== *)
(** * The bitfield and its store

    Which pages an update marks as unflushed, what the flush leaves in the
    store, and what opening the store gives: [bits_stored] relates the bits of a
    [DynamicBitfield] to the bytes of its file. *)

From stdpp Require Import base tactics numbers list gmap.
From Stdlib Require Import ZArith Lia Bool.
From S2P Require Import Prelude Common BitfieldFixed BitfieldDynamic Storage.
Open Scope Z_scope.

(** ** Changed pages *)

(** Every page with a changed bit is unflushed, and no other becomes so. *)
Definition touched (start len : Z) (value : bool) (db db' : DynamicBitfield) : Prop :=
  (forall i, i ∈ unflushed db -> i ∈ unflushed db') /\
  (forall i, i ∈ unflushed db' -> i ∈ unflushed db \/
     exists k, start <= k < start + len /\ k / 32768 = i /\ dbit db k = negb value) /\
  (forall k, 0 <= k -> k / 32768 ∉ unflushed db' -> dbit db' k = dbit db k).

Lemma unflushed_ensure db i : unflushed (Dynamic.ensure_page db i) = unflushed db.
Proof. unfold Dynamic.ensure_page. by destruct (pages db !! i). Qed.

Lemma unflushed_store db i p changed :
  unflushed (Dynamic.store_page db i p changed) =
    unflushed db ++ (if changed && negb (fb_dirty p) then [i] else []).
Proof. unfold Dynamic.store_page. destruct (changed && _); [done|]. cbn. by rewrite app_nil_r. Qed.

Lemma set_range_loop_touched fuel value : forall i j len db db',
  dyn_wf db -> 0 <= j < 32768 -> 0 <= i -> 0 <= len -> (0 < len -> 32768 * i + j + len < 2 ^ 64) ->
  Dynamic.set_range_loop fuel value i j len db = Ok db' ->
  touched (32768 * i + j) len value db db'.
Proof.
  induction fuel as [|fuel IH]; intros i j len db db' Hwf Hj Hi Hl Hb Hrun.
  all: cbn [Dynamic.set_range_loop] in Hrun; destruct (Z.ltb_spec 0 len).
  1: discriminate Hrun.
  1, 3: injection Hrun as <-; split_and!; [done|by left|done].
  destruct (ensure_page_spec db i) as (Hwf1 & Hb1 & p & Hp & Hpwf & Hpb); [done|lia|].
  revert Hrun. rewrite Hp. cbn [unwrap]. change DYNAMIC_BITFIELD_PAGE_SIZE with 32768. checked.
  destruct (fixed_set_range_Ok p j (Z.min (j + len) 32768 - j) value)
    as (p' & ch & -> & Hwf' & Hd & Hb' & Hch); [done|lia..|].
  rewrite bind_Ok. checked. intros Hrun.
  destruct (store_page_spec _ _ _ p' ch Hwf1 Hp Hwf' Hd) as [Hwf2 Hb2].
  set (db2 := Dynamic.store_page _ _ _ _) in *.
  assert (unflushed db2 = unflushed db ++ (if ch && negb (fb_dirty p) then [i] else [])) as Hun.
  { unfold db2. by rewrite unflushed_store, unflushed_ensure, Hd. }
  apply IH in Hrun as (Hsub & Hnew & Hold); [|done|lia..].
  split_and!.
  - intros x Hx. apply Hsub. rewrite Hun. apply elem_of_app. by left.
  - intros x [Hx|(k & Hk & Hki & Hdk)]%Hnew.
    + rewrite Hun in Hx. apply elem_of_app in Hx as [Hx|Hx]; [by left|]. right.
      destruct ch; [|by apply elem_of_nil in Hx]. cbn [andb] in Hx.
      destruct (fb_dirty p); cbn in Hx; [by apply elem_of_nil in Hx|].
      apply list_elem_of_singleton in Hx as ->. destruct (proj1 Hch eq_refl) as (k & Hk & Hne).
      exists (32768 * i + k). rewrite page_div by lia. split_and!; [lia..|done|].
      rewrite Hpb in Hne by lia. by destruct (dbit db _), value.
    + right. exists k. split_and!; [lia..|done|]. rewrite <-Hdk, Hb2 by lia.
      rewrite decide_False by (intros ?; Z.div_mod_to_equations; lia). by rewrite Hb1 by lia.
  - intros k Hk Hnin. rewrite Hold, Hb2 by done. case_decide as Hki; [|by rewrite Hb1].
    assert (i ∉ unflushed db2) as Hni by (subst i; intros ?; by apply Hnin, Hsub).
    pose proof (Z.mod_pos_bound k 32768). pose proof (Z.div_mod k 32768).
    rewrite Hb', Hpb by lia. replace (32768 * i + k mod 32768) with k by lia.
    case_decide as Hin; [|done].
    destruct (dbit db k) eqn:Hdk, value; try done; destruct Hni.
    all: rewrite Hun; assert (ch = true) as -> by (apply Hch; exists (k mod 32768); split; [done|];
      rewrite Hpb by lia; by replace (32768 * i + k mod 32768) with k by lia; rewrite Hdk).
    all: destruct (fb_dirty p) eqn:Hdirty; apply elem_of_app; [left|right; by left].
    all: rewrite <-(unflushed_ensure db i); apply (dw_dirty _ Hwf1); eauto.
Qed.

Lemma dyn_update_touched db u db' :
  dyn_wf db -> 0 <= bu_start u -> 0 <= bu_length u -> bu_start u + bu_length u < 2 ^ 64 ->
  Dynamic.update db u = Ok db' -> touched (bu_start u) (bu_length u) (negb (bu_drop u)) db db'.
Proof.
  intros Hwf Hs Hl Hb. unfold Dynamic.update, Dynamic.set_range. page_split (bu_start u). intros Hrun.
  apply set_range_loop_touched in Hrun; [|done|lia..].
  by replace (32768 * (bu_start u / 32768) + bu_start u mod 32768) with (bu_start u) in Hrun by lia.
Qed.

(** ** The bits of a file *)

(** Byte [k] of a file; behind its end there are zeros. *)
Definition byte_at (f : list Z) (k : Z) : Z := default 0 (f !! Z.to_nat k).

Lemma byte_at_write f o bs k :
  0 <= o -> 0 <= k ->
  byte_at (file_write f o bs) k =
    if decide (o <= k < o + zlen bs) then byte_at bs (k - o) else byte_at f k.
Proof.
  intros Ho Hk. unfold byte_at, file_write.
  rewrite lookup_splice by (rewrite ?zlen_resize; unfold zlen; lia). rewrite Z2Nat.id by done.
  case_decide as Hin; [by rewrite Z2Nat.inj_sub|].
  destruct (decide (Z.to_nat k < length f)%nat).
  - rewrite lookup_resize by lia. done.
  - rewrite (lookup_ge_None_2 f) by lia. cbn [default].
    set (sz := Nat.max _ _). destruct (decide (Z.to_nat k < sz)%nat).
    + by rewrite lookup_resize_new by lia.
    + by rewrite lookup_resize_old by lia.
Qed.

Lemma word_at_bytes f j :
  0 <= j ->
  word_at f j = byte_at f (4 * j) +
    256 * (byte_at f (4 * j + 1) + 256 * (byte_at f (4 * j + 2) + 256 * byte_at f (4 * j + 3))).
Proof.
  intros Hj. unfold word_at, slice, ztake, zdrop, byte_at.
  replace (Z.to_nat (4 * j + 1)) with (Z.to_nat (4 * j) + 1)%nat by lia.
  replace (Z.to_nat (4 * j + 2)) with (Z.to_nat (4 * j) + 2)%nat by lia.
  replace (Z.to_nat (4 * j + 3)) with (Z.to_nat (4 * j) + 3)%nat by lia.
  rewrite <-(Nat.add_0_r (Z.to_nat (4 * j))) at 2. rewrite <-!lookup_drop.
  change (Z.to_nat 4) with 4%nat.
  by destruct (drop (Z.to_nat (4 * j)) f) as [|b0 [|b1 [|b2 [|b3 l]]]]; cbn; rewrite ?take_0; cbn; lia.
Qed.

(** Bit [k] of a bitfield file. *)
Definition file_bit (f : list Z) (k : Z) : bool := Z.testbit (word_at f (k / 32)) (k mod 32).

Lemma file_bit_write f i bs k :
  0 <= i -> 0 <= k -> zlen bs = 4096 ->
  file_bit (file_write f (i * 4096) bs) k =
    if decide (k / 32768 = i) then file_bit bs (k mod 32768) else file_bit f k.
Proof.
  intros Hi Hk Hz. unfold file_bit.
  assert (0 <= k / 32) by (apply Z.div_pos; lia). assert (0 <= k mod 32768 / 32) by (Z.div_mod_to_equations; lia).
  rewrite !word_at_bytes by done. rewrite !byte_at_write, Hz by lia.
  case_decide as Hki.
  - rewrite !decide_True by (Z.div_mod_to_equations; lia).
    assert (4 * (k / 32) - i * 4096 = 4 * (k mod 32768 / 32)) as Heq by (Z.div_mod_to_equations; lia).
    replace (k mod 32768 mod 32) with (k mod 32) by (Z.div_mod_to_equations; lia).
    by replace (4 * (k / 32) + 1 - i * 4096) with (4 * (k mod 32768 / 32) + 1) by lia;
      replace (4 * (k / 32) + 2 - i * 4096) with (4 * (k mod 32768 / 32) + 2) by lia;
      replace (4 * (k / 32) + 3 - i * 4096) with (4 * (k mod 32768 / 32) + 3) by lia; rewrite Heq.
  - by rewrite !decide_False by (Z.div_mod_to_equations; lia).
Qed.

(** ** What the store holds *)

(** The pages that are not unflushed are in the file; [n] blocks bound the pages
    that are or were set, so they bound the file. *)
Record bits_stored (n : Z) (db : DynamicBitfield) (f : list Z) : Prop := {
  bs_bytes : Forall is_u8 f;
  bs_pages : exists m, 0 <= m /\ zlen f = 4096 * m /\ 32768 * (m - 1) < n;
  bs_unflushed i : i ∈ unflushed db -> 32768 * i < n;
  bs_bits k : 0 <= k -> k / 32768 ∉ unflushed db -> file_bit f k = dbit db k;
}.

Lemma file_bit_nil k : file_bit [] k = false.
Proof.
  unfold file_bit, word_at, slice, ztake, zdrop. rewrite drop_nil, take_nil. apply Z.bits_0.
Qed.

Lemma bits_stored_empty : bits_stored 0 (mkDynamic ∅ 0 []) [].
Proof.
  constructor; [done| |by intros i ?%elem_of_nil|]; [exists 0; by split_and!; cbn|].
  intros k Hk _. by rewrite file_bit_nil.
Qed.

(** An update keeps it; the bits it changes belong to the first [n'] blocks. *)
Lemma bits_stored_update n n' db db' f start len value :
  bits_stored n db f -> touched start len value db db' -> n <= n' ->
  (forall k, start <= k < start + len -> dbit db k = negb value -> k < n') ->
  bits_stored n' db' f.
Proof.
  intros [Hu (m & Hm & Hz & Hlt) Hun Hbits] (Hsub & Hnew & Hold) Hn Hk. constructor; [done| | |].
  - exists m. split_and!; [done..|lia].
  - intros i [Hi|(k & Hr & <- & Hd)]%Hnew; [specialize (Hun i Hi); lia|].
    specialize (Hk k Hr Hd). Z.div_mod_to_equations; lia.
  - intros k Hk0 Hni. rewrite Hold by done. apply Hbits; [done|]. intros ?. by apply Hni, Hsub.
Qed.

Lemma Forall_write f o bs : 0 <= o -> Forall is_u8 f -> Forall is_u8 bs -> Forall is_u8 (file_write f o bs).
Proof.
  intros Ho Hf Hb. unfold file_write, splice, ztake, zdrop.
  assert (Forall is_u8 (resize (Nat.max (length f) (Z.to_nat o + length bs)) 0 f)) as Hr.
  { apply Forall_resize; [|done]. by vm_compute. }
  apply Forall_app. split; [by apply Forall_take|]. apply Forall_app. split; [done|by apply Forall_drop].
Qed.

(** The writes of [flush], page by page. *)
Lemma flush_file n pgs ids : forall f,
  Forall is_u8 f -> (exists m, 0 <= m /\ zlen f = 4096 * m /\ 32768 * (m - 1) < n) ->
  (forall i, i ∈ ids -> 0 <= i /\ 32768 * i < n /\ exists p, pgs !! i = Some p /\ fixed_wf p) ->
  let f' := file_effects f (page_info pgs <$> ids) in
  Forall is_u8 f' /\ (exists m, 0 <= m /\ zlen f' = 4096 * m /\ 32768 * (m - 1) < n) /\
  forall k, 0 <= k -> file_bit f' k =
    if decide (k / 32768 ∈ ids)
    then match pgs !! (k / 32768) with Some p => fbit p (k mod 32768) | None => false end
    else file_bit f k.
Proof.
  induction ids as [|i ids IH]; intros f Hu (m & Hm & Hz & Hlt) Hids; [by split_and!; eauto|].
  destruct (Hids i) as (Hi & Hin & p & Hp & Hwf); [by left|].
  assert (zlen (words_bytes (fb_bitfield p)) = 4096) as Hzb.
  { rewrite zlen_words_bytes. destruct Hwf as [-> _]. done. }
  set (f1 := info_effect (page_info pgs i) f).
  assert (f1 = file_write f (i * 4096) (words_bytes (fb_bitfield p))) as Hf1.
  { unfold f1, page_info. by rewrite Hp. }
  destruct (IH f1) as (Hu' & Hm' & Hb').
  { rewrite Hf1. apply Forall_write; [lia|done|]. apply words_bytes_u8. }
  { exists (Z.max m (i + 1)). rewrite Hf1, zlen_file_write, Hz, Hzb by lia. lia. }
  { intros j Hj. apply Hids. by right. }
  split_and!; [done..|]. intros k Hk.
  change (file_effects f (page_info pgs <$> i :: ids)) with (file_effects f1 (page_info pgs <$> ids)).
  rewrite Hb' by done.
  destruct (decide (k / 32768 ∈ ids)) as [Hk1|Hk1]; [by rewrite decide_True by by right|].
  rewrite Hf1, file_bit_write by (done || lia).
  case_decide as Hki.
  - rewrite decide_True by (rewrite Hki; by left). rewrite Hki, Hp.
    pose proof (Z.mod_pos_bound k 32768). unfold file_bit. rewrite word_at_bit by (apply Hwf || lia). done.
  - rewrite decide_False; [done|]. by intros [?|?]%elem_of_cons.
Qed.

Lemma bits_stored_flush n db db' f :
  bits_stored n db f -> dyn_wf db -> unflushed db' = [] -> (forall k, 0 <= k -> dbit db' k = dbit db k) ->
  bits_stored n db' (file_effects f (page_info (pages db) <$> unflushed db)).
Proof.
  intros [Hu Hm Hun Hbits] Hwf Hnil Hsame.
  destruct (flush_file n (pages db) (unflushed db) f Hu Hm) as (Hu' & Hm' & Hb').
  { intros i Hi. pose proof (Hun i Hi). apply (dw_dirty _ Hwf) in Hi as (p & Hp & _).
    destruct (dw_page _ Hwf _ _ Hp). split_and!; [lia|done|eauto]. }
  constructor; [done..|rewrite Hnil; by intros ? ?%elem_of_nil|].
  intros k Hk _. rewrite Hb', Hsame by done. case_decide; [done|by apply Hbits].
Qed.

(** Opening the store of a flushed bitfield of at most 8192 blocks gives its
    bits back. *)
Lemma bits_stored_open n db f :
  bits_stored n db f -> unflushed db = [] -> n <= 8192 ->
  (forall k, n <= k -> dbit db k = false) ->
  exists db', Dynamic.open (Some (StoreInfo.new_content Bitfield 0 f)) = Ok (Right db') /\
    dyn_wf db' /\ unflushed db' = [] /\ forall k, 0 <= k -> dbit db' k = dbit db k.
Proof.
  intros [Hu (m & Hm & Hz & Hlt) Hun Hbits] Hnil Hn Hover. rewrite Hnil in Hbits.
  assert (forall k, 0 <= k -> file_bit f k = dbit db k) as Hb.
  { intros k Hk. apply Hbits; [done|]. by intros ?%elem_of_nil. }
  assert (m = 0 \/ m = 1) as [->| ->] by lia.
  - destruct f as [|b f]; [|rewrite zlen_cons in Hz; pose proof (zlen_nonneg f); lia].
    exists (mkDynamic ∅ 0 []). split_and!; [done|apply dyn_empty_wf|done|].
    intros k Hk. by rewrite <-Hb, file_bit_nil.
  - destruct (dyn_open_words f 1024 Hu) as (db' & Ho & Hwf & Hun' & Hd); [lia..|].
    exists db'. split_and!; [done..|]. intros k Hk.
    pose proof (Z.mod_pos_bound k 32768). pose proof (Z.div_mod k 32768).
    replace k with (32768 * (k / 32768) + k mod 32768) at 1 by lia. rewrite Hd by (try apply Z.div_pos; lia).
    change (Z.testbit _ _) with (file_bit f (k mod 32768)). rewrite Hb by lia.
    rewrite (proj2 (Z.ltb_lt _ 1024)), andb_true_r by (Z.div_mod_to_equations; lia).
    destruct (decide (k / 32768 = 0)) as [Hz0|Hz0].
    + rewrite Hz0 in *. rewrite (proj2 (Z.leb_le _ _)) by (Z.div_mod_to_equations; lia). cbn [andb]. f_equal. lia.
    + assert (0 <= k / 32768) by (apply Z.div_pos; lia). rewrite (Hover k) by lia.
      destruct (Z.leb_spec (256 * (k / 32768)) (k mod 32768 / 32)); [|done]. apply Hover.
      Z.div_mod_to_equations; lia.
Qed.
