(* ===== verification/Oplog.v ===== *)
(** * The oplog ([src/oplog/mod.rs])

    The oplog store has two slots of 4096 bytes for headers, followed by the
    entries appended since the last flush.  A header or an entry is framed by
    a leader of 8 bytes: a CRC32, then the length, the header bit and the
    partial bit in 32 bits.  Two header bits, kept in memory and in the leaders
    of the slots, say which slot is the newer one.

    [crc32fast] is a dependency: its [hash] is the parameter [crc32]. *)

From stdpp Require Import base tactics numbers list strings.
From Stdlib Require Import ZArith Lia Bool.
From S2P Require Import Prelude FlatTree Common CompactEncoding Encoding Crypto OplogEntry.
From S2P Require Import Changeset Storage.
Open Scope Z_scope.

Class Crc32 := { crc32 : list Z -> Z }.
Class Crc32Laws (C : Crc32) : Prop := { crc32_u32 bs : is_u32 (crc32 bs) }.

Definition MAX_OPLOG_ENTRIES_BYTE_SIZE : Z := 65536.
Definition HEADER_SIZE : Z := 4096.

Record Oplog_ := mkOplog {
  op_header_bits : bool * bool;
  op_entries_length : Z;
  op_entries_byte_length : Z;
}.

Inductive OplogSlot := FirstHeader | SecondHeader | Entries.

(** [oplog_slot as usize] *)
Definition slot_offset (slot : OplogSlot) : Z :=
  match slot with
  | FirstHeader => 0
  | SecondHeader => HEADER_SIZE
  | Entries => HEADER_SIZE * 2
  end.

Definition INITIAL_HEADER_BITS : bool * bool := (true, false).

Section Records.
Context `{CE : CompactEncoding} `{ED : Ed25519}.

Record OplogCreateHeaderOutcome := mkCreateHeaderOutcome {
  oc_header : Header;
  oc_infos_to_flush : list StoreInfo;
}.

Record OplogOpenOutcome := mkOpenOutcome {
  oo_oplog : Oplog_;
  oo_header : Header;
  oo_infos_to_flush : list StoreInfo;
  oo_entries : option (list Entry);
}.

Definition OplogOpenOutcome_new (oplog : Oplog_) (header : Header) (infos : list StoreInfo)
  : OplogOpenOutcome := mkOpenOutcome oplog header infos None.

Definition from_create_header_outcome (oplog : Oplog_) (o : OplogCreateHeaderOutcome)
  : OplogOpenOutcome := mkOpenOutcome oplog (oc_header o) (oc_infos_to_flush o) None.

Record ValidateLeaderOutcome := mkValidateLeaderOutcome {
  vl_state : State;
  vl_header_bit : bool;
  vl_partial_bit : bool;
}.
End Records.

Module Oplog.
Section Ops.
Context `{FT : FlatTree} `{CE : CompactEncoding} `{ED : Ed25519} `{CR : Crc32}.
Implicit Types self : Oplog_.

Definition get_current_header_bit self : bool :=
  let '(b0, b1) := op_header_bits self in xorb b0 b1.

Definition get_next_header_oplog_slot_and_bit_value (header_bits : bool * bool)
  : OplogSlot * bool :=
  let '(b0, b1) := header_bits in
  if xorb b0 b1 then (FirstHeader, negb b0) else (SecondHeader, negb b1).

Definition prepend_leader (len : Z) (header_bit partial_bit : bool) (state : State)
    (buffer : list Z) : result (State * list Z) :=
  start ← st_start state -? len;
  start ← start -? 4;
  state ← enc_try (st_set_start state start);
  len_u32 ← try_into 32 len;
  let partial_bit := if partial_bit then 2 else 0 in
  let header_bit := if header_bit then 1 else 0 in
  let combined := Z.lor (Z.lor (Z.shiftl len_u32 2 mod 2 ^ 32) header_bit) partial_bit in
  '(state, buffer) ← enc_try (encode_u32 state combined buffer);
  start ← st_start state -? 8;
  state ← enc_try (st_set_start state start);
  bytes ← slice_range buffer (st_start state + 4) (st_start state + 8 + len);
  let checksum := crc32 bytes in
  enc_try (encode_u32 state checksum buffer).

Definition validate_leader (index : Z) (buffer : list Z) : result (option ValidateLeaderOutcome) :=
  if zlen buffer <? index + 8 then Ok None
  else
    let state := st_new_with_start_and_end index (zlen buffer) in
    '(state, stored_checksum) ← enc_try (decode_u32 state buffer);
    '(state, combined) ← enc_try (decode_u32 state buffer);
    let len := Z.shiftr combined 2 in
    rest ← st_end state -? st_start state;
    if (len =? 0) || (rest <? len) then Ok None
    else
      let header_bit := Z.land combined 1 =? 1 in
      let partial_bit := Z.land combined 2 =? 2 in
      let new_start := index + 8 in
      let state := st_set_end state (new_start + len) in
      state ← enc_try (st_set_start state new_start);
      bytes ← slice_range buffer (index + 4) (st_end state);
      let calculated_checksum := crc32 bytes in
      if negb (calculated_checksum =? stored_checksum) then Err InvalidChecksum
      else Ok (Some (mkValidateLeaderOutcome state header_bit partial_bit)).

Definition insert_header (header : Header) (entries_byte_length : Z)
    (current_header_bits : bool * bool) (clear_traces : bool)
  : result ((bool * bool) * list StoreInfo) :=
  let data_start_index := 8 in
  let state := st_new_with_start_and_end data_start_index data_start_index in
  let '(oplog_slot, header_bit) := get_next_header_oplog_slot_and_bit_value current_header_bits in
  new_header_bits ← match oplog_slot with
                    | FirstHeader => Ok (header_bit, current_header_bits.2)
                    | SecondHeader => Ok (current_header_bits.1, header_bit)
                    | Entries => Panic
                    end;
  state ← enc_try (preencode state header);
  let end_ := st_end state in
  let state := if clear_traces then st_set_end state HEADER_SIZE else state in
  let buffer := st_create_buffer state in
  '(state, buffer) ← enc_try (encode state header buffer);
  len ← end_ -? data_start_index;
  '(state, buffer) ← prepend_leader len header_bit false state buffer;
  truncate_index ← slot_offset Entries +64 entries_byte_length;
  Ok (new_header_bits,
      [StoreInfo.new_content Oplog (slot_offset oplog_slot) buffer;
       StoreInfo.new_truncate Oplog truncate_index]).

Definition fresh (key_pair : PartialKeypair) : result OplogOpenOutcome :=
  let entries_length := 0 in
  let entries_byte_length := 0 in
  let header := Header_new key_pair in
  '(header_bits, infos_to_flush) ←
    insert_header header entries_byte_length INITIAL_HEADER_BITS false;
  let oplog := mkOplog header_bits entries_length entries_byte_length in
  Ok (from_create_header_outcome oplog (mkCreateHeaderOutcome header infos_to_flush)).

(** The loop that reads the entries; every entry takes at least 9 bytes. *)
Fixpoint read_entries (fuel : nat) (entry_offset : Z) (existing : list Z)
    (entries : list Entry) (partials : list bool) : result (list Entry * list bool) :=
  match fuel with
  | O => Diverge
  | S fuel =>
      entry_outcome ← validate_leader entry_offset existing;
      match entry_outcome with
      | None => Ok (entries, partials)
      | Some entry_outcome =>
          '(state, entry) ← enc_try (decode (A:=Entry) (vl_state entry_outcome) existing);
          read_entries fuel (st_end state) existing (entries ++ [entry])
            (partials ++ [vl_partial_bit entry_outcome])
      end
  end.

(** [while !partials.is_empty() && partials[partials.len() - 1]]: the body
    changes [entries] only. *)
Fixpoint remove_trailing_partials (fuel : nat) (entries : list Entry) (partials : list bool)
  : result (list Entry) :=
  match last partials with
  | Some true =>
      match fuel with
      | O => Diverge
      | S fuel => remove_trailing_partials fuel (removelast entries) partials
      end
  | _ => Ok entries
  end.

(** The two headers of an existing oplog, or a fresh one. *)
Definition open_headers (key_pair : option PartialKeypair) (existing : list Z)
    (h1_outcome h2_outcome : option ValidateLeaderOutcome) : result OplogOpenOutcome :=
  match h1_outcome, h2_outcome with
  | Some h1, Some h2 =>
      let header_bits := (vl_header_bit h1, vl_header_bit h2) in
      '(_, header) ← enc_try (decode (A:=Header)
        (if Bool.eqb (vl_header_bit h1) (vl_header_bit h2) then vl_state h1 else vl_state h2)
        existing);
      Ok (OplogOpenOutcome_new (mkOplog header_bits 0 0) header [])
  | Some h1, None =>
      '(_, header) ← enc_try (decode (A:=Header) (vl_state h1) existing);
      Ok (OplogOpenOutcome_new (mkOplog (vl_header_bit h1, vl_header_bit h1) 0 0) header [])
  | None, Some h2 =>
      '(_, header) ← enc_try (decode (A:=Header) (vl_state h2) existing);
      Ok (OplogOpenOutcome_new (mkOplog (negb (vl_header_bit h2), vl_header_bit h2) 0 0) header [])
  | None, None =>
      match key_pair with
      | Some key_pair => fresh key_pair
      | None => Err (EmptyStorage Oplog)
      end
  end.

Definition open (key_pair : option PartialKeypair) (info : option StoreInfo)
  : result (Either StoreInfoInstruction OplogOpenOutcome) :=
  match info with
  | None => Ok (Left (Instruction.new_all_content Oplog))
  | Some info =>
      existing ← unwrap (si_data info);
      h1_outcome ← validate_leader (slot_offset FirstHeader) existing;
      h2_outcome ← validate_leader (slot_offset SecondHeader) existing;
      outcome ← open_headers key_pair existing h1_outcome h2_outcome;
      if slot_offset Entries <? zlen existing then
        '(entries, partials) ←
          read_entries (S (length existing)) (slot_offset Entries) existing [] [];
        entries ← remove_trailing_partials (S (length entries)) entries partials;
        Ok (Right (mkOpenOutcome (oo_oplog outcome) (oo_header outcome)
                     (oo_infos_to_flush outcome) (Some entries)))
      else Ok (Right outcome)
  end.

(** [for entry in batch.iter() { state.preencode(entry)?; }] *)
Fixpoint preencode_entries (state : State) (batch : list Entry) : result State :=
  match batch with
  | [] => Ok state
  | entry :: batch => state ← enc_try (preencode state entry); preencode_entries state batch
  end.

(** [for (i, entry) in batch.iter().enumerate()] *)
Fixpoint encode_entries (len : Z) (header_bit atomic : bool) (i : Z) (state : State)
    (batch : list Entry) (buffer : list Z) : result (State * list Z) :=
  match batch with
  | [] => Ok (state, buffer)
  | entry :: batch =>
      state ← enc_try (st_add_start state 8);
      let start := st_start state in
      let partial_bit := atomic && (i <? len - 1) in
      '(state, buffer) ← enc_try (encode state entry buffer);
      size ← st_start state -? start;
      '(state, buffer) ← prepend_leader size header_bit partial_bit state buffer;
      encode_entries len header_bit atomic (i + 1) state batch buffer
  end.

Definition append_entries self (batch : list Entry) (atomic : bool)
  : result (Oplog_ * list StoreInfo) :=
  let len := zlen batch in
  let header_bit := get_current_header_bit self in
  room ← len *64 8;
  let state := st_new_with_start_and_end 0 room in
  state ← preencode_entries state batch;
  let buffer := st_create_buffer state in
  '(_, buffer) ← encode_entries len header_bit atomic 0 state batch buffer;
  index ← slot_offset Entries +64 op_entries_byte_length self;
  entries_length ← op_entries_length self +64 len;
  entries_byte_length ← op_entries_byte_length self +64 zlen buffer;
  Ok (mkOplog (op_header_bits self) entries_length entries_byte_length,
      [StoreInfo.new_content Oplog index buffer]).

Definition update_header_with_changeset (changeset : MerkleTreeChangeset)
    (bitfield_update : option BitfieldUpdate) (header : Header) : result (Header * Entry) :=
  let tree_nodes := cs_nodes changeset in
  if cs_upgraded changeset then
    hash ← unwrap (cs_hash changeset);
    signature ← unwrap (cs_signature changeset);
    let signature := sig_to_bytes signature in
    let tree := mkHeaderTree (ht_fork (hd_tree header)) (cs_length changeset) hash signature in
    let header := mkHeader _ (hd_key header) (hd_manifest header) (hd_key_pair header)
                    (hd_user_data header) tree (hd_hints header) in
    Ok (header,
        mkEntry [] tree_nodes
          (Some (mkEntryTreeUpgrade (cs_fork changeset) (cs_ancestors changeset)
                   (cs_length changeset) signature))
          bitfield_update)
  else Ok (header, mkEntry [] tree_nodes None bitfield_update).

Definition append_changeset self (changeset : MerkleTreeChangeset)
    (bitfield_update : option BitfieldUpdate) (atomic : bool) (header : Header)
  : result (Oplog_ * OplogCreateHeaderOutcome) :=
  '(header, entry) ← update_header_with_changeset changeset bitfield_update header;
  '(self, infos_to_flush) ← append_entries self [entry] atomic;
  Ok (self, mkCreateHeaderOutcome header infos_to_flush).

Definition clear self (start end_ : Z) : result (Oplog_ * list StoreInfo) :=
  length ← end_ -? start;
  let entry := mkEntry [] [] None (Some (mkBitfieldUpdate true start length)) in
  append_entries self [entry] false.

Definition flush self (header : Header) (clear_traces : bool)
  : result (Oplog_ * list StoreInfo) :=
  '(new_header_bits, infos_to_flush) ←
    (if clear_traces then
       '(new_header_bits, infos_to_flush) ←
         insert_header header 0 (op_header_bits self) clear_traces;
       first ← slice_range infos_to_flush 0 1;
       '(new_header_bits, infos_to_flush) ←
         insert_header header 0 new_header_bits clear_traces;
       Ok (new_header_bits, first ++ infos_to_flush)
     else insert_header header 0 (op_header_bits self) clear_traces);
  Ok (mkOplog new_header_bits 0 0, infos_to_flush).

End Ops.
End Oplog.

(** ** The leader *)

Lemma land_small a k : 0 <= k < 4 -> Z.land a k = Z.land (a mod 4) k.
Proof.
  intros Hk. change 4 with (2 ^ 2). rewrite <-Z.land_ones, <-Z.land_assoc by lia. f_equal.
  rewrite Z.land_comm, Z.land_ones by lia. symmetry. apply Z.mod_small. exact Hk.
Qed.

Lemma lor_low len k : 0 <= k < 4 -> Z.lor (4 * len) k = 4 * len + k.
Proof.
  intros Hk. assert (Z.land (4 * len) k = 0) as H0.
  { rewrite land_small, (Z.mul_comm 4), Z.mod_mul by lia. done. }
  by rewrite Z.add_nocarry_lxor, Z.lxor_lor.
Qed.

Definition leader_word (header_bit partial_bit : bool) (len : Z) : Z :=
  4 * len + ((if partial_bit then 2 else 0) + (if header_bit then 1 else 0)).

Lemma leader_word_combined (hb pb : bool) len :
  0 <= len < 2 ^ 30 ->
  Z.lor (Z.lor (Z.shiftl len 2 mod 2 ^ 32) (if hb then 1 else 0)) (if pb then 2 else 0)
    = leader_word hb pb len.
Proof.
  intros Hl. rewrite Z.shiftl_mul_pow2, Z.mod_small by lia. rewrite (Z.mul_comm len).
  change (2 ^ 2) with 4. rewrite <-Z.lor_assoc. unfold leader_word.
  rewrite lor_low by (destruct hb, pb; vm_compute; intuition discriminate). f_equal. by destruct hb, pb.
Qed.

Lemma leader_word_fields hb pb len :
  0 <= len ->
  Z.shiftr (leader_word hb pb len) 2 = len /\
  (Z.land (leader_word hb pb len) 1 =? 1) = hb /\ (Z.land (leader_word hb pb len) 2 =? 2) = pb.
Proof.
  intros Hl. rewrite Z.shiftr_div_pow2 by lia. rewrite !(land_small (leader_word _ _ _)) by lia.
  change (2 ^ 2) with 4. unfold leader_word. rewrite (Z.mul_comm 4), Z.div_add_l by lia.
  rewrite (Z.add_comm (len * 4)), Z.mod_add by lia. destruct hb, pb; split_and!; first [done|exact (Z.add_0_r len)].
Qed.

Lemma leader_word_u32 hb pb len : 0 <= len < 2 ^ 30 -> is_u32 (leader_word hb pb len).
Proof. unfold is_u32, leader_word. destruct hb, pb; lia. Qed.

Section Framing.
Context `{CE : CompactEncoding} {CL : CompactEncodingLaws CE} `{CR : Crc32} {CRL : Crc32Laws CR}.

Definition leader_tail (hb pb : bool) (bs : list Z) : list Z := le_bytes 4 (leader_word hb pb (zlen bs)).
Definition leader (hb pb : bool) (bs : list Z) : list Z :=
  le_bytes 4 (crc32 (leader_tail hb pb bs ++ bs)) ++ leader_tail hb pb bs.
(** A header or entry with its leader. *)
Definition frame (hb pb : bool) (bs : list Z) : list Z := leader hb pb bs ++ bs.

Lemma zlen_leader hb pb bs : zlen (leader hb pb bs) = 8.
Proof. unfold leader, leader_tail. by rewrite zlen_app, !zlen_le_bytes. Qed.

Lemma zlen_frame hb pb bs : zlen (frame hb pb bs) = 8 + zlen bs.
Proof. unfold frame. by rewrite zlen_app, zlen_leader. Qed.

Lemma slice_range_Ok {E A} (l : list A) a b :
  0 <= a <= b -> b <= zlen l -> slice_range (E:=E) l a b = Ok (slice l a (b - a)).
Proof. intros. unfold slice_range. by rewrite !(proj2 (Z.leb_le _ _)) by lia. Qed.

Lemma prepend_leader_ok st buf s bs hb pb :
  0 <= s -> st_start st = s + 8 + zlen bs -> st_start st <= st_end st -> st_end st <= zlen buf ->
  zlen bs < 2 ^ 30 -> slice buf (s + 8) (zlen bs) = bs ->
  exists st', Oplog.prepend_leader (zlen bs) hb pb st buf = Ok (st', splice buf s (leader hb pb bs)) /\
    st_start st' = s + 4 /\ st_end st' = st_end st.
Proof.
  intros Hs Hst Hse Heb Hlen Hsl. pose proof (zlen_nonneg bs). unfold Oplog.prepend_leader.
  rewrite checked_sub_Ok, bind_Ok by lia. rewrite checked_sub_Ok, bind_Ok by lia.
  destruct (set_start_law st (st_start st - zlen bs - 4)) as (st1 & -> & Hs1 & He1); [lia|].
  cbn [enc_try map_err]. rewrite bind_Ok, try_into_Ok, bind_Ok by lia.
  rewrite leader_word_combined by lia.
  destruct (encode_u32_law (leader_word hb pb (zlen bs)) (leader_word_u32 hb pb (zlen bs) ltac:(lia)) st1 buf)
    as (st2 & -> & Hs2 & He2); [rewrite ?zlen_le_bytes; lia..|].
  cbn [enc_try map_err]. rewrite zlen_le_bytes in Hs2.
  rewrite bind_Ok, checked_sub_Ok, bind_Ok by lia.
  destruct (set_start_law st2 (st_start st2 - 8)) as (st3 & -> & Hs3 & He3); [lia|].
  cbn [enc_try map_err]. rewrite bind_Ok.
  replace (st_start st1) with (s + 4) by lia. fold (leader_tail hb pb bs).
  assert (zlen (leader_tail hb pb bs) = 4) as Hlt by apply zlen_le_bytes.
  rewrite slice_range_Ok by (rewrite ?zlen_splice, ?Hlt; lia). rewrite bind_Ok.
  replace (st_start st3 + 4) with (s + 4) by lia.
  replace (st_start st3 + 8 + zlen bs - (s + 4)) with (4 + zlen bs) by lia.
  rewrite slice_split by lia.
  pose proof (slice_splice_same buf (s + 4) (leader_tail hb pb bs)) as Hss. rewrite Hlt in Hss.
  rewrite Hss by lia.
  rewrite slice_splice_other by (rewrite ?Hlt; lia).
  replace (s + 4 + 4) with (s + 8) by lia. rewrite Hsl.
  destruct (encode_u32_law (crc32 (leader_tail hb pb bs ++ bs)) (crc32_u32 _) st3
    (splice buf (s + 4) (leader_tail hb pb bs))) as (st4 & -> & Hs4 & He4);
    [rewrite ?zlen_splice, ?zlen_le_bytes, ?Hlt; lia..|].
  cbn [enc_try map_err]. rewrite zlen_le_bytes in Hs4.
  exists st4. split_and!; [|lia..]. replace (st_start st3) with s by lia. do 2 f_equal.
  unfold leader. symmetry. rewrite <-splice_splice by (rewrite ?Hlt, ?zlen_le_bytes; lia).
  set (crc := le_bytes 4 (crc32 (leader_tail hb pb bs ++ bs))) in *.
  assert (zlen crc = 4) as Hcz by apply zlen_le_bytes. rewrite Hcz. clear -Hs Hst Hse Heb Hlt Hcz H.
  assert (zlen (splice buf s crc) = zlen buf) by (apply zlen_splice; lia).
  assert (zlen (splice buf (s + 4) (leader_tail hb pb bs)) = zlen buf) by (apply zlen_splice; lia).
  apply list_eq. intros k. rewrite !lookup_splice by lia.
  repeat case_decide; done || lia.
Qed.

(** A frame at [index] is found, checked and delimited. *)
Lemma validate_leader_ok buf index hb pb bs :
  0 <= index -> index + 8 + zlen bs <= zlen buf -> 0 < zlen bs < 2 ^ 30 ->
  slice buf index (zlen (frame hb pb bs)) = frame hb pb bs ->
  exists st, Oplog.validate_leader index buf = Ok (Some (mkValidateLeaderOutcome st hb pb)) /\
    st_start st = index + 8 /\ st_end st = index + 8 + zlen bs.
Proof.
  intros Hi Hb Hl Hsl. unfold frame in Hsl. apply slice_app_inv in Hsl as [Hld Hbs]; [|done].
  unfold leader in Hld. apply slice_app_inv in Hld as [Hc Ht]; [|done].
  rewrite zlen_leader in Hbs. unfold leader_tail in Ht. rewrite !zlen_le_bytes in Ht.
  change (Z.of_nat 4) with 4 in *.
  unfold Oplog.validate_leader. rewrite (proj2 (Z.ltb_ge _ _)) by lia.
  set (st0 := st_new_with_start_and_end index (zlen buf)).
  assert (st_start st0 = index) as Hs0 by (apply new_start; lia).
  assert (st_end st0 = zlen buf) as He0 by (apply new_end; lia).
  destruct (decode_u32_law (le_bytes 4 (crc32 (leader_tail hb pb bs ++ bs))) (le_bytes_u8 _ _)
    (zlen_le_bytes _ _) st0 buf) as (st1 & -> & Hs1 & He1);
    [rewrite ?zlen_le_bytes; lia..|by rewrite Hs0|].
  rewrite zlen_le_bytes in Hs1. cbn [enc_try map_err]. rewrite bind_Ok.
  destruct (decode_u32_law (le_bytes 4 (leader_word hb pb (zlen bs))) (le_bytes_u8 _ _)
    (zlen_le_bytes _ _) st1 buf) as (st2 & -> & Hs2 & He2);
    [rewrite ?zlen_le_bytes; lia..|rewrite zlen_le_bytes, Hs1, Hs0; exact Ht|].
  rewrite zlen_le_bytes in Hs2. cbn [enc_try map_err]. rewrite bind_Ok.
  pose proof (crc32_u32 (leader_tail hb pb bs ++ bs)). pose proof (leader_word_u32 hb pb (zlen bs)).
  unfold is_u32 in *. rewrite !le_value_bytes by (change (256 ^ Z.of_nat 4) with (2 ^ 32); lia).
  destruct (leader_word_fields hb pb (zlen bs)) as (-> & -> & ->); [lia|].
  rewrite checked_sub_Ok, bind_Ok by lia.
  rewrite (proj2 (Z.eqb_neq _ _)), (proj2 (Z.ltb_ge _ _)) by lia. cbn [orb].
  destruct (set_start_law (st_set_end st2 (index + 8 + zlen bs)) (index + 8))
    as (st3 & -> & Hs3 & He3); [rewrite set_end_end; lia|].
  rewrite set_end_end in He3. cbn [enc_try map_err]. rewrite bind_Ok, He3.
  rewrite slice_range_Ok, bind_Ok by lia.
  replace (index + 8 + zlen bs - (index + 4)) with (4 + zlen bs) by lia.
  rewrite slice_split by lia. rewrite Ht. replace (index + 4 + 4) with (index + 8) by lia.
  rewrite Hbs. fold (leader_tail hb pb bs). rewrite Z.eqb_refl. cbn [negb].
  exists st3. done.
Qed.
End Framing.

(** ** The oplog file *)

Section File.
Context `{FT : FlatTree} `{CE : CompactEncoding} {CL : CompactEncodingLaws CE}
  `{ED : Ed25519} {EL : Ed25519Laws ED} `{CR : Crc32} {CRL : Crc32Laws CR}.

Definition header_fits (h : Header) : Prop := header_wf h /\ 8 + zlen (header_bytes h) <= HEADER_SIZE.
Definition entry_fits (e : Entry) : Prop := entry_wf e /\ zlen (entry_bytes e) < 2 ^ 30.

Lemma header_bytes_pos h : 0 < zlen (header_bytes h).
Proof. unfold header_bytes. rewrite zlen_app. change (zlen [1]) with 1. pose proof (zlen_nonneg ([6] ++ hd_key h ++ manifest_bytes (hd_manifest h) ++ partial_keypair_bytes (hd_key_pair h) ++ strings_bytes (hd_user_data h) ++ header_tree_bytes (hd_tree h) ++ header_hints_bytes (hd_hints h))). lia. Qed.

Lemma entry_bytes_pos e : 0 < zlen (entry_bytes e).
Proof.
  unfold entry_bytes. rewrite zlen_app. change (zlen [_]) with 1.
  pose proof (zlen_nonneg (entry_body_bytes e)). lia.
Qed.

(** *** Reading *)

(** A framed value is found and decoded; the cursor ends where the frame ends. *)
Lemma read_frame `{!Codec A} {wf bytes} `{!CodecLaws A wf bytes} (a : A) f o hb pb :
  wf a -> 0 <= o -> 0 < zlen (bytes a) < 2 ^ 30 -> at_offset f o (frame hb pb (bytes a)) ->
  exists st st', Oplog.validate_leader o f = Ok (Some (mkValidateLeaderOutcome st hb pb)) /\
    decode st f = Ok (st', a) /\ st_end st' = o + zlen (frame hb pb (bytes a)).
Proof.
  intros Hwf Ho Hl [Hle Hsl]. pose proof Hle as Hle'. rewrite zlen_frame in Hle' |- *.
  destruct (validate_leader_ok f o hb pb (bytes a)) as (st & Hv & Hs & He); [lia..|done|].
  assert (at_offset f o (frame hb pb (bytes a))) as Hat by done.
  unfold frame in Hat. apply at_offset_app in Hat as [_ [_ Hb]]; [|done].
  rewrite zlen_leader in Hb.
  destruct (codec_dec a Hwf st f) as (st' & Hd & _ & He'); [lia..|by rewrite Hs|].
  exists st, st'. split_and!; [done|done|lia].
Qed.

Definition entry_frames (hb : bool) (es : list Entry) : list Z :=
  concat ((fun e => frame hb false (entry_bytes e)) <$> es).

Lemma validate_leader_end f o : zlen f < o + 8 -> Oplog.validate_leader o f = Ok None.
Proof. intros H. unfold Oplog.validate_leader. by rewrite (proj2 (Z.ltb_lt _ _)). Qed.

Lemma read_entries_ok hb es : forall fuel f o acc ps,
  Forall entry_fits es -> 0 <= o -> zlen f = o + zlen (entry_frames hb es) ->
  at_offset f o (entry_frames hb es) -> (length es < fuel)%nat ->
  Oplog.read_entries fuel o f acc ps = Ok (acc ++ es, ps ++ replicate (length es) false).
Proof.
  induction es as [|e es IH]; intros fuel f o acc ps Hall Ho Hz Hat Hfuel;
    (destruct fuel as [|fuel]; [lia|]); cbn [Oplog.read_entries].
  - change (entry_frames hb []) with (@nil Z) in Hz. rewrite zlen_nil in Hz.
    rewrite validate_leader_end, bind_Ok by lia. cbn [length replicate].
    by rewrite !app_nil_r.
  - apply Forall_cons in Hall as [[Hwf Hlen] Hall].
    change (entry_frames hb (e :: es)) with (frame hb false (entry_bytes e) ++ entry_frames hb es) in *.
    rewrite zlen_app in Hz. apply at_offset_app in Hat as [Hat Hat']; [|done].
    pose proof (entry_bytes_pos e). pose proof (zlen_frame hb false (entry_bytes e)).
    destruct (read_frame e f o hb false) as (st & st' & -> & Hd & He); [done|done|lia|done|].
    rewrite bind_Ok. cbn [vl_state vl_partial_bit]. rewrite Hd. cbn [enc_try map_err].
    rewrite bind_Ok, He, IH; [|done|lia|lia|done|cbn in Hfuel; lia].
    by rewrite <-!app_assoc.
Qed.

Lemma remove_trailing_none fuel es n :
  Oplog.remove_trailing_partials fuel es (replicate n false) = Ok es.
Proof.
  assert (last (replicate n false) <> Some true) as Hl.
  { destruct (last (replicate n false)) as [b|] eqn:He; [|done].
    apply last_Some_elem_of, elem_of_replicate in He as [-> _]. done. }
  destruct fuel; cbn; by destruct (last (replicate n false)) as [[]|].
Qed.

(** *** The two slots *)

Definition current_slot (bits : bool * bool) : OplogSlot :=
  if xorb bits.1 bits.2 then SecondHeader else FirstHeader.
Definition other_slot (bits : bool * bool) : OplogSlot :=
  if xorb bits.1 bits.2 then FirstHeader else SecondHeader.
Definition slot_bit (bits : bool * bool) (slot : OplogSlot) : bool :=
  match slot with FirstHeader => bits.1 | _ => bits.2 end.

Definition slot_holds (f : list Z) (bits : bool * bool) (slot : OplogSlot) (h : Header) : Prop :=
  header_fits h /\ at_offset f (slot_offset slot) (frame (slot_bit bits slot) false (header_bytes h)).
Definition slot_empty (f : list Z) (slot : OplogSlot) : Prop :=
  at_offset f (slot_offset slot) (replicate 8 0).

(** The slot that is not current: it has the header [prev], or is empty, as
    the second slot is until the first flush. *)
Definition before_holds (f : list Z) (bits : bool * bool) (prev : option Header) : Prop :=
  match prev with
  | Some h' => slot_holds f bits (other_slot bits) h'
  | None => current_slot bits = FirstHeader /\ slot_empty f SecondHeader
  end.

(** The file of an oplog whose newest header is [h], with the entries [es]
    after it. *)
Definition oplog_file (self : Oplog_) (h : Header) (es : list Entry) (f : list Z) : Prop :=
  let bits := op_header_bits self in
  let frames := entry_frames (Oplog.get_current_header_bit self) es in
  slot_holds f bits (current_slot bits) h /\
  (exists prev, before_holds f bits prev) /\
  Forall entry_fits es /\
  zlen f = slot_offset Entries + zlen frames /\ at_offset f (slot_offset Entries) frames /\
  op_entries_length self = zlen es /\ op_entries_byte_length self = zlen frames.

Lemma slot_offset_nonneg slot : 0 <= slot_offset slot.
Proof. unfold slot_offset, HEADER_SIZE. destruct slot; lia. Qed.

Lemma slot_read f bits slot h :
  slot_holds f bits slot h ->
  exists st st', Oplog.validate_leader (slot_offset slot) f
      = Ok (Some (mkValidateLeaderOutcome st (slot_bit bits slot) false)) /\
    decode (A:=Header) st f = Ok (st', h).
Proof.
  intros [[Hwf Hl] Hat]. pose proof (header_bytes_pos h). pose proof (slot_offset_nonneg slot).
  unfold HEADER_SIZE in Hl.
  destruct (read_frame h f (slot_offset slot) (slot_bit bits slot) false)
    as (st & st' & ? & ? & _); [done|done|lia|done|]. eauto.
Qed.

Lemma slot_empty_read f slot :
  slot_empty f slot -> Oplog.validate_leader (slot_offset slot) f = Ok None.
Proof.
  intros Hat. pose proof (slot_offset_nonneg slot) as Ho.
  unfold slot_empty in Hat. change (replicate 8 0) with (le_bytes 4 0 ++ le_bytes 4 0) in Hat.
  apply at_offset_app in Hat as [[Hl1 Hc] [Hl2 Ht]]; [|done].
  rewrite zlen_le_bytes in Hl1, Hl2, Hc, Ht. cbn in Hl1, Hl2. unfold Oplog.validate_leader.
  rewrite (proj2 (Z.ltb_ge _ _)) by lia.
  set (st0 := st_new_with_start_and_end _ _).
  assert (st_start st0 = slot_offset slot) as Hs0 by (apply new_start; lia).
  assert (st_end st0 = zlen f) as He0 by (apply new_end; lia).
  destruct (decode_u32_law (le_bytes 4 0) (le_bytes_u8 _ _) (zlen_le_bytes _ _) st0 f)
    as (st1 & -> & Hs1 & He1); [rewrite ?zlen_le_bytes; lia..|by rewrite Hs0|].
  rewrite zlen_le_bytes in Hs1. cbn [enc_try map_err]. rewrite bind_Ok.
  destruct (decode_u32_law (le_bytes 4 0) (le_bytes_u8 _ _) (zlen_le_bytes _ _) st1 f)
    as (st2 & -> & Hs2 & He2); [rewrite ?zlen_le_bytes; lia..|by rewrite zlen_le_bytes, Hs1, Hs0|].
  rewrite zlen_le_bytes in Hs2. cbn [enc_try map_err]. rewrite bind_Ok.
  rewrite checked_sub_Ok, bind_Ok by lia. done.
Qed.

(** The headers are read back: the newest one, with the bits that tell so. *)
Lemma open_headers_ok self h es f kp :
  oplog_file self h es f ->
  exists h1 h2, Oplog.validate_leader (slot_offset FirstHeader) f = Ok h1 /\
    Oplog.validate_leader (slot_offset SecondHeader) f = Ok h2 /\
    Oplog.open_headers kp f h1 h2 =
      Ok (OplogOpenOutcome_new (mkOplog (op_header_bits self) 0 0) h []).
Proof.
  intros (Hcur & Hoth & _). destruct (op_header_bits self) as [b0 b1] eqn:Hbits.
  apply slot_read in Hcur as (st & st' & Hv & Hd). unfold current_slot, other_slot in *.
  cbn [fst snd] in *. destruct Hoth as [[h'|] Hoth]; cbn [before_holds] in Hoth; unfold other_slot, current_slot in Hoth; cbn [fst snd] in Hoth;
    [|destruct Hoth as [Hc Hoth]].
  - apply slot_read in Hoth as (st2 & st2' & Hv2 & Hd2).
    destruct (xorb b0 b1) eqn:Hx; eexists _, _; (split_and!; [eassumption..|]);
      cbn [Oplog.open_headers slot_bit vl_header_bit vl_state fst snd];
      destruct b0, b1; try discriminate Hx; cbn [Bool.eqb]; by rewrite Hd.
  - apply slot_empty_read in Hoth. destruct (xorb b0 b1) eqn:Hx; [done|].
    eexists _, _. split_and!; [eassumption..|]. cbn [Oplog.open_headers vl_state]. rewrite Hd.
    cbn [enc_try map_err]. rewrite bind_Ok. cbn. by destruct b0, b1.
Qed.

(** Opening the file gives the newest header and the entries. *)
Lemma open_ok self h es f kp :
  oplog_file self h es f ->
  Oplog.open kp (Some (StoreInfo.new_content Oplog 0 f)) =
    Ok (Right (mkOpenOutcome (mkOplog (op_header_bits self) 0 0) h []
                 (match es with [] => None | _ => Some es end))).
Proof.
  intros Hf. destruct (open_headers_ok _ _ _ _ kp Hf) as (h1 & h2 & Hv1 & Hv2 & Ho).
  destruct Hf as (_ & _ & Hes & Hz & Hat & _). unfold Oplog.open.
  cbn [StoreInfo.new_content si_data unwrap]. rewrite bind_Ok, Hv1, bind_Ok, Hv2, bind_Ok, Ho, bind_Ok.
  destruct es as [|e es].
  { change (entry_frames _ []) with (@nil Z) in Hz. rewrite zlen_nil in Hz.
    rewrite (proj2 (Z.ltb_ge _ _)); [done|lia]. }
  set (hb := Oplog.get_current_header_bit self) in *.
  assert (Z.of_nat (length (e :: es)) <= zlen (entry_frames hb (e :: es))) as Hlen.
  { clear. induction (e :: es) as [|x l IH]; [done|].
    change (entry_frames hb (x :: l)) with (frame hb false (entry_bytes x) ++ entry_frames hb l).
    rewrite zlen_app, zlen_frame. pose proof (zlen_nonneg (entry_bytes x)). cbn [length]. lia. }
  cbn [length] in Hlen. rewrite (proj2 (Z.ltb_lt _ _)) by (rewrite Hz; lia).
  erewrite read_entries_ok; [|done|apply slot_offset_nonneg|exact Hz|done|].
  - rewrite bind_Ok, !app_nil_l, remove_trailing_none, bind_Ok. done.
  - pose proof (slot_offset_nonneg Entries). unfold zlen in Hz, Hlen. cbn [length]. lia.
Qed.
(** *** Writing *)

Lemma zdrop_replicate (n : nat) (k : Z) (x : Z) :
  zdrop k (replicate n x) = replicate (n - Z.to_nat k) x.
Proof. unfold zdrop. by rewrite drop_replicate. Qed.

(** A body written behind the room for its leader, then the leader. *)
Lemma splice_leader (buf l b : list Z) :
  zlen l + zlen b <= zlen buf ->
  splice (splice buf (zlen l) b) 0 l = (l ++ b) ++ zdrop (zlen l + zlen b) buf.
Proof.
  intros Hle. pose proof (zlen_nonneg l). pose proof (zlen_nonneg b).
  unfold splice at 1. change (ztake 0 _) with (@nil Z). rewrite app_nil_l, Z.add_0_l, <-app_assoc.
  f_equal. unfold splice, zdrop, ztake, zlen in *.
  rewrite Nat2Z.id, drop_app_length'; [done|]. rewrite length_take. lia.
Qed.

(** The next header goes to the slot that is not current, with a new bit. *)
Definition next_bits (bits : bool * bool) : bool * bool :=
  if xorb bits.1 bits.2 then (negb bits.1, bits.2) else (bits.1, negb bits.2).

Definition header_buffer (bit clear_traces : bool) (h : Header) : list Z :=
  frame bit false (header_bytes h) ++
  if clear_traces then replicate (Z.to_nat (HEADER_SIZE - (8 + zlen (header_bytes h)))) 0 else [].

Lemma insert_header_ok h ebl bits clear_traces :
  header_fits h -> 0 <= ebl -> slot_offset Entries + ebl < 2 ^ 64 ->
  Oplog.insert_header h ebl bits clear_traces =
    Ok (next_bits bits,
        [StoreInfo.new_content Oplog (slot_offset (other_slot bits))
           (header_buffer (slot_bit (next_bits bits) (other_slot bits)) clear_traces h);
         StoreInfo.new_truncate Oplog (slot_offset Entries + ebl)]).
Proof.
  intros [Hwf Hfit] He Hb. unfold Oplog.insert_header. unfold HEADER_SIZE in Hfit.
  pose proof (header_bytes_pos h) as Hpos.
  assert (Oplog.get_next_header_oplog_slot_and_bit_value bits =
          (other_slot bits, slot_bit (next_bits bits) (other_slot bits))) as ->.
  { destruct bits as [[] []]; done. }
  set (bit := slot_bit (next_bits bits) (other_slot bits)).
  assert (match other_slot bits with
          | FirstHeader => Ok (bit, bits.2) | SecondHeader => Ok (bits.1, bit) | Entries => Panic
          end = Ok (E:=HypercoreError) (next_bits bits)) as ->.
  { by destruct bits as [[] []]. }
  rewrite bind_Ok. set (st0 := st_new_with_start_and_end 8 8).
  assert (st_start st0 = 8) as Hs0 by (apply new_start; lia).
  assert (st_end st0 = 8) as He0 by (apply new_end; lia).
  destruct (codec_pre h Hwf st0) as (st1 & -> & Hs1 & He1); [lia..|].
  cbn [enc_try map_err]. rewrite bind_Ok, He1, He0.
  set (st2 := if clear_traces then _ else _).
  assert (st_start st2 = 8) as Hs2.
  { subst st2. destruct clear_traces; rewrite ?set_end_start; lia. }
  assert (st_end st2 = if clear_traces then HEADER_SIZE else 8 + zlen (header_bytes h)) as He2.
  { subst st2. destruct clear_traces; rewrite ?set_end_end; lia. }
  assert (8 + zlen (header_bytes h) <= st_end st2) as Hle.
  { rewrite He2. unfold HEADER_SIZE. destruct clear_traces; lia. }
  rewrite create_buffer_law by lia.
  destruct (codec_enc h Hwf st2 (replicate (Z.to_nat (st_end st2)) 0)) as (st3 & -> & Hs3 & He3);
    [rewrite ?zlen_replicate; lia..|].
  cbn [enc_try map_err]. rewrite bind_Ok, checked_sub_Ok, bind_Ok by lia.
  replace (8 + zlen (header_bytes h) - 8) with (zlen (header_bytes h)) by lia. rewrite Hs2.
  destruct (prepend_leader_ok st3 (splice (replicate (Z.to_nat (st_end st2)) 0) 8 (header_bytes h))
    0 (header_bytes h) bit false) as (st4 & -> & _);
    [lia|lia|lia| |lia|apply slice_splice_same; rewrite ?zlen_replicate; lia|].
  { rewrite zlen_splice; rewrite ?zlen_replicate; lia. }
  rewrite bind_Ok, checked_add_Ok, bind_Ok by lia. do 5 f_equal.
  pose proof (zlen_leader bit false (header_bytes h)) as Hz. rewrite <-Hz at 1.
  rewrite splice_leader by (rewrite zlen_replicate; lia). rewrite Hz, zdrop_replicate.
  unfold header_buffer, frame. f_equal. rewrite He2. destruct clear_traces.
  - f_equal. lia.
  - by rewrite Nat.sub_diag.
Qed.

Lemma append_entries_one self e atomic :
  entry_fits e -> 0 <= op_entries_length self -> op_entries_length self + 1 < 2 ^ 64 ->
  0 <= op_entries_byte_length self -> op_entries_byte_length self < 2 ^ 63 ->
  Oplog.append_entries self [e] atomic =
    let fr := frame (Oplog.get_current_header_bit self) false (entry_bytes e) in
    Ok (mkOplog (op_header_bits self) (op_entries_length self + 1)
          (op_entries_byte_length self + zlen fr),
        [StoreInfo.new_content Oplog (slot_offset Entries + op_entries_byte_length self) fr]).
Proof.
  intros [Hwf Hlen] Hl0 Hl Hb0 Hb. unfold Oplog.append_entries. change (zlen [e]) with 1.
  rewrite checked_mul_Ok, bind_Ok by lia. cbn [Oplog.preencode_entries].
  set (hb := Oplog.get_current_header_bit self). set (bs := entry_bytes e) in *.
  pose proof (zlen_nonneg bs). set (st0 := st_new_with_start_and_end 0 (1 * 8)).
  assert (st_start st0 = 0) as Hs0 by (apply new_start; lia).
  assert (st_end st0 = 8) as He0 by (apply new_end; lia).
  destruct (codec_pre e Hwf st0) as (st1 & -> & Hs1 & He1); [fold bs; lia..|]. fold bs in He1.
  cbn [enc_try map_err]. rewrite !bind_Ok, create_buffer_law by lia. cbn [Oplog.encode_entries].
  destruct (add_start_law st1 8) as (st2 & -> & Hs2 & He2); [lia..|].
  cbn [enc_try map_err]. rewrite bind_Ok.
  destruct (codec_enc e Hwf st2 (replicate (Z.to_nat (st_end st1)) 0)) as (st3 & -> & Hs3 & He3);
    [fold bs; rewrite ?zlen_replicate; lia..|]. fold bs in Hs3 |- *.
  cbn [enc_try map_err]. rewrite bind_Ok, checked_sub_Ok, bind_Ok by lia.
  replace (st_start st3 - st_start st2) with (zlen bs) by lia.
  replace (st_start st2) with 8 by lia. change (0 <? 1 - 1) with false. rewrite andb_false_r.
  destruct (prepend_leader_ok st3 (splice (replicate (Z.to_nat (st_end st1)) 0) 8 bs) 0 bs hb false)
    as (st4 & -> & _); [lia|lia|lia| |lia|apply slice_splice_same; rewrite ?zlen_replicate; lia|].
  { rewrite zlen_splice; rewrite ?zlen_replicate; lia. }
  rewrite !bind_Ok. pose proof (zlen_leader hb false bs) as Hz.
  assert (splice (splice (replicate (Z.to_nat (st_end st1)) 0) 8 bs) 0 (leader hb false bs)
          = frame hb false bs) as ->.
  { rewrite <-Hz at 1. rewrite splice_leader by (rewrite zlen_replicate; lia).
    rewrite zdrop_replicate. unfold frame. rewrite (proj2 (Nat.sub_0_le _ _)); [by rewrite app_nil_r|].
    lia. }
  pose proof (zlen_frame hb false bs). unfold slot_offset, HEADER_SIZE. by checked.
Qed.

Lemma frames_snoc hb es e :
  entry_frames hb (es ++ [e]) = entry_frames hb es ++ frame hb false (entry_bytes e).
Proof. unfold entry_frames. rewrite fmap_app, concat_app. cbn. by rewrite app_nil_r. Qed.

Lemma slot_holds_end f bits slot h :
  slot <> Entries -> slot_holds f bits slot h ->
  slot_offset slot + zlen (frame (slot_bit bits slot) false (header_bytes h)) <= slot_offset Entries.
Proof.
  intros Hs [[_ Hfit] _]. rewrite zlen_frame. unfold slot_offset, HEADER_SIZE in *.
  destruct slot; [lia..|done].
Qed.
Lemma current_slot_ne bits : current_slot bits <> Entries.
Proof. by destruct bits as [[] []]. Qed.
Lemma other_slot_ne bits : other_slot bits <> Entries.
Proof. by destruct bits as [[] []]. Qed.

(** Writing behind the slots leaves them alone. *)
Lemma before_write f bits prev o bs :
  slot_offset Entries <= o -> before_holds f bits prev -> before_holds (file_write f o bs) bits prev.
Proof.
  intros Ho. pose proof (slot_offset_nonneg Entries). destruct prev as [h'|].
  - intros Hoth. pose proof (slot_holds_end _ _ _ _ (other_slot_ne _) Hoth). destruct Hoth as [Hf Hat]. split; [done|].
    apply at_offset_write_other; [lia|apply slot_offset_nonneg|left; lia|done].
  - intros [Hc Hat]. split; [done|]. apply at_offset_write_other; [lia|apply slot_offset_nonneg| |done].
    left. transitivity (slot_offset Entries); [done|lia].
Qed.

(** The current header is in its slot, whatever follows the two slots.  An oplog
    that was just opened is in this state with its counters at zero, although
    there may be entries in the file. *)
Definition headed (self : Oplog_) (f : list Z) : Prop :=
  (exists h, slot_holds f (op_header_bits self) (current_slot (op_header_bits self)) h) /\
  slot_offset Entries <= zlen f.

Lemma oplog_file_headed self h es f : oplog_file self h es f -> headed self f.
Proof.
  intros (Hcur & _ & _ & Hz & _). split; [by eexists|].
  pose proof (zlen_nonneg (entry_frames (Oplog.get_current_header_bit self) es)). lia.
Qed.

(** The counters of a few entries. *)
Definition counted (self : Oplog_) : Prop :=
  0 <= op_entries_length self < 2 ^ 32 - 1 /\ 0 <= op_entries_byte_length self <= op_entries_length self * (2 ^ 30 + 8).

(** Appending an entry keeps the slots, and adds it to a file that is in step
    with the counters. *)
Lemma append_headed self f e atomic :
  headed self f -> counted self -> entry_fits e ->
  exists self' infos, Oplog.append_entries self [e] atomic = Ok (self', infos) /\
    headed self' (file_effects f infos) /\ op_header_bits self' = op_header_bits self /\
    op_entries_length self' = op_entries_length self + 1 /\
    0 <= op_entries_byte_length self' <= op_entries_length self' * (2 ^ 30 + 8) /\ Forall (writes_to Oplog) infos.
Proof.
  intros [[h Hcur] Hz] [Hl Hb] He. pose proof He as [_ Hsz]. pose proof (slot_offset_nonneg Entries) as Hoff.
  rewrite append_entries_one by (done || lia). eexists _, _. split; [done|].
  set (fr := frame _ false (entry_bytes e)). cbn [file_effects foldl info_effect StoreInfo.new_content si_info_type
    si_miss si_data si_index op_header_bits op_entries_length op_entries_byte_length].
  assert (0 <= zlen fr < 2 ^ 30 + 8) as Hfr by (unfold fr; rewrite zlen_frame; pose proof (zlen_nonneg (entry_bytes e)); lia).
  split_and!; try done; try lia.
  - split; [exists h; cbn [op_header_bits]|rewrite zlen_file_write by lia; lia].
    pose proof (slot_holds_end _ _ _ _ (current_slot_ne _) Hcur) as Hend. destruct Hcur. split; [done|].
    apply at_offset_write_other; [lia|apply slot_offset_nonneg|left; etransitivity; [exact Hend|lia]|done].
  - constructor; [|constructor]. split; [done|]. split; [change (0 <= slot_offset Entries + op_entries_byte_length self); lia|done].
Qed.

(** Appending an entry adds it to the file. *)
Lemma append_preserves self h es f e atomic :
  oplog_file self h es f -> entry_fits e ->
  op_entries_length self + 1 < 2 ^ 64 -> op_entries_byte_length self < 2 ^ 63 ->
  exists self' infos, Oplog.append_entries self [e] atomic = Ok (self', infos) /\
    oplog_file self' h (es ++ [e]) (file_effects f infos) /\
    op_header_bits self' = op_header_bits self /\ Forall (writes_to Oplog) infos.
Proof.
  intros (Hcur & Hoth & Hes & Hz & Hat & Hl & Hbl) He Hbound Hbound2.
  set (hb := Oplog.get_current_header_bit self) in *.
  pose proof (zlen_nonneg es). pose proof (zlen_nonneg (entry_frames hb es)) as Hfr.
  rewrite append_entries_one by (done || lia). eexists _, _. split; [done|].
  assert (forall o bs, 0 <= o -> writes_to Oplog (StoreInfo.new_content Oplog o bs)) as Hw
    by (split; [done|by split]).
  split; [|split; [done|constructor; [apply Hw; unfold slot_offset, HEADER_SIZE; lia|constructor]]].
  fold hb. set (fr := frame hb false (entry_bytes e)).
  cbn [file_effects foldl info_effect StoreInfo.new_content si_info_type si_miss si_data si_index].
  rewrite Hbl. pose proof (slot_offset_nonneg Entries) as Hoff.
  assert (forall o' bs', 0 <= o' -> o' + zlen bs' <= slot_offset Entries -> at_offset f o' bs' ->
    at_offset (file_write f (slot_offset Entries + zlen (entry_frames hb es)) fr) o' bs') as Hkeep.
  { intros. apply at_offset_write_other; [lia..|done]. }
  unfold oplog_file. cbn [op_header_bits op_entries_length op_entries_byte_length].
  change (Oplog.get_current_header_bit (mkOplog _ _ _)) with hb. rewrite frames_snoc. fold fr.
  split_and!.
  - pose proof (slot_holds_end _ _ _ _ (current_slot_ne _) Hcur).
    destruct Hcur. split; [done|]. apply Hkeep; [apply slot_offset_nonneg|done..].
  - destruct Hoth as [prev Hoth]. exists prev. apply before_write; [lia|done].
  - apply Forall_app. split; [done|by constructor].
  - rewrite zlen_file_write, zlen_app by lia. pose proof (zlen_nonneg fr). lia.
  - apply at_offset_join; [done| |].
    + apply at_offset_write_other; [lia..|done].
    + apply at_offset_write_same. lia.
  - rewrite zlen_app. change (zlen [e]) with 1. lia.
  - rewrite zlen_app. lia.
Qed.

(** The other slot stays as it is. *)
Lemma append_before self h es f e atomic prev self' infos :
  oplog_file self h es f -> entry_fits e -> op_entries_length self + 1 < 2 ^ 64 -> op_entries_byte_length self < 2 ^ 63 ->
  Oplog.append_entries self [e] atomic = Ok (self', infos) -> before_holds f (op_header_bits self) prev ->
  before_holds (file_effects f infos) (op_header_bits self') prev.
Proof.
  intros (_ & _ & _ & _ & _ & Hl & Hbl) He Hb1 Hb2 Hrun Hprev. pose proof (zlen_nonneg es).
  pose proof (zlen_nonneg (entry_frames (Oplog.get_current_header_bit self) es)).
  rewrite append_entries_one in Hrun by (done || lia). injection Hrun as <- <-.
  apply before_write; [|done]. change (slot_offset Entries <= slot_offset Entries + op_entries_byte_length self). lia.
Qed.

(** Writing a header fills its slot and leaves the other one alone. *)
Lemma zlen_header_buffer bit c h : header_fits h -> zlen (header_buffer bit c h) <= HEADER_SIZE.
Proof.
  intros [_ Hf]. unfold header_buffer. rewrite zlen_app, zlen_frame.
  destruct c; rewrite ?zlen_replicate, ?zlen_nil; lia.
Qed.

Lemma slot_write f bits slot c h :
  header_fits h ->
  slot_holds (file_write f (slot_offset slot) (header_buffer (slot_bit bits slot) c h)) bits slot h.
Proof.
  intros Hh. split; [done|]. pose proof (slot_offset_nonneg slot).
  eapply at_offset_app; [done|]. by apply at_offset_write_same.
Qed.

Lemma slot_write_other f bits bits' slot slot' bit c h h' :
  slot <> Entries -> slot' <> Entries -> slot <> slot' -> header_fits h ->
  slot_bit bits' slot' = slot_bit bits slot' -> slot_holds f bits slot' h' ->
  slot_holds (file_write f (slot_offset slot) (header_buffer bit c h)) bits' slot' h'.
Proof.
  intros Hs Hs' Hne Hh Hbit [Hh' Hat]. split; [done|]. rewrite Hbit.
  pose proof (zlen_header_buffer bit c h Hh) as Hz. pose proof (proj2 Hh') as Hz'.
  apply at_offset_write_other; [apply slot_offset_nonneg..| |done]. rewrite zlen_frame.
  unfold slot_offset, HEADER_SIZE in *. destruct slot, slot'; done || lia.
Qed.

Lemma slot_truncate f bits slot h :
  slot <> Entries -> slot_holds f bits slot h ->
  slot_holds (file_truncate f (slot_offset Entries + 0)) bits slot h.
Proof.
  intros Hs Hh. pose proof (slot_holds_end _ _ _ _ Hs Hh). destruct Hh as [Hh Hat].
  split; [done|]. apply at_offset_truncate; [apply slot_offset_nonneg|lia|done].
Qed.

(** A file with two headers and nothing behind them. *)
Lemma oplog_file_flushed bits f h h' :
  slot_holds f bits (current_slot bits) h -> slot_holds f bits (other_slot bits) h' ->
  oplog_file (mkOplog bits 0 0) h [] (file_truncate f (slot_offset Entries + 0)) /\
  before_holds (file_truncate f (slot_offset Entries + 0)) bits (Some h').
Proof.
  intros Hc Ho. assert (before_holds (file_truncate f (slot_offset Entries + 0)) bits (Some h')) as Hb
    by (apply slot_truncate; [apply other_slot_ne|done]).
  split; [|done]. unfold oplog_file. cbn [op_header_bits op_entries_length op_entries_byte_length].
  change (entry_frames _ []) with (@nil Z).
  assert (zlen (file_truncate f (slot_offset Entries + 0)) = slot_offset Entries + 0) as Hz
    by (apply zlen_file_truncate; unfold slot_offset, HEADER_SIZE; lia).
  split_and!; try done.
  - apply slot_truncate; [apply current_slot_ne|done].
  - by exists (Some h').
  - split; [|done]. rewrite Hz. done.
Qed.

Lemma next_bits_slots bits :
  current_slot (next_bits bits) = other_slot bits /\ other_slot (next_bits bits) = current_slot bits /\
  slot_bit (next_bits bits) (current_slot bits) = slot_bit bits (current_slot bits).
Proof. by destruct bits as [[] []]. Qed.

(** The infos of headers go to the oplog store. *)
Lemma header_infos_writes infos :
  Forall (fun info => exists slot bs, info = StoreInfo.new_content Oplog (slot_offset slot) bs \/
                        info = StoreInfo.new_truncate Oplog (slot_offset slot + 0)) infos ->
  Forall (writes_to Oplog) infos.
Proof.
  intros H. eapply Forall_impl; [exact H|]. intros info (slot & bs & Hi).
  pose proof (slot_offset_nonneg slot). destruct Hi as [->| ->]; (split; [done|split; cbn; [lia|done]]).
Qed.

#[local] Ltac header_infos :=
  apply header_infos_writes; cbn [app];
  repeat (apply Forall_cons; split;
          [first [by eexists _, _; left | by exists Entries, []; right]|]);
  apply Forall_nil_2.

(** Flushing makes the given header the newest one and drops the entries; the
    header that was the newest is in the other slot, or the new one is in both
    when the traces are cleared. *)
Lemma flush_slots self f h h' (clear_traces : bool) :
  slot_holds f (op_header_bits self) (current_slot (op_header_bits self)) h -> header_fits h' ->
  exists self' infos, Oplog.flush self h' clear_traces = Ok (self', infos) /\
    (oplog_file self' h' [] (file_effects f infos) /\
     before_holds (file_effects f infos) (op_header_bits self') (Some (if clear_traces then h' else h))) /\
    Forall (writes_to Oplog) infos.
Proof.
  intros Hcur Hh'. unfold Oplog.flush. set (bits := op_header_bits self) in *.
  assert (other_slot bits <> Entries /\ current_slot bits <> Entries /\
          other_slot bits <> current_slot bits) as (Ho & Hc & Hne) by by destruct bits as [[] []].
  destruct (next_bits_slots bits) as (Hn1 & Hn2 & Hn3).
  assert (slot_offset Entries + 0 < 2 ^ 64) as Hb by (unfold slot_offset, HEADER_SIZE; lia).
  rewrite !(insert_header_ok h' 0 bits) by (done || lia).
  set (bits1 := next_bits bits) in *.
  set (f1 := file_write f (slot_offset (other_slot bits))
               (header_buffer (slot_bit bits1 (other_slot bits)) clear_traces h')).
  assert (slot_holds f1 bits1 (other_slot bits) h') as H1 by by apply slot_write.
  assert (slot_holds f1 bits1 (current_slot bits) h) as H2 by (by eapply slot_write_other).
  destruct clear_traces.
  - rewrite !bind_Ok. cbn [slice_range]. rewrite insert_header_ok by (done || lia).
    destruct (next_bits_slots bits1) as (Hm1 & Hm2 & Hm3).
    cbn -[file_write header_buffer slot_offset Z.add].
    eexists _, _. split; [done|]. split; [|header_infos].
    cbn [file_effects foldl app].
    cbn [info_effect StoreInfo.new_content StoreInfo.new_truncate si_info_type si_miss si_data si_index].
    fold f1. apply (oplog_file_flushed _ _ _ h').
    + rewrite Hm1. by apply slot_write.
    + rewrite Hm2, Hn1. eapply slot_write_other; [..|exact H1]; rewrite ?Hn2; try done.
      rewrite <-Hn1. exact Hm3.
  - rewrite !bind_Ok. eexists _, _. split; [done|]. split; [|header_infos].
    cbn [file_effects foldl].
    cbn [info_effect StoreInfo.new_content StoreInfo.new_truncate si_info_type si_miss si_data si_index].
    fold f1. apply (oplog_file_flushed _ _ _ h); [by rewrite Hn1|by rewrite Hn2].
Qed.

Lemma flush_headed self f h' clear_traces :
  headed self f -> header_fits h' ->
  exists self' infos, Oplog.flush self h' clear_traces = Ok (self', infos) /\
    oplog_file self' h' [] (file_effects f infos) /\ Forall (writes_to Oplog) infos.
Proof.
  intros [[h Hcur] _] Hh'. destruct (flush_slots self f h h' clear_traces Hcur Hh') as (self' & infos & ? & [? _] & ?).
  by exists self', infos.
Qed.

Lemma flush_preserves self h es f h' clear_traces :
  oplog_file self h es f -> header_fits h' ->
  exists self' infos, Oplog.flush self h' clear_traces = Ok (self', infos) /\
    oplog_file self' h' [] (file_effects f infos) /\ Forall (writes_to Oplog) infos.
Proof. intros Hf. eapply flush_headed, oplog_file_headed, Hf. Qed.

(** With the traces cleared the file is the header, twice: nothing else of
    what it held is left. *)
Lemma zlen_header_buffer_full bit h : header_fits h -> zlen (header_buffer bit true h) = HEADER_SIZE.
Proof.
  intros [_ Hl]. unfold header_buffer. rewrite zlen_app, zlen_frame, zlen_replicate. lia.
Qed.

Lemma two_slots f b0 b1 bs0 bs1 :
  b0 <> b1 -> b0 <> Entries -> b1 <> Entries -> slot_offset Entries <= zlen f ->
  zlen bs0 = HEADER_SIZE -> zlen bs1 = HEADER_SIZE ->
  file_truncate (file_write (file_write f (slot_offset b0) bs0) (slot_offset b1) bs1)
    (slot_offset Entries + 0) =
  match b0 with FirstHeader => bs0 ++ bs1 | _ => bs1 ++ bs0 end.
Proof.
  intros Hne H0 H1 Hf Hz0 Hz1. unfold slot_offset, HEADER_SIZE in *.
  set (g := file_write (file_write f _ bs0) _ bs1).
  assert (at_offset g (match b0 with FirstHeader => 0 | _ => 4096 end) bs0 /\
          at_offset g (match b1 with FirstHeader => 0 | _ => 4096 end) bs1) as [Ha0 Ha1].
  { split; [|subst g; destruct b1; try done; apply at_offset_write_same; lia].
    subst g. destruct b0, b1; try done; (apply at_offset_write_other; [lia..|]);
      apply at_offset_write_same; lia. }
  assert (forall a b, zlen a = 4096 -> zlen b = 4096 -> at_offset g 0 a -> at_offset g 4096 b ->
    file_truncate g (4096 * 2 + 0) = a ++ b) as Hjoin.
  { intros a b Ha Hb Hga Hgb. destruct (at_offset_join g 0 a b) as [Hl Hs]; [lia|done|by rewrite Ha|].
    rewrite zlen_app, Ha, Hb in *. unfold file_truncate. rewrite resize_le.
    - rewrite <-Hs. unfold slice, ztake, zdrop. done.
    - unfold zlen in Hl. lia. }
  destruct b0, b1; try done; by apply Hjoin.
Qed.

Lemma flush_traces self f h' :
  headed self f -> header_fits h' ->
  exists self' infos b0 b1, Oplog.flush self h' true = Ok (self', infos) /\
    file_effects f infos = header_buffer b0 true h' ++ header_buffer b1 true h'.
Proof.
  intros [_ Hz] Hh'. unfold Oplog.flush. set (bits := op_header_bits self) in *.
  rewrite !insert_header_ok, !bind_Ok by (done || (unfold slot_offset, HEADER_SIZE; lia)).
  cbn [slice_range]. rewrite insert_header_ok by (done || (unfold slot_offset, HEADER_SIZE; lia)).
  destruct (next_bits_slots bits) as (_ & Hn2 & _).
  cbn -[file_write header_buffer slot_offset Z.add next_bits]. rewrite Hn2.
  set (buf0 := header_buffer (slot_bit (next_bits bits) _) true h').
  set (buf1 := header_buffer (slot_bit (next_bits (next_bits bits)) _) true h').
  exists (mkOplog (next_bits (next_bits bits)) 0 0).
  eexists _, (match other_slot bits with FirstHeader => slot_bit (next_bits bits) (other_slot bits)
    | _ => slot_bit (next_bits (next_bits bits)) (current_slot bits) end), _.
  split; [done|].
  match goal with |- context [slice [?a; ?b] 0 (1 - 0)] => change (slice [a; b] 0 (1 - 0)) with [a] end.
  cbn [file_effects foldl app].
  cbn [info_effect StoreInfo.new_content StoreInfo.new_truncate si_info_type si_miss si_data si_index].
  rewrite two_slots; [|by destruct bits as [[] []]..| | |].
  - instantiate (1 := match other_slot bits with
      | FirstHeader => slot_bit (next_bits (next_bits bits)) (current_slot bits)
      | _ => slot_bit (next_bits bits) (other_slot bits) end). by destruct bits as [[] []].
  - done.
  - by apply zlen_header_buffer_full.
  - by apply zlen_header_buffer_full.
Qed.

(** A fresh oplog: the first header in the first slot of an empty file. *)
Lemma fresh_ok kp :
  header_fits (Header_new kp) ->
  exists self infos,
    Oplog.fresh kp = Ok (mkOpenOutcome self (Header_new kp) infos None) /\
    oplog_file self (Header_new kp) [] (file_effects [] infos) /\ Forall (writes_to Oplog) infos.
Proof.
  intros Hh. unfold Oplog.fresh.
  rewrite insert_header_ok by (done || (unfold slot_offset, HEADER_SIZE; lia)).
  rewrite bind_Ok. eexists _, _. split; [done|]. split; [|header_infos]. cbn [oc_infos_to_flush file_effects foldl].
  cbn [info_effect StoreInfo.new_content StoreInfo.new_truncate si_info_type si_miss si_data si_index].
  change (next_bits INITIAL_HEADER_BITS) with (false, false).
  change (other_slot INITIAL_HEADER_BITS) with FirstHeader.
  match goal with |- context [file_write ?a ?b ?c] => set (f := file_write a b c) end.
  unfold oplog_file.
  cbn [op_header_bits op_entries_length op_entries_byte_length].
  change (entry_frames _ []) with (@nil Z).
  assert (zlen (file_truncate f (slot_offset Entries + 0)) = slot_offset Entries + 0) as Hz
    by (apply zlen_file_truncate; unfold slot_offset, HEADER_SIZE; lia).
  split_and!; try done.
  - apply slot_truncate; [done|]. by apply slot_write.
  - exists None. split; [done|]. apply truncate_zeros.
    + subst f. rewrite zlen_file_write by (cbn; lia).
      pose proof (zlen_header_buffer (slot_bit (false, false) FirstHeader) false _ Hh).
      unfold slot_offset, HEADER_SIZE in *. rewrite zlen_nil. lia.
    + unfold slot_offset, HEADER_SIZE. lia.
  - split; [|done]. rewrite Hz. done.
Qed.

(** *** Runs *)

(** What the core asks of the oplog. *)
Inductive oplog_op :=
  | OpAppend (e : Entry) (atomic : bool)
  | OpFlush (h : Header) (clear_traces : bool).

Definition op_fits (op : oplog_op) : Prop :=
  match op with
  | OpAppend e _ => entry_fits e
  | OpFlush h _ => header_fits h
  end.

(** The operation, with what it flushes written to the file. *)
Definition oplog_exec (s : Oplog_ * list Z) (op : oplog_op) : result (Oplog_ * list Z) :=
  '(self, infos) ←
    match op with
    | OpAppend e atomic => Oplog.append_entries s.1 [e] atomic
    | OpFlush h clear_traces => Oplog.flush s.1 h clear_traces
    end;
  Ok (self, file_effects s.2 infos).

Fixpoint oplog_run (s : Oplog_ * list Z) (ops : list oplog_op) : result (Oplog_ * list Z) :=
  match ops with
  | [] => Ok s
  | op :: ops => s ← oplog_exec s op; oplog_run s ops
  end.

(** What it promises: the last header flushed and the entries since. *)
Definition oplog_spec (a : Header * list Entry) (op : oplog_op) : Header * list Entry :=
  match op with
  | OpAppend e _ => (a.1, a.2 ++ [e])
  | OpFlush h _ => (h, [])
  end.

(** What the other slot has after an operation. *)
Definition oplog_before (prev : option Header) (h : Header) (op : oplog_op) : option Header :=
  match op with
  | OpAppend _ _ => prev
  | OpFlush h' clear_traces => Some (if clear_traces then h' else h)
  end.

Lemma frames_bound hb es :
  Forall entry_fits es -> zlen (entry_frames hb es) <= zlen es * (2 ^ 30 + 8).
Proof.
  induction 1 as [|e es [_ He] _ IH]; [done|].
  change (entry_frames hb (e :: es)) with (frame hb false (entry_bytes e) ++ entry_frames hb es).
  rewrite zlen_app, zlen_frame, zlen_cons. lia.
Qed.

Lemma oplog_file_counted self h es f : oplog_file self h es f -> zlen es < 2 ^ 32 - 1 -> counted self.
Proof.
  intros (_ & _ & Hes & _ & _ & Hl & Hb) Hn. pose proof (zlen_nonneg es).
  pose proof (frames_bound (Oplog.get_current_header_bit self) es Hes) as Hfr. rewrite <-Hb, <-Hl in Hfr.
  split; [lia|]. split; [|done]. rewrite Hb. apply zlen_nonneg.
Qed.

(** The bits of the slots and the file determine the header and the entries. *)
Lemma oplog_file_unique self self' h h' es es' f :
  oplog_file self h es f -> oplog_file self' h' es' f -> h = h' /\ es = es'.
Proof.
  intros Hf Hf'. pose proof (open_ok _ _ _ _ None Hf) as Ho. rewrite (open_ok _ _ _ _ None Hf') in Ho.
  injection Ho as _ -> Hes. split; [done|]. by destruct es, es'; simplify_eq.
Qed.

Lemma oplog_run_ok ops : forall self h es f,
  oplog_file self h es f -> Forall op_fits ops -> zlen es + zlen ops < 2 ^ 32 ->
  exists self' f', oplog_run (self, f) ops = Ok (self', f') /\
    oplog_file self' (foldl oplog_spec (h, es) ops).1 (foldl oplog_spec (h, es) ops).2 f'.
Proof.
  induction ops as [|op ops IH]; intros self h es f Hf Hall Hlen; [by eauto|].
  apply Forall_cons in Hall as [Hop Hall]. rewrite zlen_cons in Hlen.
  pose proof (zlen_nonneg ops). pose proof (zlen_nonneg es).
  cbn [oplog_run oplog_exec foldl]. unfold oplog_exec. cbn [fst snd].
  destruct op as [e atomic|h' c]; cbn [oplog_spec fst snd].
  - pose proof Hf as (_ & _ & Hes & _ & _ & Hl & Hbl).
    pose proof (frames_bound (Oplog.get_current_header_bit self) es Hes).
    destruct (append_preserves self h es f e atomic Hf Hop) as (self' & infos & -> & Hf' & _); [lia..|].
    rewrite !bind_Ok. apply IH; [done|done|]. rewrite zlen_app. change (zlen [e]) with 1. lia.
  - destruct (flush_preserves self h es f h' c Hf Hop) as (self' & infos & -> & Hf' & _).
    rewrite !bind_Ok. apply IH; [done|done|]. rewrite zlen_nil. lia.
Qed.

(** One operation, with both slots. *)
Lemma oplog_exec_ok self prev h es f op :
  oplog_file self h es f -> before_holds f (op_header_bits self) prev -> op_fits op -> zlen es < 2 ^ 32 - 1 ->
  exists self' f', oplog_exec (self, f) op = Ok (self', f') /\
    oplog_file self' (oplog_spec (h, es) op).1 (oplog_spec (h, es) op).2 f' /\
    before_holds f' (op_header_bits self') (oplog_before prev h op).
Proof.
  intros Hf Hprev Hop Hlen. unfold oplog_exec. cbn [fst snd].
  destruct op as [e atomic|h' c]; cbn [oplog_spec oplog_before fst snd].
  - pose proof (oplog_file_counted _ _ _ _ Hf Hlen) as [Hc1 Hc2].
    destruct (append_preserves self h es f e atomic Hf Hop) as (self' & infos & Happ & Hf' & _); [lia..|].
    rewrite Happ, bind_Ok. eexists _, _. split_and!; [done..|]. eapply append_before; [exact Hf|exact Hop|lia|lia|exact Happ|done].
  - destruct (flush_slots self f h h' c) as (self' & infos & -> & [Hf' Hb] & _); [apply Hf|done|].
    rewrite bind_Ok. by eexists _, _.
Qed.
End File.
