(* ===== verification/MerkleTree.v ===== *)
(** * The merkle tree ([src/tree/merkle_tree.rs]): state and lookups

    The tree keeps its roots in memory and its nodes in the tree store, 40
    bytes per node at 40 times its index.  Committed nodes wait in [unflushed].
    A lookup that needs a node that is neither unflushed nor among the nodes
    read so far returns an instruction to read it; the caller reads and calls
    again.  The feature [cache] is off, as by default.

    [IntMap] is a finite map; the order in which [drain] returns its elements
    is not specified and is a parameter. *)

From stdpp Require Import base tactics numbers list gmap fin_maps.
From Stdlib Require Import ZArith Lia Bool.
From S2P Require Import Prelude FlatTree Common CompactEncoding Crypto OplogEntry Changeset.
From S2P Require Import Storage.
Open Scope Z_scope.

Class IntMapOrder := { drain : gmap Z Node -> list (Z * Node) }.
Class IntMapOrderLaws (O : IntMapOrder) : Prop := { drain_perm m : drain m ≡ₚ map_to_list m }.

Definition NODE_SIZE : Z := 40.

(** A walk from a node up or down the tree takes less than 64 steps. *)
Definition tree_fuel : nat := 64.

Record MerkleTree `{Ed25519} := mkTree {
  mt_roots : list Node;
  mt_length : Z;
  mt_byte_length : Z;
  mt_fork : Z;
  mt_signature : option Signature;
  mt_unflushed : gmap Z Node;
  mt_truncated : bool;
  mt_truncate_to : Z;
}.

Abbreviation nodes_map := (gmap Z (option Node)).
Abbreviation either_instructions := (Either (list StoreInfoInstruction)).

Section Helpers.
Context `{FT : FlatTree} `{CE : CompactEncoding}.

Definition get_root_indices (header_tree_length : Z) : result (list Z) :=
  head ← header_tree_length *64 2;
  Ok (ft_full_roots head).

Definition index_from_info (info : StoreInfo) : Z := si_index info / NODE_SIZE.

Definition node_from_bytes (index : Z) (data : list Z) : result Node :=
  len_buf ← slice_range data 0 8;
  hash ← slice_range data 8 (zlen data);
  let state := st_from_buffer len_buf in
  '(_, len) ← enc_try (decode_u64 state len_buf);
  Ok (Node_new index hash len).

Definition hypercore_index_into_merkle_tree_index (hypercore_index : Z) : result Z :=
  2 *64 hypercore_index.

(** [for info in infos] of [infos_to_nodes]. *)
Fixpoint insert_infos (nodes : nodes_map) (infos : list StoreInfo) : result nodes_map :=
  match infos with
  | [] => Ok nodes
  | info :: infos =>
      let index := index_from_info info in
      if negb (si_miss info) then
        data ← unwrap (si_data info);
        node ← node_from_bytes index data;
        insert_infos (<[index := Some node]> nodes) infos
      else insert_infos (<[index := None]> nodes) infos
  end.

Definition infos_to_nodes (infos : option (list StoreInfo)) : result nodes_map :=
  match infos with
  | Some infos => insert_infos ∅ infos
  | None => Ok ∅
  end.
End Helpers.

Module Tree.
Section Ops.
Context `{FT : FlatTree} `{CE : CompactEncoding} `{B2 : Blake2b} `{ED : Ed25519} `{IO : IntMapOrder}.
Implicit Types self : MerkleTree.

(** ** Opening *)

(** [for i in 0..root_indices.len()]: the roots, the byte length and twice the
    length. *)
Fixpoint open_roots (i : Z) (root_indices : list Z) (infos : list StoreInfo)
    (roots : list Node) (byte_length length : Z) : result (list Node * Z * Z) :=
  match root_indices with
  | [] => Ok (roots, byte_length, length)
  | index :: root_indices =>
      info ← Prelude.index infos i;
      if negb (index =? index_from_info info) then Err (CorruptStorage Tree)
      else
        data ← unwrap (si_data info);
        node ← node_from_bytes index data;
        byte_length ← byte_length +64 node_length node;
        d ← node_index node -? length;
        d ← d +64 1;
        span ← 2 *64 d;
        length ← length +64 span;
        open_roots (i + 1) root_indices infos (roots ++ [node]) byte_length length
  end.

Definition open (header_tree : HeaderTree) (infos : option (list StoreInfo))
  : result (either_instructions MerkleTree) :=
  root_indices ← get_root_indices (ht_length header_tree);
  match infos with
  | None =>
      Ok (Left ((fun index => Instruction.new_content Common.Tree (NODE_SIZE * index) NODE_SIZE)
                  <$> root_indices))
  | Some infos =>
      '(roots, byte_length, length) ← open_roots 0 root_indices infos [] 0 0;
      let length := if 0 <? length then length / 2 else length in
      signature ←
        (if 0 <? zlen (ht_signature header_tree) then
           match sig_try_from (ht_signature header_tree) with
           | Some signature => Ok (Some signature)
           | None => Err InvalidSignature
           end
         else Ok None);
      Ok (Right (mkTree _ roots length byte_length (ht_fork header_tree) signature ∅ false 0))
  end.

(** ** Changesets *)

Definition changeset self : MerkleTreeChangeset :=
  Changeset.new (mt_length self) (mt_byte_length self) (mt_fork self) (mt_roots self).

Definition commitable self (changeset : MerkleTreeChangeset) : bool :=
  let correct_length :=
    if cs_upgraded changeset then cs_original_tree_length changeset =? mt_length self
    else cs_original_tree_length changeset <=? mt_length self in
  (cs_original_tree_fork changeset =? mt_fork self) && correct_length.

(** The loop that blanks the nodes over the new end. *)
Fixpoint blank_loop (fuel : nat) (head : Z) (iter : ft_iterator) (unflushed : gmap Z Node)
  : result (gmap Z Node) :=
  match fuel with
  | O => Diverge
  | S fuel =>
      let index := iter_index iter in
      let unflushed :=
        if iter_contains iter head && (index <? head)
        then <[index := Node_new_blank index]> unflushed else unflushed in
      if iter_offset iter =? 0 then Ok unflushed
      else blank_loop fuel head (iter_parent iter) unflushed
  end.

Definition commit_truncation self (changeset : MerkleTreeChangeset) : result MerkleTree :=
  let ancestors := cs_ancestors changeset in
  if ancestors <? cs_original_tree_length changeset then
    unflushed ←
      (if 0 <? ancestors then
         head ← 2 *64 ancestors;
         start ← head -? 2;
         blank_loop tree_fuel head (iter_new start) (mt_unflushed self)
       else Ok (mt_unflushed self));
    let truncate_to :=
      if mt_truncated self then Z.min (mt_truncate_to self) ancestors else ancestors in
    let unflushed := filter (fun kv => kv.1 < 2 * ancestors) unflushed in
    Ok (mkTree _ (mt_roots self) (mt_length self) (mt_byte_length self) (mt_fork self)
          (mt_signature self) unflushed true truncate_to)
  else Ok self.

Definition insert_nodes (unflushed : gmap Z Node) (nodes : list Node) : gmap Z Node :=
  foldl (fun m node => <[node_index node := node]> m) unflushed nodes.

Definition commit self (changeset : MerkleTreeChangeset) : result MerkleTree :=
  if negb (commitable self changeset) then Err InvalidOperation
  else
    self ←
      (if cs_upgraded changeset then
         self ← commit_truncation self changeset;
         Ok (mkTree _ (cs_roots changeset) (cs_length changeset) (cs_byte_length changeset)
               (cs_fork changeset) (cs_signature changeset) (mt_unflushed self) (mt_truncated self)
               (mt_truncate_to self))
       else Ok self);
    Ok (mkTree _ (mt_roots self) (mt_length self) (mt_byte_length self) (mt_fork self)
          (mt_signature self) (insert_nodes (mt_unflushed self) (cs_nodes changeset))
          (mt_truncated self) (mt_truncate_to self)).

Definition add_node self (node : Node) : MerkleTree :=
  mkTree _ (mt_roots self) (mt_length self) (mt_byte_length self) (mt_fork self)
    (mt_signature self) (<[node_index node := node]> (mt_unflushed self))
    (mt_truncated self) (mt_truncate_to self).

(** ** Flushing *)

Definition flush_truncation self : result (MerkleTree * list StoreInfo) :=
  offset ←
    (if mt_truncate_to self =? 0 then Ok 0
     else
       t ← mt_truncate_to self -? 1;
       t ← t *64 80;
       t +64 40);
  Ok (mkTree _ (mt_roots self) (mt_length self) (mt_byte_length self) (mt_fork self)
        (mt_signature self) (mt_unflushed self) false 0,
      [StoreInfo.new_truncate Common.Tree offset]).

(** The bytes of a node in the store, and the info that writes them. *)
Definition node_info (node : Node) : result StoreInfo :=
  let '(state, buffer) := st_new_with_size 40 in
  '(state, buffer) ← expect (encode_u64 state (node_length node) buffer);
  '(_, buffer) ← expect (encode_fixed_32 state (node_hash node) buffer);
  offset ← node_index node *64 40;
  Ok (StoreInfo.new_content Common.Tree offset buffer).

Fixpoint node_infos (drained : list (Z * Node)) : result (list StoreInfo) :=
  match drained with
  | [] => Ok []
  | (_, node) :: drained =>
      info ← node_info node;
      infos ← node_infos drained;
      Ok (info :: infos)
  end.

Definition flush_nodes self : result (MerkleTree * list StoreInfo) :=
  infos_to_flush ← node_infos (drain (mt_unflushed self));
  Ok (mkTree _ (mt_roots self) (mt_length self) (mt_byte_length self) (mt_fork self)
        (mt_signature self) ∅ (mt_truncated self) (mt_truncate_to self), infos_to_flush).

Definition flush self : result (MerkleTree * list StoreInfo) :=
  '(self, truncation) ← (if mt_truncated self then flush_truncation self else Ok (self, []));
  '(self, nodes) ← flush_nodes self;
  Ok (self, truncation ++ nodes).

(** ** Nodes *)

Definition node self (index : Z) (nodes : nodes_map) (allow_miss : bool)
  : result (Either StoreInfoInstruction (option Node)) :=
  let miss := if allow_miss then Ok (Right None) else Err InvalidOperation in
  match mt_unflushed self !! index with
  | Some node =>
      if node_blank node || (mt_truncated self && (2 * mt_truncate_to self <=? node_index node))
      then miss else Ok (Right (Some node))
  | None =>
      match nodes !! index with
      | Some (Some node) => if node_blank node then miss else Ok (Right (Some node))
      | Some None => miss
      | None =>
          offset ← 40 *64 index;
          let length := 40 in
          Ok (Left (if allow_miss then Instruction.new_content_allow_miss Common.Tree offset length
                    else Instruction.new_content Common.Tree offset length))
      end
  end.

Definition required_node self (index : Z) (nodes : nodes_map)
  : result (Either StoreInfoInstruction Node) :=
  r ← node self index nodes false;
  match r with
  | Left value => Ok (Left value)
  | Right (Some node) => Ok (Right node)
  | Right None => Err InvalidOperation
  end.

Definition optional_node self (index : Z) (nodes : nodes_map)
  : result (Either StoreInfoInstruction (option Node)) := node self index nodes true.

(** ** Byte offsets *)

Definition validate_hypercore_index self (hypercore_index : Z) : result Z :=
  index ← hypercore_index_into_merkle_tree_index hypercore_index;
  head ← 2 *64 mt_length self;
  let compare_index := if Z.land index 1 =? 0 then index else ft_right_span index in
  if head <=? compare_index then Err BadArgument else Ok index.

(** [while iter.index() != index]: down from a root, adding up what is left of
    the path. *)
Fixpoint offset_walk (fuel : nat) self (nodes : nodes_map) (index : Z) (iter : ft_iterator)
    (offset : Z) (instructions : list StoreInfoInstruction) : result (either_instructions Z) :=
  if iter_index iter =? index then
    Ok (match instructions with [] => Right offset | _ => Left instructions end)
  else
    match fuel with
    | O => Diverge
    | S fuel =>
        if index <? iter_index iter then
          offset_walk fuel self nodes index (iter_left_child iter) offset instructions
        else
          let iter := iter_left_child iter in
          node_or_instruction ← required_node self (iter_index iter) nodes;
          match node_or_instruction with
          | Left instruction =>
              offset_walk fuel self nodes index (iter_sibling iter) offset
                (instructions ++ [instruction])
          | Right node =>
              offset ← offset +64 node_length node;
              offset_walk fuel self nodes index (iter_sibling iter) offset instructions
          end
    end.

Fixpoint offset_roots self (nodes : nodes_map) (index : Z) (roots : list Node) (head offset : Z)
  : result (either_instructions Z) :=
  match roots with
  | [] => Err BadArgument
  | root_node :: roots =>
      d ← node_index root_node -? head;
      d ← d +64 1;
      span ← 2 *64 d;
      head ← head +64 span;
      if head <=? index then
        offset ← offset +64 node_length root_node;
        offset_roots self nodes index roots head offset
      else offset_walk tree_fuel self nodes index (iter_new (node_index root_node)) offset []
  end.

Definition byte_offset_from_nodes self (index : Z) (nodes : nodes_map)
  : result (either_instructions Z) :=
  let index := if Z.land index 1 =? 1 then ft_left_span index else index in
  offset_roots self nodes index (mt_roots self) 0 0.

Definition byte_offset_from_index self (index : Z) (infos : option (list StoreInfo))
  : result (either_instructions Z) :=
  nodes ← infos_to_nodes infos;
  byte_offset_from_nodes self index nodes.

Definition byte_offset self (hypercore_index : Z) (infos : option (list StoreInfo))
  : result (either_instructions Z) :=
  index ← validate_hypercore_index self hypercore_index;
  byte_offset_from_index self index infos.

Definition byte_range self (hypercore_index : Z) (infos : option (list StoreInfo))
  : result (either_instructions NodeByteRange) :=
  index ← validate_hypercore_index self hypercore_index;
  nodes ← infos_to_nodes infos;
  length_result ← required_node self index nodes;
  offset_result ← byte_offset_from_nodes self index nodes;
  let '(instructions, range_length) :=
    match length_result with
    | Left instruction => ([instruction], 0)
    | Right node => ([], node_length node)
    end in
  let '(instructions, range_index) :=
    match offset_result with
    | Left offset_instructions => (instructions ++ offset_instructions, 0)
    | Right offset => (instructions, offset)
    end in
  Ok (match instructions with
      | [] => Right (mkByteRange range_index range_length)
      | _ => Left instructions
      end).

(** [for node in &changeset.nodes] of [byte_offset_in_changeset]: follow the
    path of the block through the new nodes. *)
Fixpoint changeset_path (nodes : list Node) (iter : ft_iterator) (tree_offset : Z)
    (is_right : bool) (parent : option Node) : result (Z * option Node) :=
  match nodes with
  | [] => Ok (tree_offset, parent)
  | node :: nodes =>
      if node_index node =? iter_index iter then
        tree_offset ←
          match (if is_right then parent else None) with
          | Some parent =>
              d ← node_length node -? node_length parent;
              tree_offset +64 d
          | None => Ok tree_offset
          end;
        changeset_path nodes (iter_parent iter) tree_offset (iter_is_right iter) (Some node)
      else changeset_path nodes iter tree_offset is_right parent
  end.

(** [roots.iter().position(|root| root.index == index)] *)
Fixpoint root_position (roots : list Node) (index : Z) : option Z :=
  match roots with
  | [] => None
  | root :: roots =>
      if node_index root =? index then Some 0
      else Z.succ <$> root_position roots index
  end.

(** [for i in 0..r { tree_offset += self.roots[i].length; }] *)
Fixpoint sum_roots (n : nat) (i : Z) (roots : list Node) (tree_offset : Z) : result Z :=
  match n with
  | O => Ok tree_offset
  | S n =>
      root ← Prelude.index roots i;
      tree_offset ← tree_offset +64 node_length root;
      sum_roots n (i + 1) roots tree_offset
  end.

Definition byte_offset_in_changeset self (hypercore_index : Z) (changeset : MerkleTreeChangeset)
    (infos : option (list StoreInfo)) : result (either_instructions Z) :=
  if mt_length self =? hypercore_index then Ok (Right (mt_byte_length self))
  else
    index ← hypercore_index_into_merkle_tree_index hypercore_index;
    '(tree_offset, parent) ← changeset_path (cs_nodes changeset) (iter_new index) 0 false None;
    let from_index (search_index : Z) : result (either_instructions Z) :=
      r ← byte_offset_from_index self search_index infos;
      match r with
      | Left instructions => Ok (Left instructions)
      | Right offset => o ← offset +64 tree_offset; Ok (Right o)
      end in
    match parent with
    | Some parent =>
        match root_position (cs_roots changeset) (node_index parent) with
        | Some r =>
            tree_offset ← sum_roots (Z.to_nat r) 0 (mt_roots self) tree_offset;
            Ok (Right tree_offset)
        | None => from_index (node_index parent)
        end
    | None => from_index index
    end.

(** ** Truncation *)

(** [for (i, root) in full_roots.iter().enumerate()] *)
Fixpoint truncate_roots self (nodes : nodes_map) (i : Z) (full_roots : list Z)
    (roots : list Node) (instructions : list StoreInfoInstruction)
  : result (list Node * list StoreInfoInstruction) :=
  match full_roots with
  | [] => Ok (roots, instructions)
  | root :: full_roots =>
      let same := match roots !! Z.to_nat i with
                  | Some r => node_index r =? root
                  | None => false
                  end in
      if same then truncate_roots self nodes (i + 1) full_roots roots instructions
      else
        let roots := ztake i roots in
        node_or_instruction ← required_node self root nodes;
        match node_or_instruction with
        | Left instruction =>
            truncate_roots self nodes (i + 1) full_roots roots (instructions ++ [instruction])
        | Right node => truncate_roots self nodes (i + 1) full_roots (roots ++ [node]) instructions
        end
  end.

(** [fold(0, |acc, node| acc + node.length)] *)
Fixpoint sum_lengths (acc : Z) (roots : list Node) : result Z :=
  match roots with
  | [] => Ok acc
  | node :: roots => acc ← acc +64 node_length node; sum_lengths acc roots
  end.

Definition truncate self (length fork : Z) (infos : option (list StoreInfo))
  : result (either_instructions MerkleTreeChangeset) :=
  head ← length *64 2;
  let full_roots := ft_full_roots head in
  nodes ← infos_to_nodes infos;
  let changeset := changeset self in
  '(roots, instructions) ← truncate_roots self nodes 0 full_roots (cs_roots changeset) [];
  match instructions with
  | [] =>
      let roots := ztake (zlen full_roots) roots in
      byte_length ← sum_lengths 0 roots;
      Ok (Right (mkChangeset _ length length byte_length (cs_batch_length changeset) fork roots
                   (cs_nodes changeset) (cs_hash changeset) (cs_signature changeset) true
                   (cs_original_tree_length changeset) (cs_original_tree_fork changeset)))
  | _ => Ok (Left instructions)
  end.

(** ** Missing nodes *)

Fixpoint missing_loop (fuel : nat) self (nodes : nodes_map) (head : Z) (iter : ft_iterator)
    (count : Z) : result (either_instructions Z) :=
  if iter_contains iter head then Ok (Right count)
  else
    match fuel with
    | O => Diverge
    | S fuel =>
        r ← optional_node self (iter_index iter) nodes;
        match r with
        | Left instruction => Ok (Left [instruction])
        | Right None => count ← count +64 1; missing_loop fuel self nodes head (iter_parent iter) count
        | Right (Some _) => Ok (Right count)
        end
    end.

Definition missing_nodes self (index : Z) (infos : option (list StoreInfo))
  : result (either_instructions Z) :=
  head ← 2 *64 mt_length self;
  let iter := iter_new index in
  r ← iter_index iter +64 iter_factor iter / 2;
  iter_right_span ← r -? 1;
  if head <=? iter_right_span then Ok (Right 0)
  else
    nodes ← infos_to_nodes infos;
    missing_loop tree_fuel self nodes head iter 0.

End Ops.
End Tree.
