(* ===== verification/MerkleView.v ===== *)
(** * What the merkle tree stores

    The relation between a [MerkleTree] with its store and the list of blocks
    it stands for, and the facts that the lookups, commits and flushes preserve
    it and answer from it. *)

From stdpp Require Import base tactics numbers list gmap fin_maps.
From Stdlib Require Import ZArith Lia Bool.
From S2P Require Import Prelude FlatTree Common CompactEncoding Crypto OplogEntry Changeset.
From S2P Require Import Storage MerkleTree.
Open Scope Z_scope.

(** ** Complete nodes *)

(** All leaves of node [(d, o)] are among the first [n]. *)
Definition complete (n d o : Z) : Prop := 0 <= d /\ 0 <= o /\ 2 ^ d * (o + 1) <= n.

Lemma complete_in_tree n d o : complete n d o -> n < 2 ^ 57 -> in_tree d o.
Proof.
  intros (Hd & Ho & Hle) Hn. split_and!; [done..|]. rewrite pow2_succ by done. lia.
Qed.

Lemma complete_depth n d o : complete n d o -> n < 2 ^ 57 -> d < 57.
Proof.
  intros (Hd & Ho & Hle) Hn. destruct (Z.lt_ge_cases d 57); [done|].
  assert (2 ^ 57 <= 2 ^ d) by (apply Z.pow_le_mono_r; lia). nia.
Qed.

Lemma complete_node_at n d o : complete n d o -> 0 <= node_at d o < 2 * n.
Proof.
  intros (Hd & Ho & Hle). pose proof (node_at_nonneg d o Hd Ho).
  pose proof (Z.pow_pos_nonneg 2 d). unfold node_at in *. nia.
Qed.

Lemma complete_children n d o :
  complete n (d + 1) o -> 0 <= d -> complete n d (2 * o) /\ complete n d (2 * o + 1).
Proof.
  intros (_ & Ho & Hle) Hd. rewrite pow2_succ in Hle by done.
  pose proof (Z.pow_pos_nonneg 2 d). split; split_and!; nia.
Qed.

(** The peaks follow each other without a gap. *)
Fixpoint tiles (s : Z) (ps : list (Z * Z)) (e : Z) : Prop :=
  match ps with
  | [] => s = e
  | (d, o) :: ps => 0 <= d /\ 0 <= o /\ s = 2 ^ d * o /\ tiles (2 ^ d * (o + 1)) ps e
  end.

Lemma tiles_app s p1 p2 m e : tiles s p1 m -> tiles m p2 e -> tiles s (p1 ++ p2) e.
Proof.
  revert s. induction p1 as [|[d o] p1 IH]; intros s; cbn; [by intros ->|].
  intros (? & ? & ? & ?) ?. eauto.
Qed.

Lemma tiles_peaks_at d q : 0 <= d -> 0 <= q -> tiles 0 (peaks_at d q) (2 ^ d * q).
Proof.
  intros Hd Hq. destruct q as [|p|]; [cbn; lia| |lia]. cbn [peaks_at].
  revert d Hd. clear Hq. induction p as [p IH|p IH|]; intros d Hd; cbn [peaks_pos].
  - eapply tiles_app; [apply IH; lia|]. cbn [tiles]. rewrite pow2_succ by done. split_and!; lia.
  - replace (2 ^ d * Z.pos p~0) with (2 ^ (d + 1) * Z.pos p) by (rewrite pow2_succ by done; lia).
    apply IH. lia.
  - cbn [tiles]. split_and!; lia.
Qed.

Lemma tiles_peaks n : 0 <= n -> tiles 0 (peaks n) n.
Proof. intros. replace n with (2 ^ 0 * n) at 2 by lia. by apply tiles_peaks_at. Qed.

Lemma tiles_le s ps e : tiles s ps e -> s <= e.
Proof.
  revert s. induction ps as [|[d o] ps IH]; intros s; cbn [tiles]; [lia|].
  intros (? & ? & -> & H). apply IH in H. pose proof (Z.pow_pos_nonneg 2 d). nia.
Qed.

Lemma tiles_complete s ps e d o : tiles s ps e -> (d, o) ∈ ps -> complete e d o.
Proof.
  revert s. induction ps as [|[d' o'] ps IH]; intros s; cbn [tiles]; [by intros _ ?%elem_of_nil|].
  intros (? & ? & -> & H) [[= -> ->]|Hin]%elem_of_cons; [|by eapply IH].
  split_and!; [done..|]. by eapply tiles_le.
Qed.

(** The new leaf completes the nodes of [completed] and no others. *)
Lemma completed_at_elem m d q e o :
  0 <= d -> 0 <= q < 2 ^ Z.of_nat m -> d <= e -> 0 <= o ->
  2 ^ (e - d) * (o + 1) = q + 1 -> (e, o) ∈ completed_at m d q.
Proof.
  revert d q. induction m as [|m IH]; intros d q Hd Hq He Ho Heq; cbn [completed_at].
  - assert (q = 0) as -> by (cbn in Hq; lia). destruct (Z.eq_dec e d) as [->|].
    + rewrite Z.sub_diag in Heq. replace o with 0 by lia. by left.
    + replace (e - d) with (Z.succ (e - d - 1)) in Heq by lia. rewrite Z.pow_succ_r in Heq by lia. lia.
  - destruct (Z.eq_dec e d) as [->|].
    + rewrite Z.sub_diag in Heq. replace o with q by lia. by left.
    + right. replace (e - d) with (Z.succ (e - (d + 1))) in Heq by lia.
      rewrite Z.pow_succ_r, <-Z.mul_assoc in Heq by lia.
      set (x := 2 ^ (e - (d + 1)) * (o + 1)) in *.
      assert (Z.odd q = true) as ->.
      { replace q with (2 * (x - 1) + 1) by lia. by rewrite Z.odd_add, Z.odd_mul. }
      assert (q / 2 = x - 1) as Hdiv by (Z.div_mod_to_equations; lia).
      rewrite Nat2Z.inj_succ, Z.pow_succ_r in Hq by lia.
      apply IH; [lia|lia|lia|done|]. fold x. lia.
Qed.

Lemma completed_elem n e o :
  0 <= n -> complete (n + 1) e o -> ~ complete n e o -> (e, o) ∈ completed n.
Proof.
  intros Hn (He & Ho & Hle) Hnot. unfold completed. apply completed_at_elem; [lia| |lia..|].
  - rewrite Z2Nat.id by apply Z.log2_up_nonneg. pose proof (Z.log2_log2_up_spec (n + 1)). lia.
  - rewrite Z.sub_0_r. destruct (Z.le_gt_cases (2 ^ e * (o + 1)) n); [|lia].
    exfalso. apply Hnot. by split_and!.
Qed.

(** ... and each of them is complete now. *)
Lemma completed_at_complete m d q e o :
  0 <= d -> 0 <= q -> (e, o) ∈ completed_at m d q -> complete (2 ^ d * (q + 1)) e o.
Proof.
  revert d q. induction m as [|m IH]; intros d q Hd Hq; cbn [completed_at].
  - intros ?%list_elem_of_singleton. simplify_eq. split_and!; [done..|lia].
  - intros [?|Hin]%elem_of_cons; [simplify_eq; split_and!; [done..|lia]|].
    destruct (Z.odd q) eqn:Hodd; [|by apply elem_of_nil in Hin].
    pose proof (Z.div2_odd q) as Hdiv. rewrite Z.div2_div, Hodd in Hdiv. cbn [Z.b2z] in Hdiv.
    assert (0 <= q / 2) by (apply Z.div_pos; lia).
    apply IH in Hin as (? & ? & Hle); [|lia..]. rewrite pow2_succ in Hle by done.
    split_and!; [done..|]. replace (q + 1) with (2 * (q / 2 + 1)) by lia. lia.
Qed.

Lemma completed_complete n e o : 0 <= n -> (e, o) ∈ completed n -> complete (n + 1) e o.
Proof. intros Hn H. apply completed_at_complete in H; [|lia..]. by rewrite Z.pow_0_r, Z.mul_1_l in H. Qed.

(** ** Looking nodes up *)

Section View.
Context `{FT : FlatTree} {FL : FlatTreeLaws FT} `{CE : CompactEncoding} {CL : CompactEncodingLaws CE}
  `{B2 : Blake2b} {BL : Blake2bLaws B2} `{ED : Ed25519} `{IO : IntMapOrder}.
Implicit Types (blocks : list (list Z)) (self : MerkleTree) (nodes : nodes_map).

Definition merkle_at blocks (d o : Z) : Node := merkle blocks (Z.to_nat d) o.

Lemma merkle_at_index blocks d o : 0 <= d -> node_index (merkle_at blocks d o) = node_at d o.
Proof. intros. unfold merkle_at. by rewrite merkle_index, Z2Nat.id. Qed.

(** No node of the log hashes to zeros, which would make it look blank. *)
Definition no_blank blocks : Prop :=
  forall d o, complete (zlen blocks) d o -> node_blank (merkle_at blocks d o) = false.

(** What is known about the nodes agrees with the log. *)
Definition view_ok blocks self nodes : Prop :=
  mt_truncated self = false /\
  forall d o, complete (zlen blocks) d o ->
    (forall x, mt_unflushed self !! node_at d o = Some x -> x = merkle_at blocks d o) /\
    (forall x, nodes !! node_at d o = Some x -> x = Some (merkle_at blocks d o)).

Definition has self nodes (i : Z) : bool :=
  match mt_unflushed self !! i, nodes !! i with
  | None, None => false
  | _, _ => true
  end.

Definition read_node (i : Z) : StoreInfoInstruction :=
  Instruction.new_content Common.Tree (40 * i) 40.

Lemma required_node_ok blocks self nodes d o :
  view_ok blocks self nodes -> no_blank blocks -> zlen blocks < 2 ^ 57 ->
  complete (zlen blocks) d o ->
  Tree.required_node self (node_at d o) nodes =
    Ok (if has self nodes (node_at d o) then Right (merkle_at blocks d o)
        else Left (read_node (node_at d o))).
Proof.
  intros [Ht Hv] Hnb Hn Hc. destruct (Hv d o Hc) as [Hu Hm].
  unfold Tree.required_node, Tree.node, has. rewrite Ht.
  destruct (mt_unflushed self !! node_at d o) as [x|].
  - rewrite (Hu x eq_refl), (Hnb d o Hc). done.
  - destruct (nodes !! node_at d o) as [x|].
    + rewrite (Hm x eq_refl), (Hnb d o Hc). done.
    + pose proof (complete_node_at _ _ _ Hc). rewrite checked_mul_Ok, !bind_Ok by lia. done.
Qed.

(** ** Byte offsets *)

(** The nodes whose lengths make up the offset of leaf [i] inside node
    [(d, o)]. *)
Fixpoint left_path (d : nat) (o i : Z) : list (Z * Z) :=
  match d with
  | O => []
  | S d =>
      if i <? 2 ^ Z.of_nat d * (2 * o + 1) then left_path d (2 * o) i
      else (Z.of_nat d, 2 * o) :: left_path d (2 * o + 1) i
  end.

Definition missing self nodes (ps : list (Z * Z)) : list StoreInfoInstruction :=
  read_node <$> filter (fun i => has self nodes i = false) ((fun '(d, o) => node_at d o) <$> ps).

Definition offset_or (ins : list StoreInfoInstruction) (offset : Z) : either_instructions Z :=
  match ins with [] => Right offset | _ => Left ins end.

Lemma leaf_in_left d o i :
  0 <= d -> 2 ^ (d + 1) * o <= i < 2 ^ (d + 1) * (o + 1) ->
  2 * i <> node_at (d + 1) o /\ (2 * i < node_at (d + 1) o <-> i < 2 ^ d * (2 * o + 1)).
Proof.
  intros Hd Hi. unfold node_at. rewrite !pow2_succ in Hi |- * by done.
  replace (2 * 2 ^ d * (1 + 2 * o)) with (2 * (2 ^ d * (2 * o + 1))) by lia. lia.
Qed.

Lemma offset_walk_ok blocks self nodes i :
  view_ok blocks self nodes -> no_blank blocks -> log_fits blocks ->
  forall (d : nat) o it off ins fuel,
  complete (zlen blocks) (Z.of_nat d) o ->
  2 ^ Z.of_nat d * o <= i < 2 ^ Z.of_nat d * (o + 1) ->
  iter_at (Z.of_nat d) o it -> (d <= fuel)%nat ->
  0 <= off <= byte_sum blocks (2 ^ Z.of_nat d * o) ->
  exists off',
    Tree.offset_walk fuel self nodes (2 * i) it off ins =
      Ok (offset_or (ins ++ missing self nodes (left_path d o i)) off') /\
    (missing self nodes (left_path d o i) = [] ->
       off' = off + byte_sum blocks i - byte_sum blocks (2 ^ Z.of_nat d * o)).
Proof.
  intros Hv Hnb Hfit. pose proof Hfit as [Hn Hb].
  induction d as [|d IH]; intros o it off ins fuel Hc Hi Hit Hfuel Hoff;
    pose proof Hit as (Hidx & _ & _); pose proof Hc as (_ & Ho & Hle).
  - change (2 ^ Z.of_nat 0) with 1 in *. replace o with i in * by lia. exists off.
    assert (Tree.offset_walk fuel self nodes (2 * i) it off ins = Ok (offset_or ins off)) as ->.
    { destruct fuel; cbn [Tree.offset_walk]; rewrite Hidx; change (Z.of_nat 0) with 0;
        rewrite node_at_leaf, Z.eqb_refl; done. }
    cbn [left_path]. unfold missing. cbn. rewrite app_nil_r, Z.mul_1_l. split; [done|lia].
  - destruct fuel as [|fuel]; [lia|]. rewrite Nat2Z.inj_succ, <-Z.add_1_r in *.
    destruct (leaf_in_left (Z.of_nat d) o i) as [Hne Hlt]; [lia|done|].
    pose proof (complete_in_tree _ _ _ Hc Hn) as Hin.
    pose proof (iter_left_child_law it _ _ Hin Hit) as Hlc.
    rewrite (proj2 (Z.eqb_neq (Z.of_nat d + 1) 0)) in Hlc by lia.
    replace (Z.max 0 (Z.of_nat d + 1 - 1)) with (Z.of_nat d) in Hlc by lia.
    destruct (complete_children _ _ _ Hc) as [Hcl Hcr]; [lia|].
    pose proof (pow2_succ (Z.of_nat d)) as Hp. rewrite Hp in * by lia.
    cbn [Tree.offset_walk left_path]. rewrite Hidx, (proj2 (Z.eqb_neq _ _)) by done.
    destruct (i <? 2 ^ Z.of_nat d * (2 * o + 1)) eqn:Hside.
    + rewrite (proj2 (Z.ltb_lt (2 * i) _)) by (apply Hlt; lia).
      destruct (IH (2 * o) (iter_left_child it) off ins fuel) as (off' & -> & Hoff');
        [done|lia|done|lia|by replace (2 ^ Z.of_nat d * (2 * o)) with (2 * 2 ^ Z.of_nat d * o) by lia|].
      exists off'. split; [done|]. intros Hm. rewrite Hoff' by done. f_equal. f_equal. lia.
    + rewrite (proj2 (Z.ltb_ge (2 * i) _)) by lia.
      assert (in_tree (Z.of_nat d + 1) (2 * o / 2)) as Hin'.
      { replace (2 * o / 2) with o by (Z.div_mod_to_equations; lia). done. }
      pose proof (iter_sibling_law _ _ _ Hin' ltac:(lia) Hlc) as Hsib.
      assert (sibling_offset (2 * o) = 2 * o + 1) as Hso.
      { unfold sibling_offset. by rewrite Z.even_mul. }
      rewrite Hso in Hsib. pose proof Hlc as (-> & _ & _).
      rewrite (required_node_ok blocks), bind_Ok by done.
      assert (missing self nodes ((Z.of_nat d, 2 * o) :: left_path d (2 * o + 1) i) =
        (if has self nodes (node_at (Z.of_nat d) (2 * o)) then [] else [read_node (node_at (Z.of_nat d) (2 * o))])
          ++ missing self nodes (left_path d (2 * o + 1) i)) as ->.
      { unfold missing. rewrite fmap_cons. unfold filter, list_filter at 1. fold (@list_filter Z).
        destruct (has self nodes (node_at (Z.of_nat d) (2 * o))) eqn:Hh; case_decide; done || congruence. }
      assert (node_length (merkle_at blocks (Z.of_nat d) (2 * o)) =
        byte_sum blocks (2 ^ Z.of_nat d * (2 * o + 1)) - byte_sum blocks (2 * 2 ^ Z.of_nat d * o)) as Hnl.
      { unfold merkle_at. rewrite Nat2Z.id, merkle_length by lia. f_equal. f_equal. lia. }
      pose proof (merkle_length_nonneg blocks (Z.to_nat (Z.of_nat d)) (2 * o)) as Hnn.
      fold (merkle_at blocks (Z.of_nat d) (2 * o)) in Hnn.
      assert (byte_sum blocks (2 ^ Z.of_nat d * (2 * o + 1)) <= zlen (concat blocks)) as Hbs.
      { apply byte_sum_le. pose proof (Z.pow_pos_nonneg 2 (Z.of_nat d)). nia. }
      destruct (has self nodes _).
      * rewrite checked_add_Ok, bind_Ok by lia.
        destruct (IH (2 * o + 1) (iter_sibling (iter_left_child it))
          (off + node_length (merkle_at blocks (Z.of_nat d) (2 * o))) ins fuel) as (off' & -> & Hoff');
          [done|lia|done|lia|lia|].
        exists off'. split; [done|]. intros Hm. rewrite Hoff' by done. lia.
      * destruct (IH (2 * o + 1) (iter_sibling (iter_left_child it)) off
          (ins ++ [read_node (node_at (Z.of_nat d) (2 * o))]) fuel) as (off' & -> & Hoff');
          [done|lia|done|lia|lia|].
        exists off'. split; [by rewrite <-app_assoc|done].
Qed.
Fixpoint root_path (ps : list (Z * Z)) (i : Z) : list (Z * Z) :=
  match ps with
  | [] => []
  | (d, o) :: ps => if i <? 2 ^ d * (o + 1) then left_path (Z.to_nat d) o i else root_path ps i
  end.

Lemma offset_roots_ok blocks self nodes i ps : forall s,
  view_ok blocks self nodes -> no_blank blocks -> log_fits blocks ->
  tiles s ps (zlen blocks) -> 0 <= s -> s <= i < zlen blocks ->
  exists off,
    Tree.offset_roots self nodes (2 * i) (merkle_peaks blocks ps) (2 * s) (byte_sum blocks s) =
      Ok (offset_or (missing self nodes (root_path ps i)) off) /\
    (missing self nodes (root_path ps i) = [] -> off = byte_sum blocks i).
Proof.
  induction ps as [|[d o] ps IH]; intros s Hv Hnb Hfit Ht Hs Hi; [cbn in Ht; lia|].
  pose proof (tiles_complete _ _ _ d o Ht ltac:(by left)) as Hc. pose proof Hfit as [Hn Hb].
  destruct Ht as (Hd & Ho & -> & Ht). pose proof (tiles_le _ _ _ Ht) as Hle.
  pose proof (Z.pow_pos_nonneg 2 d). pose proof (complete_in_tree _ _ _ Hc Hn) as Hin.
  cbn [merkle_peaks fmap list_fmap Tree.offset_roots root_path].
  fold (merkle_at blocks d o). rewrite merkle_at_index by done.
  rewrite checked_sub_Ok, bind_Ok by (unfold node_at; nia).
  replace (node_at d o - 2 * (2 ^ d * o)) with (2 ^ d - 1) by (unfold node_at; lia).
  assert (2 ^ d <= zlen blocks) by nia. assert (2 ^ d * o + 2 ^ d <= zlen blocks) by nia.
  rewrite (checked_add_Ok 64 (2 ^ d - 1) 1), bind_Ok by lia.
  rewrite (checked_mul_Ok 64 2 (2 ^ d - 1 + 1)), bind_Ok by lia.
  rewrite (checked_add_Ok 64 (2 * (2 ^ d * o))), bind_Ok by lia.
  replace (2 * (2 ^ d * o) + 2 * (2 ^ d - 1 + 1)) with (2 * (2 ^ d * (o + 1))) by lia.
  destruct (i <? 2 ^ d * (o + 1)) eqn:Hlt.
  - rewrite (proj2 (Z.leb_gt _ _)) by lia. pose proof (complete_depth _ _ _ Hc Hn).
    destruct (offset_walk_ok blocks self nodes i Hv Hnb Hfit (Z.to_nat d) o (iter_new (node_at d o))
      (byte_sum blocks (2 ^ d * o)) [] tree_fuel) as (off & -> & Hoff); rewrite ?Z2Nat.id by done.
    + done.
    + lia.
    + by apply iter_new_law.
    + unfold tree_fuel. lia.
    + pose proof (byte_sum_nonneg blocks (2 ^ d * o)). lia.
    + exists off. split; [done|]. intros Hm. rewrite Hoff by done. rewrite Z2Nat.id by done. lia.
  - rewrite (proj2 (Z.leb_le _ _)) by lia.
    assert (node_length (merkle_at blocks d o) =
      byte_sum blocks (2 ^ d * (o + 1)) - byte_sum blocks (2 ^ d * o)) as Hnl.
    { unfold merkle_at. rewrite merkle_length by done. by rewrite Z2Nat.id. }
    assert (byte_sum blocks (2 ^ d * (o + 1)) <= zlen (concat blocks)) by (apply byte_sum_le; nia).
    rewrite checked_add_Ok, bind_Ok by lia.
    replace (byte_sum blocks (2 ^ d * o) + node_length (merkle_at blocks d o))
      with (byte_sum blocks (2 ^ d * (o + 1))) by lia.
    apply (IH (2 ^ d * (o + 1))); [done..|nia|lia].
Qed.

(** A tree that stands for a list of blocks. *)
Definition tree_for blocks self : Prop :=
  mt_roots self = merkle_roots blocks /\ mt_length self = zlen blocks /\
  mt_byte_length self = zlen (concat blocks).

(** The nodes [byte_range] needs: the leaf and the path to it. *)
Definition needed (n i : Z) : list (Z * Z) := (0, i) :: root_path (peaks n) i.

Lemma validate_index_ok blocks self i :
  tree_for blocks self -> log_fits blocks -> 0 <= i < 2 ^ 63 ->
  Tree.validate_hypercore_index self i =
    if i <? zlen blocks then Ok (2 * i) else Err BadArgument.
Proof.
  intros (_ & Hl & _) [Hn _] Hi.
  unfold Tree.validate_hypercore_index, hypercore_index_into_merkle_tree_index. rewrite Hl.
  rewrite !checked_mul_Ok, !bind_Ok by lia.
  assert (Z.land (2 * i) 1 = 0) as ->.
  { change 1 with (Z.ones 1). rewrite Z.land_ones, Z.mul_comm, Z.mod_mul by lia. done. }
  cbn [Z.eqb]. destruct (i <? zlen blocks) eqn:Hlt.
  - by rewrite (proj2 (Z.leb_gt _ _)) by lia.
  - by rewrite (proj2 (Z.leb_le _ _)) by lia.
Qed.

Lemma byte_offset_from_nodes_ok blocks self nodes i :
  tree_for blocks self -> view_ok blocks self nodes -> no_blank blocks -> log_fits blocks ->
  0 <= i < zlen blocks ->
  exists off,
    Tree.byte_offset_from_nodes self (2 * i) nodes =
      Ok (offset_or (missing self nodes (root_path (peaks (zlen blocks)) i)) off) /\
    (missing self nodes (root_path (peaks (zlen blocks)) i) = [] -> off = byte_sum blocks i).
Proof.
  intros (Hr & _) Hv Hnb Hfit Hi. unfold Tree.byte_offset_from_nodes.
  assert (Z.land (2 * i) 1 = 0) as ->.
  { change 1 with (Z.ones 1). rewrite Z.land_ones, Z.mul_comm, Z.mod_mul by lia. done. }
  cbn [Z.eqb]. rewrite Hr. change 0 with (2 * 0) at 1.
  change 0 with (byte_sum blocks 0) at 2.
  apply offset_roots_ok; [done..|apply tiles_peaks; lia|lia|lia].
Qed.

Definition block_range blocks (i : Z) : NodeByteRange :=
  mkByteRange (byte_sum blocks i) (zlen (default [] (blocks !! Z.to_nat i))).

Lemma byte_range_ok blocks self infos nodes i :
  tree_for blocks self -> infos_to_nodes infos = Ok nodes -> view_ok blocks self nodes ->
  no_blank blocks -> log_fits blocks -> 0 <= i < zlen blocks ->
  Tree.byte_range self i infos =
    Ok (match missing self nodes (needed (zlen blocks) i) with
        | [] => Right (block_range blocks i)
        | ins => Left ins
        end).
Proof.
  intros Ht Hn Hv Hnb Hfit Hi. pose proof Hfit as [Hlen _]. unfold Tree.byte_range.
  rewrite (validate_index_ok blocks) by (done || lia). rewrite (proj2 (Z.ltb_lt _ _)) by lia.
  rewrite bind_Ok, Hn, bind_Ok.
  assert (complete (zlen blocks) 0 i) as Hc by (split_and!; rewrite ?Z.pow_0_r; lia).
  rewrite <-node_at_leaf, (required_node_ok blocks), bind_Ok, node_at_leaf by (done || lia).
  destruct (byte_offset_from_nodes_ok blocks self nodes i Ht Hv Hnb Hfit Hi) as (off & -> & Hoff).
  rewrite bind_Ok. unfold needed, missing at 2. rewrite fmap_cons, node_at_leaf, filter_cons.
  set (rest := missing self nodes (root_path (peaks (zlen blocks)) i)) in *.
  change (read_node <$> filter _ _) with rest.
  destruct (has self nodes (2 * i)).
  - rewrite decide_False by done. fold rest.
    change (fmap read_node _) with rest.
    destruct rest; cbn [offset_or app]; [|done]. rewrite Hoff by done. done.
  - rewrite decide_True by done. rewrite fmap_cons. change (fmap read_node _) with rest.
    by destruct rest.
Qed.
(** ** The tree store *)

Definition node_record (n : Node) : list Z := le_bytes 8 (node_length n) ++ node_hash n.

Lemma node_from_bytes_ok index hash len :
  is_u64 len -> node_from_bytes index (le_bytes 8 len ++ hash) = Ok (Node_new index hash len).
Proof.
  intros Hl. unfold node_from_bytes. pose proof (zlen_nonneg hash).
  assert (zlen (le_bytes 8 len) = 8) as Hz by apply zlen_le_bytes.
  rewrite slice_range_prefix, bind_Ok by done.
  unfold slice_range. rewrite zlen_app, Hz. rewrite !(proj2 (Z.leb_le _ _)) by lia. cbn [andb].
  rewrite bind_Ok. replace (8 + zlen hash - 8) with (zlen hash) by lia.
  assert (slice (le_bytes 8 len ++ hash) 8 (zlen hash) = hash) as ->.
  { rewrite <-Hz. rewrite <-(app_nil_r hash) at 1. apply slice_app_mid. }
  destruct (decode_u64_law (le_bytes 8 len) (le_bytes_u8 _ _) Hz (st_from_buffer (le_bytes 8 len))
    (le_bytes 8 len)) as (st & -> & _);
    [rewrite ?from_buffer_start, ?from_buffer_end; lia..| |].
  { rewrite from_buffer_start. apply slice_full. }
  cbn [enc_try map_err]. rewrite bind_Ok, le_value_bytes; [done|].
  change (256 ^ Z.of_nat 8) with (2 ^ 64). exact Hl.
Qed.

Lemma merkle_new blocks (d : nat) o :
  merkle blocks d o = Node_new (node_index (merkle blocks d o)) (node_hash (merkle blocks d o))
                        (node_length (merkle blocks d o)).
Proof. by destruct d. Qed.

Lemma merkle_hash32 blocks (d : nat) o : is_bytes32 (node_hash (merkle blocks d o)).
Proof. destruct d; apply blake2b256_bytes. Qed.

Lemma merkle_at_u64 blocks d o :
  complete (zlen blocks) d o -> log_fits blocks -> is_u64 (node_length (merkle_at blocks d o)).
Proof.
  intros (Hd & Ho & Hle) [_ Hb]. unfold merkle_at.
  pose proof (merkle_length_nonneg blocks (Z.to_nat d) o).
  pose proof (merkle_length_le blocks (Z.to_nat d) o Ho) as Hm. rewrite Z2Nat.id in Hm by done.
  unfold is_u64. lia.
Qed.

Lemma zlen_node_record blocks d o : zlen (node_record (merkle_at blocks d o)) = 40.
Proof.
  unfold node_record. rewrite zlen_app, zlen_le_bytes. unfold merkle_at.
  by rewrite (proj2 (merkle_hash32 blocks (Z.to_nat d) o)).
Qed.

Lemma node_from_record blocks d o :
  complete (zlen blocks) d o -> log_fits blocks ->
  node_from_bytes (node_at d o) (node_record (merkle_at blocks d o)) = Ok (merkle_at blocks d o).
Proof.
  intros Hc Hfit. unfold node_record. rewrite node_from_bytes_ok by by apply merkle_at_u64.
  f_equal. rewrite <-(merkle_at_index blocks) by apply Hc. symmetry. apply merkle_new.
Qed.

(** The tree with its store [f]: every complete node is unflushed or stored. *)
Definition tree_inv blocks self (f : list Z) : Prop :=
  tree_for blocks self /\ mt_truncated self = false /\
  (forall k x, mt_unflushed self !! k = Some x ->
     exists d o, complete (zlen blocks) d o /\ k = node_at d o /\ x = merkle_at blocks d o) /\
  (forall d o, complete (zlen blocks) d o -> mt_unflushed self !! node_at d o = None ->
     at_offset f (40 * node_at d o) (node_record (merkle_at blocks d o))).

Lemma complete_inj n d o d' o' :
  complete n d o -> complete n d' o' -> node_at d o = node_at d' o' -> d = d' /\ o = o'.
Proof. intros (? & ? & _) (? & ? & _). by apply node_at_inj. Qed.

Lemma tree_inv_view blocks self f : tree_inv blocks self f -> view_ok blocks self ∅.
Proof.
  intros (_ & Ht & Hu & _). split; [done|]. intros d o Hc. split; [|done].
  intros x (d' & o' & Hc' & Hk & ->)%Hu. by destruct (complete_inj _ _ _ _ _ Hc Hc' Hk) as [-> ->].
Qed.

Lemma left_path_complete n (d : nat) o i p q :
  complete n (Z.of_nat d) o -> (p, q) ∈ left_path d o i -> complete n p q.
Proof.
  revert o. induction d as [|d IH]; intros o Hc; cbn [left_path]; [by intros ?%elem_of_nil|].
  rewrite Nat2Z.inj_succ, <-Z.add_1_r in Hc.
  destruct (complete_children _ _ _ Hc) as [Hl Hr]; [lia|].
  destruct (i <? _); [by apply IH|]. intros [[= -> ->]|Hin]%elem_of_cons; [done|]. by eapply IH.
Qed.

Lemma root_path_complete s ps n i p q :
  tiles s ps n -> (p, q) ∈ root_path ps i -> complete n p q.
Proof.
  revert s. induction ps as [|[d o] ps IH]; intros s Ht; cbn [root_path]; [by intros ?%elem_of_nil|].
  destruct (i <? _).
  - apply left_path_complete. pose proof (tiles_complete _ _ _ d o Ht ltac:(by left)) as Hc.
    by rewrite Z2Nat.id by apply Hc.
  - destruct Ht as (_ & _ & _ & Ht). by eapply IH.
Qed.

Lemma needed_complete n i p q : 0 <= i < n -> (p, q) ∈ needed n i -> complete n p q.
Proof.
  intros Hi [[= -> ->]|Hin]%elem_of_cons.
  - split_and!; rewrite ?Z.pow_0_r; lia.
  - eapply root_path_complete; [|exact Hin]. apply tiles_peaks. lia.
Qed.

(** What reading a node gives, and what the tree makes of it. *)
Definition node_read (f : list Z) (k : Z) : StoreInfo :=
  StoreInfo.new_content Common.Tree (40 * k) (slice f (40 * k) 40).

Lemma insert_infos_ok blocks f (ks : list Z) : forall m,
  log_fits blocks ->
  (forall k, k ∈ ks -> exists d o, complete (zlen blocks) d o /\ k = node_at d o /\
     at_offset f (40 * k) (node_record (merkle_at blocks d o))) ->
  exists m', insert_infos m (node_read f <$> ks) = Ok m' /\
    (forall k x, m' !! k = Some x -> m !! k = Some x \/
       exists d o, complete (zlen blocks) d o /\ k = node_at d o /\ x = Some (merkle_at blocks d o)) /\
    (forall k, is_Some (m' !! k) <-> k ∈ ks \/ is_Some (m !! k)).
Proof.
  induction ks as [|k ks IH]; intros m Hfit Hks.
  { exists m. split_and!; [done|by left|]. intros k. split; [by right|by intros [?%elem_of_nil|]]. }
  destruct (Hks k ltac:(by left)) as (d & o & Hc & -> & Hat).
  cbn [fmap list_fmap insert_infos node_read StoreInfo.new_content si_miss si_data negb unwrap].
  rewrite bind_Ok. assert (index_from_info (node_read f (node_at d o)) = node_at d o) as ->.
  { unfold index_from_info. cbn [node_read StoreInfo.new_content si_index]. unfold NODE_SIZE.
    rewrite Z.mul_comm. by apply Z.div_mul. }
  pose proof (zlen_node_record blocks d o) as Hz. destruct Hat as [_ Hat]. rewrite Hz in Hat.
  rewrite Hat, node_from_record, bind_Ok by done.
  destruct (IH (<[node_at d o := Some (merkle_at blocks d o)]> m) Hfit) as (m' & Hm' & Hsome & Hhas).
  { intros k Hk. apply Hks. by right. }
  exists m'. split_and!; [exact Hm'| |].
  - intros k x Hx. destruct (Hsome k x Hx) as [Hi|]; [|by right].
    destruct (decide (k = node_at d o)) as [->|].
    + rewrite lookup_insert_eq in Hi. injection Hi as <-. right. eauto.
    + rewrite lookup_insert_ne in Hi by done. by left.
  - intros k. rewrite Hhas, elem_of_cons. destruct (decide (k = node_at d o)) as [->|].
    + rewrite lookup_insert_eq. split; [by left; left|]. right. eauto.
    + rewrite lookup_insert_ne by done. split.
      * intros [?|?]; [left; by right|by right].
      * intros [[?|?]|?]; [done|by left|by right].
Qed.

(** Nodes that the store holds, and the keys among [keys] that neither the
    unflushed nodes nor what was read of the keys [ks] answer. *)
Definition readable blocks (f : list Z) (ks : list Z) : Prop :=
  forall k, k ∈ ks -> exists d o, complete (zlen blocks) d o /\ k = node_at d o /\
    at_offset f (40 * k) (node_record (merkle_at blocks d o)).
Definition unknown self (ks keys : list Z) : list Z :=
  filter (fun k => mt_unflushed self !! k = None /\ k ∉ ks) keys.
Definition node_keys (ps : list (Z * Z)) : list Z := (fun '(d, o) => node_at d o) <$> ps.

(** The answer, or the instructions to read what is unknown. *)
Definition asked {A} (l : list Z) (a : A) : either_instructions A :=
  match l with [] => Right a | _ => Left (read_node <$> l) end.

Lemma infos_view blocks self f ks :
  view_ok blocks self ∅ -> log_fits blocks -> readable blocks f ks ->
  exists m, infos_to_nodes (Some (node_read f <$> ks)) = Ok m /\ view_ok blocks self m /\
    forall ps, missing self m ps = read_node <$> unknown self ks (node_keys ps).
Proof.
  intros [Htr Hv] Hfit Hks.
  destruct (insert_infos_ok blocks f ks ∅ Hfit Hks) as (m & Hm & Hsome & Hhas).
  exists m. split_and!; [done|split; [done|]|].
  - intros d o Hc. split; [by apply Hv|].
    intros x [Hx|(d' & o' & Hc' & Hk & ->)]%Hsome; [done|].
    by destruct (complete_inj _ _ _ _ _ Hc Hc' Hk) as [-> ->].
  - intros ps. unfold missing, unknown, node_keys. f_equal. apply list_filter_iff. intros k.
    unfold has. specialize (Hhas k). rewrite lookup_empty in Hhas.
    destruct (mt_unflushed self !! k); [split; [done|by intros [? _]]|].
    destruct (m !! k) as [x|] eqn:Hmk.
    + split; [done|]. intros [_ Hn]. destruct Hn.
      destruct (proj1 Hhas) as [?|[? ?]]; [by eauto|done|done].
    + split; [|done]. intros _. split; [done|]. intros Hin.
      destruct (proj2 Hhas (or_introl Hin)) as [? ?]. done.
Qed.

Lemma asked_match {A} (l : list Z) (a : A) :
  match read_node <$> l with [] => Right a | ins => Left ins end = asked l a.
Proof. by destruct l. Qed.

Lemma byte_range_asked_view blocks self f ks i :
  tree_for blocks self -> view_ok blocks self ∅ -> no_blank blocks -> log_fits blocks -> readable blocks f ks ->
  0 <= i < zlen blocks ->
  Tree.byte_range self i (Some (node_read f <$> ks)) =
    Ok (asked (unknown self ks (node_keys (needed (zlen blocks) i))) (block_range blocks i)).
Proof.
  intros Hfor Hview Hnb Hfit Hks Hi. destruct (infos_view _ _ _ _ Hview Hfit Hks) as (m & Hm & Hv & Hmiss).
  rewrite (byte_range_ok blocks self _ m) by done. by rewrite Hmiss, asked_match.
Qed.

Lemma byte_range_asked blocks self f ks i :
  tree_inv blocks self f -> no_blank blocks -> log_fits blocks -> readable blocks f ks ->
  0 <= i < zlen blocks ->
  Tree.byte_range self i (Some (node_read f <$> ks)) =
    Ok (asked (unknown self ks (node_keys (needed (zlen blocks) i))) (block_range blocks i)).
Proof. intros Hinv. pose proof (tree_inv_view _ _ _ Hinv). destruct Hinv. by apply byte_range_asked_view. Qed.

Lemma byte_offset_asked blocks self f ks i :
  tree_inv blocks self f -> no_blank blocks -> log_fits blocks -> readable blocks f ks ->
  0 <= i < zlen blocks ->
  Tree.byte_offset self i (Some (node_read f <$> ks)) =
    Ok (asked (unknown self ks (node_keys (root_path (peaks (zlen blocks)) i))) (byte_sum blocks i)).
Proof.
  intros Hinv Hnb Hfit Hks Hi.
  destruct (infos_view _ _ _ _ (tree_inv_view _ _ _ Hinv) Hfit Hks) as (m & Hm & Hv & Hmiss).
  pose proof Hfit as [Hn _]. unfold Tree.byte_offset, Tree.byte_offset_from_index.
  rewrite (validate_index_ok blocks) by (apply Hinv || done || lia).
  rewrite (proj2 (Z.ltb_lt _ _)), bind_Ok, Hm, bind_Ok by lia.
  destruct (byte_offset_from_nodes_ok blocks self m i) as (off & -> & Hoff); [apply Hinv|done..|].
  rewrite Hmiss in *. f_equal. unfold offset_or, asked.
  destruct (unknown self ks _); [|done]. by rewrite Hoff.
Qed.

(** Without infos nothing is known. *)
Lemma byte_range_none self i : Tree.byte_range self i None = Tree.byte_range self i (Some []).
Proof. done. Qed.
Lemma byte_offset_none self i : Tree.byte_offset self i None = Tree.byte_offset self i (Some []).
Proof. done. Qed.

Lemma unknown_readable blocks self f ks ps :
  tree_inv blocks self f -> (forall d o, (d, o) ∈ ps -> complete (zlen blocks) d o) ->
  readable blocks f (unknown self ks (node_keys ps)).
Proof.
  intros (_ & _ & _ & Hs) Hps k [[Hu _] Hk]%list_elem_of_filter.
  apply list_elem_of_fmap in Hk as ([d o] & -> & Hin). exists d, o. auto.
Qed.

Lemma readable_reads blocks fs ks :
  readable blocks (fs Common.Tree) ks ->
  Forall instruction_wf (read_node <$> ks) /\
  Forall2 (fun ins info => read_effect fs ins = Some info) (read_node <$> ks)
    (node_read (fs Common.Tree) <$> ks).
Proof.
  intros Hks. split.
  - apply Forall_fmap, Forall_forall. intros k Hk. destruct (Hks k Hk) as (d & o & Hc & -> & _).
    pose proof (complete_node_at _ _ _ Hc). split; cbn; [lia|]. by intros n [= <-].
  - apply Forall2_fmap, Forall_Forall2_diag, Forall_forall. intros k Hk.
    destruct (Hks k Hk) as (d & o & Hc & -> & [Hl _]). rewrite zlen_node_record in Hl.
    unfold read_effect. cbn. by rewrite (proj2 (Z.leb_le _ _)) by lia.
Qed.

Lemma unknown_all self ks keys :
  unknown self (ks ++ unknown self ks keys) keys = [].
Proof.
  destruct (unknown self (ks ++ unknown self ks keys) keys) as [|k l] eqn:Hl; [done|].
  assert (k ∈ k :: l) as Hk by by left. rewrite <-Hl in Hk.
  apply list_elem_of_filter in Hk as [[Hu Hn] Hk]. destruct Hn. apply elem_of_app.
  destruct (decide (k ∈ ks)); [by left|right]. by apply list_elem_of_filter.
Qed.

Lemma needed_complete_all n i : 0 <= i < n ->
  forall d o, (d, o) ∈ needed n i -> complete n d o.
Proof. intros Hi d o. by apply needed_complete. Qed.
Lemma root_path_complete_all n i : 0 <= n ->
  forall d o, (d, o) ∈ root_path (peaks n) i -> complete n d o.
Proof. intros Hn d o. eapply root_path_complete. by apply tiles_peaks. Qed.

(** ** Committing appended blocks *)

(** The changeset adds [more] to the log and holds every node this completes. *)
Definition cs_append blocks (more : list (list Z)) (cs : MerkleTreeChangeset) : Prop :=
  cs_for (blocks ++ more) cs /\ cs_ancestors cs = zlen blocks /\
  cs_original_tree_length cs = zlen blocks /\ cs_upgraded cs = negb (is_empty more) /\
  zlen (cs_nodes cs) <= 64 * zlen more /\
  (forall x, x ∈ cs_nodes cs -> exists d o, complete (zlen (blocks ++ more)) d o /\
     x = merkle_at (blocks ++ more) d o) /\
  (forall d o, complete (zlen (blocks ++ more)) d o -> ~ complete (zlen blocks) d o ->
     merkle_at (blocks ++ more) d o ∈ cs_nodes cs).

Lemma complete_mono n m d o : n <= m -> complete n d o -> complete m d o.
Proof. intros Hn (? & ? & ?). split_and!; [done..|lia]. Qed.

Lemma complete_dec n d o : complete n d o \/ ~ complete n d o.
Proof. unfold complete. lia. Qed.

Lemma merkle_at_app blocks more d o :
  complete (zlen blocks) d o -> merkle_at (blocks ++ more) d o = merkle_at blocks d o.
Proof. intros (Hd & Ho & Hle). apply merkle_app; [done|]. by rewrite Z2Nat.id. Qed.

Lemma changeset_append_nil blocks self :
  tree_for blocks self -> cs_append blocks [] (Tree.changeset self).
Proof.
  intros (Hr & Hl & Hb). unfold cs_append. rewrite app_nil_r. unfold Tree.changeset, Changeset.new, cs_for.
  cbn. split_and!; try done. by intros x ?%elem_of_nil.
Qed.

(** An append completes at most one node of each depth. *)
Lemma length_completed_at fuel : forall d q, (length (completed_at fuel d q) <= S fuel)%nat.
Proof.
  induction fuel as [|fuel IH]; intros d q; cbn [completed_at length]; [lia|].
  destruct (Z.odd q); [|cbn; lia]. specialize (IH (d + 1) (q / 2)). lia.
Qed.

Lemma length_completed n : 0 <= n -> n + 1 < 2 ^ 57 -> Z.of_nat (length (completed n)) <= 58.
Proof.
  intros Hn Hlt. unfold completed.
  pose proof (length_completed_at (Z.to_nat (Z.log2_up (n + 1))) 0 n).
  assert (Z.log2_up (n + 1) <= 57). { apply Z.log2_up_le_pow2; lia. }
  pose proof (Z.log2_up_nonneg (n + 1)). lia.
Qed.

Lemma cs_append_snoc blocks more cs data :
  cs_append blocks more cs -> log_fits (blocks ++ more ++ [data]) ->
  cs_batch_length cs + 1 < 2 ^ 64 ->
  exists cs', Changeset.append cs data = Ok (cs', zlen data) /\
    cs_append blocks (more ++ [data]) cs' /\ cs_batch_length cs' = cs_batch_length cs + 1 /\
    cs_fork cs' = cs_fork cs /\ cs_original_tree_fork cs' = cs_original_tree_fork cs.
Proof.
  intros (Hfor & Ha & Hol & Hu & Hcount & Hsub & Hall) Hfit Hb. rewrite app_assoc in Hfit.
  rewrite (append_ok _ _ _ Hfor Hfit Hb). eexists. split; [done|]. split; [|done].
  unfold cs_append. rewrite app_assoc. cbn [cs_ancestors cs_original_tree_length cs_upgraded cs_nodes].
  set (bs := blocks ++ more) in *. pose proof (zlen_nonneg bs) as Hz.
  assert (zlen (bs ++ [data]) = zlen bs + 1) as Hzs by (by rewrite zlen_app).
  split_and!; [by split_and!|done..|by destruct more| | |].
  - rewrite !zlen_app. change (zlen [data]) with 1. unfold merkle_peaks, zlen at 2.
    rewrite length_fmap. pose proof (length_completed (zlen bs) Hz) as Hlc.
    destruct Hfit as [Hfit _]. rewrite Hzs in Hfit. lia.
  - intros x [Hx|Hx]%elem_of_app.
    + apply Hsub in Hx as (d & o & Hc & ->). exists d, o. split; [|by rewrite merkle_at_app].
      eapply complete_mono; [|done]. lia.
    + apply list_elem_of_fmap in Hx as ([d o] & -> & Hin). exists d, o. split; [|done].
      rewrite Hzs. by apply completed_complete.
  - intros d o Hc Hn. apply elem_of_app. destruct (complete_dec (zlen bs) d o) as [Hc'|Hc'].
    + left. rewrite merkle_at_app by done. by apply Hall.
    + right. apply list_elem_of_fmap. exists (d, o). split; [done|].
      apply completed_elem; [done| |done]. by rewrite <-Hzs.
Qed.

Lemma insert_nodes_lookup ns : forall m k,
  (forall x, Tree.insert_nodes m ns !! k = Some x ->
     (x ∈ ns /\ node_index x = k) \/ m !! k = Some x) /\
  ((exists x, x ∈ ns /\ node_index x = k) -> is_Some (Tree.insert_nodes m ns !! k)) /\
  (is_Some (m !! k) -> is_Some (Tree.insert_nodes m ns !! k)).
Proof.
  induction ns as [|n ns IH]; intros m k; cbn [Tree.insert_nodes foldl].
  { split_and!; [by right| |done]. by intros (x & ?%elem_of_nil & _). }
  fold (Tree.insert_nodes (<[node_index n := n]> m) ns).
  destruct (IH (<[node_index n := n]> m) k) as (H1 & H2 & H3).
  assert (node_index n = k -> is_Some ((<[node_index n := n]> m) !! k)) as Hself.
  { intros <-. rewrite lookup_insert_eq. eauto. }
  split_and!.
  - intros x Hx. destruct (H1 x Hx) as [[Hin Hk]|Hm]; [left; split; [by right|done]|].
    destruct (decide (node_index n = k)) as [<-|].
    + rewrite lookup_insert_eq in Hm. injection Hm as <-. left. split; [by left|done].
    + rewrite lookup_insert_ne in Hm by done. by right.
  - intros (x & [->|Hin]%elem_of_cons & Hk); [by apply H3, Hself|]. apply H2. eauto.
  - intros Hm. apply H3. destruct (decide (node_index n = k)); [by apply Hself|].
    by rewrite lookup_insert_ne.
Qed.

(** Committing the changeset makes the tree stand for the longer log. *)
Lemma commit_append_ok blocks more self cs f :
  tree_inv blocks self f -> cs_append blocks more cs ->
  cs_original_tree_fork cs = mt_fork self ->
  exists self', Tree.commit self cs = Ok self' /\ tree_inv (blocks ++ more) self' f /\
    mt_fork self' = (if is_empty more then mt_fork self else cs_fork cs).
Proof.
  intros ((Hr & Hl & Hbl) & Ht & Hu & Hs) ((Hcr & Hcl & Hcb) & Ha & Hol & Hup & _ & Hsub & Hall) Hf.
  unfold Tree.commit, Tree.commitable. rewrite Hf, Hol, Hl, !Z.eqb_refl, Z.leb_refl.
  assert ((if cs_upgraded cs then true else true) = true) as -> by by destruct (cs_upgraded cs).
  cbn [andb negb]. unfold Tree.commit_truncation. rewrite Ha, Hol, Z.ltb_irrefl.
  set (nodes := Tree.insert_nodes (mt_unflushed self) (cs_nodes cs)).
  assert (zlen blocks <= zlen (blocks ++ more)) as Hle.
  { rewrite zlen_app. pose proof (zlen_nonneg more). lia. }
  assert (forall k x, nodes !! k = Some x -> exists d o, complete (zlen (blocks ++ more)) d o /\
    k = node_at d o /\ x = merkle_at (blocks ++ more) d o) as Hnodes.
  { intros k x Hx. apply insert_nodes_lookup in Hx as [[Hin <-]|Hm].
    - apply Hsub in Hin as (d & o & Hc & ->). exists d, o. split_and!; [done| |done].
      apply merkle_at_index, Hc.
    - apply Hu in Hm as (d & o & Hc & -> & ->). exists d, o.
      split_and!; [by eapply complete_mono|done|]. by rewrite merkle_at_app. }
  assert (forall d o, complete (zlen (blocks ++ more)) d o -> nodes !! node_at d o = None ->
    at_offset f (40 * node_at d o) (node_record (merkle_at (blocks ++ more) d o))) as Hstore.
  { intros d o Hc Hnone.
    destruct (insert_nodes_lookup (cs_nodes cs) (mt_unflushed self) (node_at d o)) as (_ & H2 & H3).
    fold nodes in H2, H3. rewrite Hnone in H2, H3.
    destruct (complete_dec (zlen blocks) d o) as [Hc'|Hc'].
    - rewrite merkle_at_app by done. apply Hs; [done|].
      destruct (mt_unflushed self !! node_at d o); [|done].
      destruct H3 as [y Hy]; [by eauto|discriminate].
    - destruct H2 as [y Hy]; [|discriminate]. exists (merkle_at (blocks ++ more) d o).
      split; [by apply Hall|]. apply merkle_at_index, Hc. }
  destruct more as [|b more]; cbn [is_empty negb] in Hup; rewrite Hup.
  - rewrite bind_Ok. rewrite app_nil_r in *. eexists. split_and!; [done| |done]. by split_and!.
  - rewrite !bind_Ok. eexists. split_and!; [done| |done]. by split_and!.
Qed.
(** ** Flushing *)

Definition node_write (n : Node) : StoreInfo :=
  StoreInfo.new_content Common.Tree (40 * node_index n) (node_record n).

Lemma node_info_ok blocks d o :
  complete (zlen blocks) d o -> log_fits blocks ->
  Tree.node_info (merkle_at blocks d o) = Ok (node_write (merkle_at blocks d o)).
Proof.
  intros Hc Hfit. pose proof (complete_node_at _ _ _ Hc) as Hi. pose proof Hfit as [Hn _].
  unfold Tree.node_info. set (n := merkle_at blocks d o).
  assert (is_u64 (node_length n)) as Hl by by apply merkle_at_u64.
  assert (is_bytes32 (node_hash n)) as Hh by apply merkle_hash32.
  assert (enc_ok (fun st buf => '(st, buf) ← encode_u64 st (node_length n) buf;
    encode_fixed_32 st (node_hash n) buf) (node_record n)) as Henc.
  { unfold node_record. apply enc_ok_bind; by eauto with codec. }
  destruct (fresh_encode _ _ Henc) as (st & st' & Hnew & Hrun).
  pose proof (zlen_node_record blocks d o) as Hz. fold n in Hz. rewrite Hz in Hnew, Hrun.
  change (Z.to_nat 40) with 40%nat in *. rewrite Hnew.
  destruct (encode_u64 st (node_length n) (replicate 40 0)) as [[st1 b1]| | |]; try discriminate Hrun.
  rewrite bind_Ok in Hrun. rewrite expect_Ok, bind_Ok, Hrun, expect_Ok, bind_Ok.
  assert (node_index n = node_at d o) as Hidx by apply merkle_at_index, Hc.
  rewrite Hidx, checked_mul_Ok, bind_Ok by lia. unfold node_write. rewrite Hidx.
  by rewrite (Z.mul_comm 40).
Qed.

(** Only nodes of the log are unflushed. *)
Definition log_node blocks (kx : Z * Node) : Prop :=
  exists d o, complete (zlen blocks) d o /\ kx.1 = node_at d o /\ kx.2 = merkle_at blocks d o.

Lemma node_infos_ok blocks l :
  log_fits blocks -> Forall (log_node blocks) l ->
  Tree.node_infos l = Ok (node_write ∘ snd <$> l).
Proof.
  intros Hfit. induction 1 as [|[k x] l (d & o & Hc & Hk & Hx) _ IH]; [done|]. cbn in Hk, Hx. subst.
  cbn [Tree.node_infos]. rewrite node_info_ok, bind_Ok, IH by done. done.
Qed.

Lemma node_writes_ok blocks l : forall f,
  Forall (log_node blocks) l -> forall d o, complete (zlen blocks) d o ->
  node_at d o ∈ l.*1 \/ at_offset f (40 * node_at d o) (node_record (merkle_at blocks d o)) ->
  at_offset (file_effects f (node_write ∘ snd <$> l)) (40 * node_at d o)
    (node_record (merkle_at blocks d o)).
Proof.
  induction l as [|[k x] l IH]; intros f Hl d o Hc Hin; [by destruct Hin as [?%elem_of_nil|]|].
  apply Forall_cons in Hl as [(d' & o' & Hc' & Hk & Hx) Hl]. cbn in Hk, Hx. subst k x.
  cbn [fmap list_fmap file_effects foldl]. apply IH; [done..|].
  unfold compose. cbn [snd node_write info_effect StoreInfo.new_content si_info_type si_miss si_data si_index].
  rewrite merkle_at_index by apply Hc'.
  pose proof (complete_node_at _ _ _ Hc). pose proof (complete_node_at _ _ _ Hc').
  destruct (decide (node_at d o = node_at d' o')) as [Heq|Hne].
  - destruct (complete_inj _ _ _ _ _ Hc Hc' Heq) as [-> ->]. right.
    apply at_offset_write_same. lia.
  - destruct Hin as [[?|?]%elem_of_cons|Hat]; [done|by left|right].
    apply at_offset_write_other; [lia..| |done]. rewrite !zlen_node_record. lia.
Qed.

Context {IOL : IntMapOrderLaws IO}.

(** Flushing moves every unflushed node to the store. *)
Lemma flush_ok blocks self f :
  tree_inv blocks self f -> log_fits blocks ->
  exists self' infos, Tree.flush self = Ok (self', infos) /\
    tree_inv blocks self' (file_effects f infos) /\ mt_unflushed self' = ∅ /\
    mt_fork self' = mt_fork self /\ mt_signature self' = mt_signature self /\
    Forall (fun info => exists n, 0 <= node_index n /\ info = node_write n) infos.
Proof.
  intros (Hfor & Ht & Hu & Hs) Hfit. unfold Tree.flush. rewrite Ht, bind_Ok.
  unfold Tree.flush_nodes. set (l := drain (mt_unflushed self)).
  assert (Forall (log_node blocks) l) as Hl.
  { apply Forall_forall. intros [k x] Hin. subst l. rewrite drain_perm in Hin.
    apply elem_of_map_to_list in Hin. by apply Hu in Hin as (d & o & ? & ? & ?); exists d, o. }
  rewrite (node_infos_ok blocks) by done. rewrite !bind_Ok. eexists _, _. split; [done|].
  split_and!; try done.
  - split_and!; try done. intros d o Hc _. apply node_writes_ok; [done..|].
    destruct (mt_unflushed self !! node_at d o) as [x|] eqn:Hx; [left|right; by apply Hs].
    apply elem_of_map_to_list in Hx. rewrite <-drain_perm in Hx.
    by apply (list_elem_of_fmap_2 fst) in Hx.
  - cbn [app]. apply Forall_fmap. eapply Forall_impl; [exact Hl|].
    intros [k x] (d & o & Hc & _ & Hx). cbn in Hx. subst x. exists (merkle_at blocks d o).
    split; [|done]. rewrite merkle_at_index by apply Hc. apply complete_node_at in Hc. lia.
Qed.

(** ** Opening *)

Lemma index_middle {E A} (l1 l2 : list A) x : index (E:=E) (l1 ++ x :: l2) (zlen l1) = Ok x.
Proof.
  apply index_Ok; [apply zlen_nonneg|]. unfold zlen. rewrite Nat2Z.id. by apply list_lookup_middle.
Qed.

Lemma open_roots_ok blocks f ps2 : forall ps1 roots s,
  log_fits blocks -> tiles s ps2 (zlen blocks) -> 0 <= s ->
  (forall d o, (d, o) ∈ ps2 -> at_offset f (40 * node_at d o) (node_record (merkle_at blocks d o))) ->
  Tree.open_roots (zlen ps1) ((fun '(d, o) => node_at d o) <$> ps2)
    (node_read f <$> ((fun '(d, o) => node_at d o) <$> ps1 ++ ps2)) roots (byte_sum blocks s) (2 * s)
  = Ok (roots ++ merkle_peaks blocks ps2, zlen (concat blocks), 2 * zlen blocks).
Proof.
  induction ps2 as [|[d o] ps2 IH]; intros ps1 roots s Hfit Ht Hs Hat.
  { cbn in Ht. subst s. cbn. by rewrite byte_sum_all, app_nil_r. }
  pose proof (tiles_complete _ _ _ d o Ht ltac:(by left)) as Hc.
  pose proof (Hat d o ltac:(by left)) as [_ Hrec]. rewrite zlen_node_record in Hrec.
  destruct Ht as (Hd & Ho & -> & Ht). pose proof (tiles_le _ _ _ Ht) as Hle. destruct Hfit as [Hn Hb].
  rewrite !fmap_app, !fmap_cons. cbn [Tree.open_roots].
  assert (zlen ps1 = zlen (node_read f <$> ((fun '(d, o) => node_at d o) <$> ps1))) as Hz1.
  { unfold zlen. by rewrite !length_fmap. }
  rewrite Hz1 at 1. rewrite index_middle, bind_Ok.
  assert (index_from_info (node_read f (node_at d o)) = node_at d o) as ->.
  { unfold index_from_info. cbn [node_read StoreInfo.new_content si_index]. unfold NODE_SIZE.
    rewrite Z.mul_comm. by apply Z.div_mul. }
  rewrite Z.eqb_refl. cbn [negb node_read StoreInfo.new_content si_data unwrap].
  rewrite bind_Ok, Hrec, node_from_record, bind_Ok, merkle_at_index by done.
  assert (node_length (merkle_at blocks d o) =
    byte_sum blocks (2 ^ d * (o + 1)) - byte_sum blocks (2 ^ d * o)) as Hnl.
  { unfold merkle_at. rewrite merkle_length by done. by rewrite Z2Nat.id. }
  pose proof (Z.pow_pos_nonneg 2 d).
  assert (byte_sum blocks (2 ^ d * (o + 1)) <= zlen (concat blocks)) by (apply byte_sum_le; nia).
  assert (2 ^ d <= zlen blocks) by nia. assert (2 ^ d * o + 2 ^ d <= zlen blocks) by nia.
  rewrite (checked_add_Ok 64 (byte_sum blocks (2 ^ d * o))), bind_Ok by lia.
  rewrite checked_sub_Ok, bind_Ok by (unfold node_at; lia).
  replace (node_at d o - 2 * (2 ^ d * o)) with (2 ^ d - 1) by (unfold node_at; lia).
  rewrite (checked_add_Ok 64 (2 ^ d - 1) 1), bind_Ok by lia.
  rewrite (checked_mul_Ok 64 2 (2 ^ d - 1 + 1)), bind_Ok by lia.
  rewrite (checked_add_Ok 64 (2 * (2 ^ d * o))), bind_Ok by lia.
  replace (2 * (2 ^ d * o) + 2 * (2 ^ d - 1 + 1)) with (2 * (2 ^ d * (o + 1))) by lia.
  replace (byte_sum blocks (2 ^ d * o) + node_length (merkle_at blocks d o))
    with (byte_sum blocks (2 ^ d * (o + 1))) by lia.
  specialize (IH (ps1 ++ [(d, o)]) (roots ++ [merkle_at blocks d o]) (2 ^ d * (o + 1))).
  rewrite zlen_app, <-!app_assoc in IH. change (zlen [(d, o)]) with 1 in IH.
  rewrite !fmap_app in IH. apply IH; [done|done|nia|].
  intros d' o' Hin. apply Hat. by right.
Qed.
(** Every complete node is in the store. *)
Definition all_stored blocks (f : list Z) : Prop :=
  forall d o, complete (zlen blocks) d o ->
    at_offset f (40 * node_at d o) (node_record (merkle_at blocks d o)).

Definition opened_tree blocks (ht : HeaderTree) (sig : option Signature) : MerkleTree :=
  mkTree _ (merkle_roots blocks) (zlen blocks) (zlen (concat blocks)) (ht_fork ht) sig ∅ false 0.

Lemma opened_tree_inv blocks ht sig f :
  all_stored blocks f -> tree_inv blocks (opened_tree blocks ht sig) f.
Proof.
  intros Hall. split_and!; try done; cbn.
  intros d o Hc _. by apply Hall.
Qed.

(** The roots are in the store. *)
Definition roots_stored blocks (f : list Z) : Prop :=
  forall d o, (d, o) ∈ peaks (zlen blocks) -> at_offset f (40 * node_at d o) (node_record (merkle_at blocks d o)).

Lemma all_roots_stored blocks f : all_stored blocks f -> roots_stored blocks f.
Proof. intros Hall d o Hin. eapply Hall, tiles_complete; [apply tiles_peaks, zlen_nonneg|done]. Qed.

(** [open] asks for the roots of the length in the header and, given them,
    returns the tree of the log with the signature of the header, if that can
    be parsed. *)
Lemma open_outcomes blocks (ht : HeaderTree) fs :
  roots_stored blocks (fs Common.Tree) -> log_fits blocks -> ht_length ht = zlen blocks ->
  exists ins infos, Tree.open ht None = Ok (Left ins) /\ Forall instruction_wf ins /\
    Forall2 (fun ins info => read_effect fs ins = Some info) ins infos /\
    Tree.open ht (Some infos) =
      if 0 <? zlen (ht_signature ht) then
        match sig_try_from (ht_signature ht) with
        | Some sig => Ok (Right (opened_tree blocks ht (Some sig)))
        | None => Err InvalidSignature
        end
      else Ok (Right (opened_tree blocks ht None)).
Proof.
  intros Hall Hfit Hlen. pose proof Hfit as [Hn _]. pose proof (zlen_nonneg blocks).
  set (f := fs Common.Tree) in *. set (ks := (fun '(d, o) => node_at d o) <$> peaks (zlen blocks)).
  assert (get_root_indices (ht_length ht) = Ok ks) as Hroots.
  { unfold get_root_indices. rewrite Hlen, checked_mul_Ok, bind_Ok by lia.
    rewrite Z.mul_comm, ft_full_roots_law by lia. done. }
  pose proof (tiles_peaks (zlen blocks) ltac:(done)) as Ht.
  assert (forall k, k ∈ ks -> 0 <= k /\ 40 * k + 40 <= zlen f) as Hks.
  { intros k ([d o] & -> & Hin)%list_elem_of_fmap. destruct (Hall d o Hin) as [Hl _].
    rewrite zlen_node_record in Hl. apply (tiles_complete _ _ _ _ _ Ht), complete_node_at in Hin. lia. }
  exists (read_node <$> ks), (node_read f <$> ks). split_and!.
  - unfold Tree.open. rewrite Hroots, bind_Ok. done.
  - apply Forall_fmap, Forall_forall. intros k [Hk _]%Hks. split; cbn; [lia|]. by intros n [= <-].
  - apply Forall2_fmap, Forall_Forall2_diag, Forall_forall. intros k [Hk Hl]%Hks.
    unfold read_effect. cbn. fold f. by rewrite (proj2 (Z.leb_le _ _)) by lia.
  - unfold Tree.open. rewrite Hroots, bind_Ok.
    pose proof (open_roots_ok blocks f (peaks (zlen blocks)) [] [] 0 Hfit Ht ltac:(lia)) as Ho.
    rewrite app_nil_l in Ho. fold ks in Ho. change (zlen []) with 0 in Ho. change (byte_sum blocks 0) with 0 in Ho.
    change (2 * 0) with 0 in Ho. rewrite Ho, bind_Ok.
    2: { intros d o Hin. by apply Hall. }
    assert ((if 0 <? 2 * zlen blocks then 2 * zlen blocks / 2 else 2 * zlen blocks) = zlen blocks) as ->.
    { destruct (0 <? 2 * zlen blocks) eqn:Hz; Z.div_mod_to_equations; lia. }
    destruct (0 <? zlen (ht_signature ht)); [|done]. by destruct (sig_try_from (ht_signature ht)).
Qed.

Lemma open_protocol blocks (ht : HeaderTree) sig fs :
  roots_stored blocks (fs Common.Tree) -> log_fits blocks -> ht_length ht = zlen blocks ->
  (if 0 <? zlen (ht_signature ht) then sig <> None /\ sig_try_from (ht_signature ht) = sig
   else sig = None) ->
  exists ins infos, Tree.open ht None = Ok (Left ins) /\ Forall instruction_wf ins /\
    Forall2 (fun ins info => read_effect fs ins = Some info) ins infos /\
    Tree.open ht (Some infos) = Ok (Right (opened_tree blocks ht sig)).
Proof.
  intros Hall Hfit Hlen Hsig. destruct (open_outcomes blocks ht fs Hall Hfit Hlen) as (ins & infos & Hl & Hwf & Hr & Ho).
  exists ins, infos. rewrite Ho. split_and!; [done..|]. destruct (0 <? zlen (ht_signature ht)).
  - destruct Hsig as [Hne ->]. by destruct sig.
  - by rewrite Hsig.
Qed.
End View.
