(* ===== verification/MerkleTruncate.v ===== *)
(** * Truncating to the length of an oplog entry

    When the oplog is replayed, the nodes of an entry are added to the tree and
    [truncate] is called with the length of the entry, which is the longer one.
    It finds the roots of the longer log among the roots of the tree, the added
    nodes and the store, and the commit of its changeset gives the same tree as
    the commit of the changeset the entry was made of. *)

From stdpp Require Import base tactics numbers list gmap.
From Stdlib Require Import ZArith Lia Bool.
From S2P Require Import Prelude FlatTree Common CompactEncoding Crypto OplogEntry Changeset.
From S2P Require Import Storage MerkleTree MerkleView.
Open Scope Z_scope.

Section Truncate.
Context `{FT : FlatTree} {FL : FlatTreeLaws FT} `{CE : CompactEncoding} {CL : CompactEncodingLaws CE}
  `{B2 : Blake2b} {BL : Blake2bLaws B2} `{ED : Ed25519} `{IO : IntMapOrder}.
Implicit Types (blocks : list (list Z)) (self : MerkleTree) (nodes : nodes_map).

(** The peaks that are looked up: all from the first that is not a root yet. *)
Fixpoint new_peaks (ps qs : list (Z * Z)) : list (Z * Z) :=
  match ps, qs with
  | p :: ps', q :: qs => if decide (p = q) then new_peaks ps' qs else ps
  | _, _ => ps
  end.

Lemma new_peaks_sub ps : forall qs p, p ∈ new_peaks ps qs -> p ∈ ps.
Proof.
  induction ps as [|p ps IH]; intros [|q qs] x; cbn [new_peaks]; try done.
  case_decide; [|done]. intros Hx%IH. by right.
Qed.

(** Behind the first new root all are new. *)
Lemma truncate_tail blocks self nodes ps : forall i roots ins,
  view_ok blocks self nodes -> no_blank blocks -> zlen blocks < 2 ^ 57 -> 0 <= i -> zlen roots <= i ->
  (forall d o, (d, o) ∈ ps -> complete (zlen blocks) d o) ->
  exists roots',
    Tree.truncate_roots self nodes i (node_keys ps) roots ins =
      Ok (roots', ins ++ missing self nodes ps) /\
    (missing self nodes ps = [] -> zlen roots = i -> roots' = roots ++ merkle_peaks blocks ps).
Proof.
  induction ps as [|[d o] ps IH]; intros i roots ins Hv Hnb Hlen Hi Hr Hc.
  { exists roots. cbn. by rewrite !app_nil_r. }
  unfold node_keys. rewrite fmap_cons. fold (node_keys ps). cbn [Tree.truncate_roots].
  rewrite (lookup_ge_None_2 roots) by (unfold zlen in Hr; lia).
  assert (ztake i roots = roots) as -> by (unfold ztake, zlen in *; apply take_ge; lia).
  rewrite (required_node_ok blocks) by (done || apply Hc; by left). rewrite bind_Ok.
  assert (missing self nodes ((d, o) :: ps) = (if has self nodes (node_at d o) then []
    else [read_node (node_at d o)]) ++ missing self nodes ps) as ->.
  { unfold missing. rewrite fmap_cons, filter_cons. by destruct (has self nodes (node_at d o)). }
  destruct (has self nodes (node_at d o)).
  - destruct (IH (i + 1) (roots ++ [merkle_at blocks d o]) ins) as (roots' & -> & Hr'); try done; [lia| | |].
    + rewrite zlen_app. change (zlen [_]) with 1. lia.
    + intros d' o' Hin. apply Hc. by right.
    + exists roots'. split; [done|]. intros Hm Hz. rewrite Hr'; [by rewrite <-app_assoc|done|].
      rewrite zlen_app. change (zlen [_]) with 1. lia.
  - destruct (IH (i + 1) roots (ins ++ [read_node (node_at d o)])) as (roots' & -> & _); try done; [lia..| |].
    + intros d' o' Hin. apply Hc. by right.
    + exists roots'. by rewrite <-app_assoc.
Qed.

Lemma zlen_peaks blocks ps : zlen (merkle_peaks blocks ps) = zlen ps.
Proof. unfold zlen, merkle_peaks. by rewrite length_fmap. Qed.

Lemma peaks_lookup blocks pre d o qs :
  merkle_peaks blocks (pre ++ (d, o) :: qs) !! Z.to_nat (zlen pre) = Some (merkle_at blocks d o).
Proof.
  unfold merkle_peaks, zlen. rewrite Nat2Z.id, list_lookup_fmap, lookup_app_r, Nat.sub_diag by done. done.
Qed.

(** The roots that are the same stay. *)
Lemma truncate_same blocks self nodes ps : forall pre qs,
  view_ok blocks self nodes -> no_blank blocks -> zlen blocks < 2 ^ 57 ->
  (forall d o, (d, o) ∈ ps -> complete (zlen blocks) d o) ->
  (forall d o, (d, o) ∈ qs -> complete (zlen blocks) d o) ->
  exists roots',
    Tree.truncate_roots self nodes (zlen pre) (node_keys ps) (merkle_peaks blocks (pre ++ qs)) [] =
      Ok (roots', missing self nodes (new_peaks ps qs)) /\
    (missing self nodes (new_peaks ps qs) = [] ->
       ztake (zlen pre + zlen ps) roots' = merkle_peaks blocks (pre ++ ps)).
Proof.
  assert (forall a b, merkle_peaks blocks (a ++ b) = merkle_peaks blocks a ++ merkle_peaks blocks b) as Happ
    by (intros; unfold merkle_peaks; apply fmap_app).
  assert (forall (a b : list Node), ztake (zlen a) (a ++ b) = a) as Htake
    by (intros; unfold ztake, zlen; rewrite Nat2Z.id; apply take_app_length).
  assert (forall pre p ps, view_ok blocks self nodes -> no_blank blocks -> zlen blocks < 2 ^ 57 ->
    (forall d o, (d, o) ∈ p :: ps -> complete (zlen blocks) d o) ->
    exists roots', Tree.truncate_roots self nodes (zlen pre) (node_keys (p :: ps))
        (merkle_peaks blocks pre) [] = Ok (roots', missing self nodes (p :: ps)) /\
      (missing self nodes (p :: ps) = [] ->
        ztake (zlen pre + zlen (p :: ps)) roots' = merkle_peaks blocks (pre ++ p :: ps))) as Htail.
  { intros pre p ps0 Hv Hnb Hlen Hc. pose proof (zlen_peaks blocks pre) as Hz.
    destruct (truncate_tail blocks self nodes (p :: ps0) (zlen pre) (merkle_peaks blocks pre) [])
      as (roots' & -> & Hr); [done..|apply zlen_nonneg|by rewrite Hz|done|].
    exists roots'. split; [done|]. intros Hm. rewrite (Hr Hm Hz), <-Happ, <-zlen_app.
    rewrite <-(zlen_peaks blocks). unfold ztake, zlen. rewrite Nat2Z.id. by apply take_ge. }
  induction ps as [|p ps IH]; intros pre qs Hv Hnb Hlen Hps Hqs.
  { eexists. split; [cbn; by destruct qs|]. intros _. rewrite zlen_nil, Z.add_0_r, Happ, app_nil_r.
    rewrite <-(zlen_peaks blocks). apply Htake. }
  destruct qs as [|q qs].
  { rewrite app_nil_r. cbn [new_peaks]. by apply Htail. }
  destruct p as [d o], q as [d' o']. cbn [new_peaks]. case_decide as Heq.
  - injection Heq as <- <-. destruct (IH (pre ++ [(d, o)]) qs) as (roots' & Hrun & Hr); try done.
    { intros ? ? Hin. apply Hps. by right. } { intros ? ? Hin. apply Hqs. by right. }
    exists roots'. rewrite zlen_app, <-!app_assoc in Hrun, Hr. rewrite zlen_cons.
    change (zlen [(d, o)]) with 1 in *. cbn [app] in Hrun, Hr.
    split; [|by rewrite Z.add_assoc]. rewrite <-Hrun.
    unfold node_keys at 1. rewrite fmap_cons. cbn [Tree.truncate_roots]. fold (node_keys ps).
    rewrite peaks_lookup, merkle_at_index by apply (Hps d o ltac:(by left)). by rewrite Z.eqb_refl.
  - destruct (Htail pre (d, o) ps Hv Hnb Hlen Hps) as (roots' & Hrun & Hr). exists roots'.
    split; [|done]. rewrite <-Hrun. unfold node_keys. rewrite fmap_cons. cbn [Tree.truncate_roots].
    fold (node_keys ps). rewrite peaks_lookup.
    pose proof (Hps d o ltac:(by left)) as (? & ? & _). pose proof (Hqs d' o' ltac:(by left)) as (? & ? & _).
    rewrite merkle_at_index, (proj2 (Z.eqb_neq _ _)) by (done || (intros [-> ->]%node_at_inj; done)).
    rewrite (lookup_ge_None_2 (merkle_peaks blocks pre)) by (rewrite <-(zlen_peaks blocks); unfold zlen; lia).
    pose proof (Htake (merkle_peaks blocks pre) []) as Hself. rewrite app_nil_r in Hself.
    rewrite Happ, <-(zlen_peaks blocks pre), Htake. by rewrite Hself.
Qed.

Lemma sum_lengths_ok blocks ps : forall s,
  log_fits blocks -> tiles s ps (zlen blocks) -> 0 <= s ->
  Tree.sum_lengths (byte_sum blocks s) (merkle_peaks blocks ps) = Ok (zlen (concat blocks)).
Proof.
  induction ps as [|[d o] ps IH]; intros s Hfit Ht Hs.
  { cbn in Ht. subst s. cbn. by rewrite byte_sum_all. }
  destruct Ht as (Hd & Ho & -> & Ht). pose proof (tiles_le _ _ _ Ht). pose proof Hfit as [_ Hb].
  cbn [merkle_peaks fmap list_fmap Tree.sum_lengths]. fold (merkle_peaks blocks ps).
  change (list_fmap _ _ _ ps) with (merkle_peaks blocks ps).
  assert (node_length (merkle blocks (Z.to_nat d) o) =
    byte_sum blocks (2 ^ d * (o + 1)) - byte_sum blocks (2 ^ d * o)) as ->.
  { rewrite merkle_length by done. by rewrite Z2Nat.id. }
  pose proof (Z.pow_pos_nonneg 2 d). pose proof (byte_sum_nonneg blocks (2 ^ d * (o + 1))).
  assert (byte_sum blocks (2 ^ d * (o + 1)) <= zlen (concat blocks)) by (apply byte_sum_le; nia).
  rewrite checked_add_Ok, bind_Ok by lia.
  replace (byte_sum blocks (2 ^ d * o) + _) with (byte_sum blocks (2 ^ d * (o + 1))) by lia.
  apply IH; [done..|nia].
Qed.

(** The changeset for the longer log. *)
Definition extension self blocks (fork : Z) : MerkleTreeChangeset :=
  mkChangeset _ (zlen blocks) (zlen blocks) (zlen (concat blocks)) 0 fork (merkle_roots blocks) [] None None
    true (mt_length self) (mt_fork self).

(** [self] has the roots of [blocks]; its nodes and its store are those of
    [self'], which stands for the longer log. *)
Lemma truncate_asked blocks more self self' f ks fork :
  view_ok (blocks ++ more) self' ∅ -> mt_unflushed self = mt_unflushed self' ->
  mt_truncated self = false -> mt_roots self = merkle_roots blocks ->
  no_blank (blocks ++ more) -> log_fits (blocks ++ more) -> readable (blocks ++ more) f ks ->
  Tree.truncate self (zlen (blocks ++ more)) fork (Some (node_read f <$> ks)) =
    Ok (asked (unknown self ks (node_keys (new_peaks (peaks (zlen (blocks ++ more))) (peaks (zlen blocks)))))
          (extension self (blocks ++ more) fork)).
Proof.
  intros Hinv Hu Ht Hr Hnb Hfit Hks. set (bs := blocks ++ more) in *. set (n := zlen bs).
  destruct (infos_view bs self' f ks Hinv Hfit Hks) as (nodes & Hnodes & [_ Hv] & Hm).
  assert (view_ok bs self nodes) as Hview by (split; [done|by rewrite Hu]).
  assert (forall ps, missing self nodes ps = read_node <$> unknown self ks (node_keys ps)) as Hmiss.
  { intros ps. specialize (Hm ps). unfold missing, has, unknown in *. by rewrite Hu. }
  pose proof Hfit as [Hn Hb]. pose proof (zlen_nonneg bs). fold n in Hn.
  assert (zlen blocks <= n) as Hle. { unfold n, bs. rewrite zlen_app. pose proof (zlen_nonneg more). lia. }
  pose proof (tiles_peaks n ltac:(lia)) as Htp.
  unfold Tree.truncate. rewrite checked_mul_Ok, bind_Ok, Hnodes, bind_Ok by lia.
  rewrite Z.mul_comm, ft_full_roots_law by lia. change (roots_of n) with (node_keys (peaks n)).
  assert (cs_roots (Tree.changeset self) = merkle_peaks bs ([] ++ peaks (zlen blocks))) as ->.
  { change (mt_roots self = merkle_peaks bs (peaks (zlen blocks))). rewrite Hr. unfold merkle_roots, bs. by rewrite merkle_peaks_app by lia. }
  destruct (truncate_same bs self nodes (peaks n) [] (peaks (zlen blocks))) as (roots' & Hrun & Hroots).
  { done. } { done. } { lia. } { intros d o Hin. by eapply tiles_complete. }
  { intros d o Hin. apply complete_mono with (zlen blocks); [done|].
    eapply tiles_complete; [apply tiles_peaks, zlen_nonneg|done]. }
  change (zlen (@nil (Z * Z))) with 0 in *. rewrite Hmiss in Hrun, Hroots. rewrite Hrun, bind_Ok.
  assert (zlen (node_keys (peaks n)) = 0 + zlen (peaks n)) as ->
    by (unfold node_keys, zlen; by rewrite length_fmap).
  unfold asked. destruct (unknown _ _ _) as [|k l]; [|done]. cbn [fmap list_fmap].
  rewrite (Hroots eq_refl). cbn [app]. change 0 with (byte_sum bs 0) at 1.
  rewrite (sum_lengths_ok bs (peaks n) 0 Hfit Htp) by lia. done.
Qed.

Lemma truncate_none self n fork : Tree.truncate self n fork None = Tree.truncate self n fork (Some []).
Proof. done. Qed.

Lemma add_nodes_eq ns : forall self,
  foldl Tree.add_node self ns =
    mkTree _ (mt_roots self) (mt_length self) (mt_byte_length self) (mt_fork self) (mt_signature self)
      (Tree.insert_nodes (mt_unflushed self) ns) (mt_truncated self) (mt_truncate_to self).
Proof. induction ns as [|n ns IH]; intros self; [by destruct self|]. cbn [foldl]. by rewrite IH. Qed.

(** An upgrade that forgets nothing. *)
Lemma commit_forward self cs :
  cs_upgraded cs = true -> cs_ancestors cs = cs_original_tree_length cs ->
  Tree.commit self cs =
    if (cs_original_tree_fork cs =? mt_fork self) && (cs_original_tree_length cs =? mt_length self) then
      Ok (mkTree _ (cs_roots cs) (cs_length cs) (cs_byte_length cs) (cs_fork cs) (cs_signature cs)
            (Tree.insert_nodes (mt_unflushed self) (cs_nodes cs)) (mt_truncated self) (mt_truncate_to self))
    else Err InvalidOperation.
Proof.
  intros Hu Ha. unfold Tree.commit, Tree.commitable. rewrite Hu.
  destruct (_ && _); cbn [negb]; [|done]. unfold Tree.commit_truncation. by rewrite Ha, Z.ltb_irrefl.
Qed.

(** Committing what [truncate] made of the entry is committing the changeset
    the entry was made of. *)
Lemma commit_extension blocks self cs self' hash :
  Tree.commit self cs = Ok self' -> cs_for blocks cs -> cs_upgraded cs = true ->
  cs_ancestors cs = mt_length self -> cs_original_tree_length cs = mt_length self ->
  Tree.commit (foldl Tree.add_node self (cs_nodes cs))
    (Changeset.set_hash_signature
       (mkChangeset _ (zlen blocks) (mt_length self) (zlen (concat blocks)) 0 (cs_fork cs)
          (merkle_roots blocks) [] None None true (mt_length self) (mt_fork self))
       hash (cs_signature cs)) = Ok self'.
Proof.
  intros Hcommit (Hcr & Hcl & Hcb) Hup Ha Hol. rewrite commit_forward in Hcommit by congruence.
  destruct (_ && _); [|discriminate Hcommit]. rewrite Hcr, Hcl, Hcb in Hcommit. injection Hcommit as <-.
  rewrite commit_forward by done. rewrite add_nodes_eq. cbn. by rewrite !Z.eqb_refl.
Qed.
End Truncate.
