(* ===== verification/NodeCache.v ===== *)
(** * The node cache

    The feature [cache]: [common/cache.rs], the builder of its options in
    [builder.rs], and the two places of [tree/merkle_tree.rs] that use it.  The
    cache is moka's, a parameter: it keeps entries for as long as it likes.
    The other files model the tree without the feature; here is what the cache
    changes.  [cached_node_ok]: for a log that only grows, it saves reads
    and nothing else. *)

From stdpp Require Import base list gmap.
From Stdlib Require Import ZArith Lia Bool.
From S2P Require Import Prelude FlatTree Common CompactEncoding Crypto OplogEntry Changeset.
From S2P Require Import Storage MerkleTree MerkleView.
Open Scope Z_scope.

(** ** The cache *)

(** [cache_get] may drop entries, as may [cache_insert]; [cache_entries] are
    the entries that were inserted last and not dropped. *)
Class MokaCache := {
  cache : Type;
  (** time to live, time to idle, capacity and the weight of an entry *)
  cache_build : option Z -> option Z -> Z -> Z -> cache;
  cache_get : Z -> cache -> cache * option Node;
  cache_insert : Z -> Node -> cache -> cache;
  cache_entries : cache -> gmap Z Node;
}.

Class MokaCacheLaws (MC : MokaCache) : Prop := {
  cache_build_law ttl tti cap w : cache_entries (cache_build ttl tti cap w) = ∅;
  cache_get_law k c : cache_entries (cache_get k c).1 ⊆ cache_entries c /\
    forall x, (cache_get k c).2 = Some x -> cache_entries c !! k = Some x;
  cache_insert_law k x c : cache_entries (cache_insert k x c) ⊆ <[k := x]> (cache_entries c);
}.

(** ** Options *)

Definition DEFAULT_CACHE_TTL_SEC : Z := 31556952.
Definition DEFAULT_CACHE_TTI_SEC : Z := 31556952.
Definition DEFAULT_CACHE_MAX_SIZE : Z := 100000.
Definition NODE_WEIGHT : Z := 3 * 8 + 32 + 4 + 8 + 8.

Record CacheOptions := mkCacheOptions {
  time_to_live : option Z;
  time_to_idle : option Z;
  max_capacity : option Z;
}.

Module CacheOptionsBuilder.
Definition new : CacheOptions := mkCacheOptions None None None.
Definition with_time_to_live (t : Z) (self : CacheOptions) : CacheOptions :=
  mkCacheOptions (Some t) (time_to_idle self) (max_capacity self).
Definition with_time_to_idle (t : Z) (self : CacheOptions) : CacheOptions :=
  mkCacheOptions (time_to_live self) (Some t) (max_capacity self).
Definition with_max_capacity (c : Z) (self : CacheOptions) : CacheOptions :=
  mkCacheOptions (time_to_live self) (time_to_idle self) (Some c).
End CacheOptionsBuilder.

Section Cache.
Context `{MC : MokaCache}.

Definition is_set {A} (o : option A) : bool := match o with Some _ => true | None => false end.

Definition to_node_cache (self : CacheOptions) (initial_nodes : list Node) : cache :=
  let c :=
    if is_set (time_to_live self) || is_set (time_to_idle self) then
      cache_build (Some (default DEFAULT_CACHE_TTL_SEC (time_to_live self)))
        (Some (default DEFAULT_CACHE_TTI_SEC (time_to_idle self)))
        (default DEFAULT_CACHE_MAX_SIZE (max_capacity self)) NODE_WEIGHT
    else cache_build None None (default DEFAULT_CACHE_MAX_SIZE (max_capacity self)) NODE_WEIGHT in
  foldl (fun c node => cache_insert (node_index node) node c) c initial_nodes.
End Cache.

(** ** The tree with a cache *)

Module CachedTree.
Section Ops.
Context `{FT : FlatTree} `{CE : CompactEncoding} `{ED : Ed25519} `{MC : MokaCache}.
Implicit Types (self : MerkleTree) (node_cache : option cache).

(** [MerkleTree::open] with the options of the cache. *)
Definition open_cache (node_cache_options : option CacheOptions) self : option cache :=
  (fun opts => to_node_cache opts (mt_roots self)) <$> node_cache_options.

Definition get node_cache (index : Z) : option cache * option Node :=
  match node_cache with
  | Some c => let '(c, x) := cache_get index c in (Some c, x)
  | None => (None, None)
  end.

Definition insert node_cache (node : Node) : option cache :=
  cache_insert (node_index node) node <$> node_cache.

(** [node]: first the cache, then as without one. *)
Definition node self node_cache (index : Z) (nodes : nodes_map) (allow_miss : bool)
  : option cache * result (Either StoreInfoInstruction (option Node)) :=
  let '(node_cache, x) := get node_cache index in
  match x with
  | Some node => (node_cache, Ok (Right (Some node)))
  | None => (node_cache, Tree.node self index nodes allow_miss)
  end.

(** [for info in infos] of [infos_to_nodes]. *)
Fixpoint insert_infos node_cache (nodes : nodes_map) (infos : list StoreInfo)
  : result (option cache * nodes_map) :=
  match infos with
  | [] => Ok (node_cache, nodes)
  | info :: infos =>
      let index := index_from_info info in
      if negb (si_miss info) then
        data ← unwrap (si_data info);
        node ← node_from_bytes index data;
        insert_infos (if negb (node_blank node) then insert node_cache node else node_cache)
          (<[index := Some node]> nodes) infos
      else insert_infos node_cache (<[index := None]> nodes) infos
  end.

Definition infos_to_nodes node_cache (infos : option (list StoreInfo)) : result (option cache * nodes_map) :=
  match infos with
  | Some infos => insert_infos node_cache ∅ infos
  | None => Ok (node_cache, ∅)
  end.
End Ops.
End CachedTree.

(** ** The cache saves reads *)

Section Facts.
Context `{FT : FlatTree} {FL : FlatTreeLaws FT} `{CE : CompactEncoding} {CL : CompactEncodingLaws CE}
  `{B2 : Blake2b} {BL : Blake2bLaws B2} `{ED : Ed25519} {EL : Ed25519Laws ED}
  `{MC : MokaCache} {MCL : MokaCacheLaws MC}.
Implicit Types (self : MerkleTree) (node_cache : option cache) (blocks : list (list Z)).

(** What is cached is of the log. *)
Definition coherent blocks node_cache : Prop :=
  forall c k x, node_cache = Some c -> cache_entries c !! k = Some x -> log_node blocks (k, x).

Lemma coherent_get blocks node_cache k :
  coherent blocks node_cache -> coherent blocks (CachedTree.get node_cache k).1 /\
  forall x, (CachedTree.get node_cache k).2 = Some x -> log_node blocks (k, x).
Proof.
  intros Hc. destruct node_cache as [c|]; [|done]. cbn. destruct (cache_get_law k c) as [Hsub Hget].
  destruct (cache_get k c) as [c' y]. cbn [fst snd] in *. split; [|eauto].
  intros ? k' x' [= <-] Hx. eapply Hc; [done|]. by eapply lookup_weaken.
Qed.

Lemma coherent_insert blocks node_cache x :
  coherent blocks node_cache -> log_node blocks (node_index x, x) -> coherent blocks (CachedTree.insert node_cache x).
Proof.
  intros Hc Hx. destruct node_cache as [c|]; [|done]. intros c' k y [= <-] Hy.
  eapply lookup_weaken in Hy; [|apply cache_insert_law].
  apply lookup_insert_Some in Hy as [[<- <-]|[_ Hy]]; [done|by eapply Hc].
Qed.

Lemma log_node_index blocks d o : complete (zlen blocks) d o -> log_node blocks (node_index (merkle_at blocks d o), merkle_at blocks d o).
Proof. intros Hc. exists d, o. split_and!; [done| |done]. cbn. by apply merkle_at_index; apply Hc. Qed.

(** A cache that starts with the roots. *)
Lemma open_cache_coherent blocks opts self :
  tree_for blocks self -> coherent blocks (CachedTree.open_cache opts self).
Proof.
  intros (Hr & _). destruct opts as [opts|]; [|done]. intros c k x [= <-]. unfold to_node_cache. rewrite Hr.
  match goal with |- context [foldl _ ?c _] => set (c0 := c) end. assert (cache_entries c0 = ∅) as H0.
  { unfold c0. destruct (_ || _); apply cache_build_law. }
  assert (forall ns c, (forall k x, cache_entries c !! k = Some x -> log_node blocks (k, x)) ->
    (forall n, n ∈ ns -> log_node blocks (node_index n, n)) ->
    forall k x, cache_entries (foldl (fun c node => cache_insert (node_index node) node c) c ns) !! k = Some x ->
      log_node blocks (k, x)) as Hfold.
  { clear -MCL. induction ns as [|n ns IH]; intros c Hc Hns k x; [by apply Hc|]. cbn [foldl]. apply IH.
    - intros k' x' Hx. eapply lookup_weaken in Hx; [|apply cache_insert_law].
      apply lookup_insert_Some in Hx as [[<- <-]|[_ Hx]]; [apply Hns; by left|by apply Hc].
    - intros n' Hn'. apply Hns. by right. }
  apply Hfold; [by rewrite H0|]. intros n Hn. apply list_elem_of_fmap in Hn as ([d o] & -> & Hin).
  apply log_node_index. eapply (tiles_complete 0 (peaks (zlen blocks))); [|done].
  apply tiles_peaks, zlen_nonneg.
Qed.

(** Reading nodes gives what it gives without the cache, and keeps it coherent. *)
Lemma cached_infos_ok blocks f (ks : list Z) : forall node_cache m,
  log_fits blocks -> readable blocks f ks -> coherent blocks node_cache ->
  exists node_cache' m', CachedTree.insert_infos node_cache m (node_read f <$> ks) = Ok (node_cache', m') /\
    insert_infos m (node_read f <$> ks) = Ok m' /\ coherent blocks node_cache'.
Proof.
  induction ks as [|k ks IH]; intros node_cache m Hfit Hks Hc; [by exists node_cache, m|].
  destruct (Hks k ltac:(by left)) as (d & o & Hcm & -> & Hat).
  cbn [fmap list_fmap insert_infos CachedTree.insert_infos node_read StoreInfo.new_content si_miss si_data negb unwrap].
  rewrite !bind_Ok. assert (index_from_info (node_read f (node_at d o)) = node_at d o) as ->.
  { unfold index_from_info. cbn [node_read StoreInfo.new_content si_index]. unfold NODE_SIZE.
    rewrite Z.mul_comm. by apply Z.div_mul. }
  pose proof (zlen_node_record blocks d o) as Hz. destruct Hat as [_ Hat]. rewrite Hz in Hat.
  rewrite Hat, node_from_record, !bind_Ok by done. apply IH; [done|intros k' Hk'; apply Hks; by right|].
  destruct (node_blank _); cbn [negb]; [done|]. apply coherent_insert; [done|by apply log_node_index].
Qed.

(** A node of the log: the answer is the one without the cache, or the node at
    once where the node would have to be read. *)
Lemma cached_node_ok blocks self node_cache nodes d o :
  coherent blocks node_cache -> view_ok blocks self nodes -> no_blank blocks -> zlen blocks < 2 ^ 57 ->
  complete (zlen blocks) d o ->
  exists node_cache' r, CachedTree.node self node_cache (node_at d o) nodes false = (node_cache', Ok r) /\
    coherent blocks node_cache' /\
    (r = Right (Some (merkle_at blocks d o)) \/ Tree.node self (node_at d o) nodes false = Ok r).
Proof.
  intros Hc Hv Hnb Hn Hcm. destruct (coherent_get blocks node_cache (node_at d o) Hc) as [Hc' Hget].
  unfold CachedTree.node. destruct (CachedTree.get node_cache (node_at d o)) as [c' x]. cbn [fst snd] in *.
  destruct x as [x|].
  - exists c', (Right (Some x)). split_and!; [done..|]. left.
    destruct (Hget x eq_refl) as (d' & o' & Hcm' & Hk & Hx). cbn in Hk, Hx. subst x.
    by destruct (complete_inj _ _ _ _ _ Hcm Hcm' Hk) as [<- <-].
  - pose proof (required_node_ok blocks self nodes d o Hv Hnb Hn Hcm) as Hreq. unfold Tree.required_node in Hreq.
    destruct (Tree.node self (node_at d o) nodes false) as [r| | |]; try discriminate Hreq.
    exists c', r. split_and!; [done..|by right].
Qed.
End Facts.
