(* ===== verification/MerkleProof.v ===== *)
(** * Proofs ([src/tree/merkle_tree.rs]): creating and verifying

    A peer asks for a block, a hash, a seek or an upgrade; the tree answers
    with the nodes that connect the answer to a signed root.  The receiver
    recomputes the hashes from the answer ([verify_tree], [verify_upgrade]) and
    compares with what it trusts. *)

From stdpp Require Import base tactics numbers list gmap fin_maps.
From Stdlib Require Import ZArith Lia Bool.
From S2P Require Import Prelude FlatTree Common CompactEncoding Crypto OplogEntry Changeset.
From S2P Require Import Storage MerkleTree.
Open Scope Z_scope.

(** ** Requests and data in one shape *)

Record NormalizedIndexed := mkNormalizedIndexed {
  ni_value : bool;
  ni_index : Z;
  ni_nodes : Z;
  ni_last_index : Z;
}.

Record NormalizedData := mkNormalizedData {
  nd_value : option (list Z);
  nd_index : Z;
  nd_nodes : list Node;
}.

Record LocalProof := mkLocalProof {
  lp_seek : option (list Node);
  lp_nodes : option (list Node);
  lp_upgrade : option (list Node);
  lp_additional_upgrade : option (list Node);
}.

(** ** The queue of received nodes *)

Record NodeQueue := mkNodeQueue {
  q_i : Z;
  q_nodes : list Node;
  q_extra : option Node;
  q_length : Z;
}.

Module NodeQueue.
Definition new (nodes : list Node) (extra : option Node) : NodeQueue :=
  mkNodeQueue 0 nodes extra (zlen nodes + match extra with Some _ => 1 | None => 0 end).

Definition shift (self : NodeQueue) (index : Z) : result (NodeQueue * Node) :=
  let from_nodes : result (NodeQueue * Node) :=
    match q_nodes self !! Z.to_nat (q_i self) with
    | None => Err InvalidOperation
    | Some node =>
        if negb (node_index node =? index) then Err InvalidOperation
        else
          length ← q_length self -? 1;
          Ok (mkNodeQueue (q_i self + 1) (q_nodes self) (q_extra self) length, node)
    end in
  match q_extra self with
  | Some extra =>
      if node_index extra =? index then
        length ← q_length self -? 1;
        Ok (mkNodeQueue (q_i self) (q_nodes self) None length, extra)
      else from_nodes
  | None => from_nodes
  end.
End NodeQueue.

Module Proofs.
Section Ops.
Context `{FT : FlatTree} `{CE : CompactEncoding} `{B2 : Blake2b} `{ED : Ed25519}.
Implicit Types (self : MerkleTree) (nodes : nodes_map).

Definition normalize_indexed (block hash : option RequestBlock) : result (option NormalizedIndexed) :=
  match block with
  | Some block =>
      index ← rb_index block *64 2;
      Ok (Some (mkNormalizedIndexed true index (rb_nodes block) (rb_index block)))
  | None =>
      Ok ((fun hash => mkNormalizedIndexed false (rb_index hash) (rb_nodes hash)
                         (ft_right_span (rb_index hash) / 2)) <$> hash)
  end.

Definition normalize_data (block : option DataBlock) (hash : option DataHash)
  : result (option NormalizedData) :=
  match block with
  | Some block =>
      index ← db_index block *64 2;
      Ok (Some (mkNormalizedData (Some (db_value block)) index (db_nodes block)))
  | None => Ok ((fun hash => mkNormalizedData None (dh_index hash) (dh_nodes hash)) <$> hash)
  end.

(** [for _ in 0..nodes] of [nodes_to_root] *)
Fixpoint to_root_loop (nodes : nat) (iter : ft_iterator) (head : Z) : result Z :=
  match nodes with
  | O => Ok (iter_index iter)
  | S nodes =>
      let iter := iter_parent iter in
      if iter_contains iter head then Err InvalidOperation else to_root_loop nodes iter head
  end.

Definition nodes_to_root (index nodes head : Z) : result Z :=
  to_root_loop (Z.to_nat nodes) (iter_new index) head.

Definition parent_node (index : Z) (left right : Node) : result Node :=
  hash ← Hash_parent left right;
  length ← node_length left +64 node_length right;
  Ok (Node_new index hash length).

Definition block_node (index : Z) (value : list Z) : result Node :=
  hash ← Hash_data value;
  Ok (Node_new index hash (zlen value)).

(** ** Seeking *)

Fixpoint seek_trusted_loop (fuel : nat) self nodes (iter : ft_iterator) (bytes : Z)
  : result (either_instructions Z) :=
  if Z.land (iter_index iter) 1 =? 0 then Ok (Right (iter_index iter))
  else
    match fuel with
    | O => Diverge
    | S fuel =>
        let iter := iter_left_child iter in
        node_or_instruction ← Tree.optional_node self (iter_index iter) nodes;
        match node_or_instruction with
        | Left instruction => Ok (Left [instruction])
        | Right (Some node) =>
            if node_length node =? bytes then Ok (Right (iter_index iter))
            else if bytes <? node_length node then seek_trusted_loop fuel self nodes iter bytes
            else
              bytes ← bytes -? node_length node;
              seek_trusted_loop fuel self nodes (iter_sibling iter) bytes
        | Right None => Ok (Right (iter_index (iter_parent iter)))
        end
    end.

Definition seek_trusted_tree self (root bytes : Z) nodes : result (either_instructions Z) :=
  if bytes =? 0 then Ok (Right root)
  else seek_trusted_loop tree_fuel self nodes (iter_new root) bytes.

Fixpoint seek_roots self nodes (roots : list Z) (head bytes : Z)
    (instructions : list StoreInfoInstruction) : result (either_instructions Z) :=
  match roots with
  | [] => Ok (match instructions with [] => Right head | _ => Left instructions end)
  | root :: roots =>
      node_or_instruction ← Tree.required_node self root nodes;
      match node_or_instruction with
      | Left instruction => seek_roots self nodes roots head bytes (instructions ++ [instruction])
      | Right node =>
          if bytes =? node_length node then Ok (Right root)
          else if node_length node <? bytes then
            bytes ← bytes -? node_length node;
            seek_roots self nodes roots head bytes instructions
          else
            r ← seek_trusted_tree self root bytes nodes;
            match r with
            | Left new_instructions => Ok (Left (instructions ++ new_instructions))
            | Right index => Ok (Right index)
            end
      end
  end.

Definition seek_from_head self (head bytes : Z) nodes : result (either_instructions Z) :=
  seek_roots self nodes (ft_full_roots head) head bytes [].

Definition seek_untrusted_tree self (root bytes : Z) nodes : result (either_instructions Z) :=
  let finish (instructions : list StoreInfoInstruction) (bytes : Z) : result (either_instructions Z) :=
    r ← seek_trusted_tree self root bytes nodes;
    match r with
    | Left new_instructions => Ok (Left (instructions ++ new_instructions))
    | Right index => Ok (Right index)
    end in
  offset_or_instructions ← Tree.byte_offset_from_nodes self root nodes;
  match offset_or_instructions with
  | Left new_instructions => finish new_instructions bytes
  | Right offset =>
      if bytes <? offset then Err InvalidOperation
      else if offset =? bytes then Ok (Right root)
      else
        bytes ← bytes -? offset;
        node_or_instruction ← Tree.required_node self root nodes;
        match node_or_instruction with
        | Left instruction => finish [instruction] bytes
        | Right node => if node_length node <=? bytes then Err InvalidOperation else finish [] bytes
        end
  end.

(** ** Creating *)

(** Push the node or the instruction to read it. *)
Definition push_node self (index : Z) nodes (acc : list StoreInfoInstruction * list Node)
  : result (list StoreInfoInstruction * list Node) :=
  node_or_instruction ← Tree.required_node self index nodes;
  match node_or_instruction with
  | Left instruction => Ok (acc.1 ++ [instruction], acc.2)
  | Right node => Ok (acc.1, acc.2 ++ [node])
  end.

Definition either_unit (instructions : list StoreInfoInstruction) : either_instructions unit :=
  match instructions with [] => Right tt | _ => Left instructions end.

Fixpoint seek_proof_loop (fuel : nat) self nodes (root : Z) (iter : ft_iterator)
    (acc : list StoreInfoInstruction * list Node) : result (list StoreInfoInstruction * list Node) :=
  if iter_index iter =? root then Ok acc
  else
    match fuel with
    | O => Diverge
    | S fuel =>
        let iter := iter_sibling iter in
        acc ← push_node self (iter_index iter) nodes acc;
        seek_proof_loop fuel self nodes root (iter_parent iter) acc
    end.

Definition seek_proof self (seek_root root : Z) (p : LocalProof) nodes
  : result (LocalProof * either_instructions unit) :=
  let iter := iter_new seek_root in
  acc ← push_node self (iter_index iter) nodes ([], []);
  '(instructions, seek_nodes) ← seek_proof_loop tree_fuel self nodes root iter acc;
  Ok (mkLocalProof (Some seek_nodes) (lp_nodes p) (lp_upgrade p) (lp_additional_upgrade p),
      either_unit instructions).

Fixpoint block_proof_loop (fuel : nat) self nodes (is_seek : bool) (seek_root root : Z)
    (iter : ft_iterator) (p : LocalProof) (acc : list StoreInfoInstruction * list Node)
  : result (LocalProof * (list StoreInfoInstruction * list Node)) :=
  if iter_index iter =? root then Ok (p, acc)
  else
    match fuel with
    | O => Diverge
    | S fuel =>
        let iter := iter_sibling iter in
        '(p, acc) ←
          (if is_seek && iter_contains iter seek_root && negb (iter_index iter =? seek_root) then
             '(p, r) ← seek_proof self seek_root (iter_index iter) p nodes;
             Ok (p, match r with
                    | Left new_instructions => (acc.1 ++ new_instructions, acc.2)
                    | Right _ => acc
                    end)
           else
             acc ← push_node self (iter_index iter) nodes acc;
             Ok (p, acc));
        block_proof_loop fuel self nodes is_seek seek_root root (iter_parent iter) p acc
    end.

Definition block_and_seek_proof self (indexed : option NormalizedIndexed) (is_seek : bool)
    (seek_root root : Z) (p : LocalProof) nodes : result (LocalProof * either_instructions unit) :=
  match indexed with
  | Some indexed =>
      let iter := iter_new (ni_index indexed) in
      acc ← (if negb (ni_value indexed) then push_node self (iter_index iter) nodes ([], [])
             else Ok ([], []));
      '(p, (instructions, p_nodes)) ←
        block_proof_loop tree_fuel self nodes is_seek seek_root root iter p acc;
      Ok (mkLocalProof (lp_seek p) (Some p_nodes) (lp_upgrade p) (lp_additional_upgrade p),
          either_unit instructions)
  | None => seek_proof self seek_root root p nodes
  end.

(** The state of the loops of [upgrade_proof] and [additional_upgrade_proof]. *)
Record UpgradeState := mkUpgradeState {
  us_has_upgrade : bool;
  us_p : LocalProof;
  us_acc : list StoreInfoInstruction * list Node;
}.

(** The node at the cursor, or the proof of the requested part below it. *)
Definition upgrade_step self nodes (indexed : option NormalizedIndexed) (is_seek : bool)
    (sub_tree : Z) (iter : ft_iterator) (p : LocalProof)
    (acc : list StoreInfoInstruction * list Node)
  : result (LocalProof * (list StoreInfoInstruction * list Node)) :=
  match lp_nodes p, lp_seek p, iter_contains iter sub_tree with
  | None, None, true =>
      '(p, r) ← block_and_seek_proof self indexed is_seek sub_tree (iter_index iter) p nodes;
      Ok (p, match r with
             | Left new_instructions => (acc.1 ++ new_instructions, acc.2)
             | Right _ => acc
             end)
  | _, _, _ => acc ← push_node self (iter_index iter) nodes acc; Ok (p, acc)
  end.

(** [while iter.index() != root]: connect the tree the peer has. *)
Fixpoint connect_loop (fuel : nat) self nodes (indexed : option NormalizedIndexed) (is_seek : bool)
    (sub_tree target root : Z) (iter : ft_iterator) (p : LocalProof)
    (acc : list StoreInfoInstruction * list Node)
  : result (ft_iterator * LocalProof * (list StoreInfoInstruction * list Node)) :=
  if iter_index iter =? root then Ok (iter, p, acc)
  else
    match fuel with
    | O => Diverge
    | S fuel =>
        let iter := iter_sibling iter in
        '(p, acc) ← (if target <? iter_index iter
                     then upgrade_step self nodes indexed is_seek sub_tree iter p acc
                     else Ok (p, acc));
        connect_loop fuel self nodes indexed is_seek sub_tree target root (iter_parent iter) p acc
    end.

(** [while has_full_root] of [upgrade_proof] *)
Fixpoint upgrade_loop (fuel : nat) self nodes (indexed : option NormalizedIndexed) (is_seek : bool)
    (from to sub_tree : Z) (it : ft_iterator * bool) (s : UpgradeState) : result UpgradeState :=
  let '(iter, has_full_root) := it in
  if negb has_full_root then Ok s
  else
    match fuel with
    | O => Diverge
    | S fuel =>
        let next (iter : ft_iterator) := iter_full_root (iter_next_tree iter) to in
        if iter_index iter + iter_factor iter / 2 <? from then
          upgrade_loop fuel self nodes indexed is_seek from to sub_tree (next iter) s
        else if negb (us_has_upgrade s) && iter_contains iter (from - 2) then
          let root := iter_index iter in
          let target := from - 2 in
          '(iter, p, acc) ← connect_loop tree_fuel self nodes indexed is_seek sub_tree target root
                              (iter_seek iter target) (us_p s) (us_acc s);
          upgrade_loop fuel self nodes indexed is_seek from to sub_tree (next iter)
            (mkUpgradeState true p acc)
        else
          '(p, acc) ← upgrade_step self nodes indexed is_seek sub_tree iter (us_p s) (us_acc s);
          upgrade_loop fuel self nodes indexed is_seek from to sub_tree (next iter)
            (mkUpgradeState true p acc)
    end.

Definition upgrade_proof self (indexed : option NormalizedIndexed) (is_seek : bool)
    (from to sub_tree : Z) (p : LocalProof) nodes : result (LocalProof * either_instructions unit) :=
  s ← upgrade_loop tree_fuel self nodes indexed is_seek from to sub_tree
        (iter_full_root (iter_new 0) to) (mkUpgradeState (from =? 0) p ([], []));
  let p := us_p s in
  let '(instructions, upgrade) := us_acc s in
  let p := if us_has_upgrade s
           then mkLocalProof (lp_seek p) (lp_nodes p) (Some upgrade) (lp_additional_upgrade p)
           else p in
  Ok (p, either_unit instructions).

Fixpoint additional_connect_loop (fuel : nat) self nodes (target root : Z) (iter : ft_iterator)
    (acc : list StoreInfoInstruction * list Node)
  : result (ft_iterator * (list StoreInfoInstruction * list Node)) :=
  if iter_index iter =? root then Ok (iter, acc)
  else
    match fuel with
    | O => Diverge
    | S fuel =>
        let iter := iter_sibling iter in
        acc ← (if target <? iter_index iter then push_node self (iter_index iter) nodes acc
               else Ok acc);
        additional_connect_loop fuel self nodes target root (iter_parent iter) acc
    end.

Fixpoint additional_loop (fuel : nat) self nodes (from to : Z) (it : ft_iterator * bool)
    (has_additional_upgrade : bool) (acc : list StoreInfoInstruction * list Node)
  : result (bool * (list StoreInfoInstruction * list Node)) :=
  let '(iter, has_full_root) := it in
  if negb has_full_root then Ok (has_additional_upgrade, acc)
  else
    match fuel with
    | O => Diverge
    | S fuel =>
        let next (iter : ft_iterator) := iter_full_root (iter_next_tree iter) to in
        if iter_index iter + iter_factor iter / 2 <? from then
          additional_loop fuel self nodes from to (next iter) has_additional_upgrade acc
        else if negb has_additional_upgrade && iter_contains iter (from - 2) then
          let root := iter_index iter in
          let target := from - 2 in
          '(iter, acc) ← additional_connect_loop tree_fuel self nodes target root
                           (iter_seek iter target) acc;
          additional_loop fuel self nodes from to (next iter) true acc
        else
          acc ← push_node self (iter_index iter) nodes acc;
          additional_loop fuel self nodes from to (next iter) true acc
    end.

Definition additional_upgrade_proof self (from to : Z) (p : LocalProof) nodes
  : result (LocalProof * either_instructions unit) :=
  '(has_additional_upgrade, (instructions, additional_upgrade)) ←
    additional_loop tree_fuel self nodes from to (iter_full_root (iter_new 0) to) (from =? 0) ([], []);
  let p := if has_additional_upgrade : bool
           then mkLocalProof (lp_seek p) (lp_nodes p) (lp_upgrade p) (Some additional_upgrade)
           else p in
  Ok (p, either_unit instructions).

(** The first half of [create_valueless_proof]: the part for a block or hash
    request and the seek.  [Left] is an early return of instructions; otherwise
    the proof so far, the instructions so far and the subtree to include. *)
Definition proof_sub_tree self nodes (indexed : option NormalizedIndexed)
    (seek : option RequestSeek) (upgrade : option RequestUpgrade) (from to head : Z)
  : result (either_instructions (LocalProof * list StoreInfoInstruction * Z)) :=
  let p := mkLocalProof None None None None in
  let is_seek := match seek with Some _ => true | None => false end in
  let is_upgrade := match upgrade with Some _ => true | None => false end in
  '(untrusted_sub_tree, r) ←
    match indexed with
    | None => Ok (false, Right (p, [], head))
    | Some indexed =>
        if is_seek && is_upgrade && (from <=? ni_index indexed) then Err InvalidOperation
        else
          let untrusted_sub_tree :=
            match upgrade with
            | Some upgrade => ni_last_index indexed <? ru_start upgrade
            | None => true
            end in
          if untrusted_sub_tree then
            sub_tree ← nodes_to_root (ni_index indexed) (ni_nodes indexed) to;
            seek_root ← match seek with
                        | Some seek => seek_untrusted_tree self sub_tree (rs_bytes seek) nodes
                        | None => Ok (Right head)
                        end;
            match seek_root with
            | Left new_instructions => Ok (true, Left new_instructions)
            | Right seek_root =>
                '(p, r) ← block_and_seek_proof self (Some indexed) is_seek seek_root sub_tree p nodes;
                let instructions := match r with Left new_instructions => new_instructions
                                    | Right _ => [] end in
                Ok (true, Right (p, instructions, sub_tree))
            end
          else Ok (false, Right (p, [], if is_upgrade then ni_index indexed else head))
    end;
  match r with
  | Left instructions => Ok (Left instructions)
  | Right (p, instructions, sub_tree) =>
      match (if untrusted_sub_tree : bool then None else seek) with
      | Some seek =>
          r ← seek_from_head self to (rs_bytes seek) nodes;
          Ok (match r with
              | Left new_instructions => Left (instructions ++ new_instructions)
              | Right index => Right (p, instructions, index)
              end)
      | None => Ok (Right (p, instructions, sub_tree))
      end
  end.

(** The second half: what is sent, once no node is missing. *)
Definition assemble_proof self (block hash : option RequestBlock) (seek : option RequestSeek)
    (upgrade : option RequestUpgrade) (p : LocalProof) : result ValuelessProof :=
  '(data_block, data_hash) ←
    match block, hash with
    | Some block, _ =>
        nodes ← unwrap (lp_nodes p);
        Ok (Some (mkDataHash (rb_index block) nodes), None)
    | None, Some hash =>
        nodes ← unwrap (lp_nodes p);
        Ok (None, Some (mkDataHash (rb_index hash) nodes))
    | None, None => Ok (None, None)
    end;
  let data_seek := seek ← seek; (fun p_seek => mkDataSeek (rs_bytes seek) p_seek) <$> lp_seek p in
  data_upgrade ←
    match upgrade with
    | Some upgrade =>
        nodes ← unwrap (lp_upgrade p);
        signature ← unwrap (mt_signature self);
        Ok (Some (mkDataUpgrade (ru_start upgrade) (ru_length upgrade) nodes
                    (default [] (lp_additional_upgrade p)) (sig_to_bytes signature)))
    | None => Ok None
    end;
  Ok (mkValuelessProof (mt_fork self) data_block data_hash data_seek data_upgrade).

Definition create_valueless_proof self (block hash : option RequestBlock)
    (seek : option RequestSeek) (upgrade : option RequestUpgrade) (infos : option (list StoreInfo))
  : result (either_instructions ValuelessProof) :=
  nodes ← infos_to_nodes infos;
  head ← 2 *64 mt_length self;
  '(from, to) ←
    match upgrade with
    | Some upgrade =>
        from ← ru_start upgrade *64 2;
        len ← ru_length upgrade *64 2;
        to ← from +64 len;
        Ok (from, to)
    | None => Ok (0, head)
    end;
  indexed ← normalize_indexed block hash;
  if (to <=? from) || (head <? to) then Err InvalidOperation
  else
    r ← proof_sub_tree self nodes indexed seek upgrade from to head;
    match r with
    | Left instructions => Ok (Left instructions)
    | Right (p, instructions, sub_tree) =>
        let is_seek := match seek with Some _ => true | None => false end in
        let extend (instructions : list StoreInfoInstruction) (r : either_instructions unit) :=
          match r with Left new_instructions => instructions ++ new_instructions
          | Right _ => instructions end in
        '(p, instructions) ←
          match upgrade with
          | Some _ =>
              '(p, r) ← upgrade_proof self indexed is_seek from to sub_tree p nodes;
              let instructions := extend instructions r in
              if to <? head then
                '(p, r) ← additional_upgrade_proof self to head p nodes;
                Ok (p, extend instructions r)
              else Ok (p, instructions)
          | None => Ok (p, instructions)
          end;
        match instructions with
        | [] => vp ← assemble_proof self block hash seek upgrade p; Ok (Right vp)
        | _ => Ok (Left instructions)
        end
    end.

(** ** Verifying *)

Definition push_nodes (cs : MerkleTreeChangeset) (ns : list Node) : MerkleTreeChangeset :=
  Changeset.set_roots_nodes cs (cs_roots cs) (cs_nodes cs ++ ns).

(** [while q.length > 0]: hash up to the root. *)
Fixpoint verify_loop (fuel : nat) (q : NodeQueue) (iter : ft_iterator) (current_root : Node)
    (cs : MerkleTreeChangeset) : result (Node * MerkleTreeChangeset) :=
  if q_length q <=? 0 then Ok (current_root, cs)
  else
    match fuel with
    | O => Diverge
    | S fuel =>
        let iter := iter_sibling iter in
        '(q, node) ← NodeQueue.shift q (iter_index iter);
        let iter := iter_parent iter in
        parent ← parent_node (iter_index iter) current_root node;
        verify_loop fuel q iter parent (push_nodes cs [node; parent])
    end.

Definition verify_tree (block : option DataBlock) (hash : option DataHash)
    (seek : option DataSeek) (cs : MerkleTreeChangeset)
  : result (option Node * MerkleTreeChangeset) :=
  untrusted_node ← normalize_data block hash;
  let seek_nodes := match seek with Some seek => ds_nodes seek | None => [] end in
  '(root, cs) ←
    match seek_nodes with
    | [] => Ok (None, cs)
    | first :: _ =>
        let iter := iter_new (node_index first) in
        let q := NodeQueue.new seek_nodes None in
        '(q, node) ← NodeQueue.shift q (iter_index iter);
        '(current_root, cs) ←
          verify_loop (S (length seek_nodes)) q iter node (push_nodes cs [node]);
        Ok (Some current_root, cs)
    end;
  match untrusted_node with
  | Some untrusted_node =>
      let iter := iter_new (nd_index untrusted_node) in
      let q := NodeQueue.new (nd_nodes untrusted_node) root in
      '(q, node) ← match nd_value untrusted_node with
                   | Some value => node ← block_node (iter_index iter) value; Ok (q, node)
                   | None => NodeQueue.shift q (iter_index iter)
                   end;
      '(current_root, cs) ←
        verify_loop (S (S (length (nd_nodes untrusted_node)))) q iter node (push_nodes cs [node]);
      Ok (Some current_root, cs)
  | None => Ok (root, cs)
  end.

(** [while iter.index() != root_index]: grow the last root. *)
Fixpoint grow_loop (fuel : nat) (root_index : Z) (q : NodeQueue) (iter : ft_iterator)
    (cs : MerkleTreeChangeset) : result (NodeQueue * ft_iterator * MerkleTreeChangeset) :=
  if iter_index iter =? root_index then Ok (q, iter, cs)
  else
    match fuel with
    | O => Diverge
    | S fuel =>
        let iter := iter_sibling iter in
        '(q, node) ← NodeQueue.shift q (iter_index iter);
        '(cs, iter) ← Changeset.append_root cs node iter;
        grow_loop fuel root_index q iter cs
    end.

(** [while iter.full_root(to)] *)
Fixpoint verify_roots_loop (fuel : nat) (to : Z) (i : Z) (grow : bool) (q : NodeQueue)
    (iter : ft_iterator) (cs : MerkleTreeChangeset)
  : result (NodeQueue * ft_iterator * MerkleTreeChangeset) :=
  let '(iter, full) := iter_full_root iter to in
  if negb full then Ok (q, iter, cs)
  else
    match fuel with
    | O => Diverge
    | S fuel =>
        let same := match cs_roots cs !! Z.to_nat i with
                    | Some r => node_index r =? iter_index iter
                    | None => false
                    end in
        if same then verify_roots_loop fuel to (i + 1) grow q (iter_next_tree iter) cs
        else
          let root_index := iter_index iter in
          match (if grow && (i <? zlen (cs_roots cs)) then last (cs_roots cs) else None) with
          | Some last_root =>
              '(q, iter, cs) ← grow_loop tree_fuel root_index q (iter_seek iter (node_index last_root)) cs;
              verify_roots_loop fuel to i false q (iter_next_tree iter) cs
          | None =>
              '(q, node) ← NodeQueue.shift q (iter_index iter);
              '(cs, iter) ← Changeset.append_root cs node iter;
              verify_roots_loop fuel to i false q (iter_next_tree iter) cs
          end
    end.

(** [while i < extra.len() && extra[i].index == iter.sibling()] *)
Fixpoint extra_siblings (extra : list Node) (iter : ft_iterator) (cs : MerkleTreeChangeset)
  : result (list Node * ft_iterator * MerkleTreeChangeset) :=
  match extra with
  | [] => Ok ([], iter, cs)
  | node :: rest =>
      let iter := iter_sibling iter in
      if node_index node =? iter_index iter then
        '(cs, iter) ← Changeset.append_root cs node iter;
        extra_siblings rest iter cs
      else Ok (extra, iter, cs)
  end.

(** [while node.index != iter.index()] *)
Fixpoint descend (fuel : nat) (index : Z) (iter : ft_iterator) : result ft_iterator :=
  if index =? iter_index iter then Ok iter
  else
    match fuel with
    | O => Diverge
    | S fuel =>
        if iter_factor iter =? 2 then Err InvalidOperation
        else descend fuel index (iter_left_child iter)
    end.

Fixpoint extra_roots (extra : list Node) (iter : ft_iterator) (cs : MerkleTreeChangeset)
  : result MerkleTreeChangeset :=
  match extra with
  | [] => Ok cs
  | node :: rest =>
      iter ← descend tree_fuel (node_index node) iter;
      '(cs, iter) ← Changeset.append_root cs node iter;
      extra_roots rest (iter_sibling iter) cs
  end.

Definition set_fork (cs : MerkleTreeChangeset) (fork : Z) : MerkleTreeChangeset :=
  mkChangeset _ (cs_length cs) (cs_ancestors cs) (cs_byte_length cs) (cs_batch_length cs) fork
    (cs_roots cs) (cs_nodes cs) (cs_hash cs) (cs_signature cs) (cs_upgraded cs)
    (cs_original_tree_length cs) (cs_original_tree_fork cs).

Definition verify_upgrade (fork : Z) (upgrade : DataUpgrade) (block_root : option Node)
    (public_key : VerifyingKey) (cs : MerkleTreeChangeset) : result (bool * MerkleTreeChangeset) :=
  let q := NodeQueue.new (du_nodes upgrade) block_root in
  let grow := negb (is_empty (cs_roots cs)) in
  end_ ← du_start upgrade +64 du_length upgrade;
  to ← 2 *64 end_;
  '(q, iter, cs) ← verify_roots_loop tree_fuel to 0 grow q (iter_new 0) cs;
  last_root ← unwrap (last (cs_roots cs));
  let iter := iter_seek iter (node_index last_root) in
  '(extra, iter, cs) ← extra_siblings (du_additional_nodes upgrade) iter cs;
  cs ← extra_roots extra iter cs;
  cs ← Changeset.verify_and_set_signature (set_fork cs fork) (du_signature upgrade) public_key;
  Ok (match q_extra q with None => true | Some _ => false end, cs).

Definition verify_proof self (proof : Proof_) (public_key : VerifyingKey)
    (infos : option (list StoreInfo)) : result (either_instructions MerkleTreeChangeset) :=
  nodes ← infos_to_nodes infos;
  let cs := Tree.changeset self in
  '(unverified_block_root_node, cs) ←
    verify_tree (proof_block proof) (proof_hash proof) (proof_seek proof) cs;
  '(unverified_block_root_node, cs) ←
    match proof_upgrade proof with
    | Some upgrade =>
        '(ok, cs) ← verify_upgrade (proof_fork proof) upgrade unverified_block_root_node public_key cs;
        Ok (if ok : bool then None else unverified_block_root_node, cs)
    | None => Ok (unverified_block_root_node, cs)
    end;
  match unverified_block_root_node with
  | Some unverified =>
      node_or_instruction ← Tree.required_node self (node_index unverified) nodes;
      match node_or_instruction with
      | Left instruction => Ok (Left [instruction])
      | Right verified =>
          if decide (node_hash verified = node_hash unverified) then Ok (Right cs)
          else Err InvalidChecksum
      end
  | None => Ok (Right cs)
  end.

End Ops.
End Proofs.
