(* ===== verification/MerkleSound.v ===== *)
(** * Soundness of proof verification

    A proof that is accepted either tells the truth, or one of the inputs that
    were hashed to verify it ([verifier_hashed]) has the hash of another input of
    the log's tree ([collision]); an upgrade that is accepted was signed. *)

From stdpp Require Import base tactics numbers list gmap fin_maps.
From Stdlib Require Import ZArith Lia Bool.
From S2P Require Import Prelude FlatTree Common CompactEncoding Crypto OplogEntry Changeset.
From S2P Require Import Storage MerkleTree MerkleView MerkleProof.
Open Scope Z_scope.

Section Sound.
Context `{FT : FlatTree} {FL : FlatTreeLaws FT} `{CE : CompactEncoding} {CL : CompactEncodingLaws CE}
  `{B2 : Blake2b} {BL : Blake2bLaws B2} `{ED : Ed25519} {EL : Ed25519Laws ED} `{IO : IntMapOrder}.
Implicit Types (blocks : list (list Z)) (self : MerkleTree) (nodes : nodes_map).

(** What is hashed to make the tree of [blocks], as it grows: the blocks, pairs
    of children, and lists of roots. *)
Definition log_hashed blocks (m : list Z) : Prop :=
  exists log, log `prefix_of` blocks /\
    ((exists i, 0 <= i < zlen log /\ m = leaf_preimage (default [] (log !! Z.to_nat i))) \/
     (exists d h, complete (zlen log) (d + 1) h /\ 0 <= d /\
        m = parent_preimage (merkle_at log d (2 * h)) (merkle_at log d (2 * h + 1))) \/
     m = tree_preimage (merkle_roots log)).

(** The pairs of nodes of [ns], as they are hashed. *)
Definition parent_inputs (ns : list Node) : list (list Z) := ns ≫= fun x => parent_preimage x <$> ns.

(** What a verifier with the tree [self] hashes before it accepts the proof [p]
    with the changeset [cs]: the block of the proof, pairs of its roots and of
    the nodes of the changeset, and the roots it ends with. *)
Definition verifier_hashed self (p : Proof_) (cs : MerkleTreeChangeset) : list (list Z) :=
  match proof_block p with Some b => [leaf_preimage (db_value b)] | None => [] end ++
  parent_inputs (mt_roots self ++ cs_nodes cs) ++ [tree_preimage (cs_roots cs)].

(** One of the [inputs] has the hash of one of the log's and is not that one. *)
Definition collision (inputs : list (list Z)) blocks : Prop :=
  exists m m', m ∈ inputs /\ log_hashed blocks m' /\ m <> m' /\ blake2b256 m = blake2b256 m'.

Lemma hash_or_collision inputs blocks (m m' : list Z) :
  m ∈ inputs -> log_hashed blocks m' -> blake2b256 m = blake2b256 m' -> m = m' \/ collision inputs blocks.
Proof. intros Hin Hm H. destruct (decide (m = m')); [by left|right]. by exists m, m'. Qed.

Lemma collision_prefix inputs old full : old `prefix_of` full -> collision inputs old -> collision inputs full.
Proof.
  intros Hpre (m & m' & Hin & (log & Hlog & Hm) & H). exists m, m'. split_and!; [done| |apply H..]. exists log. split; [by etrans|done].
Qed.

(** The inputs cover the pairs of [ns]. *)
Definition covers (inputs : list (list Z)) (ns : list Node) : Prop :=
  forall x y, x ∈ ns -> y ∈ ns -> parent_preimage x y ∈ inputs.

Lemma parent_inputs_cover ns : covers (parent_inputs ns) ns.
Proof. intros x y Hx Hy. apply list_elem_of_bind. exists x. split; [|done]. apply list_elem_of_fmap. by exists y. Qed.

Lemma covers_app inputs more ns : covers inputs ns -> covers (more ++ inputs) ns.
Proof. intros H x y Hx Hy. apply elem_of_app. right. by apply H. Qed.

Lemma verifier_hashed_pairs self p cs : covers (verifier_hashed self p cs) (mt_roots self ++ cs_nodes cs).
Proof.
  intros x y Hx Hy. unfold verifier_hashed. apply elem_of_app; right. apply elem_of_app; left. by apply parent_inputs_cover.
Qed.

Lemma verifier_hashed_roots self p cs : tree_preimage (cs_roots cs) ∈ verifier_hashed self p cs.
Proof. unfold verifier_hashed. do 2 (apply elem_of_app; right). by left. Qed.

Lemma verifier_hashed_block self p b cs : proof_block p = Some b -> leaf_preimage (db_value b) ∈ verifier_hashed self p cs.
Proof. intros Hb. unfold verifier_hashed. rewrite Hb. by left. Qed.

Lemma leaf_hashed blocks i : 0 <= i < zlen blocks -> log_hashed blocks (leaf_preimage (default [] (blocks !! Z.to_nat i))).
Proof. intros Hi. exists blocks. split; [done|left]. by exists i. Qed.

Lemma roots_hashed blocks : log_hashed blocks (tree_preimage (merkle_roots blocks)).
Proof. exists blocks. split; [done|]. by right; right. Qed.

Lemma parent_preimage_inj a b c d :
  zlen (node_hash a) = zlen (node_hash c) -> parent_preimage a b = parent_preimage c d ->
  node_hash a = node_hash c /\ node_hash b = node_hash d.
Proof.
  intros Hl H. unfold parent_preimage in H. apply app_inj_1 in H as [_ H]; [|done].
  apply app_inj_1 in H as [_ H]; [|done]. apply app_inj_1 in H; [done|]. unfold zlen in Hl. lia.
Qed.

Lemma leaf_preimage_inj a b : leaf_preimage a = leaf_preimage b -> a = b.
Proof.
  intros H. unfold leaf_preimage in H. apply app_inj_1 in H as [_ H]; [|done].
  by apply app_inj_1 in H as [_ H].
Qed.

(** What the hash of a root covers. *)
Definition root_fields (n : Node) : list Z * Z * Z := (node_hash n, node_index n, node_length n).

Definition hashable (n : Node) : Prop :=
  zlen (node_hash n) = 32 /\ is_u64 (node_index n) /\ is_u64 (node_length n).

(** Parts of one size each, and an encoding of numbers that is injective. *)
Lemma parts_inj (enc : Z -> list Z) (ns : list Node) : forall ns' : list Node,
  (forall a, length (enc a) = 8%nat) -> (forall a b, is_u64 a -> is_u64 b -> enc a = enc b -> a = b) ->
  Forall hashable ns -> Forall hashable ns' ->
  concat ((fun n => node_hash n ++ enc (node_index n) ++ enc (node_length n)) <$> ns) =
    concat ((fun n => node_hash n ++ enc (node_index n) ++ enc (node_length n)) <$> ns') ->
  root_fields <$> ns = root_fields <$> ns'.
Proof.
  intros ns' Hlen Hinj Hns. revert ns'.
  assert (forall n, hashable n -> length (node_hash n) = 32%nat) as H32.
  { intros n [Hn _]. unfold zlen in Hn. lia. }
  induction Hns as [|n ns Hn _ IH]; intros ns' Hns'; destruct Hns' as [|n' ns' Hn' Hns']; cbn [fmap list_fmap concat].
  - done.
  - intros H. apply (f_equal length) in H. rewrite !length_app, (H32 n' Hn') in H. cbn in H. lia.
  - intros H. apply (f_equal length) in H. rewrite !length_app, (H32 n Hn) in H. cbn in H. lia.
  - intros H. apply app_inj_1 in H as [Hp Hrest]; [|by rewrite !length_app, !Hlen, !H32].
    apply app_inj_1 in Hp as [Hh Hp]; [|by rewrite !H32].
    apply app_inj_1 in Hp as [Hi Hl]; [|by rewrite !Hlen].
    destruct Hn as (_ & Hni & Hnl), Hn' as (_ & Hni' & Hnl'). apply Hinj in Hi, Hl; [|done..].
    f_equal; [|by apply IH]. unfold root_fields. congruence.
Qed.

Lemma tree_preimage_inj (ns ns' : list Node) :
  Forall hashable ns -> Forall hashable ns' -> tree_preimage ns = tree_preimage ns' ->
  root_fields <$> ns = root_fields <$> ns'.
Proof.
  intros Hn Hn' H. unfold tree_preimage in H. apply app_inj_1 in H as [_ H]; [|done].
  by apply (parts_inj (le_bytes 8)) in H; [|done|intros a b ? ? ?; by apply (le_bytes_inj 8)|..].
Qed.

(** A node as the verifier computes or receives it. *)
Definition plain_node (n : Node) : Prop := zlen (node_hash n) = 32 /\ 0 <= node_length n.

(** A node that is computed from two. *)
Lemma parent_node_plain i cur sib parent :
  plain_node cur -> plain_node sib -> Proofs.parent_node i cur sib = Ok parent ->
  plain_node parent /\ node_length parent < 2 ^ 64 /\ node_index parent = i.
Proof.
  intros [Hch Hcl] [Hsh Hsl] Hp. unfold Proofs.parent_node in Hp.
  apply bind_inv_Ok in Hp as (h & Hh & Hp). apply bind_inv_Ok in Hp as (len & Hlen & Hp). injection Hp as <-.
  unfold checked_add in Hlen. destruct (_ <? _) eqn:Hlt; [|discriminate Hlen]. injection Hlen as <-. apply Z.ltb_lt in Hlt.
  rewrite Hash_parent_Ok in Hh by done. injection Hh as <-.
  split_and!; [split; [apply blake2b256_bytes|cbn; lia]|done..].
Qed.

(** Everything the receiver knows about nodes is part of the log's tree; it
    need not know all of it. *)
Definition trusted blocks self nodes : Prop :=
  forall k x, mt_unflushed self !! k = Some x \/ nodes !! k = Some (Some x) ->
    log_node blocks (k, x).

Lemma required_node_trusted blocks self nodes k x :
  trusted blocks self nodes -> Tree.required_node self k nodes = Ok (Right x) -> log_node blocks (k, x).
Proof.
  intros Ht. unfold Tree.required_node, Tree.node.
  destruct (mt_unflushed self !! k) as [y|] eqn:Hu.
  - destruct (node_blank y || _); cbn; [done|]. intros [= <-]. apply Ht. by left.
  - destruct (nodes !! k) as [[y|]|] eqn:Hn; cbn.
    + destruct (node_blank y); cbn; [done|]. intros [= <-]. apply Ht. by right.
    + done.
    + destruct (40 *64 k); cbn; done.
Qed.

(** The roots, length and fork an upgrade ends with carry a valid signature. *)
Definition signed_by (pk : VerifyingKey) (cs : MerkleTreeChangeset) : Prop :=
  exists sig h s, cs_signature cs = Some sig /\ cs_hash cs = Some h /\ Changeset.hash cs = Ok h /\
    Changeset.signable cs h = Ok s /\ ed_verify pk s sig = true.

Lemma verify_and_set_signature_sound cs bytes pk cs' :
  Changeset.verify_and_set_signature cs bytes pk = Ok cs' ->
  signed_by pk cs' /\ cs_roots cs' = cs_roots cs /\ cs_length cs' = cs_length cs /\
  cs_fork cs' = cs_fork cs.
Proof.
  unfold Changeset.verify_and_set_signature. intros H.
  apply bind_inv_Ok in H as (sig & Hsig & H). apply bind_inv_Ok in H as (h & Hh & H).
  apply bind_inv_Ok in H as (s & Hs & H). apply bind_inv_Ok in H as (u & Hv & H).
  injection H as <-. split_and!; try done. exists sig, h, s. split_and!; try done.
  unfold verify in Hv. by destruct (ed_verify pk s sig).
Qed.

Lemma verify_upgrade_sound fork upgrade root pk cs ok cs' :
  Proofs.verify_upgrade fork upgrade root pk cs = Ok (ok, cs') ->
  signed_by pk cs' /\ cs_fork cs' = fork.
Proof.
  unfold Proofs.verify_upgrade. intros H.
  apply bind_inv_Ok in H as (e & _ & H). apply bind_inv_Ok in H as (to & _ & H).
  apply bind_inv_Ok in H as ([[q it] cs1] & _ & H). apply bind_inv_Ok in H as (lr & _ & H).
  apply bind_inv_Ok in H as ([[ex it2] cs2] & _ & H). apply bind_inv_Ok in H as (cs3 & _ & H).
  apply bind_inv_Ok in H as (cs4 & Hv & H). injection H as _ <-.
  apply verify_and_set_signature_sound in Hv as (Hs & _ & _ & Hf). done.
Qed.

Lemma verify_proof_upgrade_signed self proof pk infos cs upgrade :
  proof_upgrade proof = Some upgrade -> Proofs.verify_proof self proof pk infos = Ok (Right cs) ->
  signed_by pk cs /\ cs_fork cs = proof_fork proof.
Proof.
  intros Hu H. unfold Proofs.verify_proof in H. rewrite Hu in H.
  apply bind_inv_Ok in H as (nodes & _ & H). apply bind_inv_Ok in H as ([root cs1] & _ & H).
  apply bind_inv_Ok in H as ([root2 cs2] & Hv & H). apply bind_inv_Ok in Hv as ([ok cs3] & Hv & Heq).
  injection Heq as _ <-. apply verify_upgrade_sound in Hv.
  destruct root2 as [r|]; [|by injection H as <-].
  apply bind_inv_Ok in H as (ni & _ & H). destruct ni; [discriminate H|].
  case_decide; [by injection H as <-|discriminate H].
Qed.

(** *** A proof without an upgrade *)

Lemma verify_loop_keeps fuel : forall q iter root cs r cs',
  Proofs.verify_loop fuel q iter root cs = Ok (r, cs') ->
  cs_upgraded cs' = cs_upgraded cs /\ cs_length cs' = cs_length cs.
Proof.
  induction fuel as [|fuel IH]; intros q iter root cs r cs'; cbn [Proofs.verify_loop];
    (destruct (q_length q <=? 0); [by intros [= _ <-]|]); [done|].
  intros H. apply bind_inv_Ok in H as ([q1 n] & _ & H). apply bind_inv_Ok in H as (p & _ & H).
  by apply IH in H.
Qed.

Lemma verify_tree_keeps block hash seek cs root cs' :
  Proofs.verify_tree block hash seek cs = Ok (root, cs') ->
  cs_upgraded cs' = cs_upgraded cs /\ cs_length cs' = cs_length cs.
Proof.
  unfold Proofs.verify_tree. intros H. apply bind_inv_Ok in H as (un & _ & H).
  apply bind_inv_Ok in H as ([root1 cs1] & Hseek & H).
  assert (cs_upgraded cs1 = cs_upgraded cs /\ cs_length cs1 = cs_length cs) as [<- <-].
  { destruct (match seek with Some s => ds_nodes s | None => [] end); [by injection Hseek as _ <-|].
    apply bind_inv_Ok in Hseek as ([q ?] & _ & Hseek). apply bind_inv_Ok in Hseek as ([r c] & Hl & Hseek).
    injection Hseek as _ <-. by apply verify_loop_keeps in Hl. }
  destruct un as [un|]; [|by injection H as _ <-].
  apply bind_inv_Ok in H as ([q n] & _ & H). apply bind_inv_Ok in H as ([r c] & Hl & H).
  injection H as _ <-. by apply verify_loop_keeps in Hl.
Qed.

Lemma verify_proof_not_upgraded self proof pk infos cs :
  proof_upgrade proof = None -> Proofs.verify_proof self proof pk infos = Ok (Right cs) ->
  cs_upgraded cs = false.
Proof.
  intros Hu H. unfold Proofs.verify_proof in H. rewrite Hu in H.
  apply bind_inv_Ok in H as (nodes & _ & H). apply bind_inv_Ok in H as ([root cs1] & Hv & H).
  apply verify_tree_keeps in Hv as [Hv _]. rewrite bind_Ok in H.
  destruct root as [r|]; [|by injection H as <-].
  apply bind_inv_Ok in H as (ni & _ & H). destruct ni; [discriminate H|].
  case_decide; [by injection H as <-|discriminate H].
Qed.
End Sound.
