(* ===== verification/MerkleComplete.v ===== *)
(** * Completeness of block and hash proofs

    The nodes a proof for a block or a hash consists of are the siblings on the
    path to a node the receiver has.  A tree that has them all creates such a
    proof for every node it can be asked for, and the receiver, who hashes its
    way up, ends at the node it has. *)

From stdpp Require Import base tactics numbers list gmap fin_maps.
From Stdlib Require Import ZArith Lia Bool.
From S2P Require Import Prelude FlatTree Common CompactEncoding Crypto OplogEntry Changeset.
From S2P Require Import Storage MerkleTree MerkleView MerkleProof.
Open Scope Z_scope.

(** ** Paths *)

(** The siblings on the way from [(d, o)] up by [m] levels. *)
Fixpoint siblings (m : nat) (d o : Z) : list (Z * Z) :=
  match m with
  | O => []
  | S m => (d, sibling_offset o) :: siblings m (d + 1) (o / 2)
  end.

Lemma sibling_half o : sibling_offset o / 2 = o / 2.
Proof.
  unfold sibling_offset. rewrite <-Z.negb_odd. pose proof (Z.div2_odd o) as Hdiv.
  rewrite Z.div2_div in Hdiv. destruct (Z.odd o); cbn [negb Z.b2z] in *; Z.div_mod_to_equations; lia.
Qed.

(** A node and its sibling are the children of the parent. *)
Lemma sibling_cases o :
  (o = 2 * (o / 2) /\ sibling_offset o = 2 * (o / 2) + 1) \/
  (o = 2 * (o / 2) + 1 /\ sibling_offset o = 2 * (o / 2)).
Proof.
  unfold sibling_offset. rewrite <-Z.negb_odd. pose proof (Z.div2_odd o) as Hdiv.
  rewrite Z.div2_div in Hdiv. destruct (Z.odd o); cbn [negb Z.b2z] in *; lia.
Qed.

Lemma complete_below n d o :
  0 <= d -> complete n (d + 1) (o / 2) -> complete n d o /\ complete n d (sibling_offset o).
Proof.
  intros Hd Hc. destruct (complete_children n d (o / 2) Hc Hd).
  destruct (sibling_cases o) as [[E ->]|[E ->]]; rewrite E at 1; done.
Qed.

Lemma half_up o (m : nat) : o / 2 ^ Z.of_nat (S m) = o / 2 / 2 ^ Z.of_nat m.
Proof. rewrite Nat2Z.inj_succ, Z.pow_succ_r, Z.div_div by lia. done. Qed.

Lemma complete_climb n (m : nat) : forall d o,
  0 <= d -> complete n (d + Z.of_nat m) (o / 2 ^ Z.of_nat m) -> complete n d o.
Proof.
  induction m as [|m IH]; intros d o Hd Hc.
  - by rewrite Z.add_0_r, Z.pow_0_r, Z.div_1_r in Hc.
  - rewrite half_up in Hc. apply complete_below; [done|]. apply IH; [lia|].
    by replace (d + 1 + Z.of_nat m) with (d + Z.of_nat (S m)) by lia.
Qed.

(** Unfolds one level of a path to a complete node. *)
Lemma complete_up n (m : nat) d o :
  0 <= d -> complete n (d + Z.of_nat (S m)) (o / 2 ^ Z.of_nat (S m)) ->
  complete n (d + 1) (o / 2) /\ complete n (d + 1 + Z.of_nat m) (o / 2 / 2 ^ Z.of_nat m).
Proof.
  rewrite half_up. replace (d + Z.of_nat (S m)) with (d + 1 + Z.of_nat m) by lia.
  intros Hd Hc. split; [|done]. apply (complete_climb n m); [lia|done].
Qed.

Lemma siblings_complete n (m : nat) : forall d o p q,
  0 <= d -> complete n (d + Z.of_nat m) (o / 2 ^ Z.of_nat m) -> (p, q) ∈ siblings m d o -> complete n p q.
Proof.
  induction m as [|m IH]; intros d o p q Hd Hc; cbn [siblings]; [by intros ?%elem_of_nil|].
  apply complete_up in Hc as [Hp Hc]; [|done].
  intros [[= -> ->]|Hin]%elem_of_cons; [by apply complete_below|]. eapply (IH (d + 1)); [lia|done..].
Qed.

Lemma length_siblings m : forall d o, length (siblings m d o) = m.
Proof. induction m as [|m IH]; intros; cbn; [done|by rewrite IH]. Qed.

Section Complete.
Context `{FT : FlatTree} {FL : FlatTreeLaws FT} `{CE : CompactEncoding} {CL : CompactEncodingLaws CE}
  `{B2 : Blake2b} {BL : Blake2bLaws B2} `{ED : Ed25519} `{IO : IntMapOrder}.
Implicit Types (blocks : list (list Z)) (self : MerkleTree) (nodes : nodes_map).

(** The cursor goes to the sibling, and on to the parent. *)
Lemma iter_up n d o it :
  0 <= d -> complete n (d + 1) (o / 2) -> n < 2 ^ 57 -> iter_at d o it ->
  iter_at d (sibling_offset o) (iter_sibling it) /\
  iter_at (d + 1) (o / 2) (iter_parent (iter_sibling it)) /\
  iter_at (d + 1) (o / 2) (iter_parent it).
Proof.
  intros Hd Hc Hn Hit. pose proof (complete_in_tree _ _ _ Hc Hn) as Hin.
  pose proof (iter_sibling_law it d o Hin Hd Hit) as Hs. split_and!; [done| |by apply iter_parent_law].
  rewrite <-sibling_half. apply iter_parent_law; [by rewrite sibling_half|done..].
Qed.

Lemma contains_complete n d o it i :
  complete n d o -> n < 2 ^ 57 -> iter_at d o it -> 2 * n <= i -> iter_contains it i = false.
Proof.
  intros Hc Hn Hit Hi. pose proof (complete_in_tree _ _ _ Hc Hn) as Hin.
  pose proof (complete_node_at _ _ _ Hc). destruct Hc as (Hd & Ho & Hle).
  rewrite (iter_contains_law it d o) by (done || lia). unfold span_right. rewrite pow2_succ by done.
  rewrite (proj2 (Z.leb_gt i _)) by lia. apply andb_false_r.
Qed.

(** ** Creating *)

Lemma to_root_loop_ok n (m : nat) : forall d o it,
  0 <= d -> complete n (d + Z.of_nat m) (o / 2 ^ Z.of_nat m) -> n < 2 ^ 57 -> iter_at d o it ->
  Proofs.to_root_loop m it (2 * n) = Ok (node_at (d + Z.of_nat m) (o / 2 ^ Z.of_nat m)).
Proof.
  induction m as [|m IH]; intros d o it Hd Hc Hn Hit; cbn [Proofs.to_root_loop].
  - destruct Hit as [-> _]. by rewrite Z.add_0_r, Z.pow_0_r, Z.div_1_r.
  - pose proof Hc as [Hp Hc']%complete_up; [|done].
    destruct (iter_up n d o it Hd Hp Hn Hit) as (_ & _ & Hpar).
    rewrite (contains_complete n _ _ _ (2 * n) Hp Hn Hpar) by lia.
    rewrite (IH (d + 1) (o / 2)) by (done || lia). rewrite half_up. do 2 f_equal. lia.
Qed.

(** Of the nodes to send, the ones that are known. *)
Definition known blocks self nodes (ps : list (Z * Z)) : list Node :=
  merkle_peaks blocks (filter (fun p => has self nodes (node_at p.1 p.2) = true) ps).

Lemma missing_app self nodes ps qs :
  missing self nodes (ps ++ qs) = missing self nodes ps ++ missing self nodes qs.
Proof. unfold missing. by rewrite fmap_app, filter_app, fmap_app. Qed.

Lemma merkle_peaks_snoc blocks ps qs :
  merkle_peaks blocks (ps ++ qs) = merkle_peaks blocks ps ++ merkle_peaks blocks qs.
Proof. unfold merkle_peaks. apply fmap_app. Qed.

Lemma known_app blocks self nodes ps qs :
  known blocks self nodes (ps ++ qs) = known blocks self nodes ps ++ known blocks self nodes qs.
Proof. unfold known. by rewrite filter_app, merkle_peaks_snoc. Qed.

(** When none is missing, all are sent. *)
Lemma known_all blocks self nodes ps :
  missing self nodes ps = [] -> known blocks self nodes ps = merkle_peaks blocks ps.
Proof.
  intros Hm. unfold known. f_equal. induction ps as [|[d o] ps IH]; [done|].
  revert Hm. unfold missing. rewrite fmap_cons, !filter_cons. cbn [fst snd].
  destruct (has self nodes (node_at d o)); [|done]. cbn. intros Hm. f_equal. by apply IH.
Qed.

(** Pushing a node of the log, and a list of them. *)
Definition pushed blocks self nodes (ps : list (Z * Z)) (acc : list StoreInfoInstruction * list Node) :=
  (acc.1 ++ missing self nodes ps, acc.2 ++ known blocks self nodes ps).

Lemma pushed_app blocks self nodes ps qs acc :
  pushed blocks self nodes qs (pushed blocks self nodes ps acc) = pushed blocks self nodes (ps ++ qs) acc.
Proof. unfold pushed. cbn [fst snd]. by rewrite missing_app, known_app, <-!app_assoc. Qed.

Lemma pushed_nil blocks self nodes acc : pushed blocks self nodes [] acc = acc.
Proof. unfold pushed. cbn. rewrite !app_nil_r. by destruct acc. Qed.

Lemma push_node_ok blocks self nodes d o acc :
  view_ok blocks self nodes -> no_blank blocks -> zlen blocks < 2 ^ 57 -> complete (zlen blocks) d o ->
  Proofs.push_node self (node_at d o) nodes acc = Ok (pushed blocks self nodes [(d, o)] acc).
Proof.
  intros Hv Hnb Hn Hc. unfold Proofs.push_node, pushed, known, missing.
  rewrite (required_node_ok blocks) by done. rewrite bind_Ok, fmap_cons, !filter_cons. cbn [fst snd].
  destruct (has self nodes (node_at d o)); cbn; by rewrite app_nil_r.
Qed.

Lemma block_proof_loop_ok blocks self nodes seek_root (m : nat) : forall d o it p acc fuel,
  view_ok blocks self nodes -> no_blank blocks -> zlen blocks < 2 ^ 57 ->
  0 <= d -> 0 <= o -> complete (zlen blocks) (d + Z.of_nat m) (o / 2 ^ Z.of_nat m) ->
  iter_at d o it -> (m <= fuel)%nat ->
  Proofs.block_proof_loop fuel self nodes false seek_root
      (node_at (d + Z.of_nat m) (o / 2 ^ Z.of_nat m)) it p acc =
    Ok (p, pushed blocks self nodes (siblings m d o) acc).
Proof.
  induction m as [|m IH]; intros d o it p acc fuel Hv Hnb Hn Hd Ho Hc Hit Hf; pose proof Hit as [Hi _].
  - rewrite Z.add_0_r, Z.pow_0_r, Z.div_1_r. cbn [siblings]. rewrite pushed_nil.
    destruct fuel; cbn [Proofs.block_proof_loop]; by rewrite Hi, Z.eqb_refl.
  - destruct fuel as [|fuel]; [lia|]. cbn [Proofs.block_proof_loop siblings].
    pose proof Hc as (_ & Hoc & _).
    rewrite Hi, (proj2 (Z.eqb_neq _ _)) by (intros E; apply node_at_inj in E; lia).
    pose proof Hc as [Hp Hc']%complete_up; [|done].
    destruct (iter_up _ d o it Hd Hp Hn Hit) as ([Hsi _] & Hpar & _). cbn [andb].
    destruct (complete_below _ d o Hd Hp) as [_ Hsc].
    rewrite Hsi, (push_node_ok blocks) by done. rewrite !bind_Ok.
    replace (node_at (d + Z.of_nat (S m)) (o / 2 ^ Z.of_nat (S m)))
      with (node_at (d + 1 + Z.of_nat m) (o / 2 / 2 ^ Z.of_nat m))
      by (rewrite half_up; f_equal; lia).
    rewrite (IH (d + 1) (o / 2)) by (done || lia || (apply Z.div_pos; lia)).
    by rewrite pushed_app.
Qed.

(** The nodes of a proof for node [(d, o)]: itself, unless it is a block whose
    value is sent, and the siblings. *)
Definition proof_path (value : bool) (m : nat) (d o : Z) : list (Z * Z) :=
  (if value then [] else [(d, o)]) ++ siblings m d o.

Lemma proof_path_complete n value (m : nat) d o p q :
  0 <= d -> complete n (d + Z.of_nat m) (o / 2 ^ Z.of_nat m) -> (p, q) ∈ proof_path value m d o ->
  complete n p q.
Proof.
  intros Hd Hc. unfold proof_path. intros [Hin|Hin]%elem_of_app; [|by eapply siblings_complete].
  destruct value; [by apply elem_of_nil in Hin|]. apply list_elem_of_singleton in Hin as [= -> ->].
  by eapply complete_climb.
Qed.

Lemma either_unit_instructions ins :
  match Proofs.either_unit ins with Left new_instructions => new_instructions | Right _ => [] end = ins.
Proof. by destruct ins. Qed.

Lemma block_and_seek_proof_ok blocks self nodes value d o (m : nat) cnt last seek_root p :
  view_ok blocks self nodes -> no_blank blocks -> zlen blocks < 2 ^ 57 -> 0 <= d ->
  complete (zlen blocks) (d + Z.of_nat m) (o / 2 ^ Z.of_nat m) ->
  Proofs.block_and_seek_proof self
      (Some (mkNormalizedIndexed value (node_at d o) cnt last)) false seek_root
      (node_at (d + Z.of_nat m) (o / 2 ^ Z.of_nat m)) p nodes =
    Ok (mkLocalProof (lp_seek p) (Some (known blocks self nodes (proof_path value m d o)))
          (lp_upgrade p) (lp_additional_upgrade p),
        Proofs.either_unit (missing self nodes (proof_path value m d o))).
Proof.
  intros Hv Hnb Hn Hd Hc. pose proof (complete_climb _ m d o Hd Hc) as Hc0.
  pose proof Hc0 as (_ & Ho & _). pose proof (complete_depth _ _ _ Hc Hn).
  pose proof (iter_new_law d o (complete_in_tree _ _ _ Hc0 Hn)) as Hit. pose proof Hit as [Hi _].
  unfold Proofs.block_and_seek_proof. cbn [ni_index ni_value]. unfold proof_path.
  assert ((if negb value then Proofs.push_node self (iter_index (iter_new (node_at d o))) nodes ([], [])
           else Ok ([], [])) = Ok (pushed blocks self nodes (if value then [] else [(d, o)]) ([], []))) as ->.
  { rewrite Hi. destruct value; [by rewrite pushed_nil|]. by apply push_node_ok. }
  rewrite bind_Ok, (block_proof_loop_ok blocks) by (done || (unfold tree_fuel; lia)).
  rewrite pushed_app. done.
Qed.

(** The request and what it is answered with, for a block and for a hash. *)
Definition request_of (value : bool) (m d o : Z) : option RequestBlock * option RequestBlock :=
  if value then (Some (mkRequestBlock o m), None) else (None, Some (mkRequestBlock (node_at d o) m)).

Definition answer_of self (value : bool) (d o : Z) (ns : list Node) : ValuelessProof :=
  if value then mkValuelessProof (mt_fork self) (Some (mkDataHash o ns)) None None None
  else mkValuelessProof (mt_fork self) None (Some (mkDataHash (node_at d o) ns)) None None.

Lemma normalize_request value (m d o : Z) :
  (value = true -> d = 0) -> 0 <= o -> 2 * o < 2 ^ 64 ->
  exists last, Proofs.normalize_indexed (request_of value m d o).1 (request_of value m d o).2 =
    Ok (Some (mkNormalizedIndexed value (node_at d o) m last)).
Proof.
  intros Hd Ho Hb. destruct value; cbn -[Z.mul]; [|by eexists].
  rewrite Hd, node_at_leaf, checked_mul_Ok, bind_Ok by (done || lia). rewrite Z.mul_comm. by eexists.
Qed.

Lemma create_indexed_ok blocks self infos nodes value d o (m : nat) :
  tree_for blocks self -> infos_to_nodes infos = Ok nodes -> view_ok blocks self nodes ->
  no_blank blocks -> log_fits blocks -> (value = true -> d = 0) -> 0 <= d ->
  complete (zlen blocks) (d + Z.of_nat m) (o / 2 ^ Z.of_nat m) ->
  Proofs.create_valueless_proof self (request_of value (Z.of_nat m) d o).1
      (request_of value (Z.of_nat m) d o).2 None None infos =
    Ok (match missing self nodes (proof_path value m d o) with
        | [] => Right (answer_of self value d o (merkle_peaks blocks (proof_path value m d o)))
        | ins => Left ins
        end).
Proof.
  intros (_ & Hl & _) Hinf Hv Hnb [Hn _] Hval Hd Hc.
  pose proof (complete_climb _ m d o Hd Hc) as Hc0. pose proof Hc0 as (_ & Ho & Hle).
  pose proof (complete_node_at _ _ _ Hc0) as Hat. pose proof (Z.pow_pos_nonneg 2 d).
  assert (o < 2 ^ 57) by nia.
  unfold Proofs.create_valueless_proof. rewrite Hinf, bind_Ok, Hl, checked_mul_Ok, !bind_Ok by lia.
  destruct (normalize_request value (Z.of_nat m) d o) as [last ->]; [done|lia..|]. rewrite bind_Ok.
  rewrite (proj2 (Z.leb_gt (2 * zlen blocks) 0)), (proj2 (Z.ltb_ge (2 * zlen blocks) (2 * zlen blocks))) by lia.
  cbn [orb]. unfold Proofs.proof_sub_tree. cbn [andb ni_index ni_nodes]. unfold Proofs.nodes_to_root.
  rewrite Nat2Z.id, (to_root_loop_ok (zlen blocks) m d o) by
    (done || (apply iter_new_law; by eapply complete_in_tree)).
  rewrite !bind_Ok, (block_and_seek_proof_ok blocks) by done. rewrite !bind_Ok, either_unit_instructions.
  destruct (missing self nodes (proof_path value m d o)) as [|ins more] eqn:Hmiss; [|done].
  rewrite known_all by done. by destruct value.
Qed.

(** ** Verifying *)

(** The queue still holds these nodes. *)
Definition queue_of (q : NodeQueue) (xs : list Node) : Prop :=
  q_extra q = None /\ 0 <= q_i q /\ drop (Z.to_nat (q_i q)) (q_nodes q) = xs /\ q_length q = zlen xs.

Lemma queue_new xs : queue_of (NodeQueue.new xs None) xs.
Proof. unfold queue_of, NodeQueue.new. cbn. split_and!; [done..|lia]. Qed.

Lemma queue_shift q x xs :
  queue_of q (x :: xs) -> exists q', NodeQueue.shift q (node_index x) = Ok (q', x) /\ queue_of q' xs.
Proof.
  intros (He & Hi & Hd & Hl). unfold NodeQueue.shift. rewrite He.
  assert (q_nodes q !! Z.to_nat (q_i q) = Some x) as ->.
  { rewrite <-(Nat.add_0_r (Z.to_nat (q_i q))), <-lookup_drop, Hd. done. }
  rewrite Z.eqb_refl. cbn [negb]. pose proof (zlen_nonneg xs). rewrite zlen_cons in Hl.
  rewrite checked_sub_Ok, bind_Ok by lia. eexists. split; [done|].
  unfold queue_of. cbn [q_extra q_i q_nodes q_length]. split_and!; [done|lia| |lia].
  rewrite Z2Nat.inj_add, <-drop_drop, Hd by lia. done.
Qed.

(** The queue gives these nodes in this order; one of them may be the root of
    the block that came with the proof. *)
Definition feeds (q : NodeQueue) (xs : list Node) : Prop :=
  0 <= q_i q /\ q_length q = zlen xs /\
  exists before after, drop (Z.to_nat (q_i q)) (q_nodes q) = before ++ after /\
    match q_extra q with
    | None => xs = before ++ after
    | Some x => xs = before ++ x :: after /\ Forall (fun y => node_index y <> node_index x) before
    end.

Lemma queue_feeds q xs : queue_of q xs -> feeds q xs.
Proof. intros (He & Hi & Hd & Hl). split_and!; [done..|]. exists xs, []. by rewrite He, Hd, app_nil_r. Qed.

Lemma feeds_new before x after :
  Forall (fun y => node_index y <> node_index x) before ->
  feeds (NodeQueue.new (before ++ after) (Some x)) (before ++ x :: after).
Proof.
  intros Hb. unfold feeds, NodeQueue.new. cbn [q_i q_length q_nodes q_extra]. split_and!; [done| |by exists before, after].
  rewrite !zlen_app, zlen_cons. lia.
Qed.

Lemma feeds_nil q : feeds q [] -> q_extra q = None.
Proof. intros (_ & _ & b & a & _ & Hx). destruct (q_extra q); [|done]. destruct Hx as [Hx _]. by destruct b. Qed.

Lemma feed_shift q x xs :
  feeds q (x :: xs) -> exists q', NodeQueue.shift q (node_index x) = Ok (q', x) /\ feeds q' xs.
Proof.
  intros (Hi & Hl & before & after & Hd & Hx). pose proof (zlen_nonneg xs). rewrite zlen_cons in Hl.
  assert (forall y rest, drop (Z.to_nat (q_i q)) (q_nodes q) = y :: rest ->
    q_nodes q !! Z.to_nat (q_i q) = Some y /\ drop (Z.to_nat (q_i q + 1)) (q_nodes q) = rest) as Hhead.
  { intros y rest Hy. split.
    - by rewrite <-(Nat.add_0_r (Z.to_nat (q_i q))), <-lookup_drop, Hy.
    - by rewrite Z2Nat.inj_add, <-drop_drop, Hy by lia. }
  unfold NodeQueue.shift. destruct (q_extra q) as [e|] eqn:He.
  - destruct Hx as [Hxs Hb]. destruct before as [|y before]; cbn [app] in Hxs, Hd; injection Hxs as -> ->.
    + rewrite Z.eqb_refl, checked_sub_Ok, bind_Ok by lia. eexists. split; [done|]. split_and!; [done|cbn; lia|].
      cbn. by exists [], after.
    + apply Forall_cons in Hb as [Hne Hb]. rewrite (proj2 (Z.eqb_neq _ _)) by congruence.
      destruct (Hhead _ _ Hd) as [-> Hd']. rewrite Z.eqb_refl. cbn [negb]. rewrite checked_sub_Ok, bind_Ok by lia.
      eexists. split; [done|]. split_and!; [cbn; lia..|]. cbn. by exists before, after.
  - rewrite <-Hx in Hd. destruct (Hhead _ _ Hd) as [-> Hd']. rewrite Z.eqb_refl. cbn [negb].
    rewrite checked_sub_Ok, bind_Ok by lia. eexists. split; [done|]. split_and!; [cbn; lia..|].
    cbn. exists xs, []. by rewrite app_nil_r.
Qed.

Lemma parent_node_ok blocks d o :
  0 <= d -> complete (zlen blocks) (d + 1) (o / 2) -> log_fits blocks ->
  Proofs.parent_node (node_at (d + 1) (o / 2)) (merkle_at blocks d o)
      (merkle_at blocks d (sibling_offset o)) = Ok (merkle_at blocks (d + 1) (o / 2)).
Proof.
  intros Hd Hc [_ Hb]. set (h := o / 2) in *.
  pose proof Hc as (_ & Hh & Hle). pose proof (Z.pow_pos_nonneg 2 d).
  pose proof (merkle_length_le blocks (S (Z.to_nat d)) h Hh) as Hp.
  rewrite Nat2Z.inj_succ, Z2Nat.id, <-Z.add_1_r in Hp by lia. specialize (Hp Hle).
  cbn [merkle node_length Node_new] in Hp.
  pose proof (merkle_length_nonneg blocks (Z.to_nat d) (2 * h)).
  pose proof (merkle_length_nonneg blocks (Z.to_nat d) (2 * h + 1)).
  unfold Proofs.parent_node, merkle_at. replace (Z.to_nat (d + 1)) with (S (Z.to_nat d)) by lia.
  destruct (sibling_cases o) as [[E ->]|[E ->]]; fold h in E |- *; rewrite E;
    rewrite Hash_parent_Ok, bind_Ok, checked_add_Ok, bind_Ok by lia;
    unfold node_in_order; rewrite !merkle_index, Z2Nat.id by done.
  - rewrite (proj2 (Z.leb_le _ _)) by (unfold node_at; nia). cbn [fst snd merkle].
    do 2 f_equal. f_equal. lia.
  - rewrite (proj2 (Z.leb_gt _ _)) by (unfold node_at; nia). cbn [fst snd merkle].
    do 2 f_equal; [f_equal|]; lia.
Qed.

(** The nodes the verifier adds on its way: each sibling and parent. *)
Fixpoint path_nodes (m : nat) (d o : Z) : list (Z * Z) :=
  match m with
  | O => []
  | S m => (d, sibling_offset o) :: (d + 1, o / 2) :: path_nodes m (d + 1) (o / 2)
  end.

Lemma push_nodes_app cs ns ms :
  Proofs.push_nodes (Proofs.push_nodes cs ns) ms = Proofs.push_nodes cs (ns ++ ms).
Proof. unfold Proofs.push_nodes, Changeset.set_roots_nodes. cbn. by rewrite <-app_assoc. Qed.

Lemma push_nodes_nil cs : Proofs.push_nodes cs [] = cs.
Proof. unfold Proofs.push_nodes, Changeset.set_roots_nodes. rewrite app_nil_r. by destruct cs. Qed.

Lemma verify_loop_ok blocks (m : nat) : forall d o it q cs fuel,
  0 <= d -> complete (zlen blocks) (d + Z.of_nat m) (o / 2 ^ Z.of_nat m) -> log_fits blocks ->
  iter_at d o it -> queue_of q (merkle_peaks blocks (siblings m d o)) -> (m <= fuel)%nat ->
  Proofs.verify_loop fuel q it (merkle_at blocks d o) cs =
    Ok (merkle_at blocks (d + Z.of_nat m) (o / 2 ^ Z.of_nat m),
        Proofs.push_nodes cs (merkle_peaks blocks (path_nodes m d o))).
Proof.
  induction m as [|m IH]; intros d o it q cs fuel Hd Hc Hfit Hit Hq Hf.
  - destruct Hq as (_ & _ & _ & Hl). change (q_length q = 0) in Hl. rewrite Z.add_0_r, Z.pow_0_r, Z.div_1_r. cbn [path_nodes].
    change (merkle_peaks blocks []) with (@nil Node). rewrite push_nodes_nil.
    destruct fuel; cbn [Proofs.verify_loop]; by rewrite Hl.
  - destruct fuel as [|fuel]; [lia|]. cbn [Proofs.verify_loop siblings path_nodes] in Hq |- *.
    pose proof Hc as [Hp Hc']%complete_up; [|done]. pose proof Hfit as [Hn _].
    destruct (iter_up _ d o it Hd Hp Hn Hit) as ([Hsi _] & Hpar & _). pose proof Hpar as [Hpi _].
    change (merkle_peaks blocks ((d, sibling_offset o) :: siblings m (d + 1) (o / 2)))
      with (merkle_at blocks d (sibling_offset o) :: merkle_peaks blocks (siblings m (d + 1) (o / 2))) in Hq.
    pose proof Hq as (_ & _ & _ & Hl). rewrite zlen_cons in Hl.
    pose proof (zlen_nonneg (merkle_peaks blocks (siblings m (d + 1) (o / 2)))).
    rewrite (proj2 (Z.leb_gt _ _)) by lia.
    destruct (queue_shift _ _ _ Hq) as (q' & Hs & Hq'). rewrite merkle_at_index in Hs by done.
    rewrite Hsi, Hs, bind_Ok, Hpi, parent_node_ok, bind_Ok by done.
    rewrite (IH (d + 1) (o / 2)) by (done || lia). rewrite push_nodes_app, half_up.
    do 3 f_equal. lia.
Qed.

(** What is sent: the block with its nodes, or the hash with them. *)
Definition data_of blocks (value : bool) (d o : Z) (ns : list Node) : option DataBlock * option DataHash :=
  if value then (Some (mkDataBlock o (default [] (blocks !! Z.to_nat o)) ns), None)
  else (None, Some (mkDataHash (node_at d o) ns)).

Lemma merkle_leaf blocks o :
  merkle_at blocks 0 o = Node_new (2 * o) (blake2b256 (leaf_preimage (default [] (blocks !! Z.to_nat o))))
                           (zlen (default [] (blocks !! Z.to_nat o))).
Proof. rewrite <-node_at_leaf. done. Qed.

(** The nodes that are checked: the one asked for and its path. *)
Definition verified_nodes (m : nat) (d o : Z) : list (Z * Z) := (d, o) :: path_nodes m d o.

Lemma verify_tree_ok blocks value d o (m : nat) cs :
  log_fits blocks -> (value = true -> d = 0) -> 0 <= d ->
  complete (zlen blocks) (d + Z.of_nat m) (o / 2 ^ Z.of_nat m) ->
  Proofs.verify_tree (data_of blocks value d o (merkle_peaks blocks (proof_path value m d o))).1
      (data_of blocks value d o (merkle_peaks blocks (proof_path value m d o))).2 None cs =
    Ok (Some (merkle_at blocks (d + Z.of_nat m) (o / 2 ^ Z.of_nat m)),
        Proofs.push_nodes cs (merkle_peaks blocks (verified_nodes m d o))).
Proof.
  intros Hfit Hval Hd Hc. pose proof Hfit as [Hn Hb].
  pose proof (complete_climb _ m d o Hd Hc) as Hc0. pose proof Hc0 as (_ & Ho & Hle).
  pose proof (iter_new_law d o (complete_in_tree _ _ _ Hc0 Hn)) as Hit. pose proof Hit as [Hi _].
  pose proof (Z.pow_pos_nonneg 2 d). assert (o < 2 ^ 57) by nia.
  unfold Proofs.verify_tree. destruct value; cbn [data_of fst snd Proofs.normalize_data db_index db_value db_nodes].
  - specialize (Hval eq_refl) as ->. rewrite checked_mul_Ok, !bind_Ok by lia. cbn [nd_index nd_value nd_nodes].
    assert (o * 2 = node_at 0 o) as -> by (rewrite node_at_leaf; lia).
    assert (zlen (default [] (blocks !! Z.to_nat o)) < 2 ^ 64) as Hv.
    { pose proof (merkle_length_le blocks 0 o Ho Hle) as Hml. cbn in Hml. lia. }
    unfold Proofs.block_node. rewrite Hash_data_Ok, !bind_Ok by done. rewrite Hi, node_at_leaf.
    rewrite <-merkle_leaf, <-node_at_leaf. cbn [proof_path app].
    rewrite (verify_loop_ok blocks m 0 o) by
      (done || apply queue_new || (unfold merkle_peaks; rewrite length_fmap, length_siblings; lia)).
    rewrite bind_Ok, push_nodes_app. done.
  - cbn [fmap option_fmap option_map]. rewrite !bind_Ok. cbn [nd_index nd_value nd_nodes dh_index dh_nodes]. rewrite Hi.
    set (ns := merkle_peaks blocks (proof_path false m d o)).
    assert (ns = merkle_at blocks d o :: merkle_peaks blocks (siblings m d o)) as Hns by done.
    destruct (queue_shift (NodeQueue.new ns None) (merkle_at blocks d o) (merkle_peaks blocks (siblings m d o)))
      as (q & Hs & Hq); [rewrite Hns; apply queue_new|].
    rewrite merkle_at_index in Hs by done. rewrite Hs, bind_Ok.
    rewrite (verify_loop_ok blocks m d o) by
      (done || (rewrite Hns; unfold merkle_peaks; cbn [length]; rewrite length_fmap, length_siblings; lia)).
    rewrite bind_Ok, push_nodes_app. done.
Qed.

(** The answer, as it is sent, and as a receiver with the node at the end of
    the path takes it. *)
Definition proof_for blocks (fork : Z) (value : bool) (m : nat) (d o : Z) : Proof_ :=
  let data := data_of blocks value d o (merkle_peaks blocks (proof_path value m d o)) in
  mkProof fork data.1 data.2 None None.

Lemma answer_into_proof blocks self value d o (m : nat) :
  into_proof (E:=HypercoreError) (answer_of self value d o (merkle_peaks blocks (proof_path value m d o)))
    (if value then Some (default [] (blocks !! Z.to_nat o)) else None) =
  Ok (proof_for blocks (mt_fork self) value m d o).
Proof. by destruct value. Qed.

Lemma verify_proof_ok blocks self infos nodes pk fork value d o (m : nat) :
  infos_to_nodes infos = Ok nodes -> log_fits blocks -> (value = true -> d = 0) -> 0 <= d ->
  complete (zlen blocks) (d + Z.of_nat m) (o / 2 ^ Z.of_nat m) ->
  Proofs.verify_proof self (proof_for blocks fork value m d o) pk infos =
    r ← Tree.required_node self (node_at (d + Z.of_nat m) (o / 2 ^ Z.of_nat m)) nodes;
    match r with
    | Left instruction => Ok (Left [instruction])
    | Right verified =>
        if decide (node_hash verified = node_hash (merkle_at blocks (d + Z.of_nat m) (o / 2 ^ Z.of_nat m)))
        then Ok (Right (Proofs.push_nodes (Tree.changeset self) (merkle_peaks blocks (verified_nodes m d o))))
        else Err InvalidChecksum
    end.
Proof.
  intros Hinf Hfit Hval Hd Hc. unfold Proofs.verify_proof, proof_for.
  cbn [proof_block proof_hash proof_seek proof_upgrade]. rewrite Hinf, bind_Ok.
  rewrite verify_tree_ok, !bind_Ok by done. rewrite merkle_at_index by lia. done.
Qed.
End Complete.
