(* ===== verification/MerkleHonest.v ===== *)
(** * Accepted proofs are honest

    A block proof that the verifier accepts against a node of the log is, field
    by field, the proof an honest peer sends, or an input hashed for it collides
    with one of the log's: the hashes on the path decide the hashes of the siblings, and since every hash
    covers the sum of two lengths, the length of the block decides the lengths
    of the siblings. *)

From stdpp Require Import base tactics numbers list gmap fin_maps.
From Stdlib Require Import ZArith Lia Bool.
From S2P Require Import Prelude FlatTree Common CompactEncoding Crypto OplogEntry Changeset.
From S2P Require Import Storage MerkleTree MerkleView MerkleProof MerkleSound MerkleComplete.
Open Scope Z_scope.

Section Honest.
Context `{FT : FlatTree} {FL : FlatTreeLaws FT} `{CE : CompactEncoding} {CL : CompactEncodingLaws CE}
  `{B2 : Blake2b} {BL : Blake2bLaws B2} `{ED : Ed25519} {EL : Ed25519Laws ED} `{IO : IntMapOrder}.
Implicit Types (blocks : list (list Z)) (self : MerkleTree) (nodes : nodes_map).

(** A node as it is decoded from the wire. *)
Definition wire_node (n : Node) : Prop :=
  plain_node n /\ node_length n < 2 ^ 64 /\ n = Node_new (node_index n) (node_hash n) (node_length n).

Lemma queue_shift_inv q xs i q' n :
  queue_of q xs -> NodeQueue.shift q i = Ok (q', n) ->
  exists xs', xs = n :: xs' /\ queue_of q' xs' /\ node_index n = i.
Proof.
  intros Hq Hs. destruct xs as [|x xs].
  - destruct Hq as (He & _ & Hd & Hl). unfold NodeQueue.shift in Hs. rewrite He in Hs.
    destruct (q_nodes q !! Z.to_nat (q_i q)) as [x|] eqn:Hx; [|done]. exfalso.
    apply lookup_lt_Some in Hx. apply (f_equal length) in Hd. rewrite length_drop in Hd. cbn in Hd. lia.
  - destruct (queue_shift q x xs Hq) as (q1 & Hs1 & Hq1).
    assert (node_index x = i) as Hi.
    { destruct Hq as (He & _ & Hd & _). unfold NodeQueue.shift in Hs. rewrite He in Hs.
      rewrite <-(Nat.add_0_r (Z.to_nat (q_i q))), <-lookup_drop, Hd in Hs. cbn in Hs.
      destruct (Z.eqb_spec (node_index x) i); [done|discriminate Hs]. }
    rewrite Hi, Hs in Hs1. injection Hs1 as -> ->. by exists xs.
Qed.

Lemma parent_hashed blocks d o :
  0 <= d -> complete (zlen blocks) (d + 1) (o / 2) ->
  let p := node_in_order (merkle_at blocks d o) (merkle_at blocks d (sibling_offset o)) in
  log_hashed blocks (parent_preimage p.1 p.2).
Proof.
  intros Hd Hc. exists blocks. split; [done|]. right. left. exists d, (o / 2). split_and!; [done..|].
  destruct (complete_below _ d o Hd Hc) as [(_ & Ho & _) (_ & Hs & _)].
  unfold node_in_order. rewrite !merkle_at_index by done. pose proof (Z.pow_pos_nonneg 2 d).
  destruct (sibling_cases o) as [[E ->]|[E ->]]; set (h := o / 2) in *; rewrite E.
  - rewrite (proj2 (Z.leb_le _ _)) by (unfold node_at; nia). done.
  - rewrite (proj2 (Z.leb_gt _ _)) by (unfold node_at; nia). done.
Qed.

(** The parent of the log decides both children and the sum of their lengths. *)
Lemma parent_node_honest inputs blocks d o cur sib parent :
  let p := node_in_order cur sib in parent_preimage p.1 p.2 ∈ inputs ->
  plain_node cur -> plain_node sib -> log_fits blocks -> 0 <= d ->
  complete (zlen blocks) (d + 1) (o / 2) ->
  node_index cur = node_at d o -> node_index sib = node_at d (sibling_offset o) ->
  Proofs.parent_node (node_at (d + 1) (o / 2)) cur sib = Ok parent ->
  node_hash parent = node_hash (merkle_at blocks (d + 1) (o / 2)) ->
  collision inputs blocks \/
  (node_hash cur = node_hash (merkle_at blocks d o) /\ node_hash sib = node_hash (merkle_at blocks d (sibling_offset o)) /\
   node_length parent = node_length (merkle_at blocks (d + 1) (o / 2)) /\
   node_length cur + node_length sib =
     node_length (merkle_at blocks d o) + node_length (merkle_at blocks d (sibling_offset o))).
Proof.
  intros pair Hin Hcur Hsib Hfit Hd Hc Hci Hsi Hp Heq. subst pair. pose proof (complete_below _ d o Hd Hc) as [(_ & Ho & _) _].
  destruct Hcur as [Hch Hcl], Hsib as [Hsh Hsl].
  pose proof (parent_node_ok blocks d o Hd Hc Hfit) as Hok. unfold Proofs.parent_node in Hp, Hok.
  assert (forall a b h, Hash_parent a b = Ok h -> node_length a + node_length b < 2 ^ 64) as Hlt.
  { intros a b h Hh. destruct (Z.lt_ge_cases (node_length a + node_length b) (2 ^ 64)) as [|Hge]; [done|].
    unfold Hash_parent in Hh. destruct (node_index a <=? node_index b); destruct (st_new_with_size 8) as [st buf];
      rewrite !checked_add_Panic in Hh by lia; cbn in Hh; discriminate Hh. }
  apply bind_inv_Ok in Hp as (h & Hh & Hp). apply bind_inv_Ok in Hok as (h' & Hh' & Hok).
  pose proof (Hlt _ _ _ Hh) as Hb. pose proof (Hlt _ _ _ Hh') as Hb'.
  assert (0 <= node_length (merkle_at blocks d o)) as Hm by apply merkle_length_nonneg.
  assert (0 <= node_length (merkle_at blocks d (sibling_offset o))) as Hm' by apply merkle_length_nonneg.
  rewrite checked_add_Ok, bind_Ok in Hp by lia. rewrite checked_add_Ok, bind_Ok in Hok by lia. injection Hp as <-. injection Hok as Hok.
  rewrite <-Hok in Heq |- *. cbn [node_hash node_length Node_new] in Heq |- *. subst h'.
  rewrite Hash_parent_Ok in Hh by lia. rewrite Hash_parent_Ok in Hh' by lia.
  rewrite <-Hh' in Hh. injection Hh as [Hpre|]%(hash_or_collision inputs blocks); [right|by left|done|by apply parent_hashed].
  pose proof (merkle_hash32 blocks (Z.to_nat d) o) as [_ H32]. pose proof (merkle_hash32 blocks (Z.to_nat d) (sibling_offset o)) as [_ H32'].
  assert (forall a b c e : Node, node_length a + node_length b < 2 ^ 64 -> node_length c + node_length e < 2 ^ 64 ->
    0 <= node_length a + node_length b -> 0 <= node_length c + node_length e ->
    zlen (node_hash a) = 32 -> zlen (node_hash c) = 32 -> parent_preimage a b = parent_preimage c e ->
    node_hash a = node_hash c /\ node_hash b = node_hash e /\ node_length a + node_length b = node_length c + node_length e) as Hinj.
  { intros a b c e ? ? ? ? Ha Hc' Hpe. pose proof Hpe as Hpe'. apply parent_preimage_inj in Hpe as [? ?]; [|congruence].
    split_and!; [done..|]. unfold parent_preimage in Hpe'. apply app_inj_1 in Hpe' as [_ Hpe']; [|done].
    apply app_inj_1 in Hpe' as [Hl _]; [|done]. by apply (le_bytes_inj 8) in Hl. }
  unfold node_in_order in Hpre. rewrite Hci, Hsi, !merkle_at_index in Hpre by (done || apply (complete_below _ d o Hd Hc)).
  destruct (_ <=? _); cbn [fst snd] in Hpre; unfold merkle_at in *; apply Hinj in Hpre as (? & ? & ?); try lia; split_and!; try done; lia.
Qed.
Lemma wire_node_eq x blocks d o :
  wire_node x -> 0 <= d -> 0 <= o -> node_index x = node_at d o -> node_hash x = node_hash (merkle_at blocks d o) ->
  node_length x = node_length (merkle_at blocks d o) -> x = merkle_at blocks d o.
Proof.
  intros (_ & _ & Hx) Hd Ho Hi Hh Hl. rewrite Hx, Hi, Hh, Hl, <-(merkle_at_index blocks d o) by done.
  unfold merkle_at. by destruct (Z.to_nat d).
Qed.

(** One step of the loop, without the log: the node that is taken has the place
    of the sibling, and the result the place of the parent. *)
Lemma verify_step_inv fuel q it cur cs r x xs d o :
  Proofs.verify_loop (S fuel) q it cur cs = Ok r -> queue_of q (x :: xs) -> wire_node x -> plain_node cur ->
  node_index cur = node_at d o -> iter_at d o it -> 0 <= d -> 0 <= o -> 2 ^ d * o <= 2 ^ 57 -> d + 1 <= 57 ->
  exists q' it' parent, queue_of q' xs /\ iter_at (d + 1) (o / 2) it' /\ plain_node parent /\
    node_index x = node_at d (sibling_offset o) /\ node_index parent = node_at (d + 1) (o / 2) /\
    Proofs.parent_node (node_at (d + 1) (o / 2)) cur x = Ok parent /\
    Proofs.verify_loop fuel q' it' parent (Proofs.push_nodes cs [x; parent]) = Ok r.
Proof.
  intros Hrun Hq Hx Hcur Hci Hit Hd Ho Hb Hdq. cbn [Proofs.verify_loop] in Hrun.
  pose proof Hq as (_ & _ & _ & Hl). rewrite zlen_cons in Hl. pose proof (zlen_nonneg xs).
  rewrite (proj2 (Z.leb_gt _ _)) in Hrun by lia.
  apply bind_inv_Ok in Hrun as ([q1 n] & Hs & Hrun). apply bind_inv_Ok in Hrun as (parent & Hp & Hrun).
  apply (queue_shift_inv _ _ _ _ _ Hq) in Hs as (xs' & [= <- <-] & Hq1 & Hni).
  assert (in_tree (d + 1) (o / 2)) as Hin.
  { split_and!; [lia|apply Z.div_pos; lia|]. rewrite Z.mul_add_distr_l, Z.mul_1_r, !pow2_succ by lia.
    assert (2 * (o / 2) <= o) by (Z.div_mod_to_equations; lia). pose proof (Z.pow_pos_nonneg 2 d).
    assert (2 ^ d <= 2 ^ 57) by (apply Z.pow_le_mono_r; lia). nia. }
  pose proof (iter_sibling_law it d o Hin Hd Hit) as Hsib.
  pose proof (iter_parent_law _ d (sibling_offset o) ltac:(by rewrite sibling_half) Hd Hsib) as Hpar.
  rewrite sibling_half in Hpar. pose proof Hsib as [Hsi _]. pose proof Hpar as [Hpi _].
  rewrite Hsi in Hni. rewrite Hpi in Hp.
  destruct (parent_node_plain _ cur x parent Hcur (proj1 Hx) Hp) as (Hpl & _ & Hpix).
  by exists q1, (iter_parent (iter_sibling it)), parent.
Qed.

Lemma verify_loop_nodes fuel : forall q it cur cs root cs',
  Proofs.verify_loop fuel q it cur cs = Ok (root, cs') -> cs_nodes cs ⊆ cs_nodes cs'.
Proof.
  induction fuel as [|fuel IH]; intros q it cur cs root cs'; cbn [Proofs.verify_loop];
    (destruct (q_length q <=? 0); [by intros [= _ <-]|]); [done|].
  intros H. apply bind_inv_Ok in H as ([q1 n] & _ & H). apply bind_inv_Ok in H as (parent & _ & H).
  apply IH in H. etrans; [|exact H]. cbn [Proofs.push_nodes cs_nodes]. set_solver.
Qed.

Lemma pair_covered inputs ns x y :
  covers inputs ns -> x ∈ ns -> y ∈ ns -> let p := node_in_order x y in parent_preimage p.1 p.2 ∈ inputs.
Proof. intros Hcov Hx Hy. unfold node_in_order. destruct (_ <=? _); by apply Hcov. Qed.

(** The whole path: if it ends in the log's node, every node of the queue is
    the log's, given the length of the node it starts from. *)
Lemma verify_loop_honest inputs ns blocks xs : covers inputs ns -> forall fuel q it cur cs root cs' d o,
  Proofs.verify_loop fuel q it cur cs = Ok (root, cs') ->
  cs_nodes cs' ⊆ ns -> cur ∈ ns ->
  queue_of q xs -> Forall wire_node xs -> plain_node cur -> node_index cur = node_at d o -> iter_at d o it ->
  0 <= d -> 0 <= o -> 2 ^ d * o <= 2 ^ 57 -> d + zlen xs <= 57 -> log_fits blocks ->
  let m := length xs in
  node_index root = node_at (d + Z.of_nat m) (o / 2 ^ Z.of_nat m) /\
  (complete (zlen blocks) (d + Z.of_nat m) (o / 2 ^ Z.of_nat m) ->
   node_hash root = node_hash (merkle_at blocks (d + Z.of_nat m) (o / 2 ^ Z.of_nat m)) ->
   collision inputs blocks \/ (node_hash cur = node_hash (merkle_at blocks d o) /\
     (node_length cur = node_length (merkle_at blocks d o) -> xs = merkle_peaks blocks (siblings m d o)))).
Proof.
  intros Hcov. induction xs as [|x xs IH]; intros fuel q it cur cs root cs' d o Hrun Hns Hcn Hq Hw Hcur Hci Hit Hd Ho Hb Hdq Hfit.
  - cbn [length]. rewrite Z.add_0_r, Z.pow_0_r, Z.div_1_r. destruct Hq as (_ & _ & _ & Hl). change (q_length q = 0) in Hl.
    destruct fuel; cbn [Proofs.verify_loop] in Hrun; rewrite Hl in Hrun; injection Hrun as <- <-;
      (split; [done|]); intros _ ->; right; by split.
  - destruct fuel as [|fuel].
    { cbn [Proofs.verify_loop] in Hrun. destruct Hq as (_ & _ & _ & Hl). rewrite zlen_cons in Hl.
      pose proof (zlen_nonneg xs). rewrite (proj2 (Z.leb_gt _ _)) in Hrun by lia. done. }
    apply Forall_cons in Hw as [Hx Hw]. rewrite zlen_cons in Hdq. pose proof (zlen_nonneg xs).
    destruct (verify_step_inv _ _ _ _ _ _ _ _ _ _ Hrun Hq Hx Hcur Hci Hit Hd Ho Hb ltac:(lia))
      as (q' & it' & parent & Hq' & Hit' & Hpl & Hxi & Hpi & Hp & Hrun').
    assert (2 ^ (d + 1) * (o / 2) <= 2 ^ 57) as Hb'.
    { rewrite pow2_succ by done. assert (2 * (o / 2) <= o) by (Z.div_mod_to_equations; lia).
      pose proof (Z.pow_pos_nonneg 2 d). nia. }
    assert (0 <= o / 2) by (apply Z.div_pos; lia).
    pose proof (verify_loop_nodes _ _ _ _ _ _ _ Hrun') as Hsub. cbn [Proofs.push_nodes cs_nodes] in Hsub.
    assert (x ∈ ns /\ parent ∈ ns) as [Hxn Hpn] by (split; apply Hns, Hsub, elem_of_app; right; set_solver).
    destruct (IH fuel q' it' parent _ root cs' (d + 1) (o / 2) Hrun' Hns Hpn Hq' Hw Hpl Hpi Hit') as [Hri Himp]; [lia..|done|].
    cbn [length siblings]. rewrite half_up. replace (d + Z.of_nat (S (length xs))) with (d + 1 + Z.of_nat (length xs)) by lia.
    split; [done|]. intros Hc Hh. destruct (Himp Hc Hh) as [|[Hph Hrest]]; [by left|].
    pose proof (complete_climb _ (length xs) (d + 1) (o / 2) ltac:(lia) Hc) as Hcp.
    destruct (parent_node_honest inputs blocks d o cur x parent (pair_covered _ _ _ _ Hcov Hcn Hxn) Hcur (proj1 Hx) Hfit Hd Hcp Hci Hxi Hp Hph)
      as [|(Hch & Hxh & Hpl' & Hsum)]; [by left|right].
    split; [done|]. intros Hlen.
    change (merkle_peaks blocks ((d, sibling_offset o) :: siblings (length xs) (d + 1) (o / 2)))
      with (merkle_at blocks d (sibling_offset o) :: merkle_peaks blocks (siblings (length xs) (d + 1) (o / 2))).
    destruct (complete_below _ d o Hd Hcp) as [_ (_ & Hso & _)].
    f_equal; [|by apply Hrest]. apply wire_node_eq; try done. lia.
Qed.

(** A proof of a block and nothing else, as it comes from the wire. *)
Definition block_proof (p : Proof_) (b : DataBlock) : Prop :=
  proof_block p = Some b /\ proof_hash p = None /\ proof_seek p = None /\ proof_upgrade p = None /\
  Forall wire_node (db_nodes b) /\ 0 <= db_index b < 2 ^ 56 /\ zlen (db_nodes b) <= 57 /\ zlen (db_value b) < 2 ^ 64.

(** The verifier ends at the node as many levels up as there are nodes; if that
    is the log's, the proof is the honest one. *)
Lemma verify_tree_honest inputs ns blocks p b cs root cs' :
  covers inputs ns -> leaf_preimage (db_value b) ∈ inputs -> cs_nodes cs' ⊆ ns -> log_fits blocks -> block_proof p b -> Proofs.verify_tree (proof_block p) (proof_hash p) (proof_seek p) cs = Ok (root, cs') ->
  exists r, root = Some r /\ let m := length (db_nodes b) in
    node_index r = node_at (Z.of_nat m) (db_index b / 2 ^ Z.of_nat m) /\
    (complete (zlen blocks) (Z.of_nat m) (db_index b / 2 ^ Z.of_nat m) ->
     node_hash r = node_hash (merkle_at blocks (Z.of_nat m) (db_index b / 2 ^ Z.of_nat m)) ->
     collision inputs blocks \/ p = proof_for blocks (proof_fork p) true m 0 (db_index b)).
Proof.
  intros Hcov Hleafin Hns Hfit (Hb & Hh & Hs & Hu & Hall & Hi & Hl & Hv) Hrun. rewrite Hb, Hh, Hs in Hrun.
  unfold Proofs.verify_tree in Hrun. cbn [Proofs.normalize_data] in Hrun.
  rewrite checked_mul_Ok, !bind_Ok in Hrun by lia. cbn [nd_index nd_nodes nd_value] in Hrun.
  replace (db_index b * 2) with (node_at 0 (db_index b)) in Hrun by (rewrite node_at_leaf; lia).
  assert (iter_at 0 (db_index b) (iter_new (node_at 0 (db_index b)))) as Hit.
  { apply iter_new_law. split_and!; [lia..|]. change (2 ^ (0 + 1)) with 2. lia. }
  pose proof Hit as [Hii _]. rewrite Hii in Hrun. unfold Proofs.block_node in Hrun.
  rewrite Hash_data_Ok, !bind_Ok in Hrun by done.
  apply bind_inv_Ok in Hrun as ([r cs1] & Hrun & Heq). injection Heq as <- <-.
  pose proof (blake2b256_bytes (leaf_preimage (db_value b))) as [_ H32].
  pose proof (verify_loop_nodes _ _ _ _ _ _ _ Hrun) as Hsub. cbn [Proofs.push_nodes cs_nodes] in Hsub.
  eapply (verify_loop_honest inputs ns blocks (db_nodes b) Hcov) in Hrun as [Hri Himp]; [|done|apply Hns, Hsub, elem_of_app; right; by left|apply queue_new|done| |done|exact Hit|lia..|done].
  2: { split; [exact H32|apply zlen_nonneg]. }
  exists r. split; [done|]. rewrite Z.add_0_l in *. split; [done|]. intros Hc Hrh.
  destruct (Himp Hc Hrh) as [|[Hleaf Hxs]]; [by left|]. rewrite merkle_leaf in Hleaf, Hxs.
  cbn [node_hash node_length Node_new] in Hleaf, Hxs. apply (hash_or_collision inputs blocks) in Hleaf as [Hleaf|]; [right|by left|done|].
  2: { apply leaf_hashed. pose proof (complete_climb (zlen blocks) (length (db_nodes b)) 0 (db_index b) (Z.le_refl 0)) as H0.
    rewrite Z.add_0_l in H0. destruct (H0 Hc) as (_ & _ & Hle). rewrite Z.pow_0_r in Hle. lia. }
  apply leaf_preimage_inj in Hleaf. rewrite <-Hleaf in Hxs. specialize (Hxs eq_refl).
  unfold proof_for. cbn [data_of proof_path app fst snd]. rewrite <-Hleaf, <-Hxs.
  destruct p as [pf pb ph ps pu], b. cbn in Hb, Hh, Hs, Hu |- *. by subst.
Qed.

(** The node the verifier needs is asked for, if it is not there. *)
Lemma verify_proof_asks blocks self p b pk infos ins :
  log_fits blocks -> block_proof p b -> Proofs.verify_proof self p pk infos = Ok (Left ins) ->
  let m := length (db_nodes b) in ins = [read_node (node_at (Z.of_nat m) (db_index b / 2 ^ Z.of_nat m))].
Proof.
  intros Hfit Hp Hrun. pose proof Hp as (_ & _ & _ & Hu & _). unfold Proofs.verify_proof in Hrun.
  apply bind_inv_Ok in Hrun as (nodes & _ & Hrun). rewrite Hu in Hrun.
  apply bind_inv_Ok in Hrun as ([root cs1] & Hvt & Hrun). rewrite bind_Ok in Hrun.
  destruct (verify_tree_honest (leaf_preimage (db_value b) :: parent_inputs (cs_nodes cs1)) (cs_nodes cs1) blocks p b
    (Tree.changeset self) root cs1) as (r & -> & Hri & _); [by apply (covers_app _ [_]), parent_inputs_cover|by left|done..|]. cbv zeta. rewrite <-Hri.
  apply bind_inv_Ok in Hrun as (ni & Hreq & Hrun). destruct ni as [i|]; [|case_decide; discriminate Hrun].
  injection Hrun as <-. unfold Tree.required_node, Tree.node in Hreq.
  destruct (mt_unflushed self !! node_index r) as [y|]; [destruct (node_blank y || _); discriminate Hreq|].
  destruct (nodes !! node_index r) as [[y|]|]; [destruct (node_blank y); discriminate Hreq|discriminate Hreq|].
  unfold checked_mul in Hreq. destruct (_ <? _); [|discriminate Hreq]. by injection Hreq as <-.
Qed.

(** Against a tree that trusts nothing but the log. *)
Lemma verify_proof_honest blocks self infos nodes p b pk cs :
  log_fits blocks -> (forall k x, Tree.required_node self k nodes = Ok (Right x) -> log_node blocks (k, x)) ->
  infos_to_nodes infos = Ok nodes -> block_proof p b ->
  Proofs.verify_proof self p pk infos = Ok (Right cs) ->
  let m := length (db_nodes b) in
  collision (verifier_hashed self p cs) blocks \/ (p = proof_for blocks (proof_fork p) true m 0 (db_index b) /\
    complete (zlen blocks) (Z.of_nat m) (db_index b / 2 ^ Z.of_nat m) /\
    exists x, Tree.required_node self (node_at (Z.of_nat m) (db_index b / 2 ^ Z.of_nat m)) nodes = Ok (Right x)).
Proof.
  intros Hfit Ht Hn Hp Hrun. pose proof Hp as (_ & _ & _ & Hu & _ & Hi & _). unfold Proofs.verify_proof in Hrun.
  rewrite Hn, bind_Ok, Hu in Hrun. apply bind_inv_Ok in Hrun as ([root cs1] & Hvt & Hrun). rewrite bind_Ok in Hrun.
  assert (cs1 = cs) as ->.
  { destruct root as [r|]; [|by injection Hrun as ->]. apply bind_inv_Ok in Hrun as ([i|v] & _ & Hrun); [discriminate Hrun|].
    case_decide; [by injection Hrun as ->|discriminate Hrun]. }
  destruct (verify_tree_honest (verifier_hashed self p cs) (mt_roots self ++ cs_nodes cs) blocks p b
    (Tree.changeset self) root cs) as (r & -> & Hri & Himp);
    [apply verifier_hashed_pairs|apply verifier_hashed_block, Hp|set_solver|done..|].
  apply bind_inv_Ok in Hrun as (ni & Hreq & Hrun). destruct ni as [|verified]; [discriminate Hrun|].
  case_decide as Hhash; [|discriminate Hrun]. rewrite Hri in Hreq.
  pose proof (Ht _ _ Hreq) as (d & o & Hc & Hk & Hx). cbn in Hk, Hx. subst verified.
  assert (0 <= db_index b / 2 ^ Z.of_nat (length (db_nodes b))) by (apply Z.div_pos; [lia|apply Z.pow_pos_nonneg; lia]).
  apply node_at_inj in Hk as [<- <-]; [|lia|apply Hc|done|apply Hc].
  destruct (Himp Hc (eq_sym Hhash)) as [|]; [by left|right]. by eauto.
Qed.

(** A block that is accepted against the known nodes is the block of the log. *)
Lemma verify_block_ok blocks self nodes infos p b pk cs :
  log_fits blocks -> trusted blocks self nodes -> infos_to_nodes infos = Ok nodes -> block_proof p b ->
  Proofs.verify_proof self p pk infos = Ok (Right cs) ->
  blocks !! Z.to_nat (db_index b) = Some (db_value b) \/ collision (verifier_hashed self p cs) blocks.
Proof.
  intros Hfit Ht Hn Hp Hrun.
  destruct (verify_proof_honest blocks self infos nodes p b pk cs) as [|(Hpf & Hc & _)]; try done; [|by right|left].
  { intros k x. by apply required_node_trusted. }
  pose proof (complete_climb (zlen blocks) (length (db_nodes b)) 0 (db_index b) (Z.le_refl 0)) as H0.
  rewrite Z.add_0_l in H0. destruct (H0 Hc) as (_ & Hi & Hle). rewrite Z.pow_0_r in Hle.
  destruct Hp as [Hb _]. rewrite Hpf in Hb. injection Hb as Hb. rewrite <-Hb at 2. cbn [db_value].
  destruct (blocks !! Z.to_nat (db_index b)) as [x|] eqn:Hx; [done|]. apply lookup_ge_None in Hx. unfold zlen in Hle. lia.
Qed.
End Honest.
