(* ===== verification/MerkleUpgrade.v ===== *)
(** * Completeness of upgrades

    A receiver that has the first [a] blocks' tree asks for an upgrade to a
    log of [n] blocks.  The nodes that are sent tile the leaves from [a] to
    [n]; the receiver appends them to its roots one by one and ends with the
    roots of the longer log. *)

From stdpp Require Import base tactics numbers list gmap fin_maps.
From Stdlib Require Import ZArith Lia Bool Sorted.
From S2P Require Import Prelude FlatTree Common CompactEncoding Crypto OplogEntry Changeset.
From S2P Require Import Storage MerkleTree MerkleView MerkleProof MerkleComplete.
Open Scope Z_scope.

(** ** The full roots, one after the other *)

(** The trees of [ps] go from leaf [s] to leaf [e], and each is the largest
    that fits below [n]. *)
Fixpoint full_from (s : Z) (ps : list (Z * Z)) (e n : Z) : Prop :=
  match ps with
  | [] => s = e
  | (d, o) :: ps =>
      0 <= d /\ 0 <= o /\ s = 2 ^ d * o /\ s < n /\ d = Z.log2 (n - s) /\ full_from (2 ^ d * (o + 1)) ps e n
  end.

Lemma full_from_app s ps qs m e n : full_from s ps m n -> full_from m qs e n -> full_from s (ps ++ qs) e n.
Proof.
  revert s. induction ps as [|[d o] ps IH]; intros s; cbn [full_from app]; [by intros ->|].
  intros (? & ? & ? & ? & ? & ?) ?. split_and!; auto.
Qed.

Lemma full_from_peaks_at p : forall d n,
  0 <= d -> 2 ^ d * Z.pos p <= n < 2 ^ d * (Z.pos p + 1) ->
  full_from 0 (peaks_pos d p) (2 ^ d * Z.pos p) n.
Proof.
  induction p as [p IH|p IH|]; intros d n Hd Hn; cbn [peaks_pos]; pose proof (Z.pow_pos_nonneg 2 d).
  - eapply full_from_app; [apply IH; [lia|]; rewrite pow2_succ by done; lia|]. cbn [full_from].
    rewrite pow2_succ by done. split_and!; try lia. symmetry. apply Z.log2_unique; [done|].
    rewrite Z.pow_succ_r by done. lia.
  - replace (2 ^ d * Z.pos p~0) with (2 ^ (d + 1) * Z.pos p) by (rewrite pow2_succ by done; lia).
    apply IH; [lia|]. rewrite pow2_succ by done. lia.
  - cbn [full_from]. split_and!; try lia. symmetry. apply Z.log2_unique; [done|].
    rewrite Z.pow_succ_r by done. lia.
Qed.

Lemma full_peaks n : 0 <= n -> full_from 0 (peaks n) n n.
Proof.
  intros Hn. destruct n as [|p|]; [done| |lia].
  pose proof (full_from_peaks_at p 0 (Z.pos p) ltac:(lia)) as H. rewrite Z.pow_0_r, Z.mul_1_l in H. apply H. lia.
Qed.

Lemma full_from_tiles s ps e n : full_from s ps e n -> tiles s ps e.
Proof.
  revert s. induction ps as [|[d o] ps IH]; intros s; cbn [full_from tiles]; [done|].
  intros (? & ? & ? & ? & ? & ?). split_and!; auto.
Qed.

Lemma full_from_le s ps e n : full_from s ps e n -> s <= e.
Proof. intros H%full_from_tiles. by eapply tiles_le. Qed.

Lemma peaks_shift (k : nat) : forall d q, 0 <= q -> peaks_at d (2 ^ Z.of_nat k * q) = peaks_at (d + Z.of_nat k) q.
Proof.
  induction k as [|k IH]; intros d q Hq; [by rewrite Z.pow_0_r, Z.mul_1_l, Z.add_0_r|].
  rewrite Nat2Z.inj_succ, Z.pow_succ_r, <-Z.mul_assoc by lia.
  rewrite peaks_at_even, IH by (try apply Z.mul_nonneg_nonneg; lia). f_equal. lia.
Qed.

Lemma peaks_aligned d q : 0 <= d -> 0 <= q -> peaks (2 ^ d * q) = peaks_at d q.
Proof.
  intros Hd Hq. unfold peaks. pose proof (peaks_shift (Z.to_nat d) 0 q Hq) as H.
  by rewrite Z2Nat.id, Z.add_0_l in H.
Qed.

(** The right siblings on the way from [(d, o)] up by [m] levels. *)
Fixpoint fill (m : nat) (d o : Z) : list (Z * Z) :=
  match m with
  | O => []
  | S m => (if Z.even o then [(d, o + 1)] else []) ++ fill m (d + 1) (o / 2)
  end.

(** A node all of whose low bits are set is passed without one. *)
Lemma fill_skip (k m : nat) : forall d o,
  0 <= o -> fill (k + m) d (2 ^ Z.of_nat k * (o + 1) - 1) = fill m (d + Z.of_nat k) o.
Proof.
  induction k as [|k IH]; intros d o Ho.
  - rewrite Z.add_0_r, Z.pow_0_r, Z.mul_1_l, Z.add_simpl_r. done.
  - cbn [Nat.add fill]. rewrite Nat2Z.inj_succ, Z.pow_succ_r by lia.
    replace (2 * 2 ^ Z.of_nat k * (o + 1) - 1) with (2 * (2 ^ Z.of_nat k * (o + 1) - 1) + 1) by lia.
    rewrite Z.even_add, Z.even_mul. cbn [Z.even orb Bool.eqb app].
    replace ((2 * (2 ^ Z.of_nat k * (o + 1) - 1) + 1) / 2) with (2 ^ Z.of_nat k * (o + 1) - 1)
      by (Z.div_mod_to_equations; lia).
    rewrite IH by done. f_equal. lia.
Qed.

Lemma fill_complete n (m : nat) : forall d o p q,
  0 <= d -> complete n (d + Z.of_nat m) (o / 2 ^ Z.of_nat m) -> (p, q) ∈ fill m d o -> complete n p q.
Proof.
  induction m as [|m IH]; intros d o p q Hd Hc; cbn [fill]; [by intros ?%elem_of_nil|].
  apply complete_up in Hc as [Hp Hc]; [|done].
  intros [Hin|Hin]%elem_of_app; [|eapply (IH (d + 1)); [lia|done..]].
  destruct (Z.even o) eqn:He; [|by apply elem_of_nil in Hin]. apply list_elem_of_singleton in Hin as [= -> ->].
  destruct (complete_below n d o Hd Hp) as [_ Hs]. unfold sibling_offset in Hs. by rewrite He in Hs.
Qed.

(** The nodes of an upgrade from [a] leaves. *)
Fixpoint upgrade_nodes (a : Z) (ps : list (Z * Z)) : list (Z * Z) :=
  match ps with
  | [] => []
  | (d, o) :: ps =>
      (if 2 ^ d * (o + 1) <=? a then [] else if 2 ^ d * o <? a then fill (Z.to_nat d) 0 (a - 1) else [(d, o)])
      ++ upgrade_nodes a ps
  end.

Lemma upgrade_nodes_complete a s ps n p q :
  full_from s ps n n -> (p, q) ∈ upgrade_nodes a ps -> complete n p q.
Proof.
  revert s. induction ps as [|[d o] ps IH]; intros s; cbn [upgrade_nodes]; [by intros _ ?%elem_of_nil|].
  intros H. pose proof H as (Hd & Ho & -> & _ & _ & Hr). pose proof (full_from_le _ _ _ _ Hr) as Hle.
  intros [Hin|Hin]%elem_of_app; [|by eapply IH]. pose proof (Z.pow_pos_nonneg 2 d).
  destruct (Z.leb_spec (2 ^ d * (o + 1)) a); [by apply elem_of_nil in Hin|].
  destruct (Z.ltb_spec (2 ^ d * o) a).
  - eapply (fill_complete n (Z.to_nat d) 0 (a - 1)); [lia| |done]. rewrite Z2Nat.id, Z.add_0_l by done.
    replace ((a - 1) / 2 ^ d) with o; [by split_and!|]. apply Z.div_unique with (a - 1 - 2 ^ d * o); lia.
  - apply list_elem_of_singleton in Hin as [= -> ->]. by split_and!.
Qed.

(** ** Sets of nodes that are enough to verify *)

(** The nodes of [K] are complete among [l] leaves, the roots are among them,
    and the way up from each of them is. *)
Definition closed_at (l : Z) (K : Z -> Z -> Prop) : Prop :=
  (forall d o, K d o -> complete l d o) /\ (forall d o, (d, o) ∈ peaks l -> K d o) /\
  forall d o, K d o -> complete l (d + 1) (o / 2) -> K d (sibling_offset o) /\ K (d + 1) (o / 2).

Lemma closed_at_ext l (K K' : Z -> Z -> Prop) :
  (forall d o, K d o <-> K' d o) -> closed_at l K -> closed_at l K'.
Proof.
  intros He (H1 & H2 & H3). split_and!.
  - intros d o Hk. by apply H1, He.
  - intros d o Hin. by apply He, H2.
  - intros d o Hk Hc. rewrite <-!He. by apply H3; [apply He|].
Qed.

(** A left child that is complete while its sibling is not is a root. *)
Lemma peaks_at_intro d q e o :
  0 <= d -> d <= e -> 0 <= o -> Z.even o = true -> 2 ^ (e - d) * (o + 1) <= q < 2 ^ (e - d) * (o + 2) ->
  (e, o) ∈ peaks_at d q.
Proof.
  intros Hd He Ho Hev Hq. assert (0 < 2 ^ (e - d)) by (apply Z.pow_pos_nonneg; lia).
  destruct q as [|p|]; [nia| |nia]. cbn [peaks_at]. revert d Hd He Hq H.
  induction p as [p IH|p IH|]; intros d Hd He Hq Hpos; cbn [peaks_pos].
  all: destruct (decide (e = d)) as [->|Hne]; [rewrite Z.sub_diag, Z.pow_0_r in Hq|].
  - apply elem_of_app. right. replace o with (2 * Z.pos p) by lia. by left.
  - apply elem_of_app. left. replace (e - d) with (Z.succ (e - (d + 1))) in Hq by lia.
    rewrite Z.pow_succ_r in Hq by lia. apply IH; [lia..|]. apply Z.pow_pos_nonneg; lia.
  - exfalso. replace o with (2 * Z.pos p - 1) in Hev by lia. rewrite Z.even_sub, Z.even_mul in Hev. done.
  - replace (e - d) with (Z.succ (e - (d + 1))) in Hq by lia.
    rewrite Z.pow_succ_r in Hq by lia. apply IH; [lia..|]. apply Z.pow_pos_nonneg; lia.
  - replace o with 0 by lia. by left.
  - exfalso. replace (e - d) with (Z.succ (e - (d + 1))) in Hq by lia.
    rewrite Z.pow_succ_r in Hq by lia. assert (0 < 2 ^ (e - (d + 1))) by (apply Z.pow_pos_nonneg; lia). nia.
Qed.

Lemma peaks_intro n e o :
  0 <= e -> 0 <= o -> Z.even o = true -> 2 ^ e * (o + 1) <= n < 2 ^ e * (o + 2) -> (e, o) ∈ peaks n.
Proof. intros He Ho Hev Hn. apply peaks_at_intro; [lia..|done|]. by rewrite Z.sub_0_r. Qed.

(** The nodes a new tree completes are the ones that end with it. *)
Lemma completed_at_ends (m : nat) : forall d q e o,
  0 <= d -> 0 <= q -> (e, o) ∈ completed_at m d q -> d <= e /\ 0 <= o /\ 2 ^ e * (o + 1) = 2 ^ d * (q + 1).
Proof.
  induction m as [|m IH]; intros d q e o Hd Hq; cbn [completed_at].
  - intros [= -> ->]%list_elem_of_singleton. lia.
  - intros [[= -> ->]|Hin]%elem_of_cons; [lia|].
    destruct (Z.odd q) eqn:Hodd; [|by apply elem_of_nil in Hin].
    pose proof (Z.div2_odd q) as Hdiv. rewrite Z.div2_div, Hodd in Hdiv. cbn [Z.b2z] in Hdiv.
    apply IH in Hin as (? & ? & Heq); [|lia|apply Z.div_pos; lia]. rewrite pow2_succ in Heq by done.
    split_and!; [lia|done|]. rewrite Heq. replace (q + 1) with (2 * (q / 2 + 1)) by lia. lia.
Qed.

Lemma completed_at_intro (m : nat) d q e o :
  0 <= d -> 0 <= q < 2 ^ Z.of_nat m -> d <= e -> 0 <= o -> 2 ^ e * (o + 1) = 2 ^ d * (q + 1) ->
  (e, o) ∈ completed_at m d q.
Proof.
  intros Hd Hq He Ho Heq. apply completed_at_elem; [done..|].
  replace e with (d + (e - d)) in Heq at 1 by lia. rewrite Z.pow_add_r, <-Z.mul_assoc in Heq by lia.
  apply Z.mul_reg_l in Heq; [done|]. apply Z.pow_nonzero; lia.
Qed.

(** The order in which a tree that grows completes its nodes: by the leaf they
    end with, the smaller ones first. *)
Definition node_end (p : Z * Z) : Z := 2 ^ p.1 * (p.2 + 1).
Definition later (p p' : Z * Z) : Prop := node_end p < node_end p' \/ node_end p = node_end p' /\ p.1 < p'.1.

Lemma completed_at_sorted (m : nat) : forall d q,
  0 <= d -> 0 <= q -> StronglySorted later (completed_at m d q).
Proof.
  induction m as [|m IH]; intros d q Hd Hq; cbn [completed_at]; [by repeat constructor|]. constructor.
  - destruct (Z.odd q); [apply IH; [lia|apply Z.div_pos; lia]|constructor].
  - destruct (Z.odd q) eqn:Hodd; [|constructor]. apply Forall_forall. intros [e o] Hin.
    pose proof (Z.div2_odd q) as Hdiv. rewrite Z.div2_div, Hodd in Hdiv. cbn [Z.b2z] in Hdiv.
    apply completed_at_ends in Hin as (He & _ & Heq); [|lia|apply Z.div_pos; lia].
    rewrite pow2_succ in Heq by done. right. unfold node_end. cbn [fst snd]. split; [|lia]. rewrite Heq, Hdiv at 1. lia.
Qed.

Lemma sorted_app (l : Z) ps qs :
  StronglySorted later ps -> StronglySorted later qs -> (forall p, p ∈ ps -> node_end p <= l) ->
  (forall p, p ∈ qs -> l < node_end p) -> StronglySorted later (ps ++ qs).
Proof.
  intros Hp Hq Hl Hr. induction Hp as [|p ps Hs IH Hall]; [done|]. cbn [app]. constructor.
  - apply IH. intros x Hx. apply Hl. by right.
  - apply Forall_app. split; [done|]. apply Forall_forall. intros x Hx. left.
    pose proof (Hl p ltac:(by left)). pose proof (Hr x Hx). lia.
Qed.

Section Upgrade.
Context `{FT : FlatTree} {FL : FlatTreeLaws FT} `{CE : CompactEncoding} {CL : CompactEncodingLaws CE}
  `{B2 : Blake2b} {BL : Blake2bLaws B2} `{ED : Ed25519} {EL : Ed25519Laws ED} `{IO : IntMapOrder}.
Implicit Types (blocks : list (list Z)) (self : MerkleTree) (nodes : nodes_map).

(** The cursor finds the next full root. *)
Lemma full_root_next s d o ps n it :
  full_from s ((d, o) :: ps) n n -> n < 2 ^ 57 -> iter_at 0 s it ->
  complete n d o /\
  exists it', iter_full_root it (2 * n) = (it', true) /\ iter_at d o it'.
Proof.
  intros (Hd & Ho & -> & Hlt & Hlog & Hr) Hn Hit. pose proof (full_from_le _ _ _ _ Hr) as Hle.
  pose proof (Z.pow_pos_nonneg 2 d). split; [by split_and!|].
  destruct (iter_full_root_law it (2 ^ d * o) n) as (it' & Hf & Hat); [nia|lia| |done|].
  - rewrite <-Hlog. by exists o; lia.
  - exists it'. split; [done|]. rewrite <-Hlog in Hat. rewrite Z.mul_comm, Z.div_mul in Hat by lia. done.
Qed.

Lemma next_tree_at n d o it :
  complete n d o -> n < 2 ^ 57 -> iter_at d o it -> iter_at 0 (2 ^ d * (o + 1)) (iter_next_tree it).
Proof. intros Hc Hn Hit. apply iter_next_tree_law; [by eapply complete_in_tree|done]. Qed.

(** ** Creating *)

(** What the part at [(d, o)] adds to a proof and the nodes of an upgrade: the
    node, or the path of the requested block [i] below it. *)
Definition piece blocks self nodes (i : option Z) (s : LocalProof * (list StoreInfoInstruction * list Node))
    (p : Z * Z) : LocalProof * (list StoreInfoInstruction * list Node) :=
  match lp_nodes s.1, lp_seek s.1, i with
  | None, None, Some i =>
      if (2 ^ p.1 * p.2 <=? i) && (i <? 2 ^ p.1 * (p.2 + 1)) then
        let path := proof_path true (Z.to_nat p.1) 0 i in
        (mkLocalProof None (Some (known blocks self nodes path)) (lp_upgrade s.1) (lp_additional_upgrade s.1),
         (s.2.1 ++ missing self nodes path, s.2.2))
      else (s.1, pushed blocks self nodes [p] s.2)
  | _, _, _ => (s.1, pushed blocks self nodes [p] s.2)
  end.

(** The request names block [i], or no part of the tree. *)
Definition requests (n : Z) (indexed : option NormalizedIndexed) (sub_tree : Z) (i : option Z) : Prop :=
  match i with
  | Some i => 0 <= i < n /\ sub_tree = 2 * i /\
      exists cnt last, indexed = Some (mkNormalizedIndexed true (2 * i) cnt last)
  | None => 2 * n <= sub_tree
  end.

Lemma contains_leaf n d o it i :
  complete n d o -> n < 2 ^ 57 -> iter_at d o it -> 0 <= i ->
  iter_contains it (2 * i) = (2 ^ d * o <=? i) && (i <? 2 ^ d * (o + 1)).
Proof.
  intros Hc Hn Hit Hi. pose proof (complete_in_tree _ _ _ Hc Hn) as Hin. destruct Hc as (Hd & _).
  rewrite (iter_contains_law it d o) by (done || lia). unfold span_left, span_right. rewrite pow2_succ by done.
  f_equal; apply eq_true_iff_eq; rewrite ?Z.leb_le, ?Z.ltb_lt; lia.
Qed.

Lemma upgrade_step_ok blocks self nodes indexed sub_tree i d o it s :
  view_ok blocks self nodes -> no_blank blocks -> zlen blocks < 2 ^ 57 -> complete (zlen blocks) d o ->
  iter_at d o it -> requests (zlen blocks) indexed sub_tree i ->
  Proofs.upgrade_step self nodes indexed false sub_tree it s.1 s.2 = Ok (piece blocks self nodes i s (d, o)).
Proof.
  intros Hv Hnb Hn Hc Hit Hs. unfold Proofs.upgrade_step, piece. pose proof Hit as [Hi _].
  assert (Proofs.push_node self (iter_index it) nodes s.2 = Ok (pushed blocks self nodes [(d, o)] s.2)) as Hpush
    by (rewrite Hi; by apply push_node_ok).
  destruct s as [p acc]. cbn [fst snd] in *. destruct (lp_nodes p); [by rewrite Hpush, bind_Ok|].
  destruct (lp_seek p) eqn:Hseek; [by rewrite Hpush, bind_Ok|]. destruct i as [i|]; cbn [requests] in Hs.
  - destruct Hs as (Hr & -> & cnt & last & ->). rewrite (contains_leaf (zlen blocks) d o) by (done || lia).
    destruct (Z.leb_spec (2 ^ d * o) i) as [Hlo|]; cbn [andb]; [|by rewrite Hpush, bind_Ok].
    destruct (Z.ltb_spec i (2 ^ d * (o + 1))) as [Hhi|]; cbn [andb]; [|by rewrite Hpush, bind_Ok].
    pose proof Hc as (Hd & _ & _). assert (i / 2 ^ d = o) as Hdiv.
    { symmetry. apply Z.div_unique with (i - 2 ^ d * o); lia. }
    pose proof (block_and_seek_proof_ok blocks self nodes true 0 i (Z.to_nat d) cnt last (2 * i) p Hv Hnb Hn) as Hrun.
    rewrite Z2Nat.id, Z.add_0_l, Hdiv, node_at_leaf in Hrun by done.
    rewrite Hi, Hrun, bind_Ok, Hseek by (done || lia). by destruct (missing _ _ _); cbn; rewrite ?app_nil_r; destruct acc.
  - rewrite (contains_complete (zlen blocks) d o) by done. by rewrite Hpush, bind_Ok.
Qed.

(** A leaf below a node is left of the sibling on its right and right of the
    one on its left. *)
Lemma sibling_beside d o x :
  0 <= d -> 0 <= o -> 2 ^ d * o <= x < 2 ^ d * (o + 1) ->
  (2 * x <? node_at d (sibling_offset o)) = Z.even o.
Proof.
  intros Hd Ho Hx. pose proof (Z.pow_pos_nonneg 2 d). unfold sibling_offset, node_at. destruct (Z.even o).
  - apply Z.ltb_lt. nia.
  - apply Z.ltb_ge. nia.
Qed.

Lemma connect_loop_ok blocks self nodes indexed sub_tree i x (m : nat) : forall d o it s fuel,
  view_ok blocks self nodes -> no_blank blocks -> zlen blocks < 2 ^ 57 ->
  0 <= d -> 0 <= o -> 2 ^ d * o <= x < 2 ^ d * (o + 1) ->
  complete (zlen blocks) (d + Z.of_nat m) (o / 2 ^ Z.of_nat m) ->
  requests (zlen blocks) indexed sub_tree i -> iter_at d o it -> (m <= fuel)%nat ->
  exists it', iter_at (d + Z.of_nat m) (o / 2 ^ Z.of_nat m) it' /\
    Proofs.connect_loop fuel self nodes indexed false sub_tree (2 * x)
        (node_at (d + Z.of_nat m) (o / 2 ^ Z.of_nat m)) it s.1 s.2 =
      let r := foldl (piece blocks self nodes i) s (fill m d o) in Ok (it', r.1, r.2).
Proof.
  induction m as [|m IH]; intros d o it s fuel Hv Hnb Hn Hd Ho Hx Hc Hs Hit Hf; pose proof Hit as [Hi _].
  - rewrite Z.add_0_r, Z.pow_0_r, Z.div_1_r. cbn [fill foldl]. exists it. split; [done|].
    destruct fuel; cbn [Proofs.connect_loop]; by rewrite Hi, Z.eqb_refl.
  - destruct fuel as [|fuel]; [lia|]. cbn [Proofs.connect_loop fill].
    pose proof Hc as (_ & Hoc & _).
    rewrite Hi, (proj2 (Z.eqb_neq _ _)) by (intros E; apply node_at_inj in E; lia).
    pose proof Hc as [Hp Hc']%complete_up; [|done].
    destruct (iter_up _ d o it Hd Hp Hn Hit) as (Hsib & Hpar & _). pose proof Hsib as [Hsi _].
    destruct (complete_below _ d o Hd Hp) as [_ Hsc].
    rewrite Hsi, sibling_beside by done.
    set (s1 := foldl (piece blocks self nodes i) s (if Z.even o then [(d, o + 1)] else [])).
    assert ((if Z.even o then Proofs.upgrade_step self nodes indexed false sub_tree (iter_sibling it) s.1 s.2
             else Ok (s.1, s.2)) = Ok s1) as ->.
    { unfold s1, sibling_offset in *. destruct (Z.even o); [|by destruct s].
      by rewrite (upgrade_step_ok blocks _ _ _ _ i d (o + 1)). }
    rewrite bind_Ok, half_up, foldl_app. fold s1.
    replace (d + Z.of_nat (S m)) with (d + 1 + Z.of_nat m) by lia.
    destruct (IH (d + 1) (o / 2) (iter_parent (iter_sibling it)) s1 fuel)
      as (it' & Hit' & Hrun); try done; [lia|apply Z.div_pos; lia| |lia|].
    { rewrite pow2_succ by done. pose proof (Z.mul_div_le o 2). pose proof (Z.mul_succ_div_gt o 2).
      pose proof (Z.pow_pos_nonneg 2 d). nia. }
    exists it'. split; [done|]. by destruct s1.
Qed.

Lemma upgrade_loop_ok blocks self nodes indexed sub_tree i a ps : forall s it (h : bool) st fuel,
  view_ok blocks self nodes -> no_blank blocks -> zlen blocks < 2 ^ 57 ->
  full_from s ps (zlen blocks) (zlen blocks) -> 0 <= s -> 0 <= a < zlen blocks ->
  (if h then a <= s else 0 < a) ->
  requests (zlen blocks) indexed sub_tree i -> iter_at 0 s it -> (length ps <= fuel)%nat ->
  exists h', (h = true \/ s < zlen blocks -> h' = true) /\
    Proofs.upgrade_loop fuel self nodes indexed false (2 * a) (2 * zlen blocks) sub_tree
        (iter_full_root it (2 * zlen blocks)) (Proofs.mkUpgradeState h st.1 st.2) =
      let r := foldl (piece blocks self nodes i) st (upgrade_nodes a ps) in Ok (Proofs.mkUpgradeState h' r.1 r.2).
Proof.
  induction ps as [|[d o] ps IH]; intros s it h st fuel Hv Hnb Hn Hfull Hs Ha Hh Hsub Hit Hf.
  - cbn in Hfull. subst s. rewrite (iter_full_root_done it (zlen blocks)) by (done || lia). exists h. cbn [upgrade_nodes foldl].
    split; [intros [|]; [done|lia]|]. by destruct fuel.
  - destruct fuel as [|fuel]; [cbn in Hf; lia|]. cbn [length] in Hf.
    destruct (full_root_next _ _ _ _ _ _ Hfull Hn Hit) as (Hc & it' & -> & Hat).
    pose proof Hat as (Hi & _ & Hfac).
    pose proof Hfull as (Hd & Ho & Hseq & Hlt & _ & Hr). pose proof (Z.pow_pos_nonneg 2 d).
    pose proof (complete_depth _ _ _ Hc Hn). pose proof (full_from_le _ _ _ _ Hr).
    cbn [Proofs.upgrade_loop upgrade_nodes negb]. rewrite Hi, Hfac.
    replace (2 ^ (d + 1) / 2) with (2 ^ d) by (rewrite pow2_succ by done; rewrite Z.mul_comm, Z.div_mul; lia).
    assert ((node_at d o + 2 ^ d <? 2 * a) = (2 ^ d * (o + 1) <=? a)) as ->.
    { unfold node_at. destruct (Z.leb_spec (2 ^ d * (o + 1)) a); [apply Z.ltb_lt|apply Z.ltb_ge]; lia. }
    destruct (Z.leb_spec (2 ^ d * (o + 1)) a) as [Hend|Hend].
    + assert (h = false) as -> by (destruct h; [nia|done]).
      destruct (IH (2 ^ d * (o + 1)) (iter_next_tree it') false st fuel) as (h' & Hh' & Hrun);
        try done; [nia|by eapply next_tree_at|lia|].
      exists h'. cbn [app]. split; [|done]. intros _. apply Hh'. right. lia.
    + assert (negb h && iter_contains it' (2 * a - 2) = (2 ^ d * o <? a)) as Hcon.
      { destruct h; cbn [negb andb]; [symmetry; apply Z.ltb_ge; lia|].
        rewrite (iter_contains_law it' d o) by (done || lia || by eapply complete_in_tree).
        unfold span_left, span_right. rewrite pow2_succ by done.
        destruct (Z.ltb_spec (2 ^ d * o) a).
        - rewrite !(proj2 (Z.leb_le _ _)) by lia. done.
        - rewrite (proj2 (Z.leb_gt _ _)) by lia. done. }
      cbn [Proofs.us_has_upgrade Proofs.us_p Proofs.us_acc]. rewrite Hcon.
      destruct (Z.ltb_spec (2 ^ d * o) a) as [Hin|Hout].
      * replace (2 * a - 2) with (2 * (a - 1)) by lia.
        assert ((a - 1) / 2 ^ d = o) as Hdiv.
        { symmetry. apply Z.div_unique with (a - 1 - 2 ^ d * o); lia. }
        destruct (connect_loop_ok blocks self nodes indexed sub_tree i (a - 1) (Z.to_nat d) 0 (a - 1)
          (iter_seek it' (2 * (a - 1))) st tree_fuel) as (it2 & Hat2 & Hrun); try done; try lia.
        { rewrite Z2Nat.id, Z.add_0_l, Hdiv by done. done. }
        { rewrite <-node_at_leaf. apply iter_seek_law.
          split_and!; [lia..|]. change (2 ^ (0 + 1)) with 2. lia. }
        { unfold tree_fuel. lia. }
        rewrite Z2Nat.id, Z.add_0_l, Hdiv in Hat2, Hrun by done. rewrite Hrun, bind_Ok.
        destruct (IH (2 ^ d * (o + 1)) (iter_next_tree it2) true
          (foldl (piece blocks self nodes i) st (fill (Z.to_nat d) 0 (a - 1))) fuel) as (h' & Hh' & Hrun');
          try done; [nia|lia|by eapply next_tree_at|lia|].
        exists h'. rewrite foldl_app. split; [|exact Hrun']. intros _. apply Hh'. by left.
      * rewrite (upgrade_step_ok blocks _ _ _ _ i d o) by done. rewrite bind_Ok.
        destruct (IH (2 ^ d * (o + 1)) (iter_next_tree it') true
          (piece blocks self nodes i st (d, o)) fuel) as (h' & Hh' & Hrun');
          try done; [nia|lia|by eapply next_tree_at|lia|].
        exists h'. cbn [app foldl]. split; [intros _; apply Hh'; by left|].
        by destruct (piece blocks self nodes i st (d, o)).
Qed.

Lemma length_peaks n : n < 2 ^ 57 -> (length (peaks n) <= 57)%nat.
Proof.
  intros Hn. unfold peaks. destruct n as [|p|]; cbn [peaks_at]; [cbn; lia| |cbn; lia].
  assert (forall d, (length (peaks_pos d p) <= Pos.size_nat p)%nat) as Hl.
  { clear Hn. induction p as [p IH|p IH|]; intros d; cbn [peaks_pos Pos.size_nat].
    - rewrite length_app. specialize (IH (d + 1)). cbn. lia.
    - specialize (IH (d + 1)). lia.
    - done. }
  specialize (Hl 0). enough (Pos.size_nat p <= 57)%nat by lia.
  assert (Z.of_nat (Pos.size_nat p) <= Z.log2 (Z.pos p) + 1).
  { clear. induction p as [p IH|p IH|]; cbn [Pos.size_nat]; [| |done].
    - change (Z.pos p~1) with (2 * Z.pos p + 1). rewrite Z.log2_succ_double by lia. lia.
    - change (Z.pos p~0) with (2 * Z.pos p). rewrite Z.log2_double by lia. lia. }
  assert (Z.log2 (Z.pos p) < 57) by (apply Z.log2_lt_pow2; lia). lia.
Qed.

(** Without a block all parts are sent as nodes. *)
Lemma pieces_pushed blocks self nodes ps : forall i s,
  is_Some (lp_nodes s.1) \/ (forall d o, (d, o) ∈ ps -> forall j, i = Some j -> 2 ^ d * (o + 1) <= j) ->
  foldl (piece blocks self nodes i) s ps = (s.1, pushed blocks self nodes ps s.2).
Proof.
  induction ps as [|[d o] ps IH]; intros i s Hi; cbn [foldl]; [by rewrite pushed_nil; destruct s|].
  assert (piece blocks self nodes i s (d, o) = (s.1, pushed blocks self nodes [(d, o)] s.2)) as ->.
  { unfold piece. destruct Hi as [[x ->]|Hi]; [done|]. destruct (lp_nodes s.1); [done|]. destruct (lp_seek s.1); [done|].
    destruct i as [j|]; [|done]. cbn [fst snd]. specialize (Hi d o ltac:(by left) j eq_refl).
    rewrite (proj2 (Z.ltb_ge _ _)), andb_false_r by lia. done. }
  rewrite IH by (destruct Hi as [?|Hi]; [by left|right; intros; eapply Hi; [by right|done]]).
  cbn [fst snd]. by rewrite pushed_app.
Qed.

(** With a block, the part it is below is replaced by its path. *)
Lemma pieces_block blocks self nodes i (m : nat) before after p acc :
  lp_nodes p = None -> lp_seek p = None -> 0 <= i ->
  (forall d o, (d, o) ∈ before -> 2 ^ d * (o + 1) <= i) ->
  let path := proof_path true m 0 i in
  foldl (piece blocks self nodes (Some i)) (p, acc) (before ++ (Z.of_nat m, i / 2 ^ Z.of_nat m) :: after) =
    (mkLocalProof None (Some (known blocks self nodes path)) (lp_upgrade p) (lp_additional_upgrade p),
     (acc.1 ++ missing self nodes (before ++ path ++ after), acc.2 ++ known blocks self nodes (before ++ after))).
Proof.
  intros Hp Hs Hi Hb path. rewrite foldl_app, (pieces_pushed blocks self nodes before) by (right; intros d o Hin j [= <-]; by apply Hb).
  cbn [foldl fst snd]. pose proof (Z.pow_pos_nonneg 2 (Z.of_nat m)).
  pose proof (Z.mul_div_le i (2 ^ Z.of_nat m)). pose proof (Z.mul_succ_div_gt i (2 ^ Z.of_nat m)).
  unfold piece at 2. cbn [fst snd]. rewrite Hp, Hs, (proj2 (Z.leb_le _ _)), (proj2 (Z.ltb_lt _ _)) by lia.
  cbn [andb]. rewrite Nat2Z.id. fold path. rewrite pieces_pushed by (left; by eexists).
  unfold pushed. cbn [fst snd]. rewrite !missing_app, known_app. by rewrite <-!app_assoc.
Qed.

Lemma upgrade_proof_ok blocks self nodes indexed sub_tree i a :
  view_ok blocks self nodes -> no_blank blocks -> zlen blocks < 2 ^ 57 -> 0 <= a < zlen blocks ->
  requests (zlen blocks) indexed sub_tree i ->
  Proofs.upgrade_proof self indexed false (2 * a) (2 * zlen blocks) sub_tree (mkLocalProof None None None None) nodes =
    let r := foldl (piece blocks self nodes i) (mkLocalProof None None None None, ([], []))
               (upgrade_nodes a (peaks (zlen blocks))) in
    Ok (mkLocalProof (lp_seek r.1) (lp_nodes r.1) (Some r.2.2) (lp_additional_upgrade r.1), Proofs.either_unit r.2.1).
Proof.
  intros Hv Hnb Hn Ha Hr. unfold Proofs.upgrade_proof. pose proof (length_peaks _ Hn).
  destruct (upgrade_loop_ok blocks self nodes indexed sub_tree i a (peaks (zlen blocks)) 0 (iter_new 0)
    (2 * a =? 0) (mkLocalProof None None None None, ([], [])) tree_fuel) as (h' & Hh' & Hrun); try done; try lia.
  { apply full_peaks. lia. }
  { destruct (Z.eqb_spec (2 * a) 0); lia. }
  { change 0 with (node_at 0 0) at 2. by apply iter_new_law. }
  { unfold tree_fuel. lia. }
  cbn [fst snd] in Hrun. rewrite Hrun, Hh' by (right; lia). rewrite bind_Ok. cbn zeta.
  destruct (foldl _ _ _) as [p [ins up]]. done.
Qed.

(** What is sent for an upgrade from [a] blocks to all. *)
Definition upgrade_data blocks (a : Z) (sig : Signature) : DataUpgrade :=
  mkDataUpgrade a (zlen blocks - a) (merkle_peaks blocks (upgrade_nodes a (peaks (zlen blocks)))) []
    (sig_to_bytes sig).

Lemma create_upgrade_ok blocks self infos nodes a sig :
  tree_for blocks self -> infos_to_nodes infos = Ok nodes -> view_ok blocks self nodes ->
  no_blank blocks -> log_fits blocks -> 0 <= a < zlen blocks -> mt_signature self = Some sig ->
  Proofs.create_valueless_proof self None None None (Some (mkRequestUpgrade a (zlen blocks - a))) infos =
    Ok (match missing self nodes (upgrade_nodes a (peaks (zlen blocks))) with
        | [] => Right (mkValuelessProof (mt_fork self) None None None (Some (upgrade_data blocks a sig)))
        | ins => Left ins
        end).
Proof.
  intros (_ & Hl & _) Hinf Hv Hnb [Hn _] Ha Hsig. unfold Proofs.create_valueless_proof.
  rewrite Hinf, bind_Ok, Hl. cbn [ru_start ru_length].
  checked. cbn [Proofs.normalize_indexed fmap option_fmap option_map]. rewrite bind_Ok.
  replace (a * 2 + (zlen blocks - a) * 2) with (2 * zlen blocks) by lia. rewrite (Z.mul_comm a 2).
  rewrite (proj2 (Z.leb_gt (2 * zlen blocks) (2 * a))), (Z.ltb_irrefl (2 * zlen blocks)) by lia.
  cbn [orb]. unfold Proofs.proof_sub_tree. rewrite !bind_Ok.
  rewrite (upgrade_proof_ok blocks self nodes None _ None) by (done || (cbn; lia)).
  rewrite pieces_pushed by (right; discriminate). rewrite bind_Ok. cbn [pushed fst snd app].
  destruct (missing self nodes (upgrade_nodes a (peaks (zlen blocks)))) as [|ins more] eqn:Hm; [|done].
  rewrite known_all by done. unfold Proofs.assemble_proof. cbn. rewrite Hsig. done.
Qed.

(** ** Verifying *)

(** The changeset stands for the first [l] blocks. *)
Definition cs_prefix blocks (l : Z) (cs : MerkleTreeChangeset) : Prop :=
  cs_roots cs = merkle_peaks blocks (peaks l) /\ cs_length cs = l /\ cs_byte_length cs = byte_sum blocks l.

(** Only nodes of the log were added, among them all that are needed. *)
Record grown blocks (cs0 cs : MerkleTreeChangeset) : Prop := {
  gr_same : cs = mkChangeset _ (cs_length cs) (cs_ancestors cs0) (cs_byte_length cs) (cs_batch_length cs0)
    (cs_fork cs0) (cs_roots cs) (cs_nodes cs) (cs_hash cs0) (cs_signature cs0) (cs_upgraded cs)
    (cs_original_tree_length cs0) (cs_original_tree_fork cs0);
  gr_nodes : exists ps, cs_nodes cs = cs_nodes cs0 ++ merkle_peaks blocks ps /\
    (forall d o, (d, o) ∈ ps -> complete (zlen blocks) d o) /\
    (forall K, closed_at (cs_length cs0) K -> closed_at (cs_length cs) (fun d o => K d o \/ (d, o) ∈ ps)) /\
    StronglySorted later ps /\ forall p, p ∈ ps -> cs_length cs0 < node_end p <= cs_length cs;
  gr_length : cs_length cs0 <= cs_length cs;
}.

#[local] Instance grown_preorder blocks : PreOrder (grown blocks).
Proof.
  split.
  - intros cs. split; [by destruct cs| |lia]. exists []. rewrite app_nil_r.
    split_and!; [done|by intros ? ? ?%elem_of_nil| |constructor|by intros ? ?%elem_of_nil]. intros K. apply closed_at_ext. intros d o.
    split; [by left|by intros [?|?%elem_of_nil]].
  - intros c1 c2 c3 [E1 (p1 & N1 & C1 & P1 & S1 & B1) L1] [E2 (p2 & N2 & C2 & P2 & S2 & B2') L2]. split; [| |lia].
    + rewrite E2. cbn. rewrite E1. done.
    + exists (p1 ++ p2). rewrite N2, N1, merkle_peaks_snoc, app_assoc. split_and!; [done| | | |].
      * intros d o [?|?]%elem_of_app; auto.
      * intros K HK. specialize (P2 _ (P1 K HK)). revert P2. apply closed_at_ext. intros d o.
        rewrite elem_of_app. tauto.
      * apply (sorted_app (cs_length c2)); [done..| |]; intros p Hp; [by apply B1|by apply B2'].
      * intros p [Hp|Hp]%elem_of_app; [specialize (B1 p Hp)|specialize (B2' p Hp)]; lia.
Qed.

Lemma peaks_completed (m : nat) : forall d q p,
  0 <= q < 2 ^ Z.of_nat m -> p ∈ peaks_at d (q + 1) -> p ∈ peaks_at d q \/ p ∈ completed_at m d q.
Proof.
  induction m as [|m IH]; intros d q p Hq Hp; cbn [completed_at].
  { assert (q = 0) as -> by (cbn in Hq; lia). by right. }
  pose proof (Z.div2_odd q) as Hdiv. rewrite Z.div2_div in Hdiv.
  assert (0 <= q / 2) by (apply Z.div_pos; lia). rewrite peaks_at_parity by lia.
  rewrite Nat2Z.inj_succ, Z.pow_succ_r in Hq by lia.
  destruct (Z.odd q) eqn:Hodd; cbn [Z.b2z] in Hdiv.
  - replace (q + 1) with (2 * (q / 2 + 1)) in Hp by lia. rewrite peaks_at_even in Hp by lia.
    apply IH in Hp as [Hp|Hp]; [left; apply elem_of_app; by left|right; by right|lia].
  - replace (q + 1) with (2 * (q / 2) + 1) in Hp by lia. rewrite peaks_at_odd in Hp by lia.
    apply elem_of_app in Hp as [Hp|Hp]; [left; apply elem_of_app; by left|right].
    apply list_elem_of_singleton in Hp as ->. replace (2 * (q / 2)) with q by lia. by left.
Qed.

(** Adding them keeps the set large enough. *)
Lemma closed_append (m : nat) d q (K : Z -> Z -> Prop) :
  0 <= d -> 0 <= q < 2 ^ Z.of_nat m -> closed_at (2 ^ d * q) K ->
  closed_at (2 ^ d * (q + 1)) (fun e o => K e o \/ (e, o) ∈ completed_at m d q).
Proof.
  intros Hd Hq (HK & Hpk & Hup). assert (0 < 2 ^ d) as Hpos by (apply Z.pow_pos_nonneg; lia). split_and!.
  - intros e o [Hk|Hin].
    + eapply complete_mono; [|by apply HK]. lia.
    + apply completed_at_ends in Hin as (? & ? & Heq); [|lia..]. split_and!; [lia|done|lia].
  - intros e o Hin. rewrite (peaks_aligned d (q + 1)) in Hin by lia.
    apply (peaks_completed m) in Hin as [Hin|Hin]; [left|by right|lia].
    apply Hpk. by rewrite peaks_aligned by lia.
  - intros e o Hin (_ & Ho2 & Hpar). rewrite pow2_succ in Hpar by (destruct Hin as [[? _]%HK|[? _]%completed_at_ends]; lia).
    destruct Hin as [Hk|Hin].
    + pose proof (HK e o Hk) as (He & Ho & Hle). assert (0 < 2 ^ e) by (apply Z.pow_pos_nonneg; lia).
      pose proof (sibling_cases o) as Hcases. set (h := o / 2) in *. destruct Hcases as [[E Hs]|[E Hs]].
      2: { destruct (Hup e o Hk) as [H1 H2]; [|split; by left]. split_and!; [lia|done|].
           rewrite pow2_succ by done. nia. }
      destruct (Z.le_gt_cases (2 * 2 ^ e * (h + 1)) (2 ^ d * q)) as [Hold|Hnew].
      { destruct (Hup e o Hk) as [H1 H2]; [|split; by left]. split_and!; [lia|done|]. by rewrite pow2_succ. }
      assert (d <= e) as Hde.
      { destruct (Z.le_gt_cases d e) as [|Hlt]; [done|exfalso].
        replace (2 ^ d) with (2 ^ e * (2 * 2 ^ (d - e - 1))) in Hle, Hnew.
        - rewrite E in Hle. rewrite <-!Z.mul_assoc in Hle, Hnew. set (t := 2 ^ (d - e - 1) * q) in *.
          apply Z.mul_le_mono_pos_l in Hle; [|lia].
          replace (2 * 2 ^ e * (h + 1)) with (2 ^ e * (2 * (h + 1))) in Hnew by lia.
          apply Z.mul_lt_mono_pos_l in Hnew; lia.
        - rewrite <-(Z.pow_1_r 2) at 2. rewrite <-!Z.pow_add_r by lia. f_equal. lia. }
      assert (2 * 2 ^ e * (h + 1) = 2 ^ d * (q + 1)) as Hend.
      { replace (2 ^ e) with (2 ^ d * 2 ^ (e - d)) in * by (rewrite <-Z.pow_add_r by lia; f_equal; lia).
        set (t := 2 * 2 ^ (e - d) * (h + 1)).
        replace (2 * (2 ^ d * 2 ^ (e - d)) * (h + 1)) with (2 ^ d * t) in * by (unfold t; lia).
        apply Z.mul_lt_mono_pos_l in Hnew; [|done]. apply Z.mul_le_mono_pos_l in Hpar; [|done]. f_equal. lia. }
      split; right; apply completed_at_intro; rewrite ?Hs, ?pow2_succ by done; lia.
    + apply completed_at_ends in Hin as (He & Ho & Heq); [|lia..]. assert (0 < 2 ^ e) by (apply Z.pow_pos_nonneg; lia).
      pose proof (sibling_cases o) as Hcases. set (h := o / 2) in *.
      destruct Hcases as [[E Hs]|[E Hs]]; [exfalso; rewrite <-Heq in Hpar; nia|]. split.
      * left. apply Hpk. rewrite Hs. apply peaks_intro; [lia|lia|by rewrite Z.even_mul|].
        assert (2 ^ d <= 2 ^ e) by (apply Z.pow_le_mono_r; lia). rewrite E in Heq. lia.
      * right. apply completed_at_intro; [lia..|done|]. rewrite pow2_succ by lia. rewrite <-Heq, E. lia.
Qed.

(** Appending the next tree of the log as a root. *)
Lemma append_root_ok blocks d q cs it :
  log_fits blocks -> complete (zlen blocks) d q -> cs_prefix blocks (2 ^ d * q) cs -> iter_at d q it ->
  exists cs' it' ps e o, Changeset.append_root cs (merkle_at blocks d q) it = Ok (cs', it') /\
    cs_prefix blocks (2 ^ d * (q + 1)) cs' /\ grown blocks cs cs' /\ cs_upgraded cs' = true /\
    peaks (2 ^ d * (q + 1)) = ps ++ [(e, o)] /\ iter_at e o it' /\
    zlen (cs_nodes cs') <= zlen (cs_nodes cs) + 58.
Proof.
  intros Hfit Hc (Hr & Hl & Hbl) Hit. pose proof Hc as (Hd & Hq & Hle). pose proof Hfit as [Hn Hb].
  pose proof (Z.pow_pos_nonneg 2 d) as Hpos. pose proof Hit as (_ & _ & Hfac).
  assert (node_length (merkle_at blocks d q) = byte_sum blocks (2 ^ d * (q + 1)) - byte_sum blocks (2 ^ d * q))
    as Hlen by (unfold merkle_at; rewrite merkle_length, Z2Nat.id by done; done).
  pose proof (byte_sum_le blocks (2 ^ d * (q + 1)) ltac:(nia)).
  pose proof (byte_sum_mono blocks (2 ^ d * q) (2 ^ d * (q + 1)) ltac:(nia)).
  pose proof (byte_sum_nonneg blocks (2 ^ d * q)).
  unfold Changeset.append_root. rewrite Hfac, Hl, Hbl, Hlen.
  replace (2 ^ (d + 1) / 2) with (2 ^ d) by (rewrite pow2_succ by done; rewrite Z.mul_comm, Z.div_mul; lia).
  replace (2 ^ d * q + 2 ^ d) with (2 ^ d * (q + 1)) by lia.
  replace (byte_sum blocks (2 ^ d * q) + (byte_sum blocks (2 ^ d * (q + 1)) - byte_sum blocks (2 ^ d * q)))
    with (byte_sum blocks (2 ^ d * (q + 1))) by lia.
  rewrite !checked_add_Ok by nia. rewrite !bind_Ok.
  match goal with |- context [Changeset.append_root_loop _ ?s _] => set (cs1 := s) end.
  assert (q < 2 ^ Z.of_nat (Z.to_nat (Z.log2_up (q + 1)))) as Hm.
  { rewrite Z2Nat.id by apply Z.log2_up_nonneg. pose proof (Z.log2_log2_up_spec (q + 1)). lia. }
  set (m := Z.to_nat (Z.log2_up (q + 1))) in *.
  destruct (append_root_loop_ok blocks m d q cs1 it (length (cs_roots cs1)))
    as (it' & e & o & ps & Hrun & Hps & Hit'); [|done|lia|].
  { split_and!; try done. cbn. rewrite Hr, peaks_aligned by done. done. }
  rewrite Hrun, (peaks_aligned d (q + 1)) by lia.
  eexists _, it', ps, e, o. split; [done|]. split_and!; [..|done|done|].
  - unfold cs_prefix. cbn. rewrite (peaks_aligned d (q + 1)) by lia. split_and!; [done|lia|].
    f_equal. lia.
  - split; [done| |cbn; nia]. exists (completed_at m d q). cbn. rewrite completed_at_cons. split_and!.
    + by rewrite <-app_assoc.
    + intros d' o' Hin. rewrite <-completed_at_cons in Hin. apply completed_at_complete in Hin; [|done..].
      eapply complete_mono; [|done]. lia.
    + rewrite Hl. replace (2 ^ d * q + 2 ^ d) with (2 ^ d * (q + 1)) by lia.
      intros K HK. rewrite <-completed_at_cons. by apply closed_append; [|lia|].
    + rewrite <-completed_at_cons. by apply completed_at_sorted.
    + intros [e' o'] Hin. rewrite <-completed_at_cons in Hin. apply completed_at_ends in Hin as (_ & _ & Hend); [|done..].
      unfold node_end. cbn [fst snd]. rewrite Hend. nia.
  - done.
  - cbn. unfold zlen, merkle_peaks. rewrite !length_app, length_fmap. pose proof (length_completed_at m d q) as Hlc.
    rewrite completed_at_cons in Hlc. cbn [length] in Hlc |- *.
    assert (Z.log2_up (q + 1) <= 57) by (apply Z.log2_up_le_pow2; nia). unfold m in *. lia.
Qed.

Lemma tiles_snoc s ps d o e : tiles s (ps ++ [(d, o)]) e -> e = 2 ^ d * (o + 1).
Proof.
  revert s. induction ps as [|[d' o'] ps IH]; intros s; cbn [tiles app].
  - by intros (_ & _ & _ & <-).
  - intros (_ & _ & _ & H). by eapply IH.
Qed.

Lemma peaks_last l ps d o :
  0 <= l -> peaks l = ps ++ [(d, o)] -> l = 2 ^ d * (o + 1) /\ 0 <= d /\ 0 <= o /\ Z.even o = true.
Proof.
  intros Hl Hp. pose proof (tiles_peaks l Hl) as Ht. rewrite Hp in Ht.
  assert ((d, o) ∈ peaks_at 0 l) as Hin by (fold (peaks l); rewrite Hp; apply elem_of_app; right; by left).
  apply peaks_at_elem in Hin as (? & ? & _ & ?); [|lia]. by apply tiles_snoc in Ht.
Qed.

(** A number with [k] trailing ones, halved that often. *)
Lemma ones_half k x : 0 <= k -> 0 <= x -> (2 ^ k * (x + 1) - 1) / 2 ^ k = x.
Proof.
  intros Hk Hx. pose proof (Z.pow_pos_nonneg 2 k). symmetry.
  apply Z.div_unique with (2 ^ k - 1); lia.
Qed.

(** The root that a right sibling is merged into. *)
Lemma left_child_above d o ps e x :
  0 <= d -> 0 <= o -> Z.even o = true -> peaks (2 ^ d * (o + 1 + 1)) = ps ++ [(e, x)] ->
  exists k : nat, e = d + 1 + Z.of_nat k /\ 0 <= x /\ o / 2 = 2 ^ Z.of_nat k * (x + 1) - 1.
Proof.
  intros Hd Ho He Hp. pose proof (Z.pow_pos_nonneg 2 d).
  destruct (peaks_last (2 ^ d * (o + 1 + 1)) ps e x ltac:(nia) Hp) as (Hl & He0 & Hx & _).
  assert (o = 2 * (o / 2)) as Hhalf by (rewrite Z.even_spec in He; destruct He as [y ->]; Z.div_mod_to_equations; lia).
  assert (0 <= o / 2) by (apply Z.div_pos; lia). set (h := o / 2) in *.
  assert (d + 1 <= e) as Hde.
  { rewrite (peaks_aligned d (o + 1 + 1)) in Hp by lia. replace (o + 1 + 1) with (2 * (h + 1)) in Hp by lia.
    rewrite peaks_at_even in Hp by lia.
    assert ((e, x) ∈ peaks_at (d + 1) (h + 1)) as Hin by (rewrite Hp; apply elem_of_app; right; by left).
    apply peaks_at_elem in Hin; lia. }
  exists (Z.to_nat (e - d - 1)). rewrite Z2Nat.id by lia. split_and!; [lia|done|].
  replace (2 ^ e) with (2 ^ d * (2 * 2 ^ (e - d - 1))) in Hl.
  - rewrite <-Z.mul_assoc in Hl. apply Z.mul_reg_l in Hl; lia.
  - rewrite <-(Z.pow_1_r 2) at 2. rewrite <-!Z.pow_add_r by lia. f_equal. lia.
Qed.

(** The next node of the path that is a left child. *)
Lemma next_left_child D O d o ps e x (m : nat) :
  0 <= d -> 0 <= o -> Z.even o = true -> Z.even O = true ->
  D = d + Z.of_nat (S m) -> O = o / 2 ^ Z.of_nat (S m) ->
  peaks (2 ^ d * (o + 1 + 1)) = ps ++ [(e, x)] ->
  exists m', (m' <= m)%nat /\ D = e + Z.of_nat m' /\ O = x / 2 ^ Z.of_nat m' /\
    fill m (d + 1) (o / 2) = fill m' e x.
Proof.
  intros Hd Ho He HE HD HO Hp. destruct (left_child_above d o ps e x Hd Ho He Hp) as (k & Hek & Hx & Hh).
  rewrite half_up in HO. set (h := o / 2) in *. pose proof (Z.pow_pos_nonneg 2 (Z.of_nat k)).
  assert (k <= m)%nat as Hkm.
  { destruct (Nat.le_gt_cases k m) as [|Hgt]; [done|exfalso].
    replace (Z.of_nat k) with (Z.of_nat m + (1 + (Z.of_nat k - Z.of_nat m - 1))) in Hh by lia.
    rewrite !Z.pow_add_r, Z.pow_1_r in Hh by lia. set (t := 2 ^ (Z.of_nat k - Z.of_nat m - 1)) in *.
    assert (0 < t) by (apply Z.pow_pos_nonneg; lia).
    rewrite HO, Hh in HE. replace (2 ^ Z.of_nat m * (2 * t) * (x + 1) - 1)
      with (2 ^ Z.of_nat m * (2 * t * (x + 1) - 1 + 1) - 1) in HE by lia.
    rewrite ones_half in HE by nia. replace (2 * t * (x + 1) - 1) with (2 * (t * (x + 1) - 1) + 1) in HE by lia.
    rewrite Z.even_add, Z.even_mul in HE. done. }
  exists (m - k)%nat. split_and!; [lia|lia| |].
  - rewrite HO, Hh. replace (Z.of_nat m) with (Z.of_nat k + Z.of_nat (m - k)) by lia.
    rewrite Z.pow_add_r, <-Z.div_div, ones_half by lia. done.
  - rewrite Hh. replace m with (k + (m - k))%nat at 1 by lia. rewrite fill_skip by done. f_equal. lia.
Qed.

Lemma grow_loop_ok blocks D O : forall fuel (m : nat) d o l ps q rest it cs,
  log_fits blocks -> complete (zlen blocks) D O -> Z.even O = true -> 0 <= l ->
  peaks l = ps ++ [(d, o)] -> D = d + Z.of_nat m -> O = o / 2 ^ Z.of_nat m -> cs_prefix blocks l cs ->
  iter_at d o it -> feeds q (merkle_peaks blocks (fill m d o) ++ rest) -> (m <= fuel)%nat ->
  exists q' it' cs', Proofs.grow_loop fuel (node_at D O) q it cs = Ok (q', it', cs') /\
    feeds q' rest /\ iter_at D O it' /\ cs_prefix blocks (2 ^ D * (O + 1)) cs' /\ grown blocks cs cs' /\
    (cs_upgraded cs = true \/ (0 < m)%nat -> cs_upgraded cs' = true) /\
    zlen (cs_nodes cs') <= zlen (cs_nodes cs) + 58 * Z.of_nat m.
Proof.
  induction fuel as [|fuel IH]; intros m d o l ps q rest it cs Hfit Hc HE Hl Hp HD HO Hcs Hit Hq Hf;
    destruct (peaks_last _ _ _ _ Hl Hp) as (Hl' & Hd & Ho & He); pose proof Hit as [Hi _];
    (destruct m as [|m]; [rewrite Z.add_0_r in HD; rewrite Z.pow_0_r, Z.div_1_r in HO; subst|]).
  1, 3: exists q, it, cs; cbn [Proofs.grow_loop]; rewrite Hi, Z.eqb_refl;
    split_and!; [done..|reflexivity|intros [|]; [done|lia]|lia].
  1: lia.
  cbn [Proofs.grow_loop fill] in Hq |- *. rewrite He in Hq. pose proof Hc as (_ & HO0 & _).
  rewrite Hi, (proj2 (Z.eqb_neq _ _)) by (intros E; apply node_at_inj in E; lia).
  pose proof Hc as Hc'. rewrite HD, HO in Hc'. apply complete_up in Hc' as [Hpc _]; [|done].
  pose proof Hfit as [Hn _].
  destruct (iter_up _ d o it Hd Hpc Hn Hit) as (Hsib & _ & _).
  destruct (complete_below _ d o Hd Hpc) as [_ Hsc]. unfold sibling_offset in Hsib, Hsc. rewrite He in Hsib, Hsc.
  rewrite <-app_comm_cons in Hq. cbn [app] in Hq.
  change (merkle_peaks blocks ((d, o + 1) :: ?x)) with (merkle_at blocks d (o + 1) :: merkle_peaks blocks x) in Hq.
  rewrite <-app_comm_cons in Hq. destruct (feed_shift _ _ _ Hq) as (q1 & Hs & Hq1).
  rewrite merkle_at_index in Hs by done. pose proof Hsib as [Hsi _]. rewrite Hsi, Hs, bind_Ok.
  destruct (append_root_ok blocks d (o + 1) cs (iter_sibling it)) as (cs1 & it1 & ps1 & e & x & -> & Hcs1 & Hg & Hu & Hp1 & Hit1 & Hz1);
    [done..|by rewrite <-Hl'|done|]. rewrite bind_Ok.
  destruct (next_left_child D O d o ps1 e x m) as (m' & Hm' & HD' & HO' & Hfill); [done..|]. rewrite Hfill in Hq1.
  pose proof (Z.pow_pos_nonneg 2 d).
  destruct (IH m' e x (2 ^ d * (o + 1 + 1)) ps1 q1 rest it1 cs1) as (q' & it' & cs' & -> & Hq' & Hit' & Hcs' & Hg' & Hu' & Hz');
    try done; [nia|lia|].
  exists q', it', cs'. split_and!; try done; [by etrans| |lia]. intros _. apply Hu'. by left.
Qed.

(** No root of the first [s] blocks is at a node behind them. *)
Lemma not_same_root blocks s d o cs i :
  0 <= s -> s = 2 ^ d * o -> 0 <= d -> 0 <= o -> cs_prefix blocks s cs ->
  match cs_roots cs !! i with Some r => node_index r =? node_at d o | None => false end = false.
Proof.
  intros Hs0 Hs Hd Ho (Hr & _). rewrite Hr. unfold merkle_peaks. rewrite list_lookup_fmap.
  destruct (peaks s !! i) as [[e x]|] eqn:Hp; [|done]. cbn.
  apply list_elem_of_lookup_2, peaks_elem in Hp as Hc. rewrite merkle_index, Z2Nat.id by lia.
  pose proof (complete_node_at s e x Hc). apply Z.eqb_neq.
  pose proof (node_at_in_span d o Hd Ho) as [Hlo _]. unfold span_left in Hlo. rewrite pow2_succ in Hlo by done. lia.
Qed.

(** The trees behind the last root are appended one by one. *)
Lemma roots_append_ok blocks ps : forall s i (grow : bool) q rest it cs fuel,
  log_fits blocks -> full_from s ps (zlen blocks) (zlen blocks) -> 0 <= s -> cs_prefix blocks s cs ->
  grow = false \/ zlen (cs_roots cs) <= i -> feeds q (merkle_peaks blocks ps ++ rest) ->
  iter_at 0 s it -> (length ps <= fuel)%nat ->
  exists q' it' cs', Proofs.verify_roots_loop fuel (2 * zlen blocks) i grow q it cs = Ok (q', it', cs') /\
    feeds q' rest /\ cs_prefix blocks (zlen blocks) cs' /\ grown blocks cs cs' /\
    (cs_upgraded cs = true \/ s < zlen blocks -> cs_upgraded cs' = true) /\
    zlen (cs_nodes cs') <= zlen (cs_nodes cs) + 58 * zlen ps.
Proof.
  induction ps as [|[d o] ps IH]; intros s i grow q rest it cs fuel Hfit Hfull Hs Hcs Hg Hq Hit Hf.
  - cbn in Hfull. subst s. exists q, it, cs.
    assert (Proofs.verify_roots_loop fuel (2 * zlen blocks) i grow q it cs = Ok (q, it, cs)) as ->
      by (destruct fuel; cbn [Proofs.verify_roots_loop]; by rewrite (iter_full_root_done it (zlen blocks)) by (done || lia)).
    split_and!; [done..|reflexivity|intros [|]; [done|lia]|change (zlen []) with 0; lia].
  - destruct fuel as [|fuel]; [cbn in Hf; lia|]. cbn [length] in Hf. pose proof Hfit as [Hn _].
    destruct (full_root_next _ _ _ _ _ _ Hfull Hn Hit) as (Hc & it' & Hroot & Hat).
    pose proof Hfull as (Hd & Ho & Hseq & Hlt & _ & Hr). pose proof Hat as [Hi _].
    cbn [Proofs.verify_roots_loop]. rewrite Hroot. cbn [negb].
    rewrite Hi, (not_same_root blocks s d o) by done.
    assert ((if grow && (i <? zlen (cs_roots cs)) then last (cs_roots cs) else None) = None) as ->.
    { destruct Hg as [->|Hg]; [done|]. rewrite (proj2 (Z.ltb_ge _ _)) by done. by rewrite andb_false_r. }
    change (merkle_peaks blocks ((d, o) :: ps)) with (merkle_at blocks d o :: merkle_peaks blocks ps) in Hq.
    rewrite <-app_comm_cons in Hq. destruct (feed_shift _ _ _ Hq) as (q1 & Hsh & Hq1).
    rewrite merkle_at_index in Hsh by done. rewrite Hsh, bind_Ok. subst s.
    destruct (append_root_ok blocks d o cs it' Hfit Hc Hcs Hat)
      as (cs1 & it1 & ps1 & e & x & -> & Hcs1 & Hg1 & Hu & Hp1 & Hit1 & Hz1). rewrite bind_Ok.
    pose proof (Z.pow_pos_nonneg 2 d). pose proof (full_from_le _ _ _ _ Hr).
    destruct (peaks_last (2 ^ d * (o + 1)) ps1 e x ltac:(nia) Hp1) as (Hend & He & Hx & _).
    destruct (IH (2 ^ d * (o + 1)) i false q1 rest (iter_next_tree it1) cs1 fuel)
      as (q' & it2 & cs' & -> & Hq' & Hcs' & Hg' & Hu' & Hz'); try done; [nia|by left| |lia|].
    + rewrite Hend. apply (next_tree_at (zlen blocks)); [|done..]. split_and!; [done..|lia].
    + exists q', it2, cs'. rewrite zlen_cons. split_and!; try done; [by etrans| |lia]. intros _. apply Hu'. by left.
Qed.

Lemma upgrade_nodes_behind a s ps n : full_from s ps n n -> a <= s -> upgrade_nodes a ps = ps.
Proof.
  revert s. induction ps as [|[d o] ps IH]; intros s; [done|]. intros (Hd & Ho & -> & _ & _ & Hr) Ha.
  cbn [upgrade_nodes]. pose proof (Z.pow_pos_nonneg 2 d).
  rewrite (proj2 (Z.leb_gt _ _)), (proj2 (Z.ltb_ge _ _)) by nia. cbn [app]. f_equal.
  eapply IH; [done|]. nia.
Qed.

(** The tree that covers the end of the first [a] blocks, from their last root. *)
Lemma growing_root a d o e x :
  0 <= d -> 0 <= o -> 0 <= e -> 0 <= x -> a = 2 ^ e * (x + 1) -> 2 ^ d * o < a < 2 ^ d * (o + 1) ->
  exists m : nat, (0 < m)%nat /\ d = e + Z.of_nat m /\ o = x / 2 ^ Z.of_nat m /\
    fill (Z.to_nat d) 0 (a - 1) = fill m e x.
Proof.
  intros Hd Ho He Hx Ha Hin. pose proof (Z.pow_pos_nonneg 2 d). pose proof (Z.pow_pos_nonneg 2 e).
  assert (e < d) as Hed.
  { destruct (Z.lt_ge_cases e d) as [|Hge]; [done|exfalso].
    replace (2 ^ e) with (2 ^ d * 2 ^ (e - d)) in Ha by (rewrite <-Z.pow_add_r by lia; f_equal; lia).
    rewrite <-Z.mul_assoc in Ha. set (y := 2 ^ (e - d) * (x + 1)) in *. subst a.
    assert (0 < 2 ^ d) by (apply Z.pow_pos_nonneg; lia). destruct Hin as [Hlo Hhi].
    apply Z.mul_lt_mono_pos_l in Hlo, Hhi; lia. }
  exists (Z.to_nat (d - e)). rewrite Z2Nat.id by lia. split_and!; [lia|lia| |].
  - assert ((a - 1) / 2 ^ d = o) as <-. { symmetry. apply Z.div_unique with (a - 1 - 2 ^ d * o); lia. }
    replace d with (e + (d - e)) at 1 by lia. rewrite Z.pow_add_r, <-Z.div_div by
      (lia || (apply Z.pow_pos_nonneg; lia)).
    by rewrite Ha, ones_half.
  - rewrite Ha. replace (Z.to_nat d) with (Z.to_nat e + Z.to_nat (d - e))%nat by lia.
    pose proof (fill_skip (Z.to_nat e) (Z.to_nat (d - e)) 0 x Hx) as Hsk. rewrite Z2Nat.id in Hsk by done.
    by rewrite Hsk.
Qed.

Lemma verify_roots_loop_ok blocks a ps : forall pre qs s (grow : bool) q rest it cs fuel,
  log_fits blocks -> peaks (zlen blocks) = pre ++ ps -> peaks a = pre ++ qs ->
  full_from s ps (zlen blocks) (zlen blocks) -> full_from s qs a a -> 0 <= s -> a < zlen blocks ->
  cs_prefix blocks a cs -> grow = negb (is_empty (cs_roots cs)) ->
  feeds q (merkle_peaks blocks (upgrade_nodes a ps) ++ rest) -> iter_at 0 s it -> (length ps <= fuel)%nat ->
  exists q' it' cs', Proofs.verify_roots_loop fuel (2 * zlen blocks) (zlen pre) grow q it cs = Ok (q', it', cs') /\
    feeds q' rest /\ cs_prefix blocks (zlen blocks) cs' /\ grown blocks cs cs' /\ cs_upgraded cs' = true /\
    zlen (cs_nodes cs') <= zlen (cs_nodes cs) + 58 * (57 + zlen ps).
Proof.
  induction ps as [|[d o] ps IH]; intros pre qs s grow q rest it cs fuel Hfit Hn Ha Hfn Hfa Hs Hlt Hcs Hgrow Hq Hit Hf;
    pose proof (full_from_le _ _ _ _ Hfa) as Hsa.
  { cbn in Hfn. lia. }
  assert (zlen (cs_roots cs) = zlen pre + zlen qs) as Hroots.
  { destruct Hcs as (-> & _). rewrite Ha. unfold zlen, merkle_peaks. rewrite length_fmap, length_app. lia. }
  pose proof (zlen_nonneg pre).
  destruct qs as [|[d' o'] qs].
  { cbn in Hfa. subst s. rewrite (upgrade_nodes_behind a a _ (zlen blocks)) in Hq by done.
    destruct (roots_append_ok blocks ((d, o) :: ps) a (zlen pre) grow q rest it cs fuel)
      as (q' & it' & cs' & Hrun & Hq' & Hcs' & Hg & Hu & Hz); try done.
    - right. rewrite Hroots. change (zlen []) with 0. lia.
    - exists q', it', cs'. split_and!; try done; [apply Hu; by right|lia]. }
  destruct fuel as [|fuel]; [cbn in Hf; lia|]. cbn [length] in Hf. pose proof Hfit as [Hlen _].
  destruct (full_root_next _ _ _ _ _ _ Hfn Hlen Hit) as (Hc & it1 & Hroot & Hat).
  pose proof Hfn as (Hd & Ho & Hseq & _ & Hlog & Hfn'). pose proof Hfa as (Hd' & Ho' & Hseq' & Hsa' & Hlog' & Hfa').
  pose proof Hat as [Hi _]. pose proof (Z.pow_pos_nonneg 2 d). pose proof (Z.pow_pos_nonneg 2 d').
  cbn [Proofs.verify_roots_loop upgrade_nodes] in Hq |- *. rewrite Hroot, Hi. cbn [negb].
  assert (cs_roots cs !! Z.to_nat (zlen pre) = Some (merkle_at blocks d' o')) as ->.
  { destruct Hcs as (-> & _). rewrite Ha. unfold merkle_peaks, zlen.
    rewrite Nat2Z.id, list_lookup_fmap, lookup_app_r, Nat.sub_diag by done. done. }
  rewrite merkle_at_index by done. destruct (decide (d' = d)) as [->|Hne].
  - assert (o' = o) as -> by nia. rewrite Z.eqb_refl.
    rewrite (proj2 (Z.leb_le (2 ^ d * (o + 1)) a)) in Hq by by eapply full_from_le. cbn [app] in Hq.
    destruct (IH (pre ++ [(d, o)]) qs (2 ^ d * (o + 1)) grow q rest (iter_next_tree it1) cs fuel)
      as (q' & it' & cs' & Hrun & Hq' & Hcs' & Hg & Hu & Hz); try done; [by rewrite <-app_assoc..|nia|by eapply next_tree_at|lia|].
    rewrite zlen_app in Hrun. change (zlen [(d, o)]) with 1 in Hrun. exists q', it', cs'. rewrite zlen_cons.
    split_and!; try done. lia.
  - rewrite (proj2 (Z.eqb_neq _ _)) by (intros E; apply node_at_inj in E; lia).
    assert (d' < d) as Hdd.
    { assert (d' <= d) by (rewrite Hlog, Hlog'; apply Z.log2_le_mono; lia). lia. }
    assert (a < 2 ^ d * (o + 1)) as Hend.
    { pose proof (Z.log2_spec (a - s) ltac:(lia)) as [_ Hub]. rewrite <-Hlog' in Hub.
      assert (2 ^ Z.succ d' <= 2 ^ d) by (apply Z.pow_le_mono_r; lia). lia. }
    destruct (list_nil_or_snoc (peaks a)) as [Hnil|(ps0 & [e x] & Hps0)];
      [rewrite Ha in Hnil; by destruct pre|].
    destruct (peaks_last a ps0 e x ltac:(lia) Hps0) as (Hae & He & Hx & _).
    assert (cs_roots cs = merkle_peaks blocks ps0 ++ [merkle_at blocks e x]) as Hcr.
    { destruct Hcs as (-> & _). by rewrite Hps0, merkle_peaks_snoc. }
    rewrite (proj2 (Z.ltb_lt (zlen pre) _)) by (rewrite Hroots, zlen_cons; pose proof (zlen_nonneg qs); lia).
    assert (grow = true) as -> by (rewrite Hgrow, Hcr; by destruct (merkle_peaks blocks ps0)).
    cbn [andb]. replace (last (cs_roots cs)) with (Some (merkle_at blocks e x)) by (by rewrite Hcr, last_snoc).
    rewrite merkle_at_index by done.
    rewrite (proj2 (Z.leb_gt _ _)), (proj2 (Z.ltb_lt (2 ^ d * o) a)) in Hq by lia.
    rewrite (upgrade_nodes_behind a _ _ _ Hfn') in Hq by lia. rewrite merkle_peaks_snoc, <-app_assoc in Hq.
    destruct (growing_root a d o e x) as (m & Hm & HD & HO & Hfill); [done..|lia|]. rewrite Hfill in Hq.
    assert (Z.even o = true) as Heven.
    { assert ((d, o) ∈ peaks_at 0 (zlen blocks)) as Hin
        by (fold (peaks (zlen blocks)); rewrite Hn; apply elem_of_app; right; by left).
      apply peaks_at_elem in Hin; [by destruct Hin as (_ & _ & _ & ?)|lia]. }
    pose proof (complete_depth _ _ _ Hc Hlen).
    assert (complete (zlen blocks) e x) as Hce by (split_and!; [done..|lia]).
    destruct (grow_loop_ok blocks d o tree_fuel m e x a ps0 q (merkle_peaks blocks ps ++ rest)
      (iter_seek it1 (node_at e x)) cs) as (q1 & it2 & cs1 & -> & Hq1 & Hit2 & Hcs1 & Hg1 & Hu1 & Hz1); try done; [lia| |unfold tree_fuel; lia|].
    { apply iter_seek_law. by eapply complete_in_tree. }
    rewrite bind_Ok.
    destruct (roots_append_ok blocks ps (2 ^ d * (o + 1)) (zlen pre) false q1 rest (iter_next_tree it2) cs1 fuel)
      as (q' & it' & cs' & Hrun & Hq' & Hcs' & Hg' & Hu' & Hz'); try done.
    + nia.
    + by left.
    + by eapply next_tree_at.
    + lia.
    + exists q', it', cs'. rewrite zlen_cons. split_and!; try done; [by etrans|apply Hu'; left; apply Hu1; by right|lia].
Qed.

(** The tree stands for the first [a] blocks of the log. *)
Definition tree_prefix blocks (a : Z) self : Prop :=
  mt_roots self = merkle_peaks blocks (peaks a) /\ mt_length self = a /\ mt_byte_length self = byte_sum blocks a.

(** What an accepted upgrade is: the roots of the longer log, the fork and the
    signature that were sent. *)
Definition accepted_upgrade blocks (fork : Z) (sig : Signature) (cs0 cs : MerkleTreeChangeset) : Prop :=
  exists cs1, grown blocks cs0 cs1 /\ cs_prefix blocks (zlen blocks) cs1 /\ cs_upgraded cs1 = true /\
    zlen (cs_nodes cs1) <= zlen (cs_nodes cs0) + 58 * 114 /\
    cs = Changeset.set_hash_signature (Proofs.set_fork cs1 fork)
           (Some (blake2b256 (tree_preimage (merkle_roots blocks)))) (Some sig).

(** The signature is checked against what the changeset stands for. *)
Lemma verify_upgrade_ok blocks a fork cs bytes sig pk ns root rest start len :
  log_fits blocks -> 0 <= a < zlen blocks -> 0 <= start -> 0 <= len -> start + len = zlen blocks ->
  cs_prefix blocks a cs -> is_u64 fork -> sig_try_from bytes = Some sig ->
  ed_verify pk (signed_bytes blocks fork) sig = true ->
  feeds (NodeQueue.new ns root) (merkle_peaks blocks (upgrade_nodes a (peaks (zlen blocks))) ++ rest) ->
  exists ok cs', Proofs.verify_upgrade fork (mkDataUpgrade start len ns [] bytes) root pk cs = Ok (ok, cs') /\
    (rest = [] -> ok = true) /\ accepted_upgrade blocks fork sig cs cs'.
Proof.
  intros Hfit Ha Hst Hln Hsum Hcs Hf Hbytes Hsig Hfeed. pose proof Hfit as [Hn _]. unfold Proofs.verify_upgrade.
  cbn [du_start du_length du_nodes du_additional_nodes du_signature].
  rewrite checked_add_Ok, bind_Ok, Hsum by lia.
  rewrite checked_mul_Ok, bind_Ok by lia. pose proof (length_peaks _ Hn).
  destruct (verify_roots_loop_ok blocks a (peaks (zlen blocks)) [] (peaks a) 0 (negb (is_empty (cs_roots cs)))
    (NodeQueue.new ns root) rest (iter_new 0) cs tree_fuel)
    as (q & it & cs1 & Hrun & Hq & Hcs1 & Hg & Hu & Hz); try done; try lia.
  { apply full_peaks; lia. } { apply full_peaks; lia. }
  { change 0 with (node_at 0 0) at 2. by apply iter_new_law. } { unfold tree_fuel. lia. }
  change (zlen []) with 0 in Hrun. rewrite Hrun, bind_Ok.
  destruct (list_nil_or_snoc (peaks (zlen blocks))) as [Hnil|(ps & [e x] & Hps)].
  { pose proof (full_peaks (zlen blocks) ltac:(lia)) as Hfull. rewrite Hnil in Hfull. cbn in Hfull. lia. }
  pose proof Hcs1 as (Hr & Hl & Hb).
  assert (last (cs_roots cs1) = Some (merkle_at blocks e x)) as ->
    by (rewrite Hr, Hps, merkle_peaks_snoc; apply last_snoc).
  cbn [unwrap]. rewrite bind_Ok.
  cbn [Proofs.extra_siblings]. rewrite bind_Ok. cbn [Proofs.extra_roots]. rewrite bind_Ok.
  rewrite (verify_and_set_signature_ok blocks) by
    (done || (split_and!; cbn; [by rewrite Hr|done|by rewrite Hb, byte_sum_all])).
  cbn [Proofs.set_fork cs_fork]. rewrite Hbytes, Hsig, bind_Ok.
  eexists _, _. split; [done|]. split; [intros ->; by rewrite feeds_nil|].
  exists cs1. split_and!; try done. unfold zlen at 3 in Hz. lia.
Qed.

Lemma verify_proof_upgrade_ok blocks a self infos nodes fork sig pk :
  infos_to_nodes infos = Ok nodes -> log_fits blocks -> 0 <= a < zlen blocks -> tree_prefix blocks a self ->
  is_u64 fork -> ed_verify pk (signed_bytes blocks fork) sig = true ->
  exists cs, Proofs.verify_proof self (mkProof fork None None None (Some (upgrade_data blocks a sig))) pk infos =
      Ok (Right cs) /\ accepted_upgrade blocks fork sig (Tree.changeset self) cs.
Proof.
  intros Hinf Hfit Ha Ht Hf Hsig.
  destruct (verify_upgrade_ok blocks a fork (Tree.changeset self) (sig_to_bytes sig) sig pk
    (merkle_peaks blocks (upgrade_nodes a (peaks (zlen blocks)))) None [] a (zlen blocks - a))
    as (ok & cs & Hv & Hok & Hacc); [done|done|lia..|done|done|apply sig_from_to|done| |].
  { rewrite app_nil_r. apply queue_feeds, queue_new. }
  fold (upgrade_data blocks a sig) in Hv. rewrite (Hok eq_refl) in Hv. exists cs. split; [|done]. unfold Proofs.verify_proof. cbn [proof_block proof_hash proof_seek proof_upgrade proof_fork].
  rewrite Hinf, bind_Ok. unfold Proofs.verify_tree. cbn [Proofs.normalize_data fmap option_fmap option_map].
  rewrite !bind_Ok, Hv. done.
Qed.

Lemma accepted_for blocks fork sig cs0 cs :
  accepted_upgrade blocks fork sig cs0 cs ->
  cs_for blocks cs /\ cs_upgraded cs = true /\ cs_fork cs = fork /\ cs_signature cs = Some sig /\
  cs_hash cs = Some (blake2b256 (tree_preimage (merkle_roots blocks))) /\
  cs_ancestors cs = cs_ancestors cs0 /\ cs_original_tree_length cs = cs_original_tree_length cs0 /\
  cs_original_tree_fork cs = cs_original_tree_fork cs0 /\
  zlen (cs_nodes cs) <= zlen (cs_nodes cs0) + 58 * 114 /\
  exists ps, cs_nodes cs = cs_nodes cs0 ++ merkle_peaks blocks ps /\
    (forall d o, (d, o) ∈ ps -> complete (zlen blocks) d o) /\
    (forall K, closed_at (cs_length cs0) K -> closed_at (zlen blocks) (fun d o => K d o \/ (d, o) ∈ ps)) /\
    StronglySorted later ps /\ forall p, p ∈ ps -> cs_length cs0 < node_end p.
Proof.
  intros (cs1 & [Hs (ps & Hn & Hc & Hp & Hso & Hen) _] & (Hr & Hl & Hb) & Hu & Hz & ->). cbn. rewrite byte_sum_all in Hb.
  rewrite Hl in Hp. unfold cs_for. cbn. rewrite Hs at 5 6 7. cbn. split_and!; try done. exists ps. split_and!; try done. intros p Hin. by apply Hen.
Qed.

(** Committing an accepted upgrade gives the tree of the longer log; nodes [ns]
    may have been verified before it. *)
Lemma commit_accepted blocks a self fork sig ns cs :
  tree_prefix blocks a self -> mt_truncated self = false ->
  accepted_upgrade blocks fork sig (Proofs.push_nodes (Tree.changeset self) ns) cs ->
  exists self', Tree.commit self cs = Ok self' /\ tree_for blocks self' /\ mt_fork self' = fork /\
    mt_signature self' = Some sig /\ mt_truncated self' = false /\
    mt_unflushed self' = Tree.insert_nodes (mt_unflushed self) (cs_nodes cs).
Proof.
  intros (_ & Hl & _) Htr Hacc.
  destruct (accepted_for _ _ _ _ _ Hacc) as ((Hr & Hcl & Hb) & Hu & Hf & Hs & _ & Han & Hol & Hof & _ & _).
  cbn in Han, Hol, Hof. unfold Tree.commit, Tree.commitable. rewrite Hu, Hol, Hof, !Z.eqb_refl. cbn [andb negb].
  unfold Tree.commit_truncation. rewrite Han, Hol, Z.ltb_irrefl, !bind_Ok. eexists. split; [done|]. cbn.
  by split_and!.
Qed.
End Upgrade.
