(* ===== verification/UpgradeHonest.v ===== *)
(** * Accepted upgrades are honest

    An upgrade is a list of nodes that the verifier appends to its roots; it is
    accepted when the roots it ends with were signed.  Here the run is read
    backwards: if it ends in the roots of the log, every node that was taken is
    the log's.  A hash covers the sum of the lengths of two children only, so a
    length is known to be right because no two nodes that both came from the
    wire are ever merged: one of the two is a root of the receiver or was
    computed, and its hash decides its length ([near]). *)

From stdpp Require Import base tactics numbers list gmap fin_maps.
From Stdlib Require Import ZArith Lia Bool.
From S2P Require Import Prelude FlatTree Common CompactEncoding Crypto OplogEntry Changeset.
From S2P Require Import Storage MerkleTree MerkleView MerkleProof MerkleSound MerkleComplete MerkleHonest MerkleUpgrade.
Open Scope Z_scope.

Lemma peaks_at_left d q : 0 <= q -> Z.odd q = false -> peaks_at d (q + 1) = peaks_at d q ++ [(d, q)].
Proof.
  intros Hq Hodd. pose proof (Z.div2_odd q) as Hdiv. rewrite Z.div2_div, Hodd in Hdiv. cbn [Z.b2z] in Hdiv.
  assert (0 <= q / 2) by (apply Z.div_pos; lia). rewrite (peaks_at_parity d q), Hodd, app_nil_r by done.
  replace (q + 1) with (2 * (q / 2) + 1) by lia. rewrite peaks_at_odd by done. do 3 f_equal. lia.
Qed.

Section Honest.
Context `{FT : FlatTree} {FL : FlatTreeLaws FT} `{CE : CompactEncoding} {CL : CompactEncodingLaws CE}
  `{B2 : Blake2b} {BL : Blake2bLaws B2} `{ED : Ed25519} {EL : Ed25519Laws ED} `{IO : IntMapOrder}.
Context (blocks inputs : list (list Z)) (ns : list Node) (Hcov : covers inputs ns).
Implicit Types (cs : MerkleTreeChangeset) (cur : Node) (rs : list Node) (p : Z * Z).

(** A node at hand, at a place of the tree, whatever its hash and length. *)
Definition placed (x : Node) p : Prop :=
  x ∈ ns /\ zlen (node_hash x) = 32 /\ is_u64 (node_length x) /\ node_index x = node_at p.1 p.2.

(** It has the hash and the length of the log's node. *)
Definition genuine (x : Node) p : Prop :=
  node_hash x = node_hash (merkle_at blocks p.1 p.2) /\ node_length x = node_length (merkle_at blocks p.1 p.2).

(** Its hash decides its length. *)
Definition bound (x : Node) p : Prop :=
  log_fits blocks -> complete (zlen blocks) p.1 p.2 -> node_hash x = node_hash (merkle_at blocks p.1 p.2) ->
  collision inputs blocks \/ node_length x = node_length (merkle_at blocks p.1 p.2).

Definition near (x : Node) p : Prop := placed x p /\ bound x p.

Lemma placed_plain x p : placed x p -> plain_node x.
Proof. intros (_ & H & [Hl _] & _). by split. Qed.

Lemma genuine_bound x p : genuine x p -> bound x p.
Proof. intros [_ H] _ _ _. by right. Qed.

(** A node that is computed from two children is bound, and decides its
    children if one of them is bound. *)
Lemma parent_near d h a b parent :
  parent ∈ ns -> placed a (d, 2 * h + 1) -> placed b (d, 2 * h) -> 0 <= d -> 0 <= h ->
  Proofs.parent_node (node_at (d + 1) h) a b = Ok parent ->
  near parent (d + 1, h) /\
  (log_fits blocks -> complete (zlen blocks) (d + 1) h -> bound b (d, 2 * h) -> genuine parent (d + 1, h) ->
   collision inputs blocks \/ (genuine a (d, 2 * h + 1) /\ genuine b (d, 2 * h))).
Proof.
  intros Hpn Ha Hb Hd Hh Hp. pose proof Ha as (Han & _ & _ & Hai). pose proof Hb as (Hbn & _ & _ & Hbi). cbn [fst snd] in Hai, Hbi.
  assert (sibling_offset (2 * h + 1) = 2 * h /\ (2 * h + 1) / 2 = h) as [Hsib Hhalf].
  { unfold sibling_offset. rewrite Z.even_add, Z.even_mul. cbn. split; [lia|Z.div_mod_to_equations; lia]. }
  destruct (parent_node_plain (node_at (d + 1) h) a b parent) as ([Hp32 Hpl] & Hlt & Hpi); [by eapply placed_plain..|done|].
  assert (log_fits blocks -> complete (zlen blocks) (d + 1) h -> node_hash parent = node_hash (merkle_at blocks (d + 1) h) ->
    collision inputs blocks \/ (node_hash a = node_hash (merkle_at blocks d (2 * h + 1)) /\ node_hash b = node_hash (merkle_at blocks d (2 * h)) /\
     node_length parent = node_length (merkle_at blocks (d + 1) h) /\
     node_length a + node_length b = node_length (merkle_at blocks d (2 * h + 1)) + node_length (merkle_at blocks d (2 * h)))) as Hhon.
  { intros Hfit Hc Heq. pose proof (parent_node_honest inputs blocks d (2 * h + 1) a b parent (pair_covered _ _ _ _ Hcov Han Hbn)) as Hhon. rewrite Hsib, Hhalf in Hhon.
    apply Hhon; try done; by eapply placed_plain. }
  split; [split; [by split_and!|]|].
  - intros Hfit Hc Heq. destruct (Hhon Hfit Hc Heq) as [|(_ & _ & ? & _)]; [by left|by right].
  - intros Hfit Hc Hbb [Heq _]. destruct (Hhon Hfit Hc Heq) as [|(Hah & Hbh & _ & Hsum)]; [by left|].
    destruct (Hbb Hfit) as [|Hbl]; [|done|by left|]; cbn [fst snd] in *.
    { pose proof (complete_below (zlen blocks) d (2 * h + 1) Hd) as Hcb. rewrite Hhalf, Hsib in Hcb. by apply Hcb. }
    right. split; split; cbn [fst snd]; try done. lia.
Qed.

(** ** Appending a root *)

Lemma zlen_two (rs : list Node) b cur : (zlen ((rs ++ [b]) ++ [cur]) <=? 1) = false.
Proof. apply Z.leb_gt. rewrite !zlen_app. change (zlen [b]) with 1. change (zlen [cur]) with 1. pose proof (zlen_nonneg rs). lia. Qed.

(** A left child is not merged. *)
Lemma append_root_loop_left fuel d q n cs it rs cur r :
  Changeset.append_root_loop fuel cs it = Ok r -> cs_roots cs = rs ++ [cur] ->
  Forall2 placed rs (peaks_at d q) -> iter_at d q it -> Z.odd q = false ->
  0 <= d -> 0 <= q -> 2 ^ d * (q + 1) <= n -> n < 2 ^ 57 ->
  exists it', r = (cs, it') /\ iter_at d q it'.
Proof.
  intros Hrun Hr Hrs Hit Hodd Hd Hq Hle Hn. pose proof (sibling_in_tree _ _ _ Hd Hq Hle Hn) as Hin.
  destruct (list_nil_or_snoc rs) as [->|(rs0 & b & ->)].
  { rewrite (append_root_loop_single _ _ _ cur) in Hrun by done. injection Hrun as <-. by exists it. }
  apply Forall2_app_inv_l in Hrs as (ps & pb & _ & Hb & Hps). apply Forall2_cons_inv_l in Hb as ([e o] & ? & (_ & _ & _ & Hbi) & ->%Forall2_nil_inv_l & ->).
  cbn [fst snd] in Hbi.
  destruct fuel as [|fuel]; cbn [Changeset.append_root_loop] in Hrun; rewrite Hr, zlen_two in Hrun; [discriminate Hrun|].
  rewrite <-app_assoc in Hrun. edestruct (@index_last HypercoreError Node) as (Ea & Eb & _). rewrite Ea, Eb, !bind_Ok in Hrun. clear Ea Eb.
  pose proof (iter_sibling_law it d q Hin Hd Hit) as Hsib. pose proof Hsib as [Hi _]. rewrite Hi, Hbi in Hrun.
  assert ((e, o) ∈ peaks_at d q) as Hel by (rewrite Hps; apply elem_of_app; right; by left).
  assert (Z.even q = true) as Hev by (by rewrite <-Z.negb_odd, Hodd).
  rewrite peaks_at_parity, Hodd, app_nil_r in Hel by done. apply peaks_at_elem in Hel as (He & Ho & _); [|lia].
  rewrite (proj2 (Z.eqb_neq _ _)) in Hrun by (unfold sibling_offset; rewrite Hev; intros Heq; apply node_at_inj in Heq; lia).
  cbn [negb] in Hrun. injection Hrun as <-. eexists. split; [done|].
  rewrite <-(sibling_twice q). apply iter_sibling_law; [by rewrite sibling_half|done..].
Qed.

(** A right child is merged with the root before it. *)
Lemma append_root_loop_right fuel d h n cs it rs cur r :
  Changeset.append_root_loop fuel cs it = Ok r -> cs_roots cs = rs ++ [cur] ->
  Forall2 near rs (peaks_at d (2 * h + 1)) -> placed cur (d, 2 * h + 1) -> iter_at d (2 * h + 1) it ->
  0 <= d -> 0 <= h -> 2 ^ d * (2 * h + 1 + 1) <= n -> n < 2 ^ 57 ->
  exists fuel' rs0 b parent cs1 it1, rs = rs0 ++ [b] /\ Forall2 near rs0 (peaks_at (d + 1) h) /\ near b (d, 2 * h) /\
    Proofs.parent_node (node_at (d + 1) h) cur b = Ok parent /\ cs_roots cs1 = rs0 ++ [parent] /\
    cs_length cs1 = cs_length cs /\ cs_nodes cs1 = cs_nodes cs ++ [parent] /\ iter_at (d + 1) h it1 /\ Changeset.append_root_loop fuel' cs1 it1 = Ok r.
Proof.
  intros Hrun Hr Hrs Hcur Hit Hd Hh Hle Hn. pose proof (sibling_in_tree d (2 * h + 1) n Hd ltac:(lia) Hle Hn) as Hin.
  rewrite peaks_at_odd in Hrs by done.
  apply Forall2_app_inv_r in Hrs as (rs0 & rb & Hrs0 & Hb & ->).
  apply Forall2_cons_inv_r in Hb as (b & ? & Hb & ->%Forall2_nil_inv_r & ->).
  pose proof Hb as [(_ & _ & _ & Hbi) _]. cbn [fst snd] in Hbi.
  destruct fuel as [|fuel]; cbn [Changeset.append_root_loop] in Hrun; rewrite Hr, zlen_two in Hrun; [discriminate Hrun|].
  rewrite <-app_assoc in Hrun. edestruct (@index_last HypercoreError Node) as (Ea & Eb & Et).
  rewrite Ea, Eb, !bind_Ok, Et in Hrun. clear Ea Eb Et.
  pose proof (iter_sibling_law it d _ Hin Hd Hit) as Hsib.
  assert (sibling_offset (2 * h + 1) = 2 * h /\ (2 * h + 1) / 2 = h /\ 2 * h / 2 = h) as (Hs & Hh1 & Hh2).
  { unfold sibling_offset. rewrite Z.even_add, Z.even_mul. cbn. split_and!; [lia|Z.div_mod_to_equations; lia..]. }
  rewrite Hs in Hsib. rewrite Hh1 in Hin. pose proof Hsib as [Hi _].
  pose proof (iter_parent_law _ d (2 * h) ltac:(by rewrite Hh2) Hd Hsib) as Hpar. rewrite Hh2 in Hpar. pose proof Hpar as [Hpi _].
  rewrite Hi, Hbi, Z.eqb_refl, Hpi in Hrun. cbn [negb] in Hrun.
  apply bind_inv_Ok in Hrun as (hash & Hhash & Hrun). apply bind_inv_Ok in Hrun as (len & Hlen & Hrun).
  eexists fuel, rs0, b, (Node_new (node_at (d + 1) h) hash len), _, _.
  split_and!; cycle -1; [exact Hrun|done|done|done| |done|done|done|exact Hpar].
  unfold Proofs.parent_node. by rewrite Hhash, bind_Ok, Hlen, bind_Ok.
Qed.

Lemma Forall2_genuine_snoc rs x ps p :
  Forall2 genuine (rs ++ [x]) (ps ++ [p]) -> Forall2 genuine rs ps /\ genuine x p.
Proof.
  intros H. apply Forall2_app_inv_l in H as (ps1 & px & H1 & H2 & E).
  apply Forall2_cons_inv_l in H2 as (p' & ? & H2 & ->%Forall2_nil_inv_l & ->). by apply app_inj_tail in E as [-> ->].
Qed.

Lemma near_placed rs ps : Forall2 near rs ps -> Forall2 placed rs ps.
Proof. intros H. eapply Forall2_impl; [exact H|]. by intros x p [? _]. Qed.

(** The roots a run of the loop ends with. *)
Record loop_end (d q : Z) (rs : list Node) cur cs cs' (it' : ft_iterator) : Prop := {
  le_ex : exists ps e x rs' cur', peaks_at d (q + 1) = ps ++ [(e, x)] /\ cs_roots cs' = rs' ++ [cur'] /\
    Forall2 near rs' ps /\ placed cur' (e, x) /\ iter_at e x it' /\
    (Z.odd q = true \/ bound cur (d, q) -> bound cur' (e, x)) /\
    (log_fits blocks -> complete (zlen blocks) e x -> Forall2 genuine (rs' ++ [cur']) (ps ++ [(e, x)]) ->
     collision inputs blocks \/ (Forall2 genuine rs (peaks_at d q) /\ genuine cur (d, q)));
  le_length : cs_length cs' = cs_length cs;
}.

Lemma append_root_loop_nodes fuel : forall cs it cs' it',
  Changeset.append_root_loop fuel cs it = Ok (cs', it') -> cs_nodes cs ⊆ cs_nodes cs'.
Proof.
  induction fuel as [|fuel IH]; intros cs it cs' it'; cbn [Changeset.append_root_loop];
    (destruct (zlen (cs_roots cs) <=? 1); [by intros [= <- _]|]); [done|].
  intros H. apply bind_inv_Ok in H as (a & _ & H). apply bind_inv_Ok in H as (b & _ & H).
  destruct (negb _); [by injection H as <- _|].
  apply bind_inv_Ok in H as (hash & _ & H). apply bind_inv_Ok in H as (len & _ & H). apply IH in H.
  etrans; [|exact H]. cbn. set_solver.
Qed.

Lemma append_root_loop_inv (m : nat) : forall fuel d q n cs it rs cur cs' it',
  Changeset.append_root_loop fuel cs it = Ok (cs', it') -> cs_nodes cs' ⊆ ns -> cs_roots cs = rs ++ [cur] ->
  Forall2 near rs (peaks_at d q) -> placed cur (d, q) -> iter_at d q it ->
  0 <= d -> 0 <= q < 2 ^ Z.of_nat m -> 2 ^ d * (q + 1) <= n -> n < 2 ^ 57 -> loop_end d q rs cur cs cs' it'.
Proof.
  induction m as [|m IH]; intros fuel d q n cs it rs cur cs' it' Hrun Hns Hr Hrs Hcur Hit Hd Hq Hle Hn;
    pose proof (Z.div2_odd q) as Hdiv; rewrite Z.div2_div in Hdiv.
  1: assert (Z.odd q = false) as Hodd by (replace q with 0 by (cbn in Hq; lia); done).
  2: destruct (Z.odd q) eqn:Hodd; cbn [Z.b2z] in Hdiv.
  2: { assert (0 <= q / 2) as Hh by (apply Z.div_pos; lia). rewrite Hdiv in Hrs, Hcur, Hit, Hle. set (h := q / 2) in *.
    destruct (append_root_loop_right _ _ _ _ _ _ _ _ _ Hrun Hr Hrs Hcur Hit Hd Hh Hle Hn)
      as (fuel' & rs0 & b & parent & cs1 & it1 & -> & Hrs0 & [Hb Hbb] & Hp & Hr1 & Hl1 & Hn1 & Hit1 & Hrun1).
    pose proof (append_root_loop_nodes _ _ _ _ _ Hrun1) as Hsub. rewrite Hn1 in Hsub.
    destruct (parent_near d h cur b parent ltac:(set_solver) Hcur Hb Hd Hh Hp) as [[Hpp Hpb] Himp].
    destruct (IH fuel' (d + 1) h n cs1 it1 rs0 parent cs' it') as [(ps & e & x & rs' & cur' & Hps & Hr' & Hrs' & Hc' & Hit' & Hbd & Hgen) Hl];
      try done; [lia| |rewrite pow2_succ by done; lia|].
    { rewrite Nat2Z.inj_succ, Z.pow_succ_r in Hq by lia. lia. }
    split; [|congruence]. exists ps, e, x, rs', cur'. rewrite Hdiv.
    replace (2 * h + 1 + 1) with (2 * (h + 1)) by lia. rewrite peaks_at_even by lia.
    split_and!; try done; [intros _; apply Hbd; by right|].
    intros Hfit Hc Hg. destruct (Hgen Hfit Hc Hg) as [|[Hg0 Hgp]]; [by left|].
    assert (complete (zlen blocks) (d + 1) h) as Hcp.
    { pose proof (tiles_peaks_at (d + 1) (h + 1) ltac:(lia) ltac:(lia)) as Ht. rewrite Hps in Ht.
      apply tiles_snoc in Ht. destruct Hc as (_ & _ & Hcle). split_and!; [lia..|]. lia. }
    destruct (Himp Hfit Hcp Hbb Hgp) as [|[Hgc Hgb]]; [by left|right]. split; [|done].
    rewrite peaks_at_odd by done. apply Forall2_app; [done|by constructor]. }
  all: destruct (append_root_loop_left _ _ _ _ _ _ _ _ _ Hrun Hr (near_placed _ _ Hrs) Hit Hodd Hd (proj1 Hq) Hle Hn) as (it1 & [= -> ->] & Hit1).
  all: split; [|done]; exists (peaks_at d q), d, q, rs, cur.
  all: split_and!; try done; [by apply peaks_at_left; [lia|]|intros [?|?]; [congruence|done]|].
  all: intros _ _ [? ?]%Forall2_genuine_snoc; by right.
Qed.

(** *** Lengths only grow *)

Lemma append_root_loop_length fuel : forall cs it cs' it',
  Changeset.append_root_loop fuel cs it = Ok (cs', it') -> cs_length cs' = cs_length cs.
Proof.
  induction fuel as [|fuel IH]; intros cs it cs' it'; cbn [Changeset.append_root_loop];
    (destruct (zlen (cs_roots cs) <=? 1); [by intros [= <- _]|]); [done|].
  intros H. apply bind_inv_Ok in H as (a & _ & H). apply bind_inv_Ok in H as (b & _ & H).
  destruct (negb _); [by injection H as <- _|].
  apply bind_inv_Ok in H as (hash & _ & H). apply bind_inv_Ok in H as (len & _ & H). by apply IH in H.
Qed.

Lemma append_root_length cs x it cs' it' :
  Changeset.append_root cs x it = Ok (cs', it') -> cs_length cs' = cs_length cs + iter_factor it / 2.
Proof.
  unfold Changeset.append_root. intros H. apply bind_inv_Ok in H as (l & Hl & H). apply bind_inv_Ok in H as (b & _ & H).
  apply append_root_loop_length in H. rewrite H. cbn. unfold checked_add in Hl.
  destruct (_ <? _); [|discriminate Hl]. by injection Hl as <-.
Qed.

Lemma append_root_mono cs x it cs' it' :
  Changeset.append_root cs x it = Ok (cs', it') -> cs_length cs <= cs_length cs' < 2 ^ 64.
Proof.
  intros H. pose proof (append_root_length _ _ _ _ _ H) as Hl. rewrite Hl. pose proof (iter_factor_nonneg it).
  assert (0 <= iter_factor it / 2) by (apply Z.div_pos; lia). split; [lia|].
  unfold Changeset.append_root in H. apply bind_inv_Ok in H as (l & Hadd & _). unfold checked_add in Hadd.
  destruct (_ <? _) eqn:Hlt; [|discriminate Hadd]. by apply Z.ltb_lt in Hlt.
Qed.

Lemma append_root_nodes cs x it cs' it' :
  Changeset.append_root cs x it = Ok (cs', it') -> x ∈ cs_nodes cs' /\ cs_nodes cs ⊆ cs_nodes cs'.
Proof.
  unfold Changeset.append_root. intros H. apply bind_inv_Ok in H as (l & _ & H). apply bind_inv_Ok in H as (b & _ & H).
  apply append_root_loop_nodes in H. cbn in H. set_solver.
Qed.

Lemma grow_loop_nodes fuel : forall T q it cs q' it' cs',
  Proofs.grow_loop fuel T q it cs = Ok (q', it', cs') -> cs_nodes cs ⊆ cs_nodes cs'.
Proof.
  induction fuel as [|fuel IH]; intros T q it cs q' it' cs'; cbn [Proofs.grow_loop];
    (destruct (iter_index it =? T); [by intros [= _ _ <-]|]); [done|].
  intros H. apply bind_inv_Ok in H as ([q1 x] & _ & H). apply bind_inv_Ok in H as ([cs1 it1] & Ha & H).
  apply IH in H. apply append_root_nodes in Ha as [_ Ha]. by etrans.
Qed.

Lemma verify_roots_loop_nodes fuel : forall to i grow q it cs q' it' cs',
  Proofs.verify_roots_loop fuel to i grow q it cs = Ok (q', it', cs') -> cs_nodes cs ⊆ cs_nodes cs'.
Proof.
  induction fuel as [|fuel IH]; intros to i grow q it cs q' it' cs'; cbn [Proofs.verify_roots_loop];
    destruct (iter_full_root it to) as [it1 full]; (destruct (negb full); [by intros [= _ _ <-]|]); [done|].
  destruct (match cs_roots cs !! Z.to_nat i with Some r => _ | None => false end); [apply IH|].
  destruct (if grow && (i <? zlen (cs_roots cs)) then last (cs_roots cs) else None); intros H.
  - apply bind_inv_Ok in H as ([[q1 it2] cs1] & Hg & H). apply IH in H. apply grow_loop_nodes in Hg. by etrans.
  - apply bind_inv_Ok in H as ([q1 x] & _ & H). apply bind_inv_Ok in H as ([cs1 it2] & Ha & H).
    apply IH in H. apply append_root_nodes in Ha as [_ Ha]. by etrans.
Qed.

Lemma grow_loop_mono fuel : forall T q it cs q' it' cs',
  Proofs.grow_loop fuel T q it cs = Ok (q', it', cs') -> cs_length cs <= cs_length cs' < Z.max (2 ^ 64) (cs_length cs + 1).
Proof.
  induction fuel as [|fuel IH]; intros T q it cs q' it' cs'; cbn [Proofs.grow_loop];
    (destruct (iter_index it =? T); [intros [= _ _ <-]; lia|]); [done|].
  intros H. apply bind_inv_Ok in H as ([q1 x] & _ & H). apply bind_inv_Ok in H as ([cs1 it1] & Ha & H).
  apply IH in H. apply append_root_mono in Ha. lia.
Qed.

Lemma verify_roots_loop_mono fuel : forall to i grow q it cs q' it' cs',
  Proofs.verify_roots_loop fuel to i grow q it cs = Ok (q', it', cs') ->
  cs_length cs <= cs_length cs' < Z.max (2 ^ 64) (cs_length cs + 1).
Proof.
  induction fuel as [|fuel IH]; intros to i grow q it cs q' it' cs'; cbn [Proofs.verify_roots_loop];
    destruct (iter_full_root it to) as [it1 full]; (destruct (negb full); [intros [= _ _ <-]; lia|]); [done|].
  destruct (match cs_roots cs !! Z.to_nat i with Some r => _ | None => false end); [apply IH|].
  destruct (if grow && (i <? zlen (cs_roots cs)) then last (cs_roots cs) else None); intros H.
  - apply bind_inv_Ok in H as ([[q1 it2] cs1] & Hg & H). apply IH in H. apply grow_loop_mono in Hg. lia.
  - apply bind_inv_Ok in H as ([q1 x] & _ & H). apply bind_inv_Ok in H as ([cs1 it2] & Ha & H).
    apply IH in H. apply append_root_mono in Ha. lia.
Qed.

(** *** One root *)

Lemma append_root_inv d q cs it x cs' it' :
  Changeset.append_root cs x it = Ok (cs', it') -> cs_nodes cs' ⊆ ns -> cs_length cs' < 2 ^ 57 -> cs_length cs = 2 ^ d * q ->
  Forall2 near (cs_roots cs) (peaks (2 ^ d * q)) -> placed x (d, q) -> iter_at d q it -> 0 <= d -> 0 <= q ->
  cs_length cs' = 2 ^ d * (q + 1) /\
  exists ps e y rs' cur', peaks (2 ^ d * (q + 1)) = ps ++ [(e, y)] /\ cs_roots cs' = rs' ++ [cur'] /\
    Forall2 near rs' ps /\ placed cur' (e, y) /\ iter_at e y it' /\ (Z.odd q = true -> bound cur' (e, y)) /\
    (log_fits blocks -> 2 ^ d * (q + 1) <= zlen blocks -> Forall2 genuine (cs_roots cs') (peaks (2 ^ d * (q + 1))) ->
     collision inputs blocks \/ (Forall2 genuine (cs_roots cs) (peaks (2 ^ d * q)) /\ genuine x (d, q))).
Proof.
  intros Hrun Hns Hlt Hl Hrs Hx Hit Hd Hq. pose proof (Z.pow_pos_nonneg 2 d) as Hpos.
  pose proof (append_root_length _ _ _ _ _ Hrun) as Hlen. pose proof Hit as (_ & _ & Hfac). rewrite Hfac, Hl in Hlen.
  replace (2 ^ (d + 1) / 2) with (2 ^ d) in Hlen by (rewrite pow2_succ by done; rewrite Z.mul_comm, Z.div_mul; lia).
  assert (cs_length cs' = 2 ^ d * (q + 1)) as Hlen' by lia. split; [done|].
  unfold Changeset.append_root in Hrun. apply bind_inv_Ok in Hrun as (l & _ & Hrun). apply bind_inv_Ok in Hrun as (b & _ & Hrun).
  rewrite (peaks_aligned d q) in Hrs by done.
  assert (q < 2 ^ Z.of_nat (Z.to_nat (Z.log2_up (q + 1)))) as Hm.
  { rewrite Z2Nat.id by apply Z.log2_up_nonneg. pose proof (Z.log2_log2_up_spec (q + 1)). lia. }
  eapply (append_root_loop_inv (Z.to_nat (Z.log2_up (q + 1))) _ d q (2 ^ d * (q + 1))) in Hrun as [(ps & e & y & rs' & cur' & Hps & Hr' & Hrs' & Hc' & Hit' & Hbd & Hg) _];
    [|done|done|done|done|done|done|lia|lia|lia].
  exists ps, e, y, rs', cur'. rewrite !peaks_aligned, Hps, Hr' by lia. split_and!; try done; [intros; apply Hbd; by left|].
  intros Hfit Hle HG. apply Hg; try done.
  pose proof (tiles_peaks_at d (q + 1) Hd ltac:(lia)) as Ht. rewrite Hps in Ht. apply tiles_snoc in Ht.
  assert ((e, y) ∈ peaks_at d (q + 1)) as Hel by (rewrite Hps; apply elem_of_app; right; by left).
  apply peaks_at_elem in Hel as (? & ? & _); [|lia]. split_and!; [lia..|]. lia.
Qed.

(** ** Growing the last root *)

Lemma wire_placed x d o : x ∈ ns -> wire_node x -> node_index x = node_at d o -> placed x (d, o).
Proof. intros ? ([? ?] & ? & _) ?. by split_and!. Qed.

Lemma genuine_wire x d o : wire_node x -> 0 <= d -> 0 <= o -> node_index x = node_at d o -> genuine x (d, o) -> x = merkle_at blocks d o.
Proof. intros Hw Hd Ho Hi [Hh Hl]. by apply wire_node_eq. Qed.

(** What the loop has taken from the queue, and where it ends. *)
Lemma grow_loop_inv fuel : forall T d o l ps q xs it cs q' it' cs',
  Proofs.grow_loop fuel T q it cs = Ok (q', it', cs') -> cs_nodes cs' ⊆ ns -> cs_length cs' < 2 ^ 57 ->
  0 <= l -> peaks l = ps ++ [(d, o)] -> cs_length cs = l -> Forall2 near (cs_roots cs) (peaks l) ->
  iter_at d o it -> queue_of q xs -> Forall wire_node xs ->
  exists (m : nat) used rest, xs = used ++ rest /\ queue_of q' rest /\
    let D := d + Z.of_nat m in let O := o / 2 ^ Z.of_nat m in
    T = node_at D O /\ iter_at D O it' /\ cs_length cs' = 2 ^ D * (O + 1) /\
    Forall2 near (cs_roots cs') (peaks (cs_length cs')) /\
    (log_fits blocks -> cs_length cs' <= zlen blocks -> Forall2 genuine (cs_roots cs') (peaks (cs_length cs')) ->
     collision inputs blocks \/ (Forall2 genuine (cs_roots cs) (peaks l) /\ used = merkle_peaks blocks (fill m d o))).
Proof.
  induction fuel as [|fuel IH]; intros T d o l ps q xs it cs q' it' cs' Hrun Hns Hlt Hl Hp Hcl Hrs Hit Hq Hw;
    destruct (peaks_last _ _ _ _ Hl Hp) as (Hl' & Hd & Ho & Hev); pose proof Hit as [Hi _];
    cbn [Proofs.grow_loop] in Hrun; rewrite Hi in Hrun; destruct (Z.eqb_spec (node_at d o) T) as [<-|Hne].
  1, 3: injection Hrun as <- <- <-; exists 0%nat, [], xs; cbv zeta; rewrite Z.add_0_r, Z.pow_0_r, Z.div_1_r, Hcl, <-Hl';
    split_and!; try done; intros _ _ HG; by right.
  1: discriminate Hrun.
  apply bind_inv_Ok in Hrun as ([q1 x] & Hs & Hrun). apply bind_inv_Ok in Hrun as ([cs1 it1] & Ha & Hrun).
  pose proof (grow_loop_mono _ _ _ _ _ _ _ _ Hrun) as Hmono. pose proof (append_root_mono _ _ _ _ _ Ha) as Hmono0.
  pose proof (grow_loop_nodes _ _ _ _ _ _ _ _ Hrun) as Hsub. pose proof (append_root_nodes _ _ _ _ _ Ha) as [Hxn _].
  pose proof (sibling_in_tree d o l Hd Ho ltac:(lia) ltac:(lia)) as Hin.
  pose proof (iter_sibling_law it d o Hin Hd Hit) as Hsib. unfold sibling_offset in Hsib. rewrite Hev in Hsib.
  pose proof Hsib as [Hsi _]. rewrite Hsi in Hs.
  apply (queue_shift_inv _ _ _ _ _ Hq) in Hs as (xs1 & -> & Hq1 & Hxi). apply Forall_cons in Hw as [Hx Hw].
  destruct (append_root_inv d (o + 1) cs (iter_sibling it) x cs1 it1) as (Hl1 & ps1 & e & y & rs1 & cur1 & Hp1 & Hr1 & Hrs1 & Hc1 & Hit1 & Hb1 & Hg1);
    [done|by etrans|lia|lia|by rewrite <-Hl'|apply wire_placed; by auto|done|done|lia|].
  destruct (left_child_above d o ps1 e y Hd Ho Hev Hp1) as (k & Hek & Hy & Hh).
  pose proof (Z.pow_pos_nonneg 2 d).
  destruct (IH T e y (2 ^ d * (o + 1 + 1)) ps1 q1 xs1 it1 cs1 q' it' cs' Hrun Hns Hlt)
    as (m & used & rest & -> & Hq' & HT & Hit' & Hl2 & Hn2 & Hg2); try done.
  { nia. }
  { rewrite Hp1, Hr1. apply Forall2_app; [done|]. constructor; [|done]. split; [done|]. apply Hb1.
    by rewrite Z.odd_add, <-Z.negb_even, Hev. }
  assert (d + Z.of_nat (S (k + m)) = e + Z.of_nat m) as HD by lia.
  assert (o / 2 ^ Z.of_nat (S (k + m)) = y / 2 ^ Z.of_nat m) as HO.
  { rewrite half_up, Hh, Nat2Z.inj_add, Z.pow_add_r, <-Z.div_div, ones_half by (lia || (apply Z.pow_pos_nonneg; lia)). done. }
  exists (S (k + m)), (x :: used), rest. cbv zeta in *. rewrite HD, HO. split_and!; try done.
  intros Hfit Hle HG. destruct (Hg2 Hfit Hle HG) as [|[HG1 Hused]]; [by left|].
  destruct (Hg1 Hfit) as [|[HG0 Hgx]]; [lia|done|by left|]. right. split; [by rewrite Hl'|].
  cbn [fill]. rewrite Hev, Hh, fill_skip by done. rewrite <-Hek, Hused.
  rewrite (genuine_wire x d (o + 1)) by (done || lia). done.
Qed.

(** ** Appending the trees behind *)

Definition even_places (ps : list (Z * Z)) : Prop := forall d o, (d, o) ∈ ps -> Z.even o = true.

Lemma peaks_full ps : forall s n, full_from s ps n n -> even_places ps -> peaks n = peaks s ++ ps.
Proof.
  induction ps as [|[d o] ps IH]; intros s n Hf He; [cbn in Hf; subst; by rewrite app_nil_r|].
  destruct Hf as (Hd & Ho & -> & _ & _ & Hf).
  rewrite (IH (2 ^ d * (o + 1)) n Hf) by (intros ? ? ?; eapply He; by right).
  rewrite !peaks_aligned, peaks_at_left by (lia || (rewrite <-Z.negb_even, (He d o); [done|by left])).
  by rewrite <-app_assoc.
Qed.

Lemma not_same_placed s d o rs i :
  0 <= s -> s = 2 ^ d * o -> 0 <= d -> 0 <= o -> Forall2 placed rs (peaks s) ->
  match rs !! i with Some r => node_index r =? node_at d o | None => false end = false.
Proof.
  intros Hs0 Hs Hd Ho Hrs. destruct (rs !! i) as [r|] eqn:Hr; [|done].
  destruct (Forall2_lookup_l _ _ _ _ _ Hrs Hr) as ([e x] & Hp & (_ & _ & _ & Hi)). cbn [fst snd] in Hi.
  apply list_elem_of_lookup_2, peaks_elem in Hp as Hc. pose proof (complete_node_at s e x Hc). apply Z.eqb_neq.
  pose proof (node_at_in_span d o Hd Ho) as [Hlo _]. unfold span_left in Hlo. rewrite pow2_succ in Hlo by done. lia.
Qed.

Lemma roots_append_inv ps : forall s n i (grow : bool) q xs it cs fuel q' it' cs',
  Proofs.verify_roots_loop fuel (2 * n) i grow q it cs = Ok (q', it', cs') -> cs_nodes cs' ⊆ ns -> n < 2 ^ 57 ->
  full_from s ps n n -> even_places ps -> 0 <= s -> cs_length cs = s -> Forall2 placed (cs_roots cs) (peaks s) ->
  grow = false \/ zlen (cs_roots cs) <= i -> queue_of q xs -> Forall wire_node xs -> iter_at 0 s it ->
  exists used rest, xs = used ++ rest /\ queue_of q' rest /\ cs_length cs' = n /\
    cs_roots cs' = cs_roots cs ++ used /\ Forall2 placed used ps /\ Forall wire_node used.
Proof.
  induction ps as [|[d o] ps IH]; intros s n i grow q xs it cs fuel q' it' cs' Hrun Hns Hn Hf He Hs Hcl Hrs Hg Hq Hw Hit.
  - cbn in Hf. subst s. assert (Ok (q, it, cs) = Ok (E:=HypercoreError) (q', it', cs')) as [= <- <- <-].
    { rewrite <-Hrun. destruct fuel; cbn [Proofs.verify_roots_loop]; by rewrite (iter_full_root_done it n) by (done || lia). }
    exists [], xs. rewrite app_nil_r. by split_and!.
  - destruct (full_root_next _ _ _ _ _ _ Hf Hn Hit) as (Hc & it1 & Hroot & Hat).
    pose proof Hf as (Hd & Ho & Hseq & Hlt & _ & Hf'). pose proof (full_from_le _ _ _ _ Hf') as Hle. pose proof Hat as (Hi & _ & Hfac).
    destruct fuel as [|fuel]; cbn [Proofs.verify_roots_loop] in Hrun; rewrite Hroot in Hrun; cbn [negb] in Hrun; [discriminate Hrun|].
    rewrite Hi, (not_same_placed s d o) in Hrun by done.
    assert ((if grow && (i <? zlen (cs_roots cs)) then last (cs_roots cs) else None) = None) as Hno.
    { destruct Hg as [->|Hg]; [done|]. rewrite (proj2 (Z.ltb_ge _ _)) by done. by rewrite andb_false_r. }
    rewrite Hno in Hrun. apply bind_inv_Ok in Hrun as ([q1 x] & Hsh & Hrun).
    apply bind_inv_Ok in Hrun as ([cs1 it2] & Ha & Hrun).
    apply (queue_shift_inv _ _ _ _ _ Hq) in Hsh as (xs1 & -> & Hq1 & Hxi). apply Forall_cons in Hw as [Hx Hw].
    pose proof (verify_roots_loop_nodes _ _ _ _ _ _ _ _ _ _ Hrun) as Hsub. pose proof (append_root_nodes _ _ _ _ _ Ha) as [Hxn _].
    pose proof (append_root_length _ _ _ _ _ Ha) as Hl1. rewrite Hfac, Hcl, Hseq in Hl1.
    replace (2 ^ (d + 1) / 2) with (2 ^ d) in Hl1 by (rewrite pow2_succ by done; rewrite Z.mul_comm, Z.div_mul; lia).
    assert (Z.odd o = false) as Hodd by (rewrite <-Z.negb_even, (He d o); [done|by left]).
    pose proof (wire_placed x d o ltac:(by auto) Hx Hxi) as Hxp.
    unfold Changeset.append_root in Ha. apply bind_inv_Ok in Ha as (l & Hll & Ha). apply bind_inv_Ok in Ha as (b & _ & Ha).
    rewrite Hseq, peaks_aligned in Hrs by done.
    eapply (append_root_loop_left _ d o n _ _ (cs_roots cs) x) in Ha as (it3 & [= -> ->] & Hit3); [|done..].
    cbn [cs_length cs_roots Changeset.set_roots_nodes Changeset.set_upgraded_length_byte_length] in Hl1, Hrun.
    pose proof (Z.pow_pos_nonneg 2 d).
    apply (IH (2 ^ d * (o + 1)) n) with (xs := xs1) in Hrun as (used & rest & -> & Hq' & Hl' & Hr' & Hu & Hwu); try done.
    + exists (x :: used), rest. cbn in Hr'. rewrite Hr', <-app_assoc. split_and!; try done; by constructor.
    + intros ? ? ?. eapply He. by right.
    + nia.
    + cbn. lia.
    + cbn [cs_roots Changeset.set_roots_nodes Changeset.set_upgraded_length_byte_length].
      rewrite peaks_aligned, peaks_at_left by (done || lia). apply Forall2_app; [done|by constructor].
    + by left.
    + by eapply next_tree_at.
Qed.

(** ** All roots *)

Lemma even_peaks n pre ps : peaks n = pre ++ ps -> even_places ps.
Proof.
  intros Hp d o Hin. assert ((d, o) ∈ peaks_at 0 n) as Hel by (fold (peaks n); rewrite Hp; apply elem_of_app; by right).
  apply peaks_at_elem in Hel; [by destruct Hel as (_ & _ & _ & ?)|lia].
Qed.

Lemma genuine_places xs ps :
  Forall wire_node xs -> Forall2 placed xs ps -> Forall2 genuine xs ps -> (forall d o, (d, o) ∈ ps -> 0 <= d /\ 0 <= o) ->
  xs = merkle_peaks blocks ps.
Proof.
  intros Hw Hp Hg. revert Hw Hp. induction Hg as [|x [d o] xs ps Hx _ IH]; intros Hw Hp Hpos; [done|].
  apply Forall_cons in Hw as [Hwx Hw]. apply Forall2_cons in Hp as [(_ & _ & _ & Hi) Hp]. destruct (Hpos d o ltac:(by left)).
  change (merkle_peaks blocks ((d, o) :: ps)) with (merkle_at blocks d o :: merkle_peaks blocks ps).
  f_equal; [by apply genuine_wire|]. apply IH; [done..|]. intros ? ? ?. apply Hpos. by right.
Qed.

Lemma full_from_nonneg s ps e n d o : full_from s ps e n -> (d, o) ∈ ps -> 0 <= d /\ 0 <= o.
Proof.
  revert s. induction ps as [|[d' o'] ps IH]; intros s; [by intros _ ?%elem_of_nil|].
  intros (? & ? & _ & _ & _ & Hf) [[= -> ->]|Hin]%elem_of_cons; [done|by eapply IH].
Qed.

(** The trees behind, when the roots before them are genuine. *)
Lemma roots_append_honest ps s n i (grow : bool) q xs it cs fuel q' it' cs' :
  Proofs.verify_roots_loop fuel (2 * n) i grow q it cs = Ok (q', it', cs') -> cs_nodes cs' ⊆ ns -> n < 2 ^ 57 ->
  full_from s ps n n -> even_places ps -> 0 <= s -> cs_length cs = s -> Forall2 placed (cs_roots cs) (peaks s) ->
  grow = false \/ zlen (cs_roots cs) <= i -> queue_of q xs -> Forall wire_node xs -> iter_at 0 s it ->
  exists used rest, xs = used ++ rest /\ queue_of q' rest /\ cs_length cs' = n /\ Forall2 placed (cs_roots cs') (peaks n) /\
    (Forall2 genuine (cs_roots cs') (peaks n) -> Forall2 genuine (cs_roots cs) (peaks s) /\ used = merkle_peaks blocks ps).
Proof.
  intros Hrun Hns Hn Hf He Hs Hcl Hrs Hg Hq Hw Hit.
  destruct (roots_append_inv ps s n i grow q xs it cs fuel q' it' cs') as (used & rest & -> & Hq' & Hl & Hr & Hu & Hwu); [done..|].
  exists used, rest. rewrite (peaks_full ps s n) by done. rewrite Hr. split_and!; try done; [by apply Forall2_app|].
  intros (Hg1 & Hg2)%Forall2_app_inv; [|by eapply Forall2_length]. split; [done|].
  apply genuine_places; [done..|]. intros d o. by eapply full_from_nonneg.
Qed.

Lemma verify_roots_loop_inv a n ps : forall pre qs s (grow : bool) q xs it cs fuel q' it' cs',
  Proofs.verify_roots_loop fuel (2 * n) (zlen pre) grow q it cs = Ok (q', it', cs') -> cs_nodes cs' ⊆ ns -> n < 2 ^ 57 -> cs_length cs' < 2 ^ 57 ->
  peaks n = pre ++ ps -> peaks a = pre ++ qs -> full_from s ps n n -> full_from s qs a a -> 0 <= s ->
  cs_length cs = a -> Forall2 near (cs_roots cs) (peaks a) -> grow = negb (is_empty (cs_roots cs)) ->
  queue_of q xs -> Forall wire_node xs -> iter_at 0 s it ->
  (n <= a -> cs' = cs /\ q' = q) /\
  (a < n -> cs_length cs' = n /\ exists used rest, xs = used ++ rest /\ queue_of q' rest /\
     Forall2 placed (cs_roots cs') (peaks n) /\
     (log_fits blocks -> n = zlen blocks -> Forall2 genuine (cs_roots cs') (peaks n) ->
      collision inputs blocks \/ used = merkle_peaks blocks (upgrade_nodes a ps))).
Proof.
  induction ps as [|[d o] ps IH]; intros pre qs s grow q xs it cs fuel q' it' cs' Hrun Hns Hn Hlt Hpn Hpa Hfn Hfa Hs Hcl Hrs Hgrow Hq Hw Hit;
    pose proof (full_from_le _ _ _ _ Hfa) as Hsa.
  { cbn in Hfn. subst s. assert (Ok (q, it, cs) = Ok (E:=HypercoreError) (q', it', cs')) as [= <- <- <-]; [|by split; [|lia]].
    rewrite <-Hrun. destruct fuel; cbn [Proofs.verify_roots_loop]; by rewrite (iter_full_root_done it n) by (done || lia). }
  pose proof (even_peaks _ _ _ Hpn) as Heven.
  assert (zlen (cs_roots cs) = zlen pre + zlen qs) as Hzr.
  { apply Forall2_length in Hrs. unfold zlen. rewrite Hrs, Hpa, length_app. lia. }
  pose proof (zlen_nonneg pre). pose proof Hfn as (Hd & Ho & Hseq & Hsn & Hlog & Hfn').
  destruct qs as [|[d' o'] qs].
  { cbn in Hfa. subst a. split; [lia|]. intros _.
    destruct (roots_append_honest _ _ _ _ _ _ xs _ _ _ _ _ _ Hrun Hns Hn Hfn Heven Hs Hcl (near_placed _ _ Hrs))
      as (used & rest & -> & Hq' & Hl & Hpl & Hg); [right; rewrite Hzr; change (zlen []) with 0; lia|done..|].
    split; [done|]. exists used, rest. split_and!; try done. intros _ _ HG. right.
    rewrite (upgrade_nodes_behind s s _ n) by (done || lia). by apply Hg. }
  destruct (full_root_next _ _ _ _ _ _ Hfn Hn Hit) as (Hc & it1 & Hroot & Hat). pose proof Hat as [Hi _].
  pose proof Hfa as (Hd' & Ho' & Hseq' & Hsa' & Hlog' & Hfa'). pose proof (Z.pow_pos_nonneg 2 d). pose proof (Z.pow_pos_nonneg 2 d').
  destruct fuel as [|fuel]; cbn [Proofs.verify_roots_loop] in Hrun; rewrite Hroot in Hrun; cbn [negb] in Hrun; [discriminate Hrun|].
  assert (exists r, cs_roots cs !! Z.to_nat (zlen pre) = Some r /\ node_index r = node_at d' o') as (r & Hr & Hri).
  { destruct (Forall2_lookup_r _ _ _ (Z.to_nat (zlen pre)) (d', o') Hrs) as (r & Hr & [(_ & _ & _ & Hri) _]); [|by exists r].
    rewrite Hpa. unfold zlen. rewrite Nat2Z.id, lookup_app_r, Nat.sub_diag by done. done. }
  rewrite Hr, Hi, Hri in Hrun. destruct (decide (d' = d)) as [->|Hne].
  { assert (o' = o) as -> by nia. rewrite Z.eqb_refl in Hrun.
    replace (zlen pre + 1) with (zlen (pre ++ [(d, o)])) in Hrun by (by rewrite zlen_app).
    destruct (IH (pre ++ [(d, o)]) qs (2 ^ d * (o + 1)) grow q xs (iter_next_tree it1) cs fuel q' it' cs') as [IH1 IH2];
      try done; [by rewrite <-app_assoc..|nia|by eapply next_tree_at|]. split; [done|].
    cbn [upgrade_nodes]. by rewrite (proj2 (Z.leb_le (2 ^ d * (o + 1)) a)) by by eapply full_from_le. }
  rewrite (proj2 (Z.eqb_neq _ _)) in Hrun by (intros E; apply node_at_inj in E; lia).
  destruct (list_nil_or_snoc (peaks a)) as [Hnil|(ps0 & [e x] & Hps0)]; [rewrite Hpa in Hnil; by destruct pre|].
  assert (0 <= a) as Ha0 by lia. destruct (peaks_last a ps0 e x Ha0 Hps0) as (Hae & He & Hx & _).
  assert (exists rs0 b, cs_roots cs = rs0 ++ [b] /\ node_index b = node_at e x) as (rs0 & b & Hcr & Hbi).
  { pose proof Hrs as Hrs'. rewrite Hps0 in Hrs'. apply Forall2_app_inv_r in Hrs' as (rs0 & rb & _ & Hb & ->).
    apply Forall2_cons_inv_r in Hb as (b & ? & [(_ & _ & _ & Hb) _] & ->%Forall2_nil_inv_r & ->). by exists rs0, b. }
  rewrite (proj2 (Z.ltb_lt (zlen pre) _)) in Hrun by (rewrite Hzr, zlen_cons; pose proof (zlen_nonneg qs); lia).
  assert (grow = true) as -> by (rewrite Hgrow, Hcr; by destruct rs0).
  cbn [andb] in Hrun. replace (last (cs_roots cs)) with (Some b) in Hrun by (by rewrite Hcr, last_snoc).
  rewrite Hbi in Hrun. apply bind_inv_Ok in Hrun as ([[q1 it2] cs1] & Hgl & Hrun).
  pose proof (verify_roots_loop_nodes _ _ _ _ _ _ _ _ _ _ Hrun) as Hsub.
  pose proof (verify_roots_loop_mono _ _ _ _ _ _ _ _ _ _ Hrun) as Hmono. pose proof (grow_loop_mono _ _ _ _ _ _ _ _ Hgl) as Hmono0.
  assert (iter_at e x (iter_seek it1 (node_at e x))) as Hseek.
  { apply iter_seek_law. apply (complete_in_tree a); [by split_and!; [..|lia]|lia]. }
  destruct (grow_loop_inv _ _ e x a ps0 q xs _ cs q1 it2 cs1 Hgl) as (m & used & rest & -> & Hq1 & HT & Hit2 & Hl1 & Hn1 & Hg1);
    try done; [by etrans|lia|]. cbv zeta in *.
  pose proof (Z.pow_pos_nonneg 2 (Z.of_nat m)). assert (0 <= x / 2 ^ Z.of_nat m) by (apply Z.div_pos; lia).
  apply node_at_inj in HT as [HdD HoO]; [|done|lia..]. rewrite <-HdD, <-HoO in *.
  pose proof (full_from_le _ _ _ _ Hfn') as Hle.
  assert (a < n) as Han.
  { destruct (Z.lt_ge_cases a n) as [|Hge]; [done|exfalso]. assert (n = a) as -> by lia. lia. }
  split; [lia|]. intros _.
  destruct (roots_append_honest _ _ _ _ _ _ rest _ _ _ _ _ _ Hrun Hns Hn Hfn') as (used2 & rest2 & -> & Hq' & Hl & Hpl & Hg2).
  { intros ? ? ?. eapply Heven. by right. } { nia. } { done. } { rewrite <-Hl1. by apply near_placed. } { by left. }
  { done. } { by apply Forall_app in Hw as [_ ?]. } { by eapply next_tree_at. }
  split; [done|]. exists (used ++ used2), rest2. rewrite app_assoc. split_and!; try done.
  intros Hfit Hzn HG. destruct (Hg2 HG) as [HG1 ->]. rewrite <-Hl1 in HG1.
  destruct (Hg1 Hfit) as [|[_ ->]]; [lia|done|by left|right].
  assert (d' < d) as Hdd. { assert (d' <= d) by (rewrite Hlog, Hlog'; apply Z.log2_le_mono; lia). lia. }
  assert (a < 2 ^ d * (o + 1)) as Hend.
  { pose proof (Z.log2_spec (a - s) ltac:(lia)) as [_ Hub]. rewrite <-Hlog' in Hub.
    assert (2 ^ Z.succ d' <= 2 ^ d) by (apply Z.pow_le_mono_r; lia). lia. }
  destruct (growing_root a d o e x) as (m' & _ & HD' & _ & Hfill); [done..|lia|]. assert (m' = m) as -> by lia.
  cbn [upgrade_nodes]. rewrite (proj2 (Z.leb_gt _ _)), (proj2 (Z.ltb_lt (2 ^ d * o) a)) by lia.
  rewrite (upgrade_nodes_behind a _ _ _ Hfn') by lia. by rewrite merkle_peaks_snoc, Hfill.
Qed.
End Honest.

(** ** Signatures *)

Section Signed.
Context `{FT : FlatTree} {FL : FlatTreeLaws FT} `{CE : CompactEncoding} {CL : CompactEncodingLaws CE}
  `{B2 : Blake2b} {BL : Blake2bLaws B2} `{ED : Ed25519} {EL : Ed25519Laws ED} `{IO : IntMapOrder}.
Implicit Types (blocks full old more : list (list Z)) (self : MerkleTree) (cs : MerkleTreeChangeset).

(** An upgrade and nothing else, as it comes from the wire. *)
Definition upgrade_proof (p : Proof_) (u : DataUpgrade) : Prop :=
  proof_block p = None /\ proof_hash p = None /\ proof_seek p = None /\ proof_upgrade p = Some u /\
  Forall wire_node (du_nodes u) /\ du_additional_nodes u = [] /\
  0 <= du_start u /\ 0 <= du_length u /\ du_start u + du_length u < 2 ^ 57.

(** The signature that came with the changeset [cs] is one of bytes that the
    key has not signed: it has signed the log as it grew, on whatever forks. *)
Definition forged (pk : VerifyingKey) full cs : Prop :=
  exists h sig, cs_hash cs = Some h /\ cs_signature cs = Some sig /\
    let m := signable_bytes h (cs_length cs) (cs_fork cs) in ed_verify pk m sig = true /\
    forall (j : nat) fork, is_u64 fork -> m <> signed_bytes (take j full) fork.

Lemma signable_bytes_inj h l f h' l' f' :
  zlen h = 32 -> zlen h' = 32 -> is_u64 l -> is_u64 l' -> is_u64 f -> is_u64 f' ->
  signable_bytes h l f = signable_bytes h' l' f' -> h = h' /\ l = l' /\ f = f'.
Proof.
  unfold signable_bytes, zlen. intros Hh Hh' Hl Hl' Hf Hf' H. apply app_inj_1 in H as [_ H]; [|done].
  apply app_inj_1 in H as [-> H]; [|lia]. apply app_inj_1 in H as [E1 E2]; [|done].
  by apply (le_bytes_inj 8) in E1, E2.
Qed.

Lemma log_fits_take full (j : nat) : log_fits full -> log_fits (take j full).
Proof.
  intros [Hn Hb]. split.
  - unfold zlen in *. rewrite length_take. lia.
  - rewrite <-(take_drop j full), concat_app, zlen_app in Hb. pose proof (zlen_nonneg (concat (drop j full))). lia.
Qed.

(** Whether bytes were signed, for one fork. *)
Lemma signed_or_not full fork l h :
  log_fits full -> is_u64 fork -> is_u64 l -> zlen h = 32 ->
  (exists j : nat, signable_bytes h l fork = signed_bytes (take j full) fork) \/
  forall (j : nat) fork', is_u64 fork' -> signable_bytes h l fork <> signed_bytes (take j full) fork'.
Proof.
  intros Hfit Hf Hl Hh. set (ms := (fun j => signed_bytes (take j full) fork) <$> seq 0 (S (length full))).
  destruct (decide (signable_bytes h l fork ∈ ms)) as [Hin|Hnot].
  - left. apply list_elem_of_fmap in Hin as (j & -> & _). by exists j.
  - right. intros j fork' Hf' Heq. destruct Hnot. apply list_elem_of_fmap.
    pose proof (log_fits_take full j Hfit) as [Hj _]. pose proof (zlen_nonneg (take j full)).
    pose proof (blake2b256_bytes (tree_preimage (merkle_roots (take j full)))) as [_ H32].
    pose proof Heq as Heq'. unfold signed_bytes in Heq'. apply signable_bytes_inj in Heq' as (_ & _ & <-); try done; [|unfold is_u64; lia].
    exists (Nat.min j (length full)). split; [|apply elem_of_seq; lia].
    destruct (Nat.le_gt_cases j (length full)); [by replace (Nat.min j (length full)) with j by lia|].
    rewrite (take_ge full j) in Heq by lia. by rewrite (take_ge full) by lia.
Qed.

(** What an accepted signature says. *)
Lemma signature_honest pk full u fork cs cs' :
  log_fits full -> is_u64 fork -> 0 <= cs_length cs < 2 ^ 64 ->
  Changeset.verify_and_set_signature (Proofs.set_fork cs fork) (du_signature u) pk = Ok cs' ->
  cs_roots cs' = cs_roots cs /\ cs_nodes cs' = cs_nodes cs /\
  (forged pk full cs' \/
  exists (j : nat) sig, cs_length cs = zlen (take j full) /\ sig_try_from (du_signature u) = Some sig /\
    ed_verify pk (signed_bytes (take j full) fork) sig = true /\
    Hash_tree (cs_roots cs) = Ok (blake2b256 (tree_preimage (merkle_roots (take j full))))).
Proof.
  intros Hfit Hf Hl H. unfold Changeset.verify_and_set_signature in H.
  apply bind_inv_Ok in H as (sig & Hsig & H). apply bind_inv_Ok in H as (h & Hh & H).
  apply bind_inv_Ok in H as (s & Hs & H). apply bind_inv_Ok in H as (? & Hv & [= <-]). split_and!; [done..|].
  destruct (sig_try_from (du_signature u)) as [sig'|] eqn:Hbytes; [|discriminate Hsig]. injection Hsig as <-.
  unfold verify in Hv. destruct (ed_verify pk s sig') eqn:Hver; [|discriminate Hv].
  assert (is_bytes32 h) as Hh32.
  { unfold Changeset.hash, Hash_tree in Hh. apply bind_inv_Ok in Hh as (us & _ & [= <-]). apply blake2b256_bytes. }
  unfold Changeset.signable in Hs. cbn [Proofs.set_fork cs_length cs_fork] in Hs.
  rewrite signable_tree_Ok in Hs by done. injection Hs as <-.
  destruct (signed_or_not full fork (cs_length cs) h) as [[j Heq]|Hno]; [done..|apply Hh32| |left; by exists h, sig'].
  right. exists j, sig'.
  pose proof (blake2b256_bytes (tree_preimage (merkle_roots (take j full)))) as [_ H32].
  pose proof (log_fits_take full j Hfit) as [Hj _]. pose proof (zlen_nonneg (take j full)).
  rewrite Heq in Hver. unfold signed_bytes in Heq. apply signable_bytes_inj in Heq as (-> & -> & _);
    [|apply Hh32|done|done|unfold is_u64; lia|done..].
  split_and!; [done|done|exact Hver|exact Hh].
Qed.

Lemma merkle_near inputs ns blocks n :
  log_fits blocks -> n <= zlen blocks -> merkle_peaks blocks (peaks n) ⊆ ns ->
  Forall2 (near blocks inputs ns) (merkle_peaks blocks (peaks n)) (peaks n).
Proof.
  intros [_ Hb] Hn Hns. unfold merkle_peaks in *. apply Forall2_fmap_l, Forall_Forall2_diag, Forall_forall.
  intros [d o] Hin. pose proof Hin as (Hd & Ho & Hle)%peaks_elem.
  assert (merkle_at blocks d o ∈ ns) by (apply Hns, list_elem_of_fmap; by exists (d, o)). pose proof (merkle_hash32 blocks (Z.to_nat d) o) as [_ H32].
  pose proof (merkle_length_nonneg blocks (Z.to_nat d) o).
  pose proof (merkle_length_le blocks (Z.to_nat d) o Ho) as Hm. rewrite Z2Nat.id in Hm by done.
  split; [split_and!; [done|done|split; lia|]|by right]. cbn. by rewrite merkle_index, Z2Nat.id.
Qed.

(** Roots with the hash of the log's roots are the log's. *)
Lemma roots_genuine inputs ns blocks rs :
  tree_preimage rs ∈ inputs -> log_fits blocks -> Forall2 (placed ns) rs (peaks (zlen blocks)) ->
  Hash_tree rs = Ok (blake2b256 (tree_preimage (merkle_roots blocks))) ->
  collision inputs blocks \/ Forall2 (genuine blocks) rs (peaks (zlen blocks)).
Proof.
  intros Hin Hfit Hrs Hh.
  pose proof (merkle_near [] (merkle_roots blocks) blocks (zlen blocks) Hfit ltac:(lia) (reflexivity _)) as Hlog.
  assert (forall ns rs, Forall2 (placed ns) rs (peaks (zlen blocks)) -> Forall hashable rs) as Hok.
  { intros ns' rs' Hrs'. destruct Hfit as [Hn _]. apply Forall_forall. intros x (i & Hx)%list_elem_of_lookup_1.
    destruct (Forall2_lookup_l _ _ _ _ _ Hrs' Hx) as ([d o] & Hp & _ & H32 & Hl & Hi).
    apply list_elem_of_lookup_2, peaks_elem in Hp as Hc. split_and!; try done; rewrite Hi; cbn [fst snd];
      pose proof (complete_node_at _ _ _ Hc); unfold is_u64; lia. }
  pose proof (Hok _ rs Hrs) as Hr. pose proof (Hok _ _ (near_placed _ _ _ _ _ Hlog)) as Hr'.
  rewrite Hash_tree_Ok in Hh by (eapply Forall_impl; [exact Hr|]; by intros n (_ & ? & ?)).
  injection Hh as [Hh|]%(hash_or_collision inputs blocks); [right|by left|done|apply roots_hashed].
  apply (tree_preimage_inj rs (merkle_roots blocks) Hr Hr') in Hh. unfold merkle_roots in Hh.
  revert Hrs Hh. clear. generalize (peaks (zlen blocks)). intros ps Hrs. induction Hrs as [|x [d o] rs ps _ _ IH]; intros Hh; [constructor|].
  injection Hh as Hxh Hxi Hxl Hh. constructor; [by split|by apply IH].
Qed.

Lemma take_extends old full (j : nat) :
  old `prefix_of` full -> zlen old <= zlen (take j full) -> exists more, take j full = old ++ more /\ old ++ more `prefix_of` full.
Proof.
  intros [rest ->] Hle. unfold zlen in Hle. rewrite length_take in Hle.
  exists (take (j - length old) rest). rewrite take_app_ge by lia. split; [done|].
  apply prefix_app. apply prefix_take.
Qed.

(** What is accepted: the signature of what is there already, or the nodes of
    an honest upgrade. *)
Lemma verify_upgrade_honest pk full old self fork p u ok cs' :
  old `prefix_of` full -> log_fits full -> tree_for old self -> is_u64 fork ->
  Forall wire_node (du_nodes u) -> du_additional_nodes u = [] -> 0 <= du_start u -> 0 <= du_length u ->
  du_start u + du_length u < 2 ^ 57 ->
  Proofs.verify_upgrade fork u None pk (Tree.changeset self) = Ok (ok, cs') ->
  collision (verifier_hashed self p cs') full \/ forged pk full cs' \/ (exists sig,
    cs' = Changeset.set_hash_signature (Proofs.set_fork (Tree.changeset self) fork)
            (Some (blake2b256 (tree_preimage (merkle_roots old)))) (Some sig) \/
    exists more, more <> [] /\ old ++ more `prefix_of` full /\
      accepted_upgrade (old ++ more) fork sig (Tree.changeset self) cs').
Proof.
  intros Hpre Hfit Hfor Hf Hw Hadd Hst Hln Hlt Hrun. pose proof Hfor as (Hr & Hl & Hb). pose proof Hrun as Hrun0.
  pose proof (zlen_nonneg old) as Hold0. destruct Hpre as [rest0 Hfull]. pose proof Hfit as [Hfl _]. rewrite Hfull, zlen_app in Hfl.
  pose proof (zlen_nonneg rest0).
  unfold Proofs.verify_upgrade in Hrun. set (n := du_start u + du_length u) in *.
  rewrite checked_add_Ok, bind_Ok, checked_mul_Ok, bind_Ok in Hrun by (unfold n in *; lia). fold n in Hrun.
  apply bind_inv_Ok in Hrun as ([[q it] cs1] & Hloop & Hrun). apply bind_inv_Ok in Hrun as (lr & _ & Hrun).
  rewrite Hadd in Hrun. cbn [Proofs.extra_siblings] in Hrun. rewrite bind_Ok in Hrun. cbn [Proofs.extra_roots] in Hrun.
  rewrite bind_Ok in Hrun. apply bind_inv_Ok in Hrun as (cs2 & Hsig & Hrun). injection Hrun as <- <-.
  pose proof (verify_roots_loop_mono _ _ _ _ _ _ _ _ _ _ Hloop) as Hmono.
  change (cs_length (Tree.changeset self)) with (mt_length self) in Hmono. rewrite Hl in Hmono.
  destruct (signature_honest pk full u fork cs1 cs2) as (Hrs2 & Hns2 & [|(j & sig & Hcl & Hbytes & Hver & Hhash)]); [done..|lia|done|by right; left|].
  destruct (take_extends old full j) as (more & Hj & Hpre'); [by exists rest0|lia|]. rewrite Hj in Hcl, Hver, Hhash.
  assert (log_fits (old ++ more)) as HfitL by (rewrite <-Hj; by apply log_fits_take).
  pose proof HfitL as [HnL _]. rewrite <-Hcl in HnL.
  assert (0 <= n) as Hn0 by (unfold n; lia).
  assert (cs_roots (Tree.changeset self) = merkle_peaks (old ++ more) (peaks (zlen old))) as Hroots.
  { cbn. rewrite Hr, merkle_peaks_app by lia. done. }
  set (inputs := verifier_hashed self p cs2). set (ns := mt_roots self ++ cs_nodes cs2).
  destruct (verify_roots_loop_inv (old ++ more) inputs ns (verifier_hashed_pairs self p cs2) (zlen old) n (peaks n) [] (peaks (zlen old)) 0
    (negb (is_empty (cs_roots (Tree.changeset self)))) (NodeQueue.new (du_nodes u) None) (du_nodes u) (iter_new 0)
    (Tree.changeset self) tree_fuel q it cs1 Hloop) as [Hsame Hmore]; try done.
  { intros x Hx. apply elem_of_app. right. by rewrite Hns2. } { by apply full_peaks. } { by apply full_peaks. }
  { rewrite Hroots. apply merkle_near; [done| |]; [rewrite zlen_app; pose proof (zlen_nonneg more); lia|].
    rewrite <-Hroots. intros x Hx; apply elem_of_app; by left. }
  { apply queue_new. } { change 0 with (node_at 0 0) at 2. by apply iter_new_law. }
  destruct (Z.le_gt_cases n (zlen old)) as [Hle|Hgt].
  - destruct (Hsame Hle) as [-> ->]. right. right. exists sig. left.
    assert (cs_for old (Proofs.set_fork (Tree.changeset self) fork)) as Hcs by (by split_and!).
    rewrite (verify_and_set_signature_ok old), Hbytes in Hsig by (done || by eapply log_fits_prefix).
    destruct (ed_verify _ _ _); [|discriminate Hsig]. by injection Hsig as <-.
  - destruct (Hmore Hgt) as (Hln1 & used & rest & Hxs & Hq & Hpl & Hg). assert (n = zlen (old ++ more)) as Hn by lia.
    rewrite Hn in Hpl, Hg. destruct (roots_genuine inputs ns (old ++ more) (cs_roots cs1) ltac:(rewrite <-Hrs2; apply verifier_hashed_roots) HfitL Hpl Hhash) as [|HG]; [left; by eapply collision_prefix|].
    destruct (Hg HfitL eq_refl HG) as [|Hused]; [left; by eapply collision_prefix|right; right].
    destruct (verify_upgrade_ok (old ++ more) (zlen old) fork (Tree.changeset self) (du_signature u) sig pk
      (merkle_peaks (old ++ more) (upgrade_nodes (zlen old) (peaks (zlen (old ++ more)))) ++ rest) None rest (du_start u) (du_length u))
      as (ok' & cs3 & Hok & _ & Hacc); try done; [lia| |apply queue_feeds, queue_new|].
    { split_and!; [done|by cbn|]. cbn. rewrite Hb, byte_sum_app by lia. symmetry. apply byte_sum_all. }
    assert (u = mkDataUpgrade (du_start u) (du_length u) (merkle_peaks (old ++ more)
      (upgrade_nodes (zlen old) (peaks (zlen (old ++ more)))) ++ rest) [] (du_signature u)) as Hu.
    { destruct u. cbn in Hxs, Hadd |- *. rewrite Hxs, Hused, Hadd. by rewrite <-Hn. }
    rewrite <-Hu, Hrun0 in Hok. injection Hok as _ ->. exists sig. right. exists more.
    split_and!; [|done|done]. intros ->. rewrite app_nil_r in Hn. lia.
Qed.
End Signed.

(** ** Additional nodes

    The nodes behind the upgrade, which a peer sends because its signature
    covers more than was asked for, are merged with nodes of the same proof.
    Neither of the two is bound then: only the sum of their lengths is. *)

Section Additional.
Context `{FT : FlatTree} {FL : FlatTreeLaws FT} `{CE : CompactEncoding} {CL : CompactEncodingLaws CE}
  `{B2 : Blake2b} {BL : Blake2bLaws B2} `{ED : Ed25519} {EL : Ed25519Laws ED} `{IO : IntMapOrder}.
Implicit Types (cs : MerkleTreeChangeset) (self : MerkleTree).

(** The leaf of a block with another length. *)
Definition leaf_with (i : Z) (b : list Z) (len : Z) : Node := Node_new (2 * i) (blake2b256 (leaf_preimage b)) len.

(** An upgrade to one block, with the second behind it. *)
Definition two_leaves (b0 b1 : list Z) (l0 l1 : Z) (sig : Signature) : DataUpgrade :=
  mkDataUpgrade 0 1 [leaf_with 0 b0 l0] [leaf_with 1 b1 l1] (sig_to_bytes sig).

Lemma first_root_ok cs x it :
  cs_roots cs = [] -> cs_length cs = 0 -> cs_byte_length cs = 0 -> 0 <= node_length x < 2 ^ 64 -> iter_at 0 0 it ->
  Changeset.append_root cs x it =
    Ok (Changeset.set_roots_nodes (Changeset.set_upgraded_length_byte_length cs true 1 (node_length x)) [x] (cs_nodes cs ++ [x]), it).
Proof.
  intros Hr Hl Hb Hx (_ & _ & Hf). unfold Changeset.append_root. rewrite Hf, Hl, Hb. change (2 ^ (0 + 1) / 2) with 1.
  rewrite !checked_add_Ok, !bind_Ok by lia. rewrite !Z.add_0_l. cbn [cs_roots Changeset.set_upgraded_length_byte_length].
  rewrite Hr. apply (append_root_loop_single _ _ _ x). done.
Qed.

Lemma second_root_ok cs b0 b1 l0 l1 it :
  cs_roots cs = [leaf_with 0 b0 l0] -> cs_length cs = 1 -> cs_byte_length cs = l0 -> 0 <= l0 -> 0 <= l1 ->
  l0 + l1 = zlen b0 + zlen b1 -> log_fits [b0; b1] -> iter_at 0 1 it ->
  exists it', Changeset.append_root cs (leaf_with 1 b1 l1) it =
    Ok (Changeset.set_roots_nodes (Changeset.set_upgraded_length_byte_length cs true 2 (l0 + l1)) [merkle_at [b0; b1] 1 0]
          ((cs_nodes cs ++ [leaf_with 1 b1 l1]) ++ [merkle_at [b0; b1] 1 0]), it').
Proof.
  intros Hr Hl Hb H0 H1 Hsum [_ Hfit] Hit. pose proof Hit as (_ & _ & Hf).
  assert (l0 + l1 < 2 ^ 64) as Hlt by (rewrite Hsum; cbn in Hfit; rewrite !zlen_app in Hfit; change (zlen []) with 0 in Hfit; lia).
  unfold Changeset.append_root. rewrite Hf, Hl, Hb. change (2 ^ (0 + 1) / 2) with 1. change (node_length (leaf_with 1 b1 l1)) with l1.
  rewrite !checked_add_Ok, !bind_Ok by lia. change (1 + 1) with 2.
  cbn [cs_roots cs_nodes Changeset.set_upgraded_length_byte_length Changeset.set_roots_nodes].
  rewrite Hr. cbn [app length Changeset.append_root_loop].
  change (cs_roots (Changeset.set_roots_nodes ?a ?b ?c)) with b. change (cs_nodes (Changeset.set_roots_nodes ?a ?b ?c)) with c.
  pose proof (iter_sibling_law it 0 1) as Hsib. specialize (Hsib ltac:(by split_and!) ltac:(lia) Hit). change (sibling_offset 1) with 0 in Hsib.
  pose proof (iter_parent_law _ 0 0 ltac:(by split_and!) ltac:(lia) Hsib) as Hpar. change (0 / 2) with 0 in Hpar.
  pose proof Hsib as [Hi _]. pose proof Hpar as [Hpi _].
  change (zlen [leaf_with 0 b0 l0; leaf_with 1 b1 l1] <=? 1) with false. cbn iota.
  change (index [leaf_with 0 b0 l0; leaf_with 1 b1 l1] (zlen [leaf_with 0 b0 l0; leaf_with 1 b1 l1] - 1)) with (Ok (E:=HypercoreError) (leaf_with 1 b1 l1)).
  change (index [leaf_with 0 b0 l0; leaf_with 1 b1 l1] (zlen [leaf_with 0 b0 l0; leaf_with 1 b1 l1] - 2)) with (Ok (E:=HypercoreError) (leaf_with 0 b0 l0)).
  rewrite !bind_Ok, Hi, Hpi. change (node_at 0 0 =? node_index (leaf_with 0 b0 l0)) with true. cbn [negb].
  rewrite Hash_parent_Ok, bind_Ok, checked_add_Ok, bind_Ok by (cbn; lia).
  exists (iter_parent (iter_sibling it)).
  assert (Node_new (node_at (0 + 1) 0)
      (blake2b256 (parent_preimage (node_in_order (leaf_with 1 b1 l1) (leaf_with 0 b0 l0)).1 (node_in_order (leaf_with 1 b1 l1) (leaf_with 0 b0 l0)).2))
      (node_length (leaf_with 1 b1 l1) + node_length (leaf_with 0 b0 l0)) = merkle_at [b0; b1] 1 0) as ->.
  { change (node_in_order (leaf_with 1 b1 l1) (leaf_with 0 b0 l0)) with (leaf_with 0 b0 l0, leaf_with 1 b1 l1).
    unfold merkle_at. change (Z.to_nat 1) with 1%nat. cbn [merkle fst snd leaf_with Node_new node_length].
    change ([b0; b1] !! Z.to_nat (2 * 0)) with (Some b0). change ([b0; b1] !! Z.to_nat (2 * 0 + 1)) with (Some b1). cbn [default].
    unfold parent_preimage. cbn [Node_new node_length node_hash leaf_with].
    replace (l1 + l0) with (zlen b0 + zlen b1) by lia. rewrite Hsum. done. }
  change (ztake (zlen [leaf_with 0 b0 l0; leaf_with 1 b1 l1] - 2) [leaf_with 0 b0 l0; leaf_with 1 b1 l1]) with (@nil Node).
  reflexivity.
Qed.

(** The verifier accepts every pair of lengths with the right sum, and keeps
    the leaves with these lengths. *)
Lemma two_leaves_accepted self pk fork sig b0 b1 l0 l1 :
  tree_for [] self -> log_fits [b0; b1] -> is_u64 fork -> 0 <= l0 -> 0 <= l1 -> l0 + l1 = zlen b0 + zlen b1 ->
  ed_verify pk (signed_bytes [b0; b1] fork) sig = true ->
  exists cs, Proofs.verify_proof self (mkProof fork None None None (Some (two_leaves b0 b1 l0 l1 sig))) pk None = Ok (Right cs) /\
    exists self', Tree.commit self cs = Ok self' /\ tree_for [b0; b1] self' /\ mt_signature self' = Some sig /\
      mt_unflushed self' !! 0 = Some (leaf_with 0 b0 l0) /\ mt_unflushed self' !! 2 = Some (leaf_with 1 b1 l1).
Proof.
  intros (Hr & Hl & Hb) Hfit Hf H0 H1 Hsum Hsig. pose proof Hfit as [_ Hbytes].
  assert (l0 + l1 < 2 ^ 64) as Hlt by (rewrite Hsum; cbn in Hbytes; rewrite !zlen_app in Hbytes; change (zlen []) with 0 in Hbytes; lia).
  unfold Proofs.verify_proof. cbn [proof_block proof_hash proof_seek proof_upgrade proof_fork infos_to_nodes].
  unfold Proofs.verify_tree. cbn [Proofs.normalize_data fmap option_fmap option_map]. rewrite !bind_Ok.
  unfold Proofs.verify_upgrade. cbn [two_leaves du_start du_length du_nodes du_additional_nodes du_signature].
  rewrite checked_add_Ok, bind_Ok, checked_mul_Ok, bind_Ok by lia. change (2 * (0 + 1)) with (2 * 1).
  set (cs := Tree.changeset self). assert (cs_roots cs = []) as Hrs by (by cbn; rewrite Hr).
  assert (iter_at 0 0 (iter_new 0)) as Hit0 by (change 0 with (node_at 0 0) at 3; by apply iter_new_law).
  destruct (iter_full_root_law (iter_new 0) 0 1) as (it1 & Hroot & Hit1); [lia..|by exists 0|done|].
  change (Z.log2 (1 - 0)) with 0 in Hit1. change (0 / 2 ^ 0) with 0 in Hit1. pose proof Hit1 as [Hi1 _].
  assert (exists it2, Proofs.verify_roots_loop tree_fuel (2 * 1) 0 (negb (is_empty (cs_roots cs)))
      (NodeQueue.new [leaf_with 0 b0 l0] None) (iter_new 0) cs =
    Ok (mkNodeQueue 1 [leaf_with 0 b0 l0] None 0, it2,
      Changeset.set_roots_nodes (Changeset.set_upgraded_length_byte_length cs true 1 l0) [leaf_with 0 b0 l0] [leaf_with 0 b0 l0])) as [it2 ->].
  { exists (iter_next_tree it1). change tree_fuel with (S (Nat.pred tree_fuel)). generalize (Nat.pred tree_fuel). intros fuel.
    cbn [Proofs.verify_roots_loop]. rewrite Hroot, Hrs. cbn [negb is_empty andb lookup list_lookup].
    rewrite Hi1. change (NodeQueue.shift (NodeQueue.new [leaf_with 0 b0 l0] None) (node_at 0 0))
      with (Ok (E:=HypercoreError) (mkNodeQueue 1 [leaf_with 0 b0 l0] None 0, leaf_with 0 b0 l0)). rewrite bind_Ok.
    rewrite (first_root_ok cs) by (done || (cbn; rewrite ?Hl, ?Hb; done || lia)). rewrite bind_Ok.
    assert (iter_at 0 1 (iter_next_tree it1)) as Hnext by (change 1 with (2 ^ 0 * (0 + 1)); by apply iter_next_tree_law).
    destruct fuel; cbn [Proofs.verify_roots_loop]; by rewrite (iter_full_root_done _ 1 1) by (done || lia). }
  rewrite bind_Ok. change (cs_roots (Changeset.set_roots_nodes ?a ?b ?c)) with b. cbn [last unwrap]. rewrite bind_Ok.
  cbn [Proofs.extra_siblings].
  assert (iter_at 0 1 (iter_sibling (iter_seek it2 (node_index (leaf_with 0 b0 l0))))) as Hsib.
  { change 1 with (sibling_offset 0). apply iter_sibling_law; [by split_and!|lia|]. change (node_index (leaf_with 0 b0 l0)) with (node_at 0 0).
    by apply iter_seek_law. }
  pose proof Hsib as [Hsi _]. rewrite Hsi. change (node_index (leaf_with 1 b1 l1) =? node_at 0 1) with true. cbn iota.
  destruct (second_root_ok (Changeset.set_roots_nodes (Changeset.set_upgraded_length_byte_length cs true 1 l0) [leaf_with 0 b0 l0] [leaf_with 0 b0 l0])
    b0 b1 l0 l1 (iter_sibling (iter_seek it2 (node_index (leaf_with 0 b0 l0))))) as [it3 ->]; try done.
  rewrite !bind_Ok. cbn [Proofs.extra_roots]. rewrite bind_Ok.
  rewrite (verify_and_set_signature_ok [b0; b1]); [|split_and!; cbn; try done|done|done].
  2: { rewrite !zlen_app. change (zlen []) with 0. lia. }
  cbn [Proofs.set_fork cs_fork]. rewrite sig_from_to, Hsig, bind_Ok. eexists. split; [done|].
  unfold Tree.commit, Tree.commitable, Tree.commit_truncation, cs.
  cbn [cs_upgraded cs_original_tree_length cs_original_tree_fork cs_ancestors cs_roots cs_length cs_byte_length cs_fork
    cs_signature cs_nodes Changeset.set_hash_signature Proofs.set_fork Changeset.set_roots_nodes
    Changeset.set_upgraded_length_byte_length Tree.changeset Changeset.new].
  rewrite !Z.eqb_refl, Z.ltb_irrefl. cbn [andb negb]. rewrite !bind_Ok. eexists. split; [done|].
  cbn [mt_signature mt_unflushed]. unfold Tree.insert_nodes. cbn [foldl app]. split_and!; [|done|..].
  - split_and!; [done..|]. cbn [mt_byte_length concat app]. rewrite !zlen_app. change (zlen []) with 0. lia.
  - change (node_index (merkle_at [b0; b1] 1 0)) with 1. rewrite lookup_insert_ne by done.
    change (node_index (leaf_with 1 b1 l1)) with 2. rewrite lookup_insert_ne by done. apply lookup_insert_eq.
  - change (node_index (merkle_at [b0; b1] 1 0)) with 1. rewrite lookup_insert_ne by done. apply lookup_insert_eq.
Qed.
End Additional.
