(* ===== verification/MerkleSparse.v ===== *)
(** * The tree of a reader

    A core that replicates a log has the roots of the log's tree and the nodes
    on the paths of the blocks it has fetched; the slots of all other nodes in
    the store are blank or behind its end.  The facts here are those of
    [MerkleView] for such a tree. *)

From stdpp Require Import base tactics numbers list gmap fin_maps.
From Stdlib Require Import ZArith Lia Bool Sorted.
From S2P Require Import Prelude FlatTree Common CompactEncoding Crypto OplogEntry Changeset.
From S2P Require Import Storage MerkleTree MerkleView MerkleProof MerkleComplete MerkleUpgrade.
Open Scope Z_scope.

Section Sparse.
Context `{FT : FlatTree} {FL : FlatTreeLaws FT} `{CE : CompactEncoding} {CL : CompactEncodingLaws CE}
  `{B2 : Blake2b} {BL : Blake2bLaws B2} `{ED : Ed25519} {EL : Ed25519Laws ED}
  `{IO : IntMapOrder} {IOL : IntMapOrderLaws IO}.
Implicit Types (blocks : list (list Z)) (self : MerkleTree) (f : list Z).

Definition blank_slot f (k : Z) : Prop := zlen f <= 40 * k \/ at_offset f (40 * k) (replicate 40 0).

Definition stored blocks f (d o : Z) : Prop :=
  at_offset f (40 * node_at d o) (node_record (merkle_at blocks d o)).

(** A node of the log that the tree has. *)
Definition knows blocks self f (d o : Z) : Prop :=
  complete (zlen blocks) d o /\ (is_Some (mt_unflushed self !! node_at d o) \/ stored blocks f d o).

Record sparse blocks self f : Prop := {
  sp_for : tree_for blocks self;
  sp_truncated : mt_truncated self = false;
  sp_unflushed k x : mt_unflushed self !! k = Some x -> log_node blocks (k, x);
  sp_slots k : 0 <= k -> blank_slot f k \/
    exists d o, complete (zlen blocks) d o /\ k = node_at d o /\ stored blocks f d o;
  sp_roots d o : (d, o) ∈ peaks (zlen blocks) -> knows blocks self f d o;
  sp_closed d o : knows blocks self f d o -> complete (zlen blocks) (d + 1) (o / 2) ->
    knows blocks self f d (sibling_offset o) /\ knows blocks self f (d + 1) (o / 2);
}.

Lemma sparse_view blocks self f : sparse blocks self f -> view_ok blocks self ∅.
Proof.
  intros [_ Ht Hu _ _ _]. split; [done|]. intros d o Hc. split; [|done].
  intros x (d' & o' & Hc' & Hk & Hx)%Hu. cbn in Hk, Hx. subst x. by destruct (complete_inj _ _ _ _ _ Hc Hc' Hk) as [-> ->].
Qed.

(** What is known is in the unflushed nodes or can be read. *)
Lemma knows_readable blocks self f ks ps :
  (forall d o, (d, o) ∈ ps -> knows blocks self f d o) ->
  readable blocks f (unknown self ks (node_keys ps)).
Proof.
  intros Hps k [[Hu _] Hk]%list_elem_of_filter. apply list_elem_of_fmap in Hk as ([d o] & -> & Hin).
  destruct (Hps d o Hin) as [Hc [[x Hx]|Hs]]; [congruence|]. exists d, o. by split_and!.
Qed.

Lemma unflushed_required blocks self f d o nodes x :
  sparse blocks self f -> no_blank blocks -> mt_unflushed self !! node_at d o = Some x -> 0 <= d -> 0 <= o ->
  Tree.required_node self (node_at d o) nodes = Ok (Right (merkle_at blocks d o)).
Proof.
  intros Hs Hnb Hx Hd Ho. destruct (sp_unflushed _ _ _ Hs _ _ Hx) as (d' & o' & Hc & Hk & Hm). cbn in Hk, Hm.
  apply node_at_inj in Hk as [<- <-]; [|done|apply Hc..|done|apply Hc].
  unfold Tree.required_node, Tree.node. rewrite Hx, (sp_truncated _ _ _ Hs), Hm, (Hnb _ _ Hc). done.
Qed.

(** ** Paths *)

Lemma knows_up blocks self f (m : nat) : forall d o,
  sparse blocks self f -> 0 <= d -> knows blocks self f d o ->
  complete (zlen blocks) (d + Z.of_nat m) (o / 2 ^ Z.of_nat m) ->
  knows blocks self f (d + Z.of_nat m) (o / 2 ^ Z.of_nat m).
Proof.
  induction m as [|m IH]; intros d o Hs Hd Hk Hc.
  - by rewrite Z.add_0_r, Z.pow_0_r, Z.div_1_r.
  - pose proof Hc as [Hp Hc']%complete_up; [|done]. destruct (sp_closed _ _ _ Hs d o Hk Hp) as [_ Hpk].
    rewrite half_up. replace (d + Z.of_nat (S m)) with (d + 1 + Z.of_nat m) by lia. apply IH; [done|lia|done..].
Qed.

Lemma left_path_first (d : nat) : forall o, left_path d o (2 ^ Z.of_nat d * o) = [].
Proof.
  induction d as [|d IH]; intros o; cbn [left_path]; [done|].
  rewrite Nat2Z.inj_succ, Z.pow_succ_r by lia. pose proof (Z.pow_pos_nonneg 2 (Z.of_nat d)).
  rewrite (proj2 (Z.ltb_lt _ _)) by lia. replace (2 * 2 ^ Z.of_nat d * o) with (2 ^ Z.of_nat d * (2 * o)) by lia.
  apply IH.
Qed.

(** The nodes left of the path to the first leaf of a node that is known. *)
Lemma left_path_knows blocks self f e x (d : nat) : forall o p q,
  sparse blocks self f -> knows blocks self f e x -> 0 <= e ->
  complete (zlen blocks) (Z.of_nat d) o -> 2 ^ Z.of_nat d * o <= 2 ^ e * x < 2 ^ Z.of_nat d * (o + 1) ->
  (p, q) ∈ left_path d o (2 ^ e * x) -> knows blocks self f p q.
Proof.
  induction d as [|d IH]; intros o p q Hs Hk He Hc Hin; cbn [left_path]; [by intros ?%elem_of_nil|].
  rewrite Nat2Z.inj_succ, <-Z.add_1_r in Hc. destruct (complete_children _ _ _ Hc) as [Hl Hr]; [lia|].
  pose proof (Z.pow_pos_nonneg 2 (Z.of_nat d)). pose proof (Z.pow_pos_nonneg 2 e).
  rewrite Nat2Z.inj_succ, Z.pow_succ_r in Hin by lia.
  destruct (Z.ltb_spec (2 ^ e * x) (2 ^ Z.of_nat d * (2 * o + 1))) as [Hlt|Hge].
  - apply IH; [done..|lia].
  - assert (e <= Z.of_nat d) as Hed.
    { destruct (Z.le_gt_cases e (Z.of_nat d)) as [|Hgt]; [done|exfalso].
      replace e with (Z.of_nat d + 1 + (e - Z.of_nat d - 1)) in Hin, Hge by lia.
      rewrite (Z.pow_add_r 2 (Z.of_nat d + 1)), (pow2_succ (Z.of_nat d)) in Hin, Hge by lia.
      set (t := 2 ^ (e - Z.of_nat d - 1) * x).
      assert (2 * 2 ^ Z.of_nat d * 2 ^ (e - Z.of_nat d - 1) * x = 2 ^ Z.of_nat d * (2 * t)) as Ht by (unfold t; lia).
      rewrite Ht in Hin, Hge. destruct Hin as [_ Hhi].
      apply Z.mul_le_mono_pos_l in Hge; [|lia].
      replace (2 * 2 ^ Z.of_nat d * (o + 1)) with (2 ^ Z.of_nat d * (2 * (o + 1))) in Hhi by lia.
      apply Z.mul_lt_mono_pos_l in Hhi; lia. }
    intros [[= -> ->]|Hp]%elem_of_cons; [|eapply (IH (2 * o + 1)); [done..|lia|done]].
    assert (x / 2 ^ (Z.of_nat d - e) = 2 * o + 1) as Hx.
    { assert ((2 ^ e * x) / 2 ^ Z.of_nat d = 2 * o + 1) as Hq.
      { symmetry. apply Z.div_unique with (2 ^ e * x - 2 ^ Z.of_nat d * (2 * o + 1)); lia. }
      rewrite <-Hq. replace (2 ^ Z.of_nat d) with (2 ^ e * 2 ^ (Z.of_nat d - e))
        by (rewrite <-Z.pow_add_r by lia; f_equal; lia).
      rewrite Z.div_mul_cancel_l; [done|apply Z.pow_nonzero; lia|lia]. }
    pose proof (knows_up blocks self f (Z.to_nat (Z.of_nat d - e)) e x Hs He Hk) as Hup.
    rewrite Z2Nat.id, Hx in Hup by lia. replace (e + (Z.of_nat d - e)) with (Z.of_nat d) in Hup by lia.
    specialize (Hup Hr). apply (sp_closed _ _ _ Hs) in Hup as [Hsib _].
    + unfold sibling_offset in Hsib. rewrite Z.even_add, Z.even_mul in Hsib. cbn in Hsib.
      by replace (2 * o + 1 - 1) with (2 * o) in Hsib by lia.
    + replace ((2 * o + 1) / 2) with o by (Z.div_mod_to_equations; lia). done.
Qed.

Lemma root_path_knows blocks self f e x ps p q : forall s,
  sparse blocks self f -> knows blocks self f e x -> 0 <= e ->
  tiles s ps (zlen blocks) -> s <= 2 ^ e * x -> (p, q) ∈ root_path ps (2 ^ e * x) -> knows blocks self f p q.
Proof.
  induction ps as [|[d o] ps IH]; intros s Hs Hk He Ht Hle; cbn [root_path]; [by intros ?%elem_of_nil|].
  pose proof (tiles_complete _ _ _ d o Ht ltac:(by left)) as Hc. destruct Ht as (Hd & Ho & -> & Ht).
  destruct (Z.ltb_spec (2 ^ e * x) (2 ^ d * (o + 1))).
  - apply (left_path_knows blocks self f e x (Z.to_nat d) o); rewrite ?Z2Nat.id by done; done.
  - by eapply IH.
Qed.

(** Whoever has the leaf can find the bytes of the block. *)
Lemma needed_knows blocks self f i p q :
  sparse blocks self f -> knows blocks self f 0 i -> (p, q) ∈ needed (zlen blocks) i -> knows blocks self f p q.
Proof.
  intros Hs Hk [[= -> ->]|Hin]%elem_of_cons; [done|].
  pose proof Hk as [(_ & Hi & _) _]. replace i with (2 ^ 0 * i) in Hin by lia.
  eapply (root_path_knows blocks self f 0 i); [done|done|lia| | |done].
  - apply tiles_peaks. apply zlen_nonneg.
  - rewrite Z.pow_0_r. lia.
Qed.

(** ** Adding verified nodes *)

Lemma verified_closed (m : nat) : forall d o p q,
  (p, q) ∈ verified_nodes m d o ->
  (p = d + Z.of_nat m /\ q = o / 2 ^ Z.of_nat m) \/
  ((p, sibling_offset q) ∈ verified_nodes m d o /\ (p + 1, q / 2) ∈ verified_nodes m d o).
Proof.
  unfold verified_nodes. induction m as [|m IH]; intros d o p q; cbn [path_nodes].
  - intros [= -> ->]%list_elem_of_singleton. left. rewrite Z.add_0_r, Z.pow_0_r, Z.div_1_r. done.
  - intros [[= -> ->]|[[= -> ->]|Hin]%elem_of_cons]%elem_of_cons.
    + right. split; right; [by left|right; by left].
    + right. rewrite sibling_twice, sibling_half. split; [by left|right; right; by left].
    + destruct (IH (d + 1) (o / 2) p q Hin) as [[-> ->]|[H1 H2]].
      * left. rewrite half_up. split; [lia|done].
      * right. split; right; by right.
Qed.

Lemma verified_nodes_complete n (m : nat) : forall d o p q,
  0 <= d -> complete n (d + Z.of_nat m) (o / 2 ^ Z.of_nat m) -> (p, q) ∈ verified_nodes m d o -> complete n p q.
Proof.
  unfold verified_nodes. induction m as [|m IH]; intros d o p q Hd Hc; cbn [path_nodes].
  - intros [= -> ->]%list_elem_of_singleton. by rewrite Z.add_0_r, Z.pow_0_r, Z.div_1_r in Hc.
  - pose proof Hc as [Hp Hc']%complete_up; [|done]. destruct (complete_below n d o Hd Hp).
    intros [[= -> ->]|[[= -> ->]|Hin]%elem_of_cons]%elem_of_cons; [done..|].
    eapply (IH (d + 1)); [lia|done..].
Qed.

(** The tree with nodes of the log added. *)
Definition with_nodes self blocks (ps : list (Z * Z)) : MerkleTree :=
  mkTree _ (mt_roots self) (mt_length self) (mt_byte_length self) (mt_fork self) (mt_signature self)
    (Tree.insert_nodes (mt_unflushed self) (merkle_peaks blocks ps)) (mt_truncated self) (mt_truncate_to self).

Lemma insert_nodes_some blocks ps m d o :
  (forall p q, (p, q) ∈ ps -> 0 <= p /\ 0 <= q) -> 0 <= d -> 0 <= o ->
  is_Some (Tree.insert_nodes m (merkle_peaks blocks ps) !! node_at d o) <->
    (d, o) ∈ ps \/ is_Some (m !! node_at d o).
Proof.
  intros Hps Hd Ho.
  destruct (insert_nodes_lookup (merkle_peaks blocks ps) m (node_at d o)) as (H1 & H2 & H3). split.
  - intros [x Hx]. destruct (H1 x Hx) as [[Hin Hk]|]; [left|right; by eauto].
    apply list_elem_of_fmap in Hin as ([p q] & -> & Hin). destruct (Hps p q Hin).
    rewrite merkle_index, Z2Nat.id in Hk by done. by apply node_at_inj in Hk as [-> ->].
  - intros [Hin|Hm]; [|by apply H3]. apply H2. exists (merkle_at blocks d o). split; [|by apply merkle_at_index].
    by apply (list_elem_of_fmap_2 (fun '(d, o) => merkle blocks (Z.to_nat d) o)) in Hin.
Qed.

Lemma knows_with_nodes blocks self f ps d o :
  (forall p q, (p, q) ∈ ps -> complete (zlen blocks) p q) ->
  knows blocks (with_nodes self blocks ps) f d o <-> (d, o) ∈ ps \/ knows blocks self f d o.
Proof.
  intros Hps. assert (forall p q, (p, q) ∈ ps -> 0 <= p /\ 0 <= q) as Hpos by (intros p q (? & ? & _)%Hps; done).
  unfold knows. cbn [mt_unflushed with_nodes]. split.
  - intros [Hc [Hs|Hs]]; [|right; by auto]. apply insert_nodes_some in Hs as [?|?]; [by left|right; by auto|done|apply Hc..].
  - intros [Hin|[Hc Hs]].
    + pose proof (Hps d o Hin) as Hc. split; [done|]. left. apply insert_nodes_some; [done|apply Hc..|by left].
    + split; [done|]. destruct Hs as [Hs|Hs]; [left|by right]. apply insert_nodes_some; [done|apply Hc..|by right].
Qed.

Lemma with_nodes_unflushed blocks self f ps k x :
  sparse blocks self f -> (forall p q, (p, q) ∈ ps -> complete (zlen blocks) p q) ->
  mt_unflushed (with_nodes self blocks ps) !! k = Some x -> log_node blocks (k, x).
Proof.
  intros Hs Hps Hx. cbn in Hx. apply insert_nodes_lookup in Hx as [[Hin <-]|Hm]; [|by eapply sp_unflushed].
  apply list_elem_of_fmap in Hin as ([p q] & -> & Hin). exists p, q. pose proof (Hps p q Hin) as Hc.
  split_and!; [done| |done]. cbn. rewrite merkle_index, Z2Nat.id by apply Hc. done.
Qed.

(** The path of a block or hash, up to a node that is known. *)
Lemma sparse_verified blocks self f (m : nat) d o :
  sparse blocks self f -> 0 <= d -> knows blocks self f (d + Z.of_nat m) (o / 2 ^ Z.of_nat m) ->
  sparse blocks (with_nodes self blocks (verified_nodes m d o)) f /\
  forall p q, knows blocks (with_nodes self blocks (verified_nodes m d o)) f p q <->
    (p, q) ∈ verified_nodes m d o \/ knows blocks self f p q.
Proof.
  intros Hs Hd Hk. pose proof Hk as [Hc _].
  assert (forall p q, (p, q) ∈ verified_nodes m d o -> complete (zlen blocks) p q) as Hps
    by (intros p q; by apply verified_nodes_complete).
  pose proof (fun p q => knows_with_nodes blocks self f _ p q Hps) as Hkn. split; [|done].
  constructor; try apply Hs.
  - intros k x. by apply (with_nodes_unflushed blocks self f).
  - intros p q Hin. apply Hkn. right. by apply Hs.
  - intros p q [Hin|Hold]%Hkn Hpc.
    + destruct (verified_closed m d o p q Hin) as [[-> ->]|[H1 H2]]; [|split; apply Hkn; by left].
      destruct (sp_closed _ _ _ Hs _ _ Hk Hpc). split; apply Hkn; by right.
    + destruct (sp_closed _ _ _ Hs _ _ Hold Hpc). split; apply Hkn; by right.
Qed.

(** ** Flushing *)

Lemma blank_slot_write f k j bs :
  0 <= k -> 0 <= j -> k <> j -> zlen bs = 40 -> blank_slot f k -> blank_slot (file_write f (40 * j) bs) k.
Proof.
  intros Hk Hj Hne Hbs Hb. unfold blank_slot. rewrite zlen_file_write, Hbs by lia.
  destruct (Z.le_gt_cases (Z.max (zlen f) (40 * j + 40)) (40 * k)) as [|Hgt]; [by left|right].
  destruct Hb as [Hend|Hat]; [|apply at_offset_write_other; try lia; [|done]; rewrite Hbs; change (zlen (replicate 40 0)) with 40; lia].
  split; [rewrite zlen_file_write, Hbs by lia; change (zlen (replicate 40 0)) with 40; lia|].
  change (zlen (replicate 40 0)) with 40. unfold file_write.
  rewrite slice_splice_other by (rewrite ?zlen_resize; unfold zlen in *; lia).
  unfold slice, ztake, zdrop. rewrite resize_ge by (unfold zlen in *; lia).
  rewrite drop_app_ge by (unfold zlen in *; lia). rewrite drop_replicate, take_replicate.
  f_equal. unfold zlen in *. lia.
Qed.

(** A node that is written leaves the other slots, and its own is stored. *)
Definition slots_ok blocks f : Prop :=
  forall k, 0 <= k -> blank_slot f k \/
    exists d o, complete (zlen blocks) d o /\ k = node_at d o /\ stored blocks f d o.

Lemma slots_write blocks l : forall f,
  Forall (log_node blocks) l -> slots_ok blocks f -> slots_ok blocks (file_effects f (node_write ∘ snd <$> l)).
Proof.
  induction l as [|[j x] l IH]; intros f Hl Hf; [done|].
  apply Forall_cons in Hl as [(d & o & Hc & Hj & Hx) Hl]. cbn in Hj, Hx. subst.
  cbn [fmap list_fmap file_effects foldl]. apply IH; [done|]. clear IH.
  unfold compose. cbn [snd node_write info_effect StoreInfo.new_content si_info_type si_miss si_data si_index].
  rewrite merkle_at_index by apply Hc. pose proof (complete_node_at _ _ _ Hc) as Hat.
  pose proof (zlen_node_record blocks d o) as Hz. intros k Hk.
  destruct (decide (k = node_at d o)) as [->|Hne].
  { right. exists d, o. split_and!; [done..|]. apply at_offset_write_same. lia. }
  destruct (Hf k Hk) as [Hb|(d' & o' & Hc' & -> & Hs)].
  - left. by apply blank_slot_write; [|lia|..].
  - right. exists d', o'. split_and!; [done..|]. apply at_offset_write_other; [lia..| |done].
    rewrite !zlen_node_record. lia.
Qed.

Lemma blank_slot_effects blocks l k : forall f,
  Forall (log_node blocks) l -> k ∉ l.*1 -> 0 <= k -> blank_slot f k ->
  blank_slot (file_effects f (node_write ∘ snd <$> l)) k.
Proof.
  induction l as [|[j x] l IH]; intros f Hl Hk H0 Hb; [done|].
  apply Forall_cons in Hl as [(d & o & Hc & Hj & Hx) Hl]. cbn in Hj, Hx. subst.
  rewrite fmap_cons, not_elem_of_cons in Hk. destruct Hk as [Hne Hk]. cbn in Hne.
  cbn [fmap list_fmap file_effects foldl]. apply IH; [done..|].
  unfold compose. cbn [snd node_write info_effect StoreInfo.new_content si_info_type si_miss si_data si_index].
  rewrite merkle_at_index by apply Hc. pose proof (complete_node_at _ _ _ Hc).
  apply blank_slot_write; [done|lia|done|apply zlen_node_record|done].
Qed.

Lemma stored_not_blank blocks f d o :
  no_blank blocks -> complete (zlen blocks) d o -> stored blocks f d o -> blank_slot f (node_at d o) -> False.
Proof.
  intros Hnb Hc [Hl Hs]. rewrite zlen_node_record in Hl, Hs. intros [?|[_ Hz]]; [lia|].
  change (zlen (replicate 40 0)) with 40 in Hz. rewrite Hz in Hs. specialize (Hnb d o Hc).
  unfold merkle_at in *. rewrite merkle_new in Hnb. change (replicate 40 0) with (replicate 8 0 ++ replicate 32 0) in Hs.
  unfold node_record in Hs. apply app_inj_1 in Hs as [_ Hs]; [|done]. rewrite <-Hs in Hnb. discriminate Hnb.
Qed.

Lemma sparse_flush blocks self f :
  sparse blocks self f -> log_fits blocks -> no_blank blocks ->
  exists self' infos, Tree.flush self = Ok (self', infos) /\ sparse blocks self' (file_effects f infos) /\
    (forall d o, knows blocks self' (file_effects f infos) d o <-> knows blocks self f d o) /\
    mt_fork self' = mt_fork self /\ mt_signature self' = mt_signature self /\ mt_unflushed self' = ∅ /\
    Forall (fun info => exists n, 0 <= node_index n /\ info = node_write n) infos.
Proof.
  intros Hs Hfit Hnb. pose proof Hs as [Hfor Ht Hu Hslots Hroots Hclosed].
  unfold Tree.flush. rewrite Ht, bind_Ok. unfold Tree.flush_nodes. set (l := drain (mt_unflushed self)).
  assert (Forall (log_node blocks) l) as Hl.
  { apply Forall_forall. intros [k x] Hin. subst l. rewrite drain_perm in Hin.
    apply elem_of_map_to_list in Hin. by apply Hu. }
  rewrite (node_infos_ok blocks) by done. rewrite !bind_Ok. cbn [app].
  set (self' := mkTree _ _ _ _ _ _ ∅ _ _). set (f' := file_effects f (node_write ∘ snd <$> l)).
  assert (forall k, is_Some (mt_unflushed self !! k) <-> k ∈ l.*1) as Hdom.
  { intros k. unfold l. rewrite list_elem_of_fmap. split.
    - intros [x Hx]. exists (k, x). split; [done|]. rewrite drain_perm. by apply elem_of_map_to_list.
    - intros ([k' x] & -> & Hin). rewrite drain_perm in Hin. apply elem_of_map_to_list in Hin. by exists x. }
  assert (forall d o, knows blocks self' f' d o <-> knows blocks self f d o) as Hkn.
  { intros d o. unfold knows. cbn [mt_unflushed self']. rewrite lookup_empty. split.
    - intros [Hc [[? [=]]|Hst]]. split; [done|]. pose proof (complete_node_at _ _ _ Hc).
      destruct (decide (node_at d o ∈ l.*1)) as [Hin|Hout]; [left; by apply Hdom|right].
      destruct (Hslots (node_at d o)) as [Hb|(d' & o' & Hc' & Hk & Hold)]; [lia| |].
      + exfalso. eapply (stored_not_blank blocks f' d o); [done..|].
        eapply blank_slot_effects; [done..|lia|done].
      + by destruct (complete_inj _ _ _ _ _ Hc Hc' Hk) as [-> ->].
    - intros [Hc Hold]. split; [done|]. right. apply node_writes_ok; [done..|].
      destruct Hold as [Hold|Hold]; [left; by apply Hdom|by right]. }
  exists self', (node_write ∘ snd <$> l). split_and!; try done.
  - constructor; try done.
    + by apply slots_write.
    + intros d o Hin. by apply Hkn, Hroots.
    + intros d o Hk Hc. apply Hkn in Hk. fold f'. rewrite !Hkn. by apply Hclosed.
  - apply Forall_fmap. eapply Forall_impl; [exact Hl|].
    intros [k x] (d & o & Hc & _ & Hx). cbn in Hx. subst x. exists (merkle_at blocks d o).
    split; [|done]. rewrite merkle_at_index by apply Hc. apply complete_node_at in Hc. lia.
Qed.

(** ** Where the bytes of a verified block go *)

Lemma merkle_at_length blocks d o :
  0 <= d -> 0 <= o ->
  node_length (merkle_at blocks d o) = byte_sum blocks (2 ^ d * (o + 1)) - byte_sum blocks (2 ^ d * o).
Proof. intros Hd Ho. unfold merkle_at. by rewrite merkle_length, Z2Nat.id by done. Qed.

(** One step up: the bytes of a left sibling are added. *)
Lemma path_offset_step blocks i d o off :
  log_fits blocks -> 0 <= d -> 0 <= o -> 2 ^ d * o <= i -> complete (zlen blocks) (d + 1) (o / 2) ->
  off = byte_sum blocks i - byte_sum blocks (2 ^ d * o) ->
  (match (if Z.odd o then Some (merkle_at blocks d o) else None) with
   | Some parent => d0 ← node_length (merkle_at blocks (d + 1) (o / 2)) -? node_length parent; off +64 d0
   | None => Ok (E:=HypercoreError) off
   end) = Ok (byte_sum blocks i - byte_sum blocks (2 ^ (d + 1) * (o / 2))).
Proof.
  intros [_ Hb] Hd Ho Hi Hp ->. assert (0 <= o / 2) by (apply Z.div_pos; lia).
  rewrite pow2_succ by done. rewrite merkle_at_length, pow2_succ by lia. pose proof (Z.pow_pos_nonneg 2 d).
  pose proof (Z.div2_odd o) as Hdiv. rewrite Z.div2_div in Hdiv.
  destruct (Z.odd o); cbn [Z.b2z] in Hdiv; [|do 3 f_equal; lia].
  rewrite merkle_at_length by done. set (h := o / 2) in *.
  replace (2 * 2 ^ d * (h + 1)) with (2 ^ d * (o + 1)) by lia.
  replace (2 * 2 ^ d * h) with (2 ^ d * (o - 1)) by lia.
  pose proof (byte_sum_mono blocks (2 ^ d * (o - 1)) (2 ^ d * o) ltac:(nia)).
  pose proof (byte_sum_mono blocks (2 ^ d * o) i ltac:(nia)).
  pose proof (byte_sum_nonneg blocks (2 ^ d * (o - 1))).
  assert (byte_sum blocks i <= zlen (concat blocks)).
  { unfold byte_sum, ztake. rewrite <-(take_drop (Z.to_nat i) blocks) at 2. rewrite concat_app, zlen_app.
    pose proof (zlen_nonneg (concat (drop (Z.to_nat i) blocks))). lia. }
  rewrite checked_sub_Ok, bind_Ok, checked_add_Ok by lia. f_equal. lia.
Qed.

(** Following the path of block [i] from a node above it. *)
Lemma changeset_path_ok blocks i rest (m : nat) : forall d o it off,
  log_fits blocks -> 0 <= d -> 0 <= o -> 2 ^ d * o <= i -> complete (zlen blocks) (d + Z.of_nat m) (o / 2 ^ Z.of_nat m) ->
  iter_at d o it -> off = byte_sum blocks i - byte_sum blocks (2 ^ d * o) ->
  exists it', iter_at (d + Z.of_nat m) (o / 2 ^ Z.of_nat m) it' /\
    Tree.changeset_path (merkle_peaks blocks (path_nodes m d o) ++ rest) (iter_parent it) off (iter_is_right it)
        (Some (merkle_at blocks d o)) =
      Tree.changeset_path rest (iter_parent it')
        (byte_sum blocks i - byte_sum blocks (2 ^ (d + Z.of_nat m) * (o / 2 ^ Z.of_nat m))) (iter_is_right it')
        (Some (merkle_at blocks (d + Z.of_nat m) (o / 2 ^ Z.of_nat m))).
Proof.
  induction m as [|m IH]; intros d o it off Hfit Hd Ho Hi Hc Hit Hoff.
  - exists it. rewrite Z.add_0_r, Z.pow_0_r, Z.div_1_r. by subst off.
  - pose proof Hc as [Hp Hc']%complete_up; [|done]. pose proof Hfit as [Hn Hb].
    destruct (iter_up _ d o it Hd Hp Hn Hit) as (_ & _ & Hpar). pose proof Hpar as [Hpi _].
    assert (0 <= o / 2) by (apply Z.div_pos; lia). destruct (complete_below _ d o Hd Hp) as [Hoc Hsc].
    pose proof Hsc as (_ & Hso & _).
    change (merkle_peaks blocks (path_nodes (S m) d o)) with
      (merkle_at blocks d (sibling_offset o) :: merkle_at blocks (d + 1) (o / 2) ::
       merkle_peaks blocks (path_nodes m (d + 1) (o / 2))).
    cbn [app Tree.changeset_path]. rewrite !merkle_at_index, Hpi by lia.
    rewrite (proj2 (Z.eqb_neq _ _)) by (intros E; apply node_at_inj in E; lia). rewrite Z.eqb_refl.
    rewrite (iter_is_right_law it d o) by (done || by eapply complete_in_tree).
    rewrite (path_offset_step blocks i) by done.
    rewrite bind_Ok. destruct (IH (d + 1) (o / 2) (iter_parent it)
      (byte_sum blocks i - byte_sum blocks (2 ^ (d + 1) * (o / 2)))) as (it' & Hit' & Hrun); try done; try lia.
    + rewrite pow2_succ by done. pose proof (Z.mul_div_le o 2). pose proof (Z.pow_pos_nonneg 2 d). nia.
    + exists it'. rewrite half_up. replace (d + Z.of_nat (S m)) with (d + 1 + Z.of_nat m) by lia. done.
Qed.

Lemma verified_path_ok blocks i rest (m : nat) :
  log_fits blocks -> 0 <= i -> complete (zlen blocks) (Z.of_nat m) (i / 2 ^ Z.of_nat m) ->
  exists it', iter_at (Z.of_nat m) (i / 2 ^ Z.of_nat m) it' /\
    Tree.changeset_path (merkle_peaks blocks (verified_nodes m 0 i) ++ rest) (iter_new (2 * i)) 0 false None =
      Tree.changeset_path rest (iter_parent it')
        (byte_sum blocks i - byte_sum blocks (2 ^ Z.of_nat m * (i / 2 ^ Z.of_nat m))) (iter_is_right it')
        (Some (merkle_at blocks (Z.of_nat m) (i / 2 ^ Z.of_nat m))).
Proof.
  intros Hfit Hi Hc. pose proof Hfit as [Hn _].
  pose proof (complete_climb (zlen blocks) m 0 i ltac:(lia)) as Hc0. rewrite Z.add_0_l in Hc0. specialize (Hc0 Hc).
  assert (iter_at 0 i (iter_new (2 * i))) as Hit.
  { rewrite <-node_at_leaf. apply iter_new_law. by eapply complete_in_tree. }
  pose proof Hit as [Hii _]. unfold verified_nodes.
  change (merkle_peaks blocks ((0, i) :: path_nodes m 0 i)) with
    (merkle_at blocks 0 i :: merkle_peaks blocks (path_nodes m 0 i)).
  cbn [app Tree.changeset_path]. rewrite merkle_at_index, Hii, Z.eqb_refl, bind_Ok by lia.
  apply (changeset_path_ok blocks i rest m 0 i); try done; try lia.
  all: rewrite Z.pow_0_r, Z.mul_1_l; lia.
Qed.

(** The position of a root, and the bytes of the roots before it. *)
Lemma root_position_ok blocks ps d o :
  (forall p q, (p, q) ∈ ps -> 0 <= p /\ 0 <= q) -> 0 <= d -> 0 <= o ->
  (Tree.root_position (merkle_peaks blocks ps) (node_at d o) = None /\ (d, o) ∉ ps) \/
  exists pre post, ps = pre ++ (d, o) :: post /\
    Tree.root_position (merkle_peaks blocks ps) (node_at d o) = Some (zlen pre).
Proof.
  intros Hps Hd Ho. induction ps as [|[p q] ps IH]; [left; split; [done|by apply not_elem_of_nil]|].
  change (merkle_peaks blocks ((p, q) :: ps)) with (merkle_at blocks p q :: merkle_peaks blocks ps).
  destruct (Hps p q ltac:(by left)) as [Hp Hq]. cbn [Tree.root_position]. rewrite merkle_at_index by done.
  destruct (decide ((p, q) = (d, o))) as [[= -> ->]|Hne].
  { right. exists [], ps. rewrite Z.eqb_refl. done. }
  rewrite (proj2 (Z.eqb_neq _ _)) by (intros E; apply node_at_inj in E as [-> ->]; done).
  destruct IH as [[-> Hout]|(pre & post & -> & ->)].
  - intros p' q' Hin. apply Hps. by right.
  - left. split; [done|]. intros [?|?]%elem_of_cons; congruence.
  - right. exists ((p, q) :: pre), post. split; [done|]. rewrite zlen_cons. cbn. f_equal. lia.
Qed.

Lemma sum_roots_ok blocks post e : forall pre done s off,
  tiles s pre e -> e <= zlen blocks -> 0 <= s -> 0 <= off ->
  off + (byte_sum blocks e - byte_sum blocks s) < 2 ^ 64 ->
  Tree.sum_roots (length pre) (zlen done) (merkle_peaks blocks (done ++ pre ++ post)) off =
    Ok (off + (byte_sum blocks e - byte_sum blocks s)).
Proof.
  induction pre as [|[d o] pre IH]; intros dn s off Ht He Hs Hoff Hb.
  { cbn in Ht. subst s. cbn. f_equal. lia. }
  destruct Ht as (Hd & Ho & -> & Ht). pose proof (tiles_le _ _ _ Ht). pose proof (Z.pow_pos_nonneg 2 d).
  cbn [length Tree.sum_roots].
  assert (Prelude.index (E:=HypercoreError) (merkle_peaks blocks (dn ++ (d, o) :: pre ++ post)) (zlen dn) =
    Ok (merkle_at blocks d o)) as Hidx.
  { rewrite merkle_peaks_snoc. replace (zlen dn) with (zlen (merkle_peaks blocks dn))
      by (unfold zlen, merkle_peaks; by rewrite length_fmap). apply index_middle. }
  cbn [app]. rewrite Hidx, bind_Ok, merkle_at_length by done.
  pose proof (byte_sum_mono blocks (2 ^ d * o) (2 ^ d * (o + 1)) ltac:(nia)).
  pose proof (byte_sum_mono blocks (2 ^ d * (o + 1)) e ltac:(nia)).
  rewrite checked_add_Ok, bind_Ok by lia.
  pose proof (IH (dn ++ [(d, o)]) (2 ^ d * (o + 1)) (off + (byte_sum blocks (2 ^ d * (o + 1)) - byte_sum blocks (2 ^ d * o)))
    Ht He ltac:(nia) ltac:(lia) ltac:(lia)) as Hrun.
  rewrite zlen_app, <-app_assoc in Hrun. change (zlen [(d, o)]) with 1 in Hrun.
  cbn [app] in Hrun |- *. rewrite Hrun. f_equal. lia.
Qed.

Lemma tiles_split pre d o post : forall s e, tiles s (pre ++ (d, o) :: post) e -> tiles s pre (2 ^ d * o).
Proof.
  induction pre as [|[p q] pre IH]; intros s e; cbn [tiles app].
  - by intros (_ & _ & -> & _).
  - intros (? & ? & ? & Ht). split_and!; [done..|]. by eapply IH.
Qed.

Lemma land_one x : Z.land x 1 = x mod 2.
Proof. change 1 with (Z.ones 1). rewrite Z.land_ones by lia. done. Qed.

(** The offset of a node is the offset of its first leaf. *)
Lemma byte_offset_first_leaf self nodes d o :
  in_tree d o ->
  Tree.byte_offset_from_nodes self (node_at d o) nodes =
    Tree.byte_offset_from_nodes self (2 * (2 ^ d * o)) nodes.
Proof.
  intros Hin. pose proof Hin as (Hd & Ho & _). unfold Tree.byte_offset_from_nodes. rewrite !land_one.
  replace (2 * (2 ^ d * o)) with (2 ^ d * o * 2) by lia. rewrite Z.mod_mul by lia. cbn [Z.eqb].
  destruct (decide (d = 0)) as [->|Hne].
  - rewrite node_at_leaf, Z.pow_0_r. replace (1 * o * 2) with (2 * o) by lia.
    replace (2 * o) with (o * 2) at 1 by lia. by rewrite Z.mod_mul by lia.
  - assert (node_at d o mod 2 = 1) as ->.
    { unfold node_at. replace d with (Z.succ (d - 1)) by lia. rewrite Z.pow_succ_r by lia.
      replace (2 * 2 ^ (d - 1) * (1 + 2 * o) - 1) with (1 + (2 ^ (d - 1) * (1 + 2 * o) - 1) * 2) by lia.
      by rewrite Z.mod_add by lia. }
    rewrite Z.eqb_refl, ft_left_span_law by done. unfold span_left. rewrite pow2_succ by done. f_equal. lia.
Qed.

Lemma block_offset_asked blocks self f i (m : nat) cs :
  sparse blocks self f -> no_blank blocks -> log_fits blocks -> 0 <= i < zlen blocks ->
  knows blocks self f (Z.of_nat m) (i / 2 ^ Z.of_nat m) ->
  cs_nodes cs = merkle_peaks blocks (verified_nodes m 0 i) -> cs_roots cs = mt_roots self ->
  exists ps, (forall d o, (d, o) ∈ ps -> knows blocks self f d o) /\
    forall ks, readable blocks f ks ->
      Tree.byte_offset_in_changeset self i cs (Some (node_read f <$> ks)) =
        Ok (asked (unknown self ks (node_keys ps)) (byte_sum blocks i)).
Proof.
  intros Hs Hnb Hfit Hi Hk Hn Hr. pose proof Hk as [Hc _]. pose proof Hc as (_ & Ho & Hle). pose proof Hfit as [Hlen Hb].
  pose proof (sp_for _ _ _ Hs) as Hfor. pose proof Hfor as (Hroots & Hl & _).
  set (o := i / 2 ^ Z.of_nat m) in *. set (j := 2 ^ Z.of_nat m * o).
  pose proof (Z.pow_pos_nonneg 2 (Z.of_nat m)). assert (0 <= j <= i) as Hj.
  { unfold j, o. pose proof (Z.mul_div_le i (2 ^ Z.of_nat m)). nia. }
  pose proof (byte_sum_mono blocks j i Hj). pose proof (byte_sum_le blocks i ltac:(lia)).
  pose proof (byte_sum_nonneg blocks j).
  assert (forall infos, Tree.byte_offset_in_changeset self i cs infos =
    match Tree.root_position (merkle_roots blocks) (node_at (Z.of_nat m) o) with
    | Some r => t ← Tree.sum_roots (Z.to_nat r) 0 (merkle_roots blocks) (byte_sum blocks i - byte_sum blocks j); Ok (Right t)
    | None =>
        r ← Tree.byte_offset_from_index self (node_at (Z.of_nat m) o) infos;
        match r with
        | Left instructions => Ok (Left instructions)
        | Right offset => o ← offset +64 (byte_sum blocks i - byte_sum blocks j); Ok (Right o)
        end
    end) as Hrun.
  { intros infos. unfold Tree.byte_offset_in_changeset. rewrite Hl, (proj2 (Z.eqb_neq _ _)) by lia.
    unfold hypercore_index_into_merkle_tree_index. rewrite checked_mul_Ok, bind_Ok, Hn by lia.
    destruct (verified_path_ok blocks i [] m) as (it' & _ & Hpath); [done|lia|done|]. rewrite app_nil_r in Hpath.
    rewrite Hpath. cbn [Tree.changeset_path]. rewrite bind_Ok. fold o. fold j.
    rewrite Hr, Hroots, merkle_at_index by lia. done. }
  destruct (root_position_ok blocks (peaks (zlen blocks)) (Z.of_nat m) o) as [[Hpos Hout]|(pre & post & Hps & Hpos)];
    [intros p q Hin%peaks_elem; by destruct Hin as (? & ? & _)|lia|done|..]; unfold merkle_roots in Hrun; rewrite Hpos in Hrun.
  - exists (root_path (peaks (zlen blocks)) j). split.
    { intros d q Hin. apply (root_path_knows blocks self f (Z.of_nat m) o (peaks (zlen blocks)) d q 0); try done; try lia.
      apply tiles_peaks. lia. }
    intros ks Hks. rewrite Hrun. unfold Tree.byte_offset_from_index.
    destruct (infos_view _ _ _ _ (sparse_view _ _ _ Hs) Hfit Hks) as (nm & -> & Hv & Hmiss). rewrite bind_Ok.
    rewrite byte_offset_first_leaf by by eapply complete_in_tree. fold j.
    destruct (byte_offset_from_nodes_ok blocks self nm j) as (off & -> & Hoff); [done..|lia|].
    rewrite bind_Ok, Hmiss in *. unfold offset_or, asked.
    destruct (unknown self ks _) as [|k l]; [|done]. cbn [fmap list_fmap]. rewrite Hoff by done.
    rewrite checked_add_Ok, bind_Ok by lia. do 2 f_equal. lia.
  - exists []. split; [by intros ? ? ?%elem_of_nil|]. intros ks Hks. rewrite Hrun.
    pose proof (tiles_peaks (zlen blocks) ltac:(lia)) as Ht. rewrite Hps in Ht.
    apply tiles_split in Ht. fold j in Ht. unfold merkle_roots. rewrite Hps. unfold zlen at 1. rewrite Nat2Z.id.
    change 0 with (zlen (@nil (Z * Z))) at 1. rewrite <-(app_nil_l (pre ++ _)).
    rewrite (sum_roots_ok blocks _ j pre [] 0) by (done || lia || (change (byte_sum blocks 0) with 0; lia)).
    rewrite bind_Ok. change (byte_sum blocks 0) with 0. cbn. do 2 f_equal. lia.
Qed.

(** ** How many nodes are missing *)

#[local] Instance knows_dec blocks self f d o : Decision (knows blocks self f d o).
Proof. unfold knows, complete, stored, at_offset. apply _. Defined.

(** The node of depth [j] above leaf [i]. *)
Definition above (i : Z) (j : nat) : Z * Z := (Z.of_nat j, i / 2 ^ Z.of_nat j).
Definition above_key (i : Z) (j : nat) : Z := node_at (Z.of_nat j) (i / 2 ^ Z.of_nat j).

Lemma tiles_find ps i : forall s e, tiles s ps e -> s <= i < e ->
  exists d o, (d, o) ∈ ps /\ 2 ^ d * o <= i < 2 ^ d * (o + 1).
Proof.
  induction ps as [|[d o] ps IH]; intros s e; cbn [tiles]; [lia|]. intros (_ & _ & -> & Ht) Hi.
  destruct (Z.lt_ge_cases i (2 ^ d * (o + 1))).
  - exists d, o. split; [by left|lia].
  - destruct (IH _ _ Ht) as (d' & o' & Hin & Hd); [lia|]. exists d', o'. split; [by right|done].
Qed.

Lemma least_nat (N : nat) : forall (P : nat -> Prop), (forall n, Decision (P n)) ->
  P N -> exists m, (m <= N)%nat /\ P m /\ forall j, (j < m)%nat -> ~ P j.
Proof.
  induction N as [|N IH]; intros P Hdec HN.
  - exists 0%nat. split_and!; [done..|lia].
  - destruct (Hdec 0%nat) as [H0|H0]; [exists 0%nat; split_and!; [lia|done|lia]|].
    destruct (IH (fun n => P (S n)) (fun n => Hdec (S n)) HN) as (m & Hm & HP & Hleast).
    exists (S m). split_and!; [lia|done|]. intros [|j] Hj; [done|]. apply Hleast. lia.
Qed.

(** Above every block there is a first node that is known: a root at the latest. *)
Lemma first_known blocks self f i :
  sparse blocks self f -> 0 <= i < zlen blocks ->
  exists m, knows blocks self f (above i m).1 (above i m).2 /\
    forall j, (j < m)%nat -> ~ knows blocks self f (above i j).1 (above i j).2.
Proof.
  intros Hs Hi. destruct (tiles_find (peaks (zlen blocks)) i 0 (zlen blocks)) as (d & o & Hin & Hd);
    [apply tiles_peaks; lia|done|].
  pose proof (sp_roots _ _ _ Hs d o Hin) as Hk. pose proof (peaks_elem _ _ _ Hin) as (Hd0 & Ho0 & _).
  destruct (least_nat (Z.to_nat d) (fun m => knows blocks self f (above i m).1 (above i m).2)) as (m & _ & Hm & Hleast);
    [intros n; apply knows_dec| |by exists m].
  cbn. rewrite Z2Nat.id by done. replace (i / 2 ^ d) with o; [done|].
  apply Z.div_unique with (i - 2 ^ d * o); lia.
Qed.

(** Reading a slot that need not be there. *)
Definition slot_read (k : Z) : StoreInfoInstruction := Instruction.new_content_allow_miss Common.Tree (40 * k) 40.
Definition slot_info f (k : Z) : StoreInfo :=
  if 40 * k + 40 <=? zlen f then StoreInfo.new_content Common.Tree (40 * k) (slice f (40 * k) 40)
  else StoreInfo.new_content_miss Common.Tree (40 * k).

Lemma slot_info_index f k : index_from_info (slot_info f k) = k.
Proof.
  unfold index_from_info, slot_info. assert (40 * k / NODE_SIZE = k).
  { unfold NODE_SIZE. rewrite Z.mul_comm. by apply Z.div_mul. }
  by destruct (40 * k + 40 <=? zlen f).
Qed.

(** What a slot that was read answers. *)
Definition slot_answer blocks f (k : Z) (x : option Node) : Prop :=
  (blank_slot f k /\ match x with Some n => node_blank n = true | None => True end) \/
  exists d o, complete (zlen blocks) d o /\ k = node_at d o /\ stored blocks f d o /\ x = Some (merkle_at blocks d o).

Lemma insert_slots blocks f (ks : list Z) : forall m,
  slots_ok blocks f -> log_fits blocks -> (forall k, k ∈ ks -> 0 <= k) ->
  exists m', insert_infos m (slot_info f <$> ks) = Ok m' /\
    (forall k, k ∈ ks -> exists x, m' !! k = Some x /\ slot_answer blocks f k x) /\
    (forall k, k ∉ ks -> m' !! k = m !! k).
Proof.
  induction ks as [|k ks IH]; intros m Hslots Hfit Hks.
  { exists m. split_and!; [done|by intros k ?%elem_of_nil|done]. }
  assert (exists x, slot_answer blocks f k x /\
    insert_infos m (slot_info f <$> k :: ks) = insert_infos (<[k := x]> m) (slot_info f <$> ks)) as (x & Hx & Hrun).
  { cbn [fmap list_fmap insert_infos]. rewrite slot_info_index.
    pose proof (Hks k ltac:(by left)) as H0. destruct (Z.leb_spec (40 * k + 40) (zlen f)) as [Hin|Hout].
    - assert (slot_info f k = StoreInfo.new_content Common.Tree (40 * k) (slice f (40 * k) 40)) as ->
        by (unfold slot_info; by rewrite (proj2 (Z.leb_le _ _))).
      cbn [StoreInfo.new_content si_miss negb si_data unwrap]. rewrite bind_Ok.
      destruct (Hslots k H0) as [Hb|(d & o & Hc & -> & Hst)].
      + exists (Some (Node_new k (replicate 32 0) 0)). split; [left; by split|].
        destruct Hb as [?|[_ Hz]]; [lia|]. change (zlen (replicate 40 0)) with 40 in Hz. rewrite Hz.
        assert (replicate 40 0 = le_bytes 8 0 ++ replicate 32 0) as -> by reflexivity.
        rewrite node_from_bytes_ok, bind_Ok by (unfold is_u64; lia). done.
      + exists (Some (merkle_at blocks d o)). split; [right; by exists d, o|].
        destruct Hst as [_ Hst]. rewrite zlen_node_record in Hst. rewrite Hst, node_from_record, bind_Ok by done. done.
    - assert (slot_info f k = StoreInfo.new_content_miss Common.Tree (40 * k)) as ->
        by (unfold slot_info; by rewrite (proj2 (Z.leb_gt _ _))).
      exists None. split; [left|done]. split; [|done].
      destruct (Hslots k H0) as [Hb|(d & o & Hc & -> & [Hst _])]; [done|]. rewrite zlen_node_record in Hst. lia. }
  rewrite Hrun. destruct (IH (<[k := x]> m) Hslots Hfit) as (m' & Hm & Hin & Hout); [intros; apply Hks; by right|].
  exists m'. split_and!; [done| |].
  - intros k' Hk'. destruct (decide (k' ∈ ks)) as [?|Hn]; [by apply Hin|].
    apply elem_of_cons in Hk' as [->|?]; [|done]. exists x. rewrite Hout by done. by rewrite lookup_insert_eq.
  - intros k' [Hne Hn]%not_elem_of_cons. rewrite Hout by done. by rewrite lookup_insert_ne.
Qed.

(** What the tree answers for a node once the slots [ks] were read. *)
Section Slots.
Context blocks self f (ks : list Z) (nodes : nodes_map).
Hypothesis Hsparse : sparse blocks self f.
Hypothesis Hblank : no_blank blocks.
Hypothesis Hlen : zlen blocks < 2 ^ 57.
Hypothesis Hread : forall k, k ∈ ks -> exists x, nodes !! k = Some x /\ slot_answer blocks f k x.
Hypothesis Hunread : forall k, k ∉ ks -> nodes !! k = None.

Lemma optional_unknown d o :
  complete (zlen blocks) d o -> ~ knows blocks self f d o -> node_at d o ∈ ks ->
  Tree.optional_node self (node_at d o) nodes = Ok (Right None).
Proof.
  intros Hc Hk Hin. unfold Tree.optional_node, Tree.node.
  destruct (mt_unflushed self !! node_at d o) eqn:Hu; [destruct Hk; split; [done|left; by rewrite Hu]|].
  destruct (Hread _ Hin) as (x & -> & [[_ Hx]|(d' & o' & Hc' & Heq & Hst & _)]).
  - destruct x as [x|]; [by rewrite Hx|done].
  - destruct (complete_inj _ _ _ _ _ Hc Hc' Heq) as [<- <-]. destruct Hk. split; [done|by right].
Qed.

Lemma optional_known d o :
  knows blocks self f d o -> is_Some (mt_unflushed self !! node_at d o) \/ node_at d o ∈ ks ->
  exists x, Tree.optional_node self (node_at d o) nodes = Ok (Right (Some x)).
Proof.
  intros [Hc Hk] Hin. unfold Tree.optional_node, Tree.node. rewrite (sp_truncated _ _ _ Hsparse).
  destruct (mt_unflushed self !! node_at d o) as [x|] eqn:Hu.
  - destruct (sp_unflushed _ _ _ Hsparse _ _ Hu) as (d' & o' & Hc' & _ & Hx). cbn in Hx. subst x.
    rewrite (Hblank _ _ Hc'). by eexists.
  - destruct Hin as [[? ?]|Hin]; [done|]. destruct Hk as [[? ?]|Hst]; [done|].
    destruct (Hread _ Hin) as (x & -> & [[Hb _]|(d' & o' & Hc' & _ & _ & ->)]).
    + destruct (stored_not_blank blocks f d o Hblank Hc Hst Hb).
    + rewrite (Hblank _ _ Hc'). by eexists.
Qed.

Lemma optional_ask d o :
  complete (zlen blocks) d o -> mt_unflushed self !! node_at d o = None -> node_at d o ∉ ks ->
  Tree.optional_node self (node_at d o) nodes = Ok (Left (slot_read (node_at d o))).
Proof.
  intros Hc Hu Hout. unfold Tree.optional_node, Tree.node. rewrite Hu, (Hunread _ Hout).
  pose proof (complete_node_at _ _ _ Hc). rewrite checked_mul_Ok, bind_Ok by lia. done.
Qed.

Lemma missing_climb i (c : nat) : forall j it cnt fuel,
  0 <= i -> 0 <= cnt -> cnt + Z.of_nat c < 2 ^ 64 ->
  complete (zlen blocks) (above i (j + c)).1 (above i (j + c)).2 ->
  (forall l, (j <= l < j + c)%nat -> ~ knows blocks self f (above i l).1 (above i l).2 /\ above_key i l ∈ ks) ->
  iter_at (above i j).1 (above i j).2 it ->
  exists it', iter_at (above i (j + c)).1 (above i (j + c)).2 it' /\
    Tree.missing_loop (c + fuel) self nodes (2 * zlen blocks) it cnt =
      Tree.missing_loop fuel self nodes (2 * zlen blocks) it' (cnt + Z.of_nat c).
Proof.
  induction c as [|c IH]; intros j it cnt fuel Hi Hcnt Hb Hc Hl Hit.
  - exists it. rewrite Nat.add_0_r, Z.add_0_r. done.
  - destruct (Hl j ltac:(lia)) as [Hn Hin]. pose proof (Hl (S j)) as HlS.
    replace (j + S c)%nat with (S j + c)%nat in * by lia.
    assert (i / 2 ^ Z.of_nat j / 2 = i / 2 ^ Z.of_nat (S j)) as Hhalf.
    { rewrite Nat2Z.inj_succ, Z.pow_succ_r, Z.mul_comm, <-Z.div_div by (first [lia | apply Z.pow_nonzero; lia | apply Z.pow_pos_nonneg; lia]). done. }
    assert (complete (zlen blocks) (Z.of_nat j + 1) (i / 2 ^ Z.of_nat j / 2)) as Hp.
    { apply (complete_climb (zlen blocks) c); [lia|]. rewrite Hhalf. cbn in Hc.
      replace (Z.of_nat j + 1 + Z.of_nat c) with (Z.of_nat (S j + c)) by lia.
      rewrite Z.div_div by (first [lia | apply Z.pow_nonzero; lia | apply Z.pow_pos_nonneg; lia]).
      rewrite <-Z.pow_add_r by lia. by replace (Z.of_nat (S j) + Z.of_nat c) with (Z.of_nat (S j + c)) by lia. }
    destruct (complete_below (zlen blocks) (Z.of_nat j) (i / 2 ^ Z.of_nat j) ltac:(lia) Hp) as [Hcj _].
    destruct (iter_up (zlen blocks) (Z.of_nat j) (i / 2 ^ Z.of_nat j) it ltac:(lia) Hp Hlen Hit) as (_ & _ & Hpar).
    destruct (IH (S j) (iter_parent it) (cnt + 1) fuel) as (it' & Hit' & Hrun); try done; try lia.
    { intros l Hlt. apply Hl. lia. }
    { cbn. rewrite <-Hhalf. by replace (Z.of_nat (S j)) with (Z.of_nat j + 1) by lia. }
    exists it'. split; [done|]. cbn [Nat.add Tree.missing_loop]. pose proof Hit as [Hii _]. cbn in Hii.
    rewrite (contains_complete (zlen blocks) (Z.of_nat j) (i / 2 ^ Z.of_nat j)) by (done || lia).
    rewrite Hii, optional_unknown, bind_Ok by done. rewrite checked_add_Ok, bind_Ok by lia.
    rewrite Hrun. f_equal. lia.
Qed.

(** All nodes below level [t] were read and are not there. *)
Lemma missing_loop_at i (m t : nat) it :
  0 <= i -> (t <= m)%nat -> knows blocks self f (above i m).1 (above i m).2 ->
  (forall j, (j < m)%nat -> ~ knows blocks self f (above i j).1 (above i j).2) ->
  (forall j, (j < t)%nat -> above_key i j ∈ ks) -> iter_at 0 i it ->
  (above_key i t ∉ ks -> mt_unflushed self !! above_key i t = None ->
     Tree.missing_loop tree_fuel self nodes (2 * zlen blocks) it 0 = Ok (Left [slot_read (above_key i t)])) /\
  (t = m -> above_key i m ∈ ks \/ is_Some (mt_unflushed self !! above_key i m) ->
     Tree.missing_loop tree_fuel self nodes (2 * zlen blocks) it 0 = Ok (Right (Z.of_nat m))).
Proof.
  intros Hi Ht Hm Hleast Hks Hit. pose proof Hm as [Hcm _]. pose proof (complete_depth _ _ _ Hcm Hlen) as Hdep.
  cbn in Hdep.
  assert (complete (zlen blocks) (above i t).1 (above i t).2) as Hct.
  { cbn in *. apply (complete_climb (zlen blocks) (m - t)); [lia|].
    replace (Z.of_nat t + Z.of_nat (m - t)) with (Z.of_nat m) by lia.
    rewrite Z.div_div by (first [lia | apply Z.pow_nonzero; lia | apply Z.pow_pos_nonneg; lia]).
    rewrite <-Z.pow_add_r by lia. by replace (Z.of_nat t + Z.of_nat (m - t)) with (Z.of_nat m) by lia. }
  assert (exists fuel, tree_fuel = (t + S fuel)%nat) as [fuel Hfuel].
  { exists (tree_fuel - t - 1)%nat. unfold tree_fuel. lia. }
  destruct (missing_climb i t 0 it 0 (S fuel)) as (it' & Hit' & Hrun); try done; try lia.
  { intros l Hl. split; [apply Hleast; lia|apply Hks; lia]. }
  { cbn. rewrite Z.pow_0_r, Z.div_1_r. done. }
  cbn [Nat.add] in Hit'. rewrite <-Hfuel, Z.add_0_l in Hrun. rewrite Hrun. cbn [Tree.missing_loop].
  rewrite (contains_complete (zlen blocks) (above i t).1 (above i t).2) by (done || lia).
  pose proof Hit' as [Hii _]. cbn [above fst snd] in Hii, Hct. rewrite Hii. split.
  - intros Hout Hu. rewrite optional_ask, bind_Ok by done. done.
  - intros -> Hin. destruct (optional_known _ _ Hm) as (x & Hx); [by destruct Hin; [right|left]|].
    cbn [above fst snd] in Hx. by rewrite Hx, bind_Ok.
Qed.
End Slots.

(** ** Upgrading *)

Lemma sparse_closed blocks self f : sparse blocks self f -> closed_at (zlen blocks) (knows blocks self f).
Proof. intros Hs. split_and!; [by intros d o [? _]|apply Hs|apply Hs]. Qed.

Lemma tree_for_prefix old more self : tree_for old self -> tree_prefix (old ++ more) (zlen old) self.
Proof.
  intros (Hr & Hl & Hb). split_and!; [|done|].
  - rewrite Hr. symmetry. apply merkle_peaks_app. done.
  - rewrite Hb, byte_sum_app by done. symmetry. apply byte_sum_all.
Qed.

Lemma log_node_app old more kx : log_node old kx -> log_node (old ++ more) kx.
Proof.
  intros (d & o & Hc & Hk & Hx). exists d, o. rewrite merkle_at_app by done. split_and!; [|done..].
  eapply complete_mono; [|done]. rewrite zlen_app. pose proof (zlen_nonneg more). lia.
Qed.

Lemma stored_app old more f d o :
  complete (zlen old) d o -> stored (old ++ more) f d o <-> stored old f d o.
Proof. intros Hc. unfold stored. by rewrite merkle_at_app. Qed.

(** The nodes of a path that were verified before the upgrade: whoever knows
    the roots and what was known can climb from them. *)
Definition climbs n (K0 : Z -> Z -> Prop) (vs : list (Z * Z)) : Prop :=
  forall K, closed_at n K -> (forall d o, K0 d o -> K d o) ->
    closed_at n (fun d o => K d o \/ (d, o) ∈ vs).

Lemma climbs_nil n K0 : climbs n K0 [].
Proof. intros K HK _. revert HK. apply closed_at_ext. intros d o. split; [by left|by intros [?|?%elem_of_nil]]. Qed.

Lemma sparse_upgrade old more self f fork sig vs cs :
  sparse old self f -> no_blank (old ++ more) -> climbs (zlen (old ++ more)) (knows old self f) vs ->
  accepted_upgrade (old ++ more) fork sig
    (Proofs.push_nodes (Tree.changeset self) (merkle_peaks (old ++ more) vs)) cs ->
  (forall d o, (d, o) ∈ vs -> complete (zlen (old ++ more)) d o) ->
  exists self', Tree.commit self cs = Ok self' /\ sparse (old ++ more) self' f /\
    mt_fork self' = fork /\ mt_signature self' = Some sig /\
    (forall d o, knows old self f d o -> knows (old ++ more) self' f d o) /\
    forall d o, (d, o) ∈ vs -> knows (old ++ more) self' f d o.
Proof.
  intros Hs Hnb Hvs Hacc Hvc. pose proof Hs as [Hfor Ht Hu Hslots _ _]. set (blocks := old ++ more) in *.
  destruct (commit_accepted blocks (zlen old) self fork sig _ cs (tree_for_prefix old more self Hfor) Ht Hacc)
    as (self' & Hrun & Hfor' & Hf & Hsig & Ht' & Hun).
  destruct (accepted_for _ _ _ _ _ Hacc) as (_ & _ & _ & _ & _ & _ & _ & _ & _ & ps & Hn & Hps & Hcl & _).
  cbn [Proofs.push_nodes Changeset.set_roots_nodes Tree.changeset Changeset.new cs_nodes cs_length app] in Hn, Hcl.
  rewrite <-merkle_peaks_snoc in Hn. rewrite Hn in Hun. set (qs := vs ++ ps) in *.
  assert (zlen old <= zlen blocks) as Hle by (unfold blocks; rewrite zlen_app; pose proof (zlen_nonneg more); lia).
  assert (forall p q, (p, q) ∈ qs -> complete (zlen blocks) p q) as Hqs
    by (intros p q [?|?]%elem_of_app; [by apply Hvc|by apply Hps]).
  assert (forall p q, (p, q) ∈ qs -> 0 <= p /\ 0 <= q) as Hpos by (intros p q (? & ? & _)%Hqs; done).
  assert (forall d o, (d, o) ∈ qs -> knows blocks self' f d o) as Hnew.
  { intros d o Hin. pose proof (Hqs d o Hin) as Hc. split; [done|]. left. rewrite Hun.
    apply insert_nodes_some; [done|apply Hc..|by left]. }
  assert (forall d o, knows old self f d o -> knows blocks self' f d o) as Hkeep.
  { intros d o [Hc Hk]. split; [by eapply complete_mono|]. destruct Hk as [Hk|Hk].
    - left. rewrite Hun. apply insert_nodes_some; [done|apply Hc..|by right].
    - right. by apply stored_app. }
  assert (forall d o, knows blocks self' f d o -> knows old self f d o \/ (d, o) ∈ qs) as Hback.
  { intros d o [Hc [Hk|Hk]].
    - rewrite Hun in Hk. apply insert_nodes_some in Hk as [?|[x Hx]]; [by right| |done|apply Hc..]. left.
      destruct (Hu _ _ Hx) as (d' & o' & Hc' & Heq & _). cbn in Heq.
      apply node_at_inj in Heq as [<- <-]; [|apply Hc|apply Hc'|apply Hc|apply Hc'].
      split; [done|]. left. by exists x.
    - left. pose proof (complete_node_at _ _ _ Hc). destruct (Hslots (node_at d o)) as [Hb|(d' & o' & Hc' & Heq & Hst)]; [lia| |].
      + destruct (stored_not_blank blocks f d o Hnb Hc Hk Hb).
      + apply node_at_inj in Heq as [<- <-]; [|apply Hc|apply Hc'|apply Hc|apply Hc']. split; [done|by right]. }
  assert (closed_at (zlen blocks) (knows blocks self' f)) as (_ & Hroots & Hup).
  { specialize (Hcl (knows old self f)). rewrite (proj1 (proj2 Hfor)) in Hcl. specialize (Hcl (sparse_closed _ _ _ Hs)).
    specialize (Hvs _ Hcl (fun d o Hk => or_introl Hk)). revert Hvs. apply closed_at_ext. intros d o. split.
    - unfold qs in Hnew. intros [[Hk|Hin]|Hin]; [by apply Hkeep|apply Hnew, elem_of_app..]; [by right|by left].
    - intros [Hk|[Hin|Hin]%elem_of_app]%Hback; auto. }
  exists self'. split_and!; try done; [|intros d o Hin; apply Hnew, elem_of_app; by left]. constructor; try done.
  - intros k x Hx. rewrite Hun in Hx. apply insert_nodes_lookup in Hx as [[Hin <-]|Hm].
    + apply list_elem_of_fmap in Hin as ([p q] & -> & Hin). exists p, q. pose proof (Hqs p q Hin) as Hc.
      split_and!; [done| |done]. cbn. rewrite merkle_index, Z2Nat.id by apply Hc. done.
    + apply log_node_app. by apply Hu.
  - intros k Hk. destruct (Hslots k Hk) as [?|(d & o & Hc & -> & Hst)]; [by left|right].
    exists d, o. split_and!; [by eapply complete_mono|done|by apply stored_app].
Qed.

(** The tree of the empty log. *)
Lemma sparse_empty self : tree_for [] self -> mt_truncated self = false -> mt_unflushed self = ∅ -> sparse [] self [].
Proof.
  intros Hfor Ht Hu. assert (forall d o, ~ complete (zlen (@nil (list Z))) d o) as Hno.
  { intros d o (Hd & Ho & Hle). rewrite zlen_nil in Hle. pose proof (Z.pow_pos_nonneg 2 d). nia. }
  constructor; try done.
  - intros k x Hx. rewrite Hu in Hx. done.
  - intros k Hk. left. left. rewrite zlen_nil. lia.
  - intros d o Hin. by apply elem_of_nil in Hin.
  - intros d o [Hc _]. by apply Hno in Hc.
Qed.
End Sparse.
