(* ===== verification/MerkleSeek.v ===== *)
(** * Seeking

    [seek_from_head] looks for the node of a byte of the log: it walks along the
    roots and down from the one that has the byte, by the lengths of the nodes.
    [seek_from_head_ok]: when the roots are at hand it finds the node or asks for
    nodes that it misses. *)

From stdpp Require Import base tactics numbers list gmap.
From Stdlib Require Import ZArith Lia Bool.
From S2P Require Import Prelude FlatTree Common CompactEncoding Crypto OplogEntry Changeset.
From S2P Require Import Storage MerkleTree MerkleView MerkleProof.
Open Scope Z_scope.

Section Seek.
Context `{FT : FlatTree} {FL : FlatTreeLaws FT} `{CE : CompactEncoding} {CL : CompactEncodingLaws CE}
  `{B2 : Blake2b} {BL : Blake2bLaws B2} `{ED : Ed25519} `{IO : IntMapOrder}.
Implicit Types (blocks : list (list Z)) (self : MerkleTree) (nodes : nodes_map).

(** Byte [bytes], counted from one, is in the leaf, or is the last one of the
    node. *)
Definition seek_at blocks (bytes index : Z) : Prop :=
  exists d o, complete (zlen blocks) d o /\ index = node_at d o /\
    byte_sum blocks (2 ^ d * o) < bytes <= byte_sum blocks (2 ^ d * (o + 1)) /\
    (d = 0 \/ bytes = byte_sum blocks (2 ^ d * (o + 1))).

(** The result of a search that may ask for a node of the log it does not have. *)
Definition sought blocks self nodes (P : Z -> Prop) (r : either_instructions Z) : Prop :=
  match r with
  | Right index => P index
  | Left instructions => exists d o, complete (zlen blocks) d o /\ has self nodes (node_at d o) = false /\
      instructions = [Instruction.new_content_allow_miss Common.Tree (40 * node_at d o) 40]
  end.

Lemma optional_node_ok blocks self nodes d o :
  view_ok blocks self nodes -> no_blank blocks -> zlen blocks < 2 ^ 57 -> complete (zlen blocks) d o ->
  Tree.optional_node self (node_at d o) nodes =
    Ok (if has self nodes (node_at d o) then Right (Some (merkle_at blocks d o))
        else Left (Instruction.new_content_allow_miss Common.Tree (40 * node_at d o) 40)).
Proof.
  intros [Ht Hv] Hnb Hn Hc. destruct (Hv d o Hc) as [Hu Hm]. unfold Tree.optional_node, Tree.node, has. rewrite Ht.
  destruct (mt_unflushed self !! node_at d o) as [x|]; [by rewrite (Hu x eq_refl), (Hnb d o Hc)|].
  destruct (nodes !! node_at d o) as [x|]; [by rewrite (Hm x eq_refl), (Hnb d o Hc)|].
  pose proof (complete_node_at _ _ _ Hc). by rewrite checked_mul_Ok, bind_Ok by lia.
Qed.

Lemma merkle_at_bytes blocks d o :
  0 <= d -> 0 <= o -> node_length (merkle_at blocks d o) = byte_sum blocks (2 ^ d * (o + 1)) - byte_sum blocks (2 ^ d * o).
Proof. intros. unfold merkle_at. rewrite merkle_length by done. by rewrite Z2Nat.id. Qed.

Lemma node_at_parity d o : 0 <= d -> 0 <= o -> (Z.land (node_at d o) 1 =? 0) = (d =? 0).
Proof.
  intros Hd Ho. change 1 with (Z.ones 1). rewrite Z.land_ones by lia. unfold node_at. change (2 ^ 1) with 2.
  destruct (Z.eqb_spec d 0) as [->|Hne].
  - rewrite Z.pow_0_r. replace (1 * (1 + 2 * o) - 1) with (o * 2) by lia. by rewrite Z.mod_mul.
  - replace d with (d - 1 + 1) by lia. rewrite pow2_succ by lia.
    replace (2 * 2 ^ (d - 1) * (1 + 2 * o) - 1) with (1 + (2 ^ (d - 1) * (1 + 2 * o) - 1) * 2) by lia.
    by rewrite Z.mod_add.
Qed.

(** Down from a node that has the byte, and not as its last. *)
Lemma seek_trusted_loop_ok blocks self nodes (d : nat) : forall o it bytes fuel,
  view_ok blocks self nodes -> no_blank blocks -> log_fits blocks ->
  complete (zlen blocks) (Z.of_nat d) o -> iter_at (Z.of_nat d) o it -> (d <= fuel)%nat ->
  0 < bytes < node_length (merkle_at blocks (Z.of_nat d) o) ->
  exists r, Proofs.seek_trusted_loop fuel self nodes it bytes = Ok r /\
    sought blocks self nodes (seek_at blocks (byte_sum blocks (2 ^ Z.of_nat d * o) + bytes)) r.
Proof.
  induction d as [|d IH]; intros o it bytes fuel Hv Hnb Hfit Hc Hit Hfuel Hb;
    pose proof Hit as (Hidx & _ & _); pose proof Hc as (_ & Ho & Hle); rewrite merkle_at_bytes in Hb by lia.
  - exists (Right (node_at 0 o)). split.
    + destruct fuel; cbn [Proofs.seek_trusted_loop]; rewrite Hidx; by rewrite node_at_parity by lia.
    + exists 0, o. change (Z.of_nat 0) with 0 in *. split_and!; [done|done|lia|lia|by left].
  - destruct fuel as [|fuel]; [lia|]. rewrite Nat2Z.inj_succ, <-Z.add_1_r in *. pose proof Hfit as [Hn _].
    pose proof (complete_in_tree _ _ _ Hc Hn) as Hin. pose proof (iter_left_child_law it _ _ Hin Hit) as Hlc.
    rewrite (proj2 (Z.eqb_neq (Z.of_nat d + 1) 0)) in Hlc by lia.
    replace (Z.max 0 (Z.of_nat d + 1 - 1)) with (Z.of_nat d) in Hlc by lia.
    destruct (complete_children _ _ _ Hc) as [Hcl Hcr]; [lia|].
    cbn [Proofs.seek_trusted_loop]. rewrite Hidx, node_at_parity, (proj2 (Z.eqb_neq _ 0)) by lia.
    pose proof Hlc as (-> & _ & _). rewrite (optional_node_ok blocks), bind_Ok by done.
    pose proof (pow2_succ (Z.of_nat d) ltac:(lia)) as Hp.
    assert (node_length (merkle_at blocks (Z.of_nat d) (2 * o)) =
      byte_sum blocks (2 ^ Z.of_nat d * (2 * o + 1)) - byte_sum blocks (2 ^ (Z.of_nat d + 1) * o)) as Hl.
    { rewrite merkle_at_bytes by lia. do 2 f_equal. lia. }
    assert (node_length (merkle_at blocks (Z.of_nat d) (2 * o + 1)) =
      byte_sum blocks (2 ^ (Z.of_nat d + 1) * (o + 1)) - byte_sum blocks (2 ^ Z.of_nat d * (2 * o + 1))) as Hr.
    { rewrite merkle_at_bytes by lia. do 2 f_equal. lia. }
    assert (2 ^ (Z.of_nat d + 1) * o = 2 ^ Z.of_nat d * (2 * o)) as Hs by lia.
    destruct (has self nodes (node_at (Z.of_nat d) (2 * o))) eqn:Hhas.
    2: { eexists. split; [done|]. exists (Z.of_nat d), (2 * o). by split_and!. }
    destruct (Z.eqb_spec (node_length (merkle_at blocks (Z.of_nat d) (2 * o))) bytes) as [Heq|Hne].
    { eexists. split; [done|]. exists (Z.of_nat d), (2 * o). rewrite <-Hs. split_and!; [done|done|lia|lia|]. right. lia. }
    destruct (Z.ltb_spec bytes (node_length (merkle_at blocks (Z.of_nat d) (2 * o)))) as [Hlt|Hge].
    { destruct (IH (2 * o) (iter_left_child it) bytes fuel) as (r & Hrun & Hat); try done; [lia..|].
      exists r. rewrite Hs. by split. }
    rewrite checked_sub_Ok, bind_Ok by lia. assert (2 * o / 2 = o) as Hhalf by (Z.div_mod_to_equations; lia).
    assert (iter_at (Z.of_nat d) (2 * o + 1) (iter_sibling (iter_left_child it))) as Hsib.
    { replace (2 * o + 1) with (sibling_offset (2 * o)) by (unfold sibling_offset; by rewrite Z.even_mul).
      apply iter_sibling_law; [by rewrite Hhalf|lia|done]. }
    destruct (IH (2 * o + 1) (iter_sibling (iter_left_child it)) (bytes - node_length (merkle_at blocks (Z.of_nat d) (2 * o))) fuel)
      as (r & Hrun & Hat); try done; [lia..|]. exists r. split; [done|].
    replace (byte_sum blocks (2 ^ (Z.of_nat d + 1) * o) + bytes) with (byte_sum blocks (2 ^ Z.of_nat d * (2 * o + 1)) +
      (bytes - node_length (merkle_at blocks (Z.of_nat d) (2 * o)))) by lia. done.
Qed.

(** Along the roots. *)
Lemma seek_roots_ok blocks self nodes ps : forall s bytes,
  view_ok blocks self nodes -> no_blank blocks -> log_fits blocks -> tiles s ps (zlen blocks) -> 0 <= s ->
  (forall d o, (d, o) ∈ ps -> has self nodes (node_at d o) = true) -> 0 < bytes ->
  exists r, Proofs.seek_roots self nodes (node_keys ps) (2 * zlen blocks) bytes [] = Ok r /\
    sought blocks self nodes (fun index =>
      if decide (byte_sum blocks s + bytes <= zlen (concat blocks)) then seek_at blocks (byte_sum blocks s + bytes) index
      else index = 2 * zlen blocks) r.
Proof.
  induction ps as [|[d o] ps IH]; intros s bytes Hv Hnb Hfit Ht Hs Hhas Hb.
  { cbn in Ht. subst s. exists (Right (2 * zlen blocks)). split; [done|]. cbn [sought]. rewrite byte_sum_all, decide_False by lia. done. }
  pose proof (tiles_complete _ _ _ d o Ht ltac:(by left)) as Hc. destruct Ht as (Hd & Ho & -> & Ht). pose proof Hfit as [Hn _].
  unfold node_keys. rewrite fmap_cons. fold (node_keys ps). cbn [Proofs.seek_roots].
  rewrite (required_node_ok blocks), bind_Ok by done. rewrite Hhas by by left.
  pose proof (merkle_at_bytes blocks d o Hd Ho) as Hl. pose proof (Z.pow_pos_nonneg 2 d ltac:(lia) Hd).
  assert (byte_sum blocks (2 ^ d * (o + 1)) <= zlen (concat blocks)) as Htot by (pose proof Hc as (_ & _ & ?); apply byte_sum_le; nia).
  destruct (Z.eqb_spec bytes (node_length (merkle_at blocks d o))) as [Heq|Hne].
  { eexists. split; [done|]. cbn [sought]. rewrite decide_True by lia. exists d, o. split_and!; [done|done|lia|lia|]. right. lia. }
  destruct (Z.ltb_spec (node_length (merkle_at blocks d o)) bytes) as [Hlt|Hge].
  - rewrite checked_sub_Ok, bind_Ok by lia.
    destruct (IH (2 ^ d * (o + 1)) (bytes - node_length (merkle_at blocks d o))) as (r & Hrun & Hat); try done; [nia| |lia|].
    { intros d' o' Hin. apply Hhas. by right. }
    exists r. split; [done|]. replace (byte_sum blocks (2 ^ d * o) + bytes) with
      (byte_sum blocks (2 ^ d * (o + 1)) + (bytes - node_length (merkle_at blocks d o))) by lia. done.
  - unfold Proofs.seek_trusted_tree. rewrite (proj2 (Z.eqb_neq bytes 0)) by lia.
    pose proof (complete_depth _ _ _ Hc Hn).
    destruct (seek_trusted_loop_ok blocks self nodes (Z.to_nat d) o (iter_new (node_at d o)) bytes tree_fuel) as (r & -> & Hat);
      rewrite ?Z2Nat.id in * by done; try done; [by apply iter_new_law, (complete_in_tree (zlen blocks))|unfold tree_fuel; lia|lia|].
    rewrite bind_Ok. exists r. split; [by destruct r|]. destruct r; [done|]. cbn [sought]. by rewrite decide_True by lia.
Qed.

Lemma seek_from_head_ok blocks self nodes bytes :
  view_ok blocks self nodes -> no_blank blocks -> log_fits blocks ->
  (forall d o, (d, o) ∈ peaks (zlen blocks) -> has self nodes (node_at d o) = true) -> 0 < bytes ->
  exists r, Proofs.seek_from_head self (2 * zlen blocks) bytes nodes = Ok r /\
    sought blocks self nodes (fun index =>
      if decide (bytes <= zlen (concat blocks)) then seek_at blocks bytes index else index = 2 * zlen blocks) r.
Proof.
  intros Hv Hnb Hfit Hhas Hb. pose proof Hfit as [Hn _]. pose proof (zlen_nonneg blocks).
  unfold Proofs.seek_from_head. rewrite ft_full_roots_law by lia. change (roots_of (zlen blocks)) with (node_keys (peaks (zlen blocks))).
  destruct (seek_roots_ok blocks self nodes (peaks (zlen blocks)) 0 bytes) as (r & Hrun & Hat); try done; [by apply tiles_peaks|].
  exists r. split; [done|]. by change (byte_sum blocks 0) with 0 in Hat.
Qed.
End Seek.
