(* ===== verification/MerkleBoth.v ===== *)
(** * A block and an upgrade in one proof

    A peer may ask for a block and for an upgrade at once.  The block lies
    behind the blocks the upgrade starts from: then its path replaces the node
    above it among the nodes of the upgrade, and the receiver, who hashes up the
    path, takes the root of the path for that node.  The facts here follow such a
    proof from the tree that creates it to the place in the block store where
    the receiver puts the block. *)

From stdpp Require Import base tactics numbers list gmap fin_maps.
From Stdlib Require Import ZArith Lia Bool Sorted.
From S2P Require Import Prelude FlatTree Common CompactEncoding Crypto OplogEntry Changeset.
From S2P Require Import Storage MerkleTree MerkleView MerkleProof MerkleComplete MerkleUpgrade MerkleSparse.
Open Scope Z_scope.

(** ** The node of the upgrade above a block *)

Lemma fill_tiles (m : nat) : forall d o,
  0 <= d -> 0 <= o -> tiles (2 ^ d * (o + 1)) (fill m d o) (2 ^ (d + Z.of_nat m) * (o / 2 ^ Z.of_nat m + 1)).
Proof.
  induction m as [|m IH]; intros d o Hd Ho.
  - by rewrite Z.add_0_r, Z.pow_0_r, Z.div_1_r.
  - cbn [fill]. assert (0 <= o / 2) by (apply Z.div_pos; lia).
    rewrite half_up. replace (d + Z.of_nat (S m)) with (d + 1 + Z.of_nat m) by lia.
    specialize (IH (d + 1) (o / 2) ltac:(lia) ltac:(lia)). rewrite pow2_succ in IH at 1 by done.
    pose proof (Z.div2_odd o) as Hdiv. rewrite Z.div2_div in Hdiv. rewrite <-Z.negb_odd.
    destruct (Z.odd o); cbn [Z.b2z negb app tiles] in *.
    + replace (2 ^ d * (o + 1)) with (2 * 2 ^ d * (o / 2 + 1)) by lia. done.
    + split_and!; [done|lia|done|]. replace (2 ^ d * (o + 1 + 1)) with (2 * 2 ^ d * (o / 2 + 1)) by lia. done.
Qed.

Lemma upgrade_tiles a n ps : forall s,
  full_from s ps n n -> 0 <= s -> a <= n -> 0 < a \/ s = 0 -> tiles (Z.max a s) (upgrade_nodes a ps) n.
Proof.
  induction ps as [|[d o] ps IH]; intros s Hf Hs Ha H0; cbn [upgrade_nodes].
  - cbn in Hf |- *. lia.
  - pose proof Hf as (Hd & Ho & -> & Hlt & _ & Hr). pose proof (Z.pow_pos_nonneg 2 d).
    specialize (IH (2 ^ d * (o + 1)) Hr ltac:(nia) Ha).
    destruct (Z.leb_spec (2 ^ d * (o + 1)) a) as [Hle|Hgt].
    { cbn [app]. rewrite !Z.max_l in * by nia. apply IH. left. nia. }
    destruct (Z.ltb_spec (2 ^ d * o) a) as [Hin|Hout].
    + rewrite Z.max_l by lia. rewrite Z.max_r in IH by lia. eapply tiles_app; [|apply IH; left; nia].
      pose proof (fill_tiles (Z.to_nat d) 0 (a - 1) ltac:(lia) ltac:(nia)) as Ht.
      rewrite Z2Nat.id, Z.add_0_l, Z.pow_0_r in Ht by done.
      replace ((a - 1) / 2 ^ d) with o in Ht by (apply Z.div_unique with (a - 1 - 2 ^ d * o); lia).
      by replace (1 * (a - 1 + 1)) with a in Ht by lia.
    + rewrite Z.max_r by lia. cbn [app tiles]. rewrite upgrade_nodes_behind with (s := 2 ^ d * (o + 1)) (n := n) by (done || nia).
      split_and!; [done..|]. by eapply full_from_tiles.
Qed.

Lemma tiles_block ps i : forall s e, tiles s ps e -> s <= i < e ->
  exists before (m : nat) after, ps = before ++ (Z.of_nat m, i / 2 ^ Z.of_nat m) :: after /\
    (forall d o, (d, o) ∈ before -> 2 ^ d * (o + 1) <= i) /\ s <= 2 ^ Z.of_nat m * (i / 2 ^ Z.of_nat m).
Proof.
  induction ps as [|[d o] ps IH]; intros s e; cbn [tiles]; [lia|]. intros (Hd & Ho & -> & Ht) Hi.
  pose proof (Z.pow_pos_nonneg 2 d).
  destruct (Z.lt_ge_cases i (2 ^ d * (o + 1))) as [Hlt|Hge].
  - exists [], (Z.to_nat d), ps. rewrite Z2Nat.id by done.
    assert (i / 2 ^ d = o) as -> by (symmetry; apply Z.div_unique with (i - 2 ^ d * o); lia).
    split_and!; [done|by intros ? ? ?%elem_of_nil|lia].
  - destruct (IH _ _ Ht ltac:(lia)) as (before & m & after & -> & Hb & Hle).
    exists ((d, o) :: before), m, after. split_and!; [done| |nia].
    intros d' o' [[= -> ->]|Hin]%elem_of_cons; [done|by apply Hb].
Qed.

(** The part of an upgrade from [a] blocks that block [i] is below. *)
Record split_at (n a i : Z) before (m : nat) after : Prop := {
  sa_parts : upgrade_nodes a (peaks n) = before ++ (Z.of_nat m, i / 2 ^ Z.of_nat m) :: after;
  sa_before d o : (d, o) ∈ before -> 2 ^ d * (o + 1) <= i;
  sa_start : a <= 2 ^ Z.of_nat m * (i / 2 ^ Z.of_nat m);
}.

Lemma split_exists n a i : 0 <= a -> a <= i < n -> exists before m after, split_at n a i before m after.
Proof.
  intros Ha Hi. pose proof (upgrade_tiles a n (peaks n) 0 (full_peaks n ltac:(lia))) as Ht.
  rewrite Z.max_l in Ht by lia. destruct (tiles_block _ i _ _ (Ht ltac:(lia) ltac:(lia) ltac:(by right)) Hi)
    as (before & m & after & ? & ? & ?). by exists before, m, after.
Qed.

Lemma split_complete n a i before m after :
  0 <= n -> split_at n a i before m after ->
  (forall d o, (d, o) ∈ before \/ (d, o) ∈ after -> complete n d o) /\
  complete n (Z.of_nat m) (i / 2 ^ Z.of_nat m).
Proof.
  intros Hn [Hp _ _]. pose proof (fun d o => upgrade_nodes_complete a 0 (peaks n) n d o (full_peaks n Hn)) as Hc.
  rewrite Hp in Hc. split.
  - intros d o Hin. apply Hc. rewrite elem_of_app, elem_of_cons. tauto.
  - apply Hc, elem_of_app. right. by left.
Qed.

(** ** Which nodes of an upgrade are known *)

Lemma fill_closed n K (m : nat) : forall e x,
  closed_at n K -> K e x -> 0 <= e -> complete n (e + Z.of_nat m) (x / 2 ^ Z.of_nat m) ->
  forall d o, (d, o) ∈ fill m e x -> K d o.
Proof.
  induction m as [|m IH]; intros e x HK Hk He Hc d o; cbn [fill]; [by intros ?%elem_of_nil|].
  apply complete_up in Hc as [Hp Hc]; [|done]. destruct HK as (H1 & H2 & Hup). destruct (Hup e x Hk Hp) as [Hsib Hpar].
  intros [Hin|Hin]%elem_of_app; [|eapply (IH (e + 1)); [done|done|lia|done..]].
  destruct (Z.even x) eqn:Hev; [|by apply elem_of_nil in Hin]. apply list_elem_of_singleton in Hin as [= -> ->].
  unfold sibling_offset in Hsib. by rewrite Hev in Hsib.
Qed.

(** The nodes that are enough to verify contain the nodes of an upgrade from
    [a] blocks, if they contain a node that ends there. *)
Lemma upgrade_closed n K a :
  0 <= a -> closed_at n K -> (0 < a -> exists e x, K e x /\ a = 2 ^ e * (x + 1)) ->
  forall d o, (d, o) ∈ upgrade_nodes a (peaks n) -> K d o.
Proof.
  intros Ha HK He d o. pose proof HK as (Hcomp & Hpk & _).
  assert (forall ps, (forall p q, (p, q) ∈ ps -> K p q) -> (d, o) ∈ upgrade_nodes a ps -> K d o) as Hgen; [|by apply Hgen].
  induction ps as [|[p q] ps IH]; intros Hps; cbn [upgrade_nodes]; [by intros ?%elem_of_nil|].
  intros [Hin|Hin]%elem_of_app; [|apply IH; [intros; apply Hps; by right|done]].
  pose proof (Hps p q ltac:(by left)) as Hpq. destruct (Hcomp p q Hpq) as (Hp & Hq & Hle).
  destruct (Z.leb_spec (2 ^ p * (q + 1)) a); [by apply elem_of_nil in Hin|].
  destruct (Z.ltb_spec (2 ^ p * q) a) as [Hlt|]; [|by apply list_elem_of_singleton in Hin as [= -> ->]].
  destruct He as (e & x & Hk & Hex); [pose proof (Z.pow_pos_nonneg 2 p); nia|].
  destruct (Hcomp e x Hk) as (He & Hx & _).
  destruct (growing_root a p q e x) as (m & _ & Hpm & Hqm & Hfill); [done..|lia|]. rewrite Hfill in Hin.
  eapply (fill_closed n K m e x); [done..| |done]. rewrite <-Hpm, <-Hqm. by split_and!.
Qed.

(** ** Where the bytes of the block go

    The receiver looks up the position of the block's root among the new roots,
    and adds the lengths of the old roots up to that position.  [block_in_place]:
    the roots before it are the same, or the block is the next one of the log. *)
Fixpoint in_place (i : Z) (new old : list (Z * Z)) : bool :=
  match new with
  | [] => false
  | (d, o) :: new =>
      if i <? 2 ^ d * (o + 1) then true
      else match old with
           | p :: old => bool_decide (p = (d, o)) && in_place i new old
           | [] => false
           end
  end.

Definition block_in_place (l n i : Z) : bool := (i =? l) || in_place i (peaks n) (peaks l).

Lemma in_place_spec i d o post pre : forall s e old,
  tiles s (pre ++ (d, o) :: post) e -> 2 ^ d * o <= i < 2 ^ d * (o + 1) ->
  in_place i (pre ++ (d, o) :: post) old = true -> exists rest, old = pre ++ rest.
Proof.
  induction pre as [|[p q] pre IH]; intros s e old Ht Hi; [by exists old|]. cbn [app tiles in_place] in *.
  destruct Ht as (_ & _ & _ & Ht). pose proof (tiles_le _ _ _ (tiles_split _ _ _ _ _ _ Ht)).
  rewrite (proj2 (Z.ltb_ge _ _)) by lia. destruct old as [|x old]; [done|].
  intros [Hx Hin]%andb_true_iff. apply bool_decide_eq_true in Hx as ->.
  destruct (IH _ _ old Ht Hi Hin) as [rest ->]. by exists rest.
Qed.

Lemma in_place_refl i ps : forall s e, tiles s ps e -> s <= i < e -> in_place i ps ps = true.
Proof.
  induction ps as [|[d o] ps IH]; intros s e Ht Hi; cbn [in_place tiles] in *; [lia|]. destruct Ht as (_ & _ & -> & Ht).
  destruct (Z.ltb_spec i (2 ^ d * (o + 1))); [done|]. rewrite bool_decide_true by done. apply (IH _ _ Ht). lia.
Qed.

(** Of two nodes above a block the larger one ends last. *)
Lemma nested_end i d o e x :
  0 <= d <= e -> 2 ^ d * o <= i -> i < 2 ^ e * (x + 1) -> 2 ^ d * (o + 1) <= 2 ^ e * (x + 1).
Proof.
  intros Hde Hlo Hhi. pose proof (Z.pow_pos_nonneg 2 d).
  replace (2 ^ e) with (2 ^ d * 2 ^ (e - d)) in * by (rewrite <-Z.pow_add_r by lia; f_equal; lia).
  rewrite <-Z.mul_assoc in *. set (t := 2 ^ (e - d) * (x + 1)) in *.
  assert (o < t) by (apply (Z.mul_lt_mono_pos_l (2 ^ d)); lia). apply Z.mul_le_mono_nonneg_l; lia.
Qed.

Lemma half_contains i d o : 0 <= d -> 0 <= o -> 2 ^ d * o <= i < 2 ^ d * (o + 1) ->
  2 ^ (d + 1) * (o / 2) <= i < 2 ^ (d + 1) * (o / 2 + 1).
Proof.
  intros Hd Ho Hi. rewrite pow2_succ by done. pose proof (Z.pow_pos_nonneg 2 d).
  pose proof (Z.mul_div_le o 2). pose proof (Z.mul_succ_div_gt o 2). nia.
Qed.

(** A node that is complete while its parent is not is a root. *)
Lemma top_is_root n d o : complete n d o -> ~ complete n (d + 1) (o / 2) -> (d, o) ∈ peaks n.
Proof.
  intros (Hd & Ho & Hle) Hn. pose proof (Z.pow_pos_nonneg 2 d). assert (0 <= o / 2) by (apply Z.div_pos; lia).
  assert (~ 2 ^ (d + 1) * (o / 2 + 1) <= n) as Hgt by (intros ?; apply Hn; split_and!; [lia|lia|done]).
  rewrite pow2_succ in Hgt by done. pose proof (Z.div2_odd o) as Hdiv. rewrite Z.div2_div in Hdiv.
  destruct (Z.odd o) eqn:Hodd; cbn [Z.b2z] in Hdiv; [exfalso; nia|].
  apply peaks_intro; [done..|by rewrite <-Z.negb_odd, Hodd|]. nia.
Qed.

Section Both.
Context `{FT : FlatTree} {FL : FlatTreeLaws FT} `{CE : CompactEncoding} {CL : CompactEncodingLaws CE}
  `{B2 : Blake2b} {BL : Blake2bLaws B2} `{ED : Ed25519} {EL : Ed25519Laws ED}
  `{IO : IntMapOrder} {IOL : IntMapOrderLaws IO}.
Implicit Types (blocks : list (list Z)) (self : MerkleTree) (nodes : nodes_map).

(** ** Creating *)

Definition both_upgrade blocks (a : Z) (ps : list (Z * Z)) (sig : Signature) : DataUpgrade :=
  mkDataUpgrade a (zlen blocks - a) (merkle_peaks blocks ps) [] (sig_to_bytes sig).

Definition both_answer blocks self (a i : Z) (m : nat) ps sig : ValuelessProof :=
  mkValuelessProof (mt_fork self) (Some (mkDataHash i (merkle_peaks blocks (proof_path true m 0 i)))) None None
    (Some (both_upgrade blocks a ps sig)).

Definition both_proof blocks (fork a i : Z) (m : nat) ps sig : Proof_ :=
  mkProof fork (Some (mkDataBlock i (default [] (blocks !! Z.to_nat i)) (merkle_peaks blocks (proof_path true m 0 i))))
    None None (Some (both_upgrade blocks a ps sig)).

(** A block behind the start of the upgrade is sent with its path up to the
    node it replaces, whatever number of nodes was asked for. *)
Lemma create_both_ok blocks self infos nodes a i cnt before (m : nat) after sig :
  tree_for blocks self -> infos_to_nodes infos = Ok nodes -> view_ok blocks self nodes ->
  no_blank blocks -> log_fits blocks -> 0 <= a <= i -> i < zlen blocks -> mt_signature self = Some sig ->
  split_at (zlen blocks) a i before m after ->
  Proofs.create_valueless_proof self (Some (mkRequestBlock i cnt)) None None
      (Some (mkRequestUpgrade a (zlen blocks - a))) infos =
    Ok (match missing self nodes (before ++ proof_path true m 0 i ++ after) with
        | [] => Right (both_answer blocks self a i m (before ++ after) sig)
        | ins => Left ins
        end).
Proof.
  intros (_ & Hl & _) Hinf Hv Hnb [Hn _] Ha Hi Hsig [Hparts Hbefore _]. unfold Proofs.create_valueless_proof.
  rewrite Hinf, bind_Ok, Hl. cbn [ru_start ru_length]. checked.
  cbn [Proofs.normalize_indexed rb_index rb_nodes]. rewrite checked_mul_Ok, !bind_Ok by lia.
  replace (a * 2 + (zlen blocks - a) * 2) with (2 * zlen blocks) by lia. rewrite (Z.mul_comm a 2), (Z.mul_comm i 2).
  rewrite (proj2 (Z.leb_gt (2 * zlen blocks) (2 * a))), (Z.ltb_irrefl (2 * zlen blocks)) by lia.
  cbn [orb]. unfold Proofs.proof_sub_tree. cbn [andb ni_index ni_last_index ru_start].
  rewrite (proj2 (Z.ltb_ge i a)), !bind_Ok by lia.
  rewrite (upgrade_proof_ok blocks self nodes _ _ (Some i)) by (done || lia || (cbn; split_and!; [lia..|done|by eexists _, _])).
  rewrite Hparts, pieces_block by (done || lia). rewrite bind_Ok. cbn [fst snd app].
  destruct (missing self nodes (before ++ proof_path true m 0 i ++ after)) as [|ins more] eqn:Hm; [|done].
  rewrite !missing_app in Hm. apply app_eq_nil in Hm as [Hb Hm]. apply app_eq_nil in Hm as [Hp Hf].
  rewrite !known_all by (rewrite ?missing_app, ?Hb, ?Hf; done).
  unfold Proofs.assemble_proof. cbn. rewrite Hsig. done.
Qed.

(** ** Verifying *)

(** The root of the path comes at its place among the nodes of the upgrade. *)
Lemma split_feeds blocks a i before (m : nat) after :
  split_at (zlen blocks) a i before m after -> 0 <= i ->
  feeds (NodeQueue.new (merkle_peaks blocks (before ++ after)) (Some (merkle_at blocks (Z.of_nat m) (i / 2 ^ Z.of_nat m))))
    (merkle_peaks blocks (upgrade_nodes a (peaks (zlen blocks)))).
Proof.
  intros Hsp Hi. destruct (split_complete _ _ _ _ _ _ (zlen_nonneg blocks) Hsp) as [Hc Hcm].
  destruct Hsp as [Hparts Hbefore _]. rewrite Hparts, !merkle_peaks_snoc. apply feeds_new.
  apply Forall_fmap, Forall_forall. intros [d o] Hin. unfold compose.
  pose proof (Hc d o ltac:(by left)) as (Hd & Ho & _). pose proof (Hbefore d o Hin) as Hle.
  change (merkle blocks (Z.to_nat d) o) with (merkle_at blocks d o).
  rewrite !merkle_at_index by lia. intros E. destruct Hcm as (_ & Hom & _).
  apply node_at_inj in E as [-> ->]; [|lia || done..].
  pose proof (Z.pow_pos_nonneg 2 (Z.of_nat m)). pose proof (Z.mul_succ_div_gt i (2 ^ Z.of_nat m)). lia.
Qed.

Definition block_changeset blocks self (m : nat) (i : Z) : MerkleTreeChangeset :=
  Proofs.push_nodes (Tree.changeset self) (merkle_peaks blocks (verified_nodes m 0 i)).

Lemma verify_both_tree blocks (m : nat) i cs :
  log_fits blocks -> complete (zlen blocks) (Z.of_nat m) (i / 2 ^ Z.of_nat m) ->
  Proofs.verify_tree
      (Some (mkDataBlock i (default [] (blocks !! Z.to_nat i)) (merkle_peaks blocks (proof_path true m 0 i)))) None None cs =
    Ok (Some (merkle_at blocks (Z.of_nat m) (i / 2 ^ Z.of_nat m)),
        Proofs.push_nodes cs (merkle_peaks blocks (verified_nodes m 0 i))).
Proof. intros Hfit Hc. by rewrite <-(verify_tree_ok blocks true 0 i m) by (done || lia). Qed.

(** A receiver that has the blocks up to the start of the upgrade. *)
Lemma verify_both_new blocks a self infos nodes fork sig pk i before (m : nat) after :
  infos_to_nodes infos = Ok nodes -> log_fits blocks -> 0 <= a <= i -> i < zlen blocks -> tree_prefix blocks a self ->
  is_u64 fork -> ed_verify pk (signed_bytes blocks fork) sig = true -> split_at (zlen blocks) a i before m after ->
  exists cs, Proofs.verify_proof self (both_proof blocks fork a i m (before ++ after) sig) pk infos = Ok (Right cs) /\
    accepted_upgrade blocks fork sig (block_changeset blocks self m i) cs.
Proof.
  intros Hinf Hfit Ha Hi Ht Hf Hsig Hsp. destruct (split_complete _ _ _ _ _ _ (zlen_nonneg blocks) Hsp) as [_ Hcm].
  destruct (verify_upgrade_ok blocks a fork (block_changeset blocks self m i) (sig_to_bytes sig) sig pk
    (merkle_peaks blocks (before ++ after)) (Some (merkle_at blocks (Z.of_nat m) (i / 2 ^ Z.of_nat m))) []
    a (zlen blocks - a)) as (ok & cs & Hv & Hok & Hacc); [done|lia..|done|done|apply sig_from_to|done| |].
  { rewrite app_nil_r. by apply split_feeds; [|lia]. }
  rewrite (Hok eq_refl) in Hv. fold (both_upgrade blocks a (before ++ after) sig) in Hv.
  exists cs. split; [|done]. unfold Proofs.verify_proof. cbn [both_proof proof_block proof_hash proof_seek proof_upgrade proof_fork].
  rewrite Hinf, bind_Ok, verify_both_tree, bind_Ok by done. fold (block_changeset blocks self m i). by rewrite Hv, !bind_Ok.
Qed.

(** The loop over the roots passes the ones that are there. *)
Lemma verify_roots_same blocks ps : forall pre s (grow : bool) q it cs fuel,
  zlen blocks < 2 ^ 57 -> peaks (zlen blocks) = pre ++ ps -> full_from s ps (zlen blocks) (zlen blocks) ->
  cs_roots cs = merkle_roots blocks -> iter_at 0 s it -> (length ps <= fuel)%nat ->
  exists it', Proofs.verify_roots_loop fuel (2 * zlen blocks) (zlen pre) grow q it cs = Ok (q, it', cs).
Proof.
  induction ps as [|[d o] ps IH]; intros pre s grow q it cs fuel Hn Hp Hfull Hr Hit Hf.
  - cbn in Hfull. subst s. exists it. pose proof (zlen_nonneg blocks).
    destruct fuel; cbn [Proofs.verify_roots_loop]; by rewrite (iter_full_root_done it (zlen blocks)) by (done || lia).
  - destruct fuel as [|fuel]; [cbn in Hf; lia|]. cbn [length] in Hf.
    destruct (full_root_next _ _ _ _ _ _ Hfull Hn Hit) as (Hc & it1 & Hroot & Hat). pose proof Hat as [Hi _].
    pose proof Hfull as (Hd & _ & _ & _ & _ & Hfull').
    cbn [Proofs.verify_roots_loop]. rewrite Hroot, Hi. cbn [negb].
    assert (cs_roots cs !! Z.to_nat (zlen pre) = Some (merkle_at blocks d o)) as ->.
    { rewrite Hr. unfold merkle_roots, merkle_peaks, zlen.
      fold (zlen blocks). rewrite Hp, Nat2Z.id, list_lookup_fmap, lookup_app_r, Nat.sub_diag by done. done. }
    rewrite merkle_at_index, Z.eqb_refl by done.
    destruct (IH (pre ++ [(d, o)]) (2 ^ d * (o + 1)) grow q (iter_next_tree it1) cs fuel) as (it' & Hrun);
      try done; [by rewrite <-app_assoc|by eapply next_tree_at|lia|].
    rewrite zlen_app in Hrun. by exists it'.
Qed.

(** A receiver that knows of all blocks: the upgrade adds the signature only,
    and the root of the path is compared with the node that is there. *)
Lemma verify_both_same blocks a self infos nodes fork sig pk i (m : nat) ps :
  infos_to_nodes infos = Ok nodes -> log_fits blocks -> 0 <= a <= zlen blocks -> blocks <> [] -> tree_for blocks self ->
  is_u64 fork -> ed_verify pk (signed_bytes blocks fork) sig = true ->
  complete (zlen blocks) (Z.of_nat m) (i / 2 ^ Z.of_nat m) ->
  Proofs.verify_proof self (both_proof blocks fork a i m ps sig) pk infos =
    r ← Tree.required_node self (node_at (Z.of_nat m) (i / 2 ^ Z.of_nat m)) nodes;
    match r with
    | Left instruction => Ok (Left [instruction])
    | Right verified =>
        if decide (node_hash verified = node_hash (merkle_at blocks (Z.of_nat m) (i / 2 ^ Z.of_nat m)))
        then Ok (Right (Changeset.set_hash_signature (Proofs.set_fork (block_changeset blocks self m i) fork)
                   (Some (blake2b256 (tree_preimage (merkle_roots blocks)))) (Some sig)))
        else Err InvalidChecksum
    end.
Proof.
  intros Hinf Hfit Ha Hne (Hr & Hl & Hb) Hf Hsig Hc. pose proof Hfit as [Hn _]. unfold Proofs.verify_proof.
  cbn [both_proof proof_block proof_hash proof_seek proof_upgrade proof_fork].
  rewrite Hinf, bind_Ok, verify_both_tree, bind_Ok by done. fold (block_changeset blocks self m i).
  unfold Proofs.verify_upgrade. cbn [both_upgrade du_start du_length du_nodes du_additional_nodes du_signature].
  rewrite checked_add_Ok, bind_Ok by lia. replace (a + (zlen blocks - a)) with (zlen blocks) by lia.
  rewrite checked_mul_Ok, bind_Ok by lia. pose proof (length_peaks _ Hn).
  destruct (verify_roots_same blocks (peaks (zlen blocks)) [] 0
    (negb (is_empty (cs_roots (block_changeset blocks self m i))))
    (NodeQueue.new (merkle_peaks blocks ps) (Some (merkle_at blocks (Z.of_nat m) (i / 2 ^ Z.of_nat m))))
    (iter_new 0) (block_changeset blocks self m i) tree_fuel) as (it' & Hrun); try done.
  { apply full_peaks; lia. } { change 0 with (node_at 0 0) at 2. by apply iter_new_law. } { unfold tree_fuel. lia. }
  change (zlen []) with 0 in Hrun. rewrite Hrun, bind_Ok.
  assert (is_Some (last (cs_roots (block_changeset blocks self m i)))) as [lr Hlast].
  { cbn. rewrite Hr. apply last_is_Some. intros E. apply (f_equal length) in E. unfold merkle_roots, merkle_peaks in E.
    rewrite length_fmap in E. pose proof (full_peaks (zlen blocks) ltac:(lia)) as Hfull.
    destruct (peaks (zlen blocks)); [|done]. cbn in Hfull. by destruct blocks. }
  rewrite Hlast. cbn [unwrap]. rewrite bind_Ok. cbn [Proofs.extra_siblings]. rewrite bind_Ok.
  cbn [Proofs.extra_roots]. rewrite bind_Ok.
  rewrite (verify_and_set_signature_ok blocks) by (done || by split_and!).
  cbn [Proofs.set_fork cs_fork]. rewrite sig_from_to, Hsig, !bind_Ok. cbn [NodeQueue.new q_extra].
  rewrite merkle_at_index by lia. done.
Qed.

(** ** Placing *)

(** Following the nodes that an upgrade adds from a node above block [i]: they
    come in the order in which they are completed, so the path ends at a node
    whose parent is not among them. *)
Lemma climb_path_ok blocks i ps : forall d o it off,
  log_fits blocks -> StronglySorted later ps -> (forall p q, (p, q) ∈ ps -> complete (zlen blocks) p q) ->
  complete (zlen blocks) d o -> 2 ^ d * o <= i < 2 ^ d * (o + 1) -> iter_at d o it ->
  off = byte_sum blocks i - byte_sum blocks (2 ^ d * o) ->
  exists e x, complete (zlen blocks) e x /\ 2 ^ e * x <= i < 2 ^ e * (x + 1) /\ d <= e /\
    Tree.changeset_path (merkle_peaks blocks ps) (iter_parent it) off (iter_is_right it) (Some (merkle_at blocks d o)) =
      Ok (byte_sum blocks i - byte_sum blocks (2 ^ e * x), Some (merkle_at blocks e x)) /\
    (e + 1, x / 2) ∉ ps /\ ((e, x) = (d, o) \/ (d + 1, o / 2) ∈ ps /\ (e, x) ∈ ps).
Proof.
  induction ps as [|[p q] ps IH]; intros d o it off Hfit Hso Hps Hc Hi Hit Hoff.
  - exists d, o. subst off. split_and!; [done..|lia|lia|lia|done|apply not_elem_of_nil|by left].
  - apply StronglySorted_inv in Hso as [Hso Hall]. pose proof Hfit as [Hn _]. pose proof Hc as (Hd & Ho & Hle).
    pose proof (Hps p q ltac:(by left)) as Hpq. pose proof (Z.pow_pos_nonneg 2 d).
    assert (0 <= o / 2) by (apply Z.div_pos; lia).
    assert (iter_at (d + 1) (o / 2) (iter_parent it)) as Hpar.
    { apply iter_parent_law; [|done..]. split_and!; [lia..|]. replace (d + 1 + 1) with (d + 2) by lia.
      rewrite Z.pow_add_r by lia. pose proof (Z.mul_div_le o 2). change (2 ^ 2) with 4. nia. }
    pose proof Hpar as [Hpi _].
    change (merkle_peaks blocks ((p, q) :: ps)) with (merkle_at blocks p q :: merkle_peaks blocks ps).
    cbn [Tree.changeset_path]. rewrite merkle_at_index, Hpi by apply Hpq.
    destruct (decide ((p, q) = (d + 1, o / 2))) as [[= -> ->]|Hne].
    + rewrite Z.eqb_refl, (iter_is_right_law it d o) by (done || by eapply complete_in_tree).
      rewrite (path_offset_step blocks i), bind_Ok by (done || lia).
      destruct (IH (d + 1) (o / 2) (iter_parent it) (byte_sum blocks i - byte_sum blocks (2 ^ (d + 1) * (o / 2))))
        as (e & x & Hec & Hei & Hde & Hrun & Hout & Hin); try done.
      { intros ? ? ?. apply Hps. by right. }
      { by apply half_contains. }
      exists e, x. split_and!; [done|lia|lia|lia|done| |].
      * intros [[= ? ?]|?]%elem_of_cons; [lia|done].
      * right. split; [by left|]. destruct Hin as [[= -> ->]|[_ Hin]]; [by left|by right].
    + rewrite (proj2 (Z.eqb_neq _ _)) by (intros E; apply node_at_inj in E as [-> ->]; (done || apply Hpq || lia)).
      destruct (IH d o it off) as (e & x & Hec & Hei & Hde & Hrun & Hout & Hin); try done.
      { intros ? ? ?. apply Hps. by right. }
      exists e, x. split_and!; [done|lia|lia|done|done| |].
      * intros [Heq|?]%elem_of_cons; [|done]. destruct Hin as [[= -> ->]|[Hin _]]; [done|].
        rewrite Forall_forall in Hall. specialize (Hall _ Hin). pose proof Hpq as (Hp & Hq & _).
        injection Heq as Hep Hxq. rewrite <-Hep, <-Hxq in *. unfold later, node_end in Hall. cbn [fst snd] in Hall.
        pose proof Hec as (He0 & Hx0 & _). assert (d < e) as Hlt.
        { destruct (decide (d = e)) as [->|]; [|lia]. exfalso. apply Hne. do 2 f_equal.
          pose proof (Z.pow_pos_nonneg 2 e). nia. }
        pose proof (half_contains i d o ltac:(lia) ltac:(lia) Hi). pose proof (half_contains i e x ltac:(lia) ltac:(lia) Hei).
        pose proof (nested_end i (d + 1) (o / 2) (e + 1) (x / 2)). lia.
      * destruct Hin as [?|[? ?]]; [by left|right; split; by right].
Qed.

(** The node of the upgrade above the block is among the nodes the receiver
    ends with. *)
Lemma split_top old more self f i before (m : nat) after (K : Z -> Z -> Prop) :
  sparse old self f -> split_at (zlen (old ++ more)) (zlen old) i before m after ->
  closed_at (zlen (old ++ more)) K -> (forall d o, knows old self f d o -> K d o) ->
  K (Z.of_nat m) (i / 2 ^ Z.of_nat m).
Proof.
  intros Hs Hsp HK Hsub. pose proof (zlen_nonneg old).
  apply (upgrade_closed (zlen (old ++ more)) K (zlen old)); [done|done| |].
  - intros Hpos. destruct (list_nil_or_snoc (peaks (zlen old))) as [Hnil|(ps & [e x] & Hps)].
    { pose proof (full_peaks (zlen old) ltac:(lia)) as Hf. rewrite Hnil in Hf. cbn in Hf. lia. }
    exists e, x. split; [|by eapply peaks_last; [|done]]. apply Hsub, (sp_roots _ _ _ Hs).
    rewrite Hps. apply elem_of_app. right. by left.
  - rewrite (sa_parts _ _ _ _ _ _ Hsp). apply elem_of_app. right. by left.
Qed.

Lemma split_climbs old more self f i before (m : nat) after :
  sparse old self f -> split_at (zlen (old ++ more)) (zlen old) i before m after ->
  climbs (zlen (old ++ more)) (knows old self f) (verified_nodes m 0 i).
Proof.
  intros Hs Hsp K HK Hsub. destruct (split_complete _ _ _ _ _ _ (zlen_nonneg _) Hsp) as [_ Hcm].
  pose proof (split_top _ _ _ _ _ _ _ _ K Hs Hsp HK Hsub) as HT. pose proof HK as (Hcomp & Hpk & Hup). split_and!.
  - intros d o [?|Hin]; [by apply Hcomp|]. revert Hin. by apply verified_nodes_complete; [|rewrite Z.add_0_l].
  - intros d o ?. left. by apply Hpk.
  - intros d o [Hk|Hin] Hc; [destruct (Hup d o Hk Hc); by split; left|].
    destruct (verified_closed m 0 i d o Hin) as [[-> ->]|[? ?]]; [|by split; right].
    destruct (Hup _ _ HT Hc). by split; left.
Qed.

(** The root that a block of the upgrade is below, and the sum that is taken
    for its offset. *)
Lemma both_offset old more self f fork sig cs i before (m : nat) after infos :
  sparse old self f -> log_fits (old ++ more) -> zlen old < i < zlen (old ++ more) ->
  split_at (zlen (old ++ more)) (zlen old) i before m after ->
  accepted_upgrade (old ++ more) fork sig (block_changeset (old ++ more) self m i) cs ->
  exists pre d o post, peaks (zlen (old ++ more)) = pre ++ (d, o) :: post /\ 2 ^ d * o <= i < 2 ^ d * (o + 1) /\
    Tree.byte_offset_in_changeset self i cs infos =
      t ← Tree.sum_roots (length pre) 0 (mt_roots self) (byte_sum (old ++ more) i - byte_sum (old ++ more) (2 ^ d * o));
      Ok (Right t).
Proof.
  intros Hs Hfit Hi Hsp Hacc. set (blocks := old ++ more) in *. pose proof (sp_for _ _ _ Hs) as (_ & Hl & _).
  destruct (split_complete _ _ _ _ _ _ (zlen_nonneg _) Hsp) as [_ Hcm]. pose proof Hfit as [Hn _]. pose proof (zlen_nonneg old).
  destruct (accepted_for _ _ _ _ _ Hacc) as ((Hr & _) & _ & _ & _ & _ & _ & _ & _ & _ & ps & Hcn & Hps & Hcl & Hso & _).
  cbn [block_changeset Proofs.push_nodes Changeset.set_roots_nodes Tree.changeset Changeset.new cs_nodes cs_length app] in Hcn, Hcl.
  rewrite Hl in Hcl. specialize (Hcl _ (sparse_closed _ _ _ Hs)).
  destruct (verified_path_ok blocks i (merkle_peaks blocks ps) m) as (it & Hit & Hpath); [done|lia|done|].
  pose proof (Z.pow_pos_nonneg 2 (Z.of_nat m)). pose proof (Z.mul_div_le i (2 ^ Z.of_nat m)).
  pose proof (Z.mul_succ_div_gt i (2 ^ Z.of_nat m)).
  destruct (climb_path_ok blocks i ps (Z.of_nat m) (i / 2 ^ Z.of_nat m) it
    (byte_sum blocks i - byte_sum blocks (2 ^ Z.of_nat m * (i / 2 ^ Z.of_nat m))))
    as (d & o & Hdc & Hdi & Hde & Hclimb & Hout & Hin); try done; [lia|].
  assert (knows old self f d o \/ (d, o) ∈ ps) as Htop.
  { destruct Hin as [[= -> ->]|[_ Hin]]; [|by right].
    by apply (split_top old more self f i before m after _ Hs Hsp Hcl (fun d o Hk => or_introl Hk)). }
  assert ((d, o) ∈ peaks (zlen blocks)) as Hpk.
  { apply top_is_root; [done|]. intros Hpc. destruct Hcl as (_ & _ & Hup).
    destruct (Hup d o Htop Hpc) as [_ [[(_ & _ & Hle) _]|?]]; [|done].
    pose proof (half_contains i d o ltac:(apply Hdc) ltac:(apply Hdc) Hdi). lia. }
  destruct (root_position_ok blocks (peaks (zlen blocks)) d o) as [[_ Hno]|(pre & post & Hpp & Hpos)];
    [intros p q Hin'%peaks_elem; by destruct Hin' as (? & ? & _)|apply Hdc..|done|].
  exists pre, d, o, post. split_and!; [done|lia|lia|].
  unfold Tree.byte_offset_in_changeset. rewrite Hl, (proj2 (Z.eqb_neq _ _)) by lia.
  unfold hypercore_index_into_merkle_tree_index. rewrite checked_mul_Ok, bind_Ok, Hcn, Hpath, Hclimb, bind_Ok by lia.
  rewrite Hr, merkle_at_index by apply Hdc. unfold merkle_roots. rewrite Hpos.
  unfold zlen at 1. by rewrite Nat2Z.id.
Qed.

(** It is right for blocks that are in place. *)
Lemma both_offset_ok old more self f fork sig cs i before (m : nat) after infos :
  sparse old self f -> log_fits (old ++ more) -> zlen old <= i < zlen (old ++ more) ->
  block_in_place (zlen old) (zlen (old ++ more)) i = true ->
  split_at (zlen (old ++ more)) (zlen old) i before m after ->
  accepted_upgrade (old ++ more) fork sig (block_changeset (old ++ more) self m i) cs ->
  Tree.byte_offset_in_changeset self i cs infos = Ok (Right (byte_sum (old ++ more) i)).
Proof.
  intros Hs Hfit Hi Hplace Hsp Hacc. pose proof (sp_for _ _ _ Hs) as Hfor. pose proof Hfor as (_ & Hl & _).
  destruct (tree_for_prefix old more self Hfor) as (Hroots & _ & Hb). destruct (decide (i = zlen old)) as [->|Hne].
  { unfold Tree.byte_offset_in_changeset. by rewrite Hl, Z.eqb_refl, Hb. }
  destruct (both_offset old more self f fork sig cs i before m after infos Hs Hfit ltac:(lia) Hsp Hacc)
    as (pre & d & o & post & Hp & Hin & ->). unfold block_in_place in Hplace.
  rewrite (proj2 (Z.eqb_neq _ _)) in Hplace by done. cbn [orb] in Hplace. rewrite Hp in Hplace.
  pose proof (tiles_peaks (zlen (old ++ more)) (zlen_nonneg _)) as Ht. rewrite Hp in Ht.
  destruct (in_place_spec i d o post pre 0 _ _ Ht Hin Hplace) as [rest Hrest]. rewrite Hrest in Hroots.
  apply tiles_split in Ht as Htp. rewrite Hroots. pose proof (tiles_le _ _ _ Htp) as H0. pose proof Hfit as [_ Hbytes].
  pose proof (byte_sum_mono (old ++ more) (2 ^ d * o) i ltac:(lia)). pose proof (byte_sum_le (old ++ more) i ltac:(lia)).
  pose proof (byte_sum_nonneg (old ++ more) (2 ^ d * o)).
  change 0 with (zlen (@nil (Z * Z))) at 1. rewrite <-(app_nil_l (pre ++ rest)).
  rewrite (sum_roots_ok (old ++ more) rest (2 ^ d * o) pre [] 0) by (done || lia || (change (byte_sum (old ++ more) 0) with 0; lia)).
  rewrite bind_Ok. change (byte_sum (old ++ more) 0) with 0. do 2 f_equal. lia.
Qed.
End Both.
