(* ===== verification/Models.v ===== *)
(** * Concrete dependencies

    One implementation of every interface the development takes as a
    parameter, with its laws: the interfaces are consistent, and the theorems
    can be applied to concrete inputs.  The flat tree, the encoding and the
    CRC follow the published definitions; the hash and the signatures are
    stand-ins of the right shape. *)

From Stdlib Require Import Ascii String Strings.Byte.
From stdpp Require Import base tactics numbers list strings gmap.
From Stdlib Require Import List ZArith Lia Bool.
From S2P Require Import Prelude FlatTree Common CompactEncoding Crypto Oplog Storage.
From S2P Require Import MerkleTree.
Open Scope Z_scope.

(** ** Flat tree *)

Module FlatTreeModel.

(** The number of zero bits at the end of a number. *)
Fixpoint tz (p : positive) : Z :=
  match p with
  | xO p => 1 + tz p
  | _ => 0
  end.
Definition depth (i : Z) : Z := tz (Z.to_pos (i + 1)).
Definition offset (i : Z) : Z := (i + 1) / 2 ^ (depth i + 1).

Record iterator := mk { it_index : Z; it_offset : Z; it_factor : Z }.

Definition at_ (d o : Z) : iterator := mk (node_at d o) o (2 ^ (d + 1)).
Definition is_right (it : iterator) : bool := Z.odd (it_offset it).
Definition contains (it : iterator) (i : Z) : bool :=
  if it_index it <? i then i <? it_index it + it_factor it / 2
  else if i <? it_index it then it_index it - it_factor it / 2 <? i
  else true.
Definition sibling (it : iterator) : iterator :=
  if is_right it then mk (it_index it - it_factor it) (it_offset it - 1) (it_factor it)
  else mk (it_index it + it_factor it) (it_offset it + 1) (it_factor it).
Definition parent (it : iterator) : iterator :=
  if is_right it then mk (it_index it - it_factor it / 2) ((it_offset it - 1) / 2) (it_factor it * 2)
  else mk (it_index it + it_factor it / 2) (it_offset it / 2) (it_factor it * 2).
Definition left_child (it : iterator) : iterator :=
  if it_factor it =? 2 then it
  else let factor := it_factor it / 2 in
       mk (it_index it - factor / 2) (it_offset it * 2) factor.
Definition next_tree (it : iterator) : iterator :=
  let index := it_index it + it_factor it / 2 + 1 in mk index (index / 2) 2.
Definition full_root (it : iterator) (to : Z) : iterator * bool :=
  if (to <=? it_index it) || Z.odd (it_index it) then (it, false)
  else let k := Z.log2 (to / 2 - it_index it / 2) in
       (mk (it_index it + 2 ^ k - 1) (it_index it / 2 / 2 ^ k) (2 ^ (k + 1)), true).

#[export] Instance flat_tree : FlatTree := {|
  ft_parent i := node_at (depth i + 1) (offset i / 2);
  ft_left_span i := span_left (depth i) (offset i);
  ft_right_span i := span_right (depth i) (offset i);
  ft_full_roots i := roots_of (i / 2);
  ft_iterator := iterator;
  iter_new i := at_ (depth i) (offset i);
  iter_index := it_index;
  iter_offset := it_offset;
  iter_factor it := Z.max 0 (it_factor it);
  iter_is_right := is_right;
  iter_contains := contains;
  iter_seek _ i := at_ (depth i) (offset i);
  iter_sibling := sibling;
  iter_parent := parent;
  iter_left_child := left_child;
  iter_next_tree := next_tree;
  iter_full_root := full_root;
|}.

Lemma tz_pow d o : 0 <= d -> 0 <= o -> tz (Z.to_pos (2 ^ d * (1 + 2 * o))) = d.
Proof.
  intros Hd Ho. revert d Hd. apply natlike_ind.
  - rewrite Z.pow_0_r, Z.mul_1_l. by destruct o.
  - intros d Hd IH. rewrite Z.pow_succ_r, <-Z.mul_assoc by done.
    pose proof (Z.pow_pos_nonneg 2 d). destruct (2 ^ d * (1 + 2 * o)) as [|p|] eqn:Hp; [nia| |nia].
    change (Z.to_pos (2 * Z.pos p)) with (xO p). cbn [tz].
    change (tz (Z.to_pos (Z.pos p))) with (tz p) in IH. lia.
Qed.

Lemma depth_node_at d o : 0 <= d -> 0 <= o -> depth (node_at d o) = d.
Proof.
  intros. unfold depth, node_at. replace (_ - 1 + 1) with (2 ^ d * (1 + 2 * o)) by lia.
  by apply tz_pow.
Qed.

Lemma offset_node_at d o : 0 <= d -> 0 <= o -> offset (node_at d o) = o.
Proof.
  intros. unfold offset. rewrite depth_node_at by done. unfold node_at.
  rewrite pow2_succ by done. replace (_ - 1 + 1) with (o * (2 * 2 ^ d) + 2 ^ d) by lia.
  pose proof (Z.pow_pos_nonneg 2 d). rewrite Z.div_add_l, Z.div_small by lia. lia.
Qed.

Lemma iter_at_eq d o it : 0 <= d -> iter_at d o it <-> it = at_ d o.
Proof.
  intros Hd. pose proof (Z.pow_pos_nonneg 2 (d + 1)).
  destruct it as [i f n]. unfold iter_at, at_. cbn. split.
  - intros (-> & -> & Hn). f_equal. lia.
  - intros [= -> -> ->]. split_and!; [done..|lia].
Qed.

Lemma half_factor d : 0 <= d -> 2 ^ (d + 1) / 2 = 2 ^ d.
Proof. intros. rewrite pow2_succ by done. rewrite (Z.mul_comm 2), Z.div_mul; lia. Qed.

Lemma parity o : (Z.odd o = true /\ Z.even o = false /\ o = 2 * (o / 2) + 1) \/
                 (Z.odd o = false /\ Z.even o = true /\ o = 2 * (o / 2)).
Proof.
  pose proof (Z.div2_odd o) as H. rewrite Z.div2_div in H. rewrite <-Z.negb_odd.
  destruct (Z.odd o); cbn [Z.b2z] in H; [left|right]; split_and!; done || lia.
Qed.

#[export] Instance flat_tree_laws : FlatTreeLaws flat_tree.
Proof.
  split; cbn [ft_parent ft_left_span ft_right_span ft_full_roots iter_new iter_seek iter_is_right
    iter_contains iter_sibling iter_parent iter_left_child iter_next_tree iter_full_root iter_factor flat_tree].
  - intros d o (_ & Ho & _) Hd. assert (0 <= o) by (Z.div_mod_to_equations; lia).
    by rewrite depth_node_at, offset_node_at.
  - intros d o (Hd & Ho & _). by rewrite depth_node_at, offset_node_at.
  - intros d o (Hd & Ho & _). by rewrite depth_node_at, offset_node_at.
  - intros n Hn. rewrite Z.mul_comm, Z.div_mul by lia. done.
  - intros d o (Hd & Ho & _). rewrite depth_node_at, offset_node_at by done. by apply iter_at_eq.
  - intros it d o (Hd & Ho & _). rewrite depth_node_at, offset_node_at by done. by apply iter_at_eq.
  - intros it d o (Hd & _) Hit. apply iter_at_eq in Hit as ->; done.
  - intros it d o i (Hd & Ho & _) Hit Hi. apply iter_at_eq in Hit as ->; [|done]. unfold contains, at_, span_left, span_right.
    cbn [it_index it_factor]. rewrite half_factor, pow2_succ by done. unfold node_at.
    pose proof (Z.pow_pos_nonneg 2 d). apply eq_true_iff_eq.
    destruct (2 ^ d * (1 + 2 * o) - 1 <? i) eqn:H1; [|destruct (i <? 2 ^ d * (1 + 2 * o) - 1) eqn:H2];
      rewrite ?andb_true_iff, ?Z.leb_le, ?Z.ltb_lt, ?Z.ltb_ge in *; nia.
  - intros it d o _ Hd Hit. apply iter_at_eq in Hit as ->; [|done]. apply iter_at_eq; [lia|]. unfold sibling, is_right, sibling_offset, at_.
    cbn [it_index it_factor it_offset]. unfold node_at. rewrite pow2_succ by done.
    destruct (parity o) as [(-> & -> & _)|(-> & -> & _)]; f_equal; lia.
  - intros it d o _ Hd Hit. apply iter_at_eq in Hit as ->; [|done]. apply iter_at_eq; [lia|]. unfold parent, is_right, at_.
    cbn [it_index it_factor it_offset]. unfold node_at. rewrite half_factor, !pow2_succ by lia.
    destruct (parity o) as [(-> & _ & Hp)|(-> & _ & Hp)]; set (q := o / 2) in *; rewrite Hp; f_equal;
      try nia. rewrite Z.add_simpl_r, Z.mul_comm, Z.div_mul by lia. done.
  - intros it d o (Hd & Ho & _) Hit. apply iter_at_eq in Hit as ->; [|done]. apply iter_at_eq; [lia|]. unfold left_child, at_.
    cbn [it_index it_factor it_offset]. destruct (d =? 0) eqn:Hd0.
    { apply Z.eqb_eq in Hd0 as ->. done. }
    apply Z.eqb_neq in Hd0. pose proof (Z.pow_pos_nonneg 2 (d - 1)).
    replace (d + 1) with (d - 1 + 1 + 1) by lia. rewrite (proj2 (Z.eqb_neq _ _)).
    2: { rewrite pow2_succ, pow2_succ by lia. lia. }
    rewrite half_factor, half_factor by lia. replace (Z.max 0 (d - 1)) with (d - 1) by lia.
    unfold node_at. replace d with (d - 1 + 1) at 1 by lia. rewrite pow2_succ by lia. f_equal; lia.
  - intros it d o (Hd & Ho & _) Hit. apply iter_at_eq in Hit as ->; [|done]. apply iter_at_eq; [lia|]. unfold next_tree, at_.
    cbn [it_index it_factor it_offset]. rewrite half_factor by done. unfold node_at.
    replace (2 ^ d * (1 + 2 * o) - 1 + 2 ^ d + 1) with (2 ^ d * (o + 1) * 2) by lia.
    rewrite Z.div_mul by lia. f_equal. rewrite Z.pow_0_r. lia.
  - intros it o n Ho Hn Hit. apply iter_at_eq in Hit as ->; [|done]. unfold full_root, at_. cbn [it_index].
    rewrite node_at_leaf, (proj2 (Z.leb_le _ _)) by lia. done.
  - intros it. lia.
  - intros it o n Ho Hn Hdiv Hit. apply iter_at_eq in Hit as ->; [|done]. unfold full_root, at_. cbn [it_index].
    rewrite node_at_leaf, (proj2 (Z.leb_gt _ _)), Z.odd_mul by lia. cbn [orb andb Z.odd].
    rewrite !(Z.mul_comm 2), !Z.div_mul by lia. eexists. split; [done|]. apply iter_at_eq; [apply Z.log2_nonneg|].
    unfold at_, node_at. destruct Hdiv as [c Hc]. set (k := Z.log2 (n - o)) in *.
    pose proof (Z.log2_nonneg (n - o)). pose proof (Z.pow_pos_nonneg 2 k).
    rewrite Hc, Z.div_mul by lia. f_equal. lia.
Qed.
End FlatTreeModel.

(** ** Compact encoding *)

Module EncodingModel.

Record state := mk { start_ : Z; end_ : Z }.

Definition write (bs : list Z) (st : state) (buf : list Z) : eresult (state * list Z) :=
  if (start_ st + zlen bs <=? end_ st) && (end_ st <=? zlen buf)
  then Ok (mk (start_ st + zlen bs) (end_ st), splice buf (start_ st) bs)
  else Err OutOfBounds.
Definition read (n : Z) (st : state) (buf : list Z) : eresult (state * list Z) :=
  if (start_ st + n <=? end_ st) && (end_ st <=? zlen buf)
  then Ok (mk (start_ st + n) (end_ st), slice buf (start_ st) n)
  else Err OutOfBounds.
Definition reserve (n : Z) (st : state) : eresult state :=
  if end_ st + n <? 2 ^ 64 then Ok (mk (start_ st) (end_ st + n)) else Err Overflow.
Definition move (v : Z) (st : state) : eresult state :=
  if v <=? end_ st then Ok (mk v (end_ st)) else Err OutOfBounds.

(** Up to 252 in one byte, then a marker and 2, 4 or 8 bytes. *)
Definition uint (v : Z) : list Z :=
  if v <=? 252 then [v]
  else if v <? 2 ^ 16 then 253 :: le_bytes 2 v
  else if v <? 2 ^ 32 then 254 :: le_bytes 4 v
  else 255 :: le_bytes 8 v.
Definition read_le (n : Z) (st : state) (buf : list Z) : eresult (state * Z) :=
  '(st, bs) ← read n st buf; Ok (st, le_value bs).
Definition uint_read (st : state) (buf : list Z) : eresult (state * Z) :=
  '(st, b) ← read_le 1 st buf;
  if b <=? 252 then Ok (st, b)
  else if b =? 253 then read_le 2 st buf
  else if b =? 254 then read_le 4 st buf
  else read_le 8 st buf.
Definition buffer_read (st : state) (buf : list Z) : eresult (state * list Z) :=
  '(st, n) ← uint_read st buf; read n st buf.

Definition string_bytes (s : string) : list Z :=
  (fun c => Z.of_nat (nat_of_ascii c)) <$> list_ascii_of_string s.
Definition string_of_bytes (bs : list Z) : string :=
  string_of_list_ascii ((fun b => ascii_of_nat (Z.to_nat b)) <$> bs).
Definition strings (ss : list string) : list Z :=
  uint (zlen ss) ++ concat ((fun s => uint (zlen (string_bytes s)) ++ string_bytes s) <$> ss).
Fixpoint strings_read_n (n : nat) (st : state) (buf : list Z) : eresult (state * list string) :=
  match n with
  | O => Ok (st, [])
  | S n =>
      '(st, bs) ← buffer_read st buf;
      '(st, ss) ← strings_read_n n st buf;
      Ok (st, string_of_bytes bs :: ss)
  end.
Definition strings_read (st : state) (buf : list Z) : eresult (state * list string) :=
  '(st, n) ← uint_read st buf; strings_read_n (Z.to_nat n) st buf.

#[export] Instance compact_encoding : CompactEncoding := {|
  State := state;
  st_start := start_;
  st_end := end_;
  st_new_with_start_and_end := mk;
  st_new_with_size n := (mk 0 n, replicate (Z.to_nat n) 0);
  st_from_buffer buf := mk 0 (zlen buf);
  st_set_start st v := move v st;
  st_set_end st v := mk (start_ st) v;
  st_add_start st n := move (start_ st + n) st;
  st_add_end st n := reserve n st;
  st_create_buffer st := replicate (Z.to_nat (end_ st)) 0;
  st_set_byte_to_buffer st b buf := write [b] st buf;
  decode_u8 := read_le 1;
  encode_u32 st v buf := write (le_bytes 4 v) st buf;
  decode_u32 := read_le 4;
  encode_u64 st v buf := write (le_bytes 8 v) st buf;
  decode_u64 := read_le 8;
  preencode_fixed_32 := reserve 32;
  encode_fixed_32 st bs buf := if zlen bs =? 32 then write bs st buf else Err OutOfBounds;
  decode_fixed_32 := read 32;
  uint_preencode st v := reserve (zlen (uint v)) st;
  uint_encode st v buf := write (uint v) st buf;
  uint_decode := uint_read;
  buffer_preencode st bs := reserve (zlen (uint (zlen bs) ++ bs)) st;
  buffer_encode st bs buf := write (uint (zlen bs) ++ bs) st buf;
  buffer_decode := buffer_read;
  strings_preencode st ss := reserve (zlen (strings ss)) st;
  strings_encode st ss buf := write (strings ss) st buf;
  strings_decode := strings_read;
|}.

(** The composition lemmas at the concrete state. *)
Lemma read_bind {A B} (f : state -> list Z -> eresult (state * A))
    (g : A -> state -> list Z -> eresult (state * B)) b1 b2 a b :
  @dec_ok compact_encoding A f b1 a -> @dec_ok compact_encoding B (g a) b2 b ->
  @dec_ok compact_encoding B (fun (st : state) buf => '(st, x) ← f st buf; g x st buf) (b1 ++ b2) b.
Proof. exact (dec_ok_bind f g b1 b2 a b). Qed.
Lemma read_last {A B} (f : state -> list Z -> eresult (state * A))
    (g : A -> state -> list Z -> eresult (state * B)) bs a b :
  @dec_ok compact_encoding A f bs a -> (forall st buf, g a st buf = Ok (st, b)) ->
  @dec_ok compact_encoding B (fun (st : state) buf => '(st, x) ← f st buf; g x st buf) bs b.
Proof. exact (dec_ok_last f g bs a b). Qed.

Lemma reserve_ok bs : pre_ok (reserve (zlen bs)) bs.
Proof.
  intros st H1 H2. unfold reserve. cbn in *. rewrite (proj2 (Z.ltb_lt _ _)) by done. eauto.
Qed.

Lemma write_ok bs : enc_ok (write bs) bs.
Proof.
  intros st buf H0 H1 H2. unfold write. cbn in *.
  rewrite !(proj2 (Z.leb_le _ _)) by done. eauto.
Qed.

Lemma read_ok n bs : zlen bs = n -> dec_ok (read n) bs bs.
Proof.
  intros <- st buf H0 H1 H2 Hs. unfold read. cbn in *.
  rewrite !(proj2 (Z.leb_le _ _)) by done. rewrite Hs. cbn [andb]. eauto.
Qed.

Lemma read_le_ok n bs : zlen bs = n -> dec_ok (read_le n) bs (le_value bs).
Proof. intros Hn. unfold read_le. eapply read_last; [by apply read_ok|done]. Qed.

Lemma read_byte_ok b : dec_ok (read_le 1) [b] b.
Proof.
  pose proof (read_le_ok 1 [b] eq_refl) as H. cbn [le_value] in H. by rewrite Z.mul_0_r, Z.add_0_r in H.
Qed.

Lemma read_le_bytes_ok n v :
  0 <= v < 256 ^ Z.of_nat n -> dec_ok (read_le (Z.of_nat n)) (le_bytes n v) v.
Proof.
  intros Hv. pose proof (read_le_ok (Z.of_nat n) (le_bytes n v) (zlen_le_bytes _ _)) as H.
  by rewrite le_value_bytes in H.
Qed.

Lemma uint_read_ok v : is_u64 v -> dec_ok uint_read (uint v) v.
Proof.
  intros [H0 H1]. unfold uint, uint_read.
  destruct (v <=? 252) eqn:H2; [|destruct (v <? 2 ^ 16) eqn:H3; [|destruct (v <? 2 ^ 32) eqn:H4]].
  - eapply read_last; [apply read_byte_ok|]. intros. by rewrite H2.
  - change (253 :: le_bytes 2 v) with ([253] ++ le_bytes 2 v).
    eapply read_bind; [apply read_byte_ok|]. cbn.
    apply (read_le_bytes_ok 2). change (256 ^ Z.of_nat 2) with (2 ^ 16). lia.
  - change (254 :: le_bytes 4 v) with ([254] ++ le_bytes 4 v).
    eapply read_bind; [apply read_byte_ok|]. cbn.
    apply (read_le_bytes_ok 4). change (256 ^ Z.of_nat 4) with (2 ^ 32). lia.
  - change (255 :: le_bytes 8 v) with ([255] ++ le_bytes 8 v).
    eapply read_bind; [apply read_byte_ok|]. cbn.
    apply (read_le_bytes_ok 8). change (256 ^ Z.of_nat 8) with (2 ^ 64). lia.
Qed.

Lemma buffer_read_ok bs : is_bytes bs -> dec_ok buffer_read (uint (zlen bs) ++ bs) bs.
Proof.
  intros [_ Hl]. unfold buffer_read. eapply read_bind; [apply uint_read_ok|by apply read_ok].
  pose proof (zlen_nonneg bs). unfold is_u64. lia.
Qed.

Lemma string_of_string_bytes s : string_of_bytes (string_bytes s) = s.
Proof.
  unfold string_of_bytes, string_bytes. rewrite <-list_fmap_compose.
  rewrite (list_fmap_ext _ id), list_fmap_id; [apply string_of_list_ascii_of_string|].
  intros i c _. cbn. by rewrite Nat2Z.id, ascii_nat_embedding.
Qed.

Lemma length_ascii_of_string s : length (list_ascii_of_string s) = String.length s.
Proof. induction s as [|c s IH]; cbn; [done|by rewrite IH]. Qed.

Lemma string_bytes_ok s : is_ascii_string s -> is_bytes (string_bytes s).
Proof.
  intros [Ha Hl]. split.
  - unfold string_bytes. apply Forall_fmap. revert Ha. apply Forall_impl. intros c Hc.
    unfold is_u8. cbn. lia.
  - unfold zlen, string_bytes. rewrite length_fmap, length_ascii_of_string. lia.
Qed.

Lemma strings_read_n_ok ss :
  Forall is_ascii_string ss ->
  dec_ok (strings_read_n (length ss))
    (concat ((fun s => uint (zlen (string_bytes s)) ++ string_bytes s) <$> ss)) ss.
Proof.
  induction 1 as [|s ss Hs _ IH]; cbn [strings_read_n length fmap list_fmap concat]; [exact (dec_ok_ret (H:=compact_encoding) [])|].
  eapply read_bind; [by apply buffer_read_ok, string_bytes_ok|].
  eapply read_last; [exact IH|]. intros. by rewrite string_of_string_bytes.
Qed.

Lemma strings_read_ok ss : is_strings ss -> dec_ok strings_read (strings ss) ss.
Proof.
  intros [Hs Hl]. pose proof (zlen_nonneg ss). unfold strings_read, strings.
  eapply read_bind; [apply uint_read_ok; unfold is_u64; lia|].
  unfold zlen. rewrite Nat2Z.id. by apply strings_read_n_ok.
Qed.

Lemma uint_u8 v : is_u64 v -> Forall is_u8 (uint v).
Proof.
  intros [H0 H1]. unfold uint.
  destruct (v <=? 252) eqn:H2; [|destruct (v <? 2 ^ 16); [|destruct (v <? 2 ^ 32)]];
    constructor; try apply le_bytes_u8; try (unfold is_u8; lia). constructor.
Qed.

Lemma uint_length v : is_u64 v -> zlen (uint v) <= 9.
Proof.
  intros _. unfold uint.
  destruct (v <=? 252); [|destruct (v <? 2 ^ 16); [|destruct (v <? 2 ^ 32)]];
    rewrite ?zlen_cons, ?zlen_le_bytes, ?zlen_nil; lia.
Qed.

#[export] Instance compact_encoding_laws : CompactEncodingLaws compact_encoding.
Proof.
  refine {| uint_bytes := uint; strings_bytes := strings |}.
  - intros v Hv. unfold uint. by rewrite (proj2 (Z.leb_le _ _)) by lia.
  - exact uint_u8.
  - exact uint_length.
  - done.
  - split; intros a Ha; [apply reserve_ok|apply write_ok|by apply uint_read_ok].
  - split; intros a Ha; [apply reserve_ok|apply write_ok|by apply buffer_read_ok].
  - split; intros a Ha; [apply reserve_ok|apply write_ok|by apply strings_read_ok].
  - done.
  - done.
  - intros n Hn. exists (mk 0 n). done.
  - done.
  - done.
  - intros st v Hv. cbn in *. unfold move. rewrite (proj2 (Z.leb_le _ _)) by lia. eauto.
  - done.
  - done.
  - intros st n Hn H0 H1. cbn in *. unfold move. rewrite (proj2 (Z.leb_le _ _)) by lia. eauto.
  - exact reserve_ok.
  - done.
  - intros b _. apply write_ok.
  - exact read_byte_ok.
  - intros v _. apply write_ok.
  - intros bs _ Hl. by apply read_le_ok.
  - intros v _. apply write_ok.
  - intros bs _ Hl. by apply read_le_ok.
  - intros bs Hl. change (@pre_ok compact_encoding (reserve 32) bs). rewrite <-Hl. apply reserve_ok.
  - intros bs [_ Hl]. cbn. eapply enc_ok_ext; [|apply write_ok]. intros. by rewrite Hl.
  - intros bs [_ Hl]. by apply read_ok.
Defined.
End EncodingModel.

(** ** Cryptography and checksums *)

Module CryptoModel.

Definition digest (m : list Z) : Z := foldl (fun h b => (h * 31 + b + 7) mod 2 ^ 256) 5381 m.

#[export] Instance blake2b : Blake2b := {| blake2b256 m := le_bytes 32 (digest m) |}.
#[export] Instance blake2b_laws : Blake2bLaws blake2b.
Proof. split. intros m. split; [apply le_bytes_u8|apply zlen_le_bytes]. Qed.

Definition byte_z (b : byte) : Z := Z.of_N (Byte.to_N b).
Definition z_byte (z : Z) : option byte := Byte.of_N (Z.to_N z).

Lemma z_byte_z b : z_byte (byte_z b) = Some b.
Proof. unfold z_byte, byte_z. rewrite N2Z.id. apply Byte.of_to_N. Qed.
Lemma byte_z_u8 b : is_u8 (byte_z b).
Proof. unfold is_u8, byte_z. pose proof (Byte.to_N_bounded b). lia. Qed.

(** Keys are a byte; a signature is the key and a byte of the digest. *)
Definition key_bytes (k : byte) : list Z := byte_z k :: replicate 31 0.
Definition key_of (bs : list Z) : option byte := z_byte (default 0 (head bs)).
Definition sign_byte (m : list Z) : byte := default x00 (z_byte (digest m mod 256)).

#[export] Instance ed25519 : Ed25519 := {|
  VerifyingKey := byte;
  SigningKey := byte;
  Signature := byte * byte;
  vk_to_bytes := key_bytes;
  vk_from_bytes := key_of;
  sk_to_bytes := key_bytes;
  sk_from_bytes bs := default x00 (key_of bs);
  sk_verifying_key k := k;
  sig_to_bytes s := byte_z s.1 :: byte_z s.2 :: replicate 62 0;
  sig_try_from bs :=
    match bs with
    | a :: b :: rest =>
        if zlen bs =? 64 then
          match z_byte a, z_byte b with Some a, Some b => Some (a, b) | _, _ => None end
        else None
    | _ => None
    end;
  ed_sign k m := (k, sign_byte m);
  ed_verify k m s := Byte.eqb k s.1 && Byte.eqb (sign_byte m) s.2;
|}.

Lemma key_bytes32 k : is_bytes32 (key_bytes k).
Proof.
  split; [|done]. constructor; [apply byte_z_u8|]. apply Forall_replicate. unfold is_u8. lia.
Qed.

#[export] Instance ed25519_laws : Ed25519Laws ed25519.
Proof.
  split.
  - exact key_bytes32.
  - intros k. apply z_byte_z.
  - exact key_bytes32.
  - intros k. change (default x00 (z_byte (byte_z k)) = k). by rewrite z_byte_z.
  - intros [a b]. split; [|done]. cbn [sig_to_bytes ed25519].
    constructor; [apply byte_z_u8|]. constructor; [apply byte_z_u8|].
    apply Forall_replicate. unfold is_u8. lia.
  - intros [a b]. cbn [sig_try_from sig_to_bytes ed25519 fst snd].
    change (zlen (byte_z a :: byte_z b :: replicate 62 0) =? 64) with true. cbn iota.
    by rewrite !z_byte_z.
  - intros k m. cbn [ed_verify ed_sign sk_verifying_key ed25519 fst snd].
    by rewrite !Byte.byte_dec_lb.
Qed.

(** CRC-32, one bit at a time. *)
Definition crc_bit (c : Z) : Z :=
  if Z.odd c then Z.lxor (Z.shiftr c 1) 0xEDB88320 else Z.shiftr c 1.
Definition crc_byte (c b : Z) : Z := Nat.iter 8 crc_bit (Z.lxor c b).
Definition crc (bs : list Z) : Z := Z.lxor (foldl crc_byte U32_MAX bs) U32_MAX mod 2 ^ 32.

#[export] Instance crc32_ : Crc32 := {| Oplog.crc32 := crc |}.
#[export] Instance crc32_laws : Crc32Laws crc32_.
Proof. split. intros bs. cbn. unfold crc, is_u32. apply Z.mod_pos_bound. lia. Qed.
End CryptoModel.

(** ** Storage in memory *)

Module MemoryModel.

#[export] Instance memory : RandomAccess := {|
  ra := list Z;
  ra_len f := Ok (zlen f);
  ra_read f o n :=
    if o + n <=? zlen f then Ok (slice f o n) else Err (RA_OutOfBounds o (Some (o + n)) (zlen f));
  ra_write f o bs := Ok (file_write f o bs);
  ra_del f o n := if o <=? zlen f then Ok (file_del f o n) else Err (RA_OutOfBounds o None (zlen f));
  ra_truncate f n := Ok (file_truncate f n);
|}.

#[export] Instance memory_laws : RandomAccessLaws memory.
Proof.
  refine {| contents (f : @ra memory) := (f : list Z) |}; cbn.
  - done.
  - intros r o n Ho Hn Hle. by rewrite (proj2 (Z.leb_le _ _)).
  - intros r o n Ho Hn Hlt. rewrite (proj2 (Z.leb_gt _ _)) by done. eauto.
  - eauto.
  - intros r o n Ho Hn. rewrite (proj2 (Z.leb_le _ _)) by lia. eauto.
  - intros r o n Ho Hn. rewrite (proj2 (Z.leb_gt _ _)) by done. eauto.
  - eauto.
Defined.
End MemoryModel.

(** ** The order of a hash map *)

Module IntMapModel.

#[export] Instance int_map_order : IntMapOrder := {| drain m := map_to_list m |}.
#[export] Instance int_map_order_laws : IntMapOrderLaws int_map_order.
Proof. by constructor. Qed.
End IntMapModel.
