(* ===== verification/ChannelModels.v ===== *)
(** * Concrete channels, locks and caches

    A broadcast channel and a mutex that satisfy the laws of [Channels], and a
    node cache with those of [NodeCache]. *)

From stdpp Require Import base list gmap fin_sets.
From Stdlib Require Import ZArith Lia.
From S2P Require Import Prelude Channels Common NodeCache.

(** ** A queue for each receiver *)

Module BroadcastModel.

Record chan (T : Type) := mkChan {
  ch_capacity : nat;
  ch_overflow : bool;
  ch_await_active : bool;
  ch_receivers : gmap nat (list T * nat);
}.
Arguments mkChan {T} _ _ _ _.
Arguments ch_capacity {T} _.
Arguments ch_overflow {T} _.
Arguments ch_await_active {T} _.
Arguments ch_receivers {T} _.

Definition with_receivers {T} (rs : gmap nat (list T * nat)) (ch : chan T) : chan T :=
  mkChan (ch_capacity ch) (ch_overflow ch) (ch_await_active ch) rs.

Definition push {T} (cap : nat) (m : T) (q : list T * nat) : list T * nat :=
  (lastn cap (q.1 ++ [m]), (q.2 + (length (q.1 ++ [m]) - cap))%nat).

Definition is_full {T} (cap : nat) (q : nat * (list T * nat)) : bool := (cap <=? length q.2.1)%nat.

#[export] Instance broadcast_model : Broadcast := {|
  channel := chan;
  broadcast T n := (mkChan n false true {[0%nat := ([], 0%nat)]}, 0%nat);
  set_await_active T b ch := mkChan (ch_capacity ch) (ch_overflow ch) b (ch_receivers ch);
  set_overflow T b ch := mkChan (ch_capacity ch) b (ch_await_active ch) (ch_receivers ch);
  deactivate T r ch := with_receivers (delete r (ch_receivers ch)) ch;
  new_receiver T ch :=
    let r := fresh (dom (ch_receivers ch)) in (with_receivers (<[r := ([], 0%nat)]> (ch_receivers ch)) ch, r);
  try_broadcast T m ch :=
    if decide (ch_receivers ch = ∅) then (ch, SendInactive)
    else if negb (ch_overflow ch) && existsb (is_full (ch_capacity ch)) (map_to_list (ch_receivers ch)) then (ch, SendFull)
    else (with_receivers (push (ch_capacity ch) m <$> ch_receivers ch) ch, Sent);
  bc_try_recv T r ch :=
    match ch_receivers ch !! r with
    | Some (q, S n) => (with_receivers (<[r := (q, 0%nat)]> (ch_receivers ch)) ch, RecvOverflowed (S n))
    | Some (m :: q, O) => (with_receivers (<[r := (q, 0%nat)]> (ch_receivers ch)) ch, Received m)
    | Some ([], O) => (ch, RecvEmpty)
    | None => (ch, RecvClosed)
    end;
  pending T ch r := fst <$> ch_receivers ch !! r;
  lost T ch r := default 0%nat (snd <$> ch_receivers ch !! r);
  capacity T ch := ch_capacity ch;
  overflow T ch := ch_overflow ch;
|}.

#[export] Instance broadcast_model_laws : BroadcastLaws broadcast_model.
Proof.
  constructor; cbn.
  - intros T n. split_and!; [done..|]. intros k. case_decide; [subst; by rewrite lookup_singleton_eq|].
    by rewrite lookup_singleton_ne.
  - done.
  - done.
  - intros T r ch. split; [|done]. intros k. case_decide; [subst; by rewrite lookup_delete_eq|].
    by rewrite lookup_delete_ne.
  - intros T ch. set (r := fresh _). assert (ch_receivers ch !! r = None) as Hr.
    { apply not_elem_of_dom. apply is_fresh. }
    rewrite Hr, lookup_insert_eq. split_and!; try done. intros k Hk. by rewrite lookup_insert_ne.
  - intros T m ch Hnone. rewrite decide_True; [done|]. apply map_empty. intros k.
    specialize (Hnone k). by destruct (ch_receivers ch !! k).
  - intros T m ch Ho [k [q Hk]]. rewrite decide_False by (intros He; by rewrite He, lookup_empty in Hk).
    rewrite Ho. cbn. split_and!; [done..|]. intros k'. rewrite lookup_fmap. by destruct (ch_receivers ch !! k') as [[? ?]|].
  - intros T r ch q Hq. destruct (ch_receivers ch !! r) as [[q' n]|] eqn:Hr; [|done].
    cbn in Hq. injection Hq as ->. destruct n as [|n].
    + destruct q as [|m q]; cbn.
      * rewrite Hr. by split_and!.
      * rewrite lookup_insert_eq. split_and!; try done. intros k Hk. by rewrite lookup_insert_ne.
    + destruct q; cbn; rewrite lookup_insert_eq; split_and!; try done; intros k Hk; by rewrite lookup_insert_ne.
Qed.
End BroadcastModel.

(** ** A queue of tasks *)

Module MutexModel.

Record lock_queue := mkLock { lq_holder : option nat; lq_queue : list nat }.

#[export] Instance mutex_model : AsyncMutex := {|
  mutex := lock_queue;
  mutex_new := mkLock None [];
  lock t m := mkLock (lq_holder m) (lq_queue m ++ [t]);
  poll_lock t m :=
    match lq_holder m, lq_queue m with
    | None, t' :: q => if decide (t = t') then Some (mkLock (Some t) (filter (.≠ t) q)) else None
    | _, _ => None
    end;
  unlock m := mkLock None (lq_queue m);
  holder := lq_holder;
  waiting m := list_to_set (lq_queue m);
|}.

#[export] Instance mutex_model_laws : AsyncMutexLaws mutex_model.
Proof.
  constructor; cbn.
  - done.
  - intros t m. split; [done|]. rewrite list_to_set_app_L. cbn. set_solver.
  - intros t m m' Hp. destruct (lq_holder m); [done|]. destruct (lq_queue m) as [|t' q]; [done|].
    case_decide; [|done]. injection Hp as <-. subst t'. cbn. split_and!; [done|set_solver|done|].
    apply set_eq. intros x. rewrite elem_of_list_to_set, list_elem_of_filter. set_solver.
  - intros m Hh Hw. rewrite Hh. destruct (lq_queue m) as [|t q]; [done|]. exists t.
    split; [set_solver|]. by rewrite decide_True.
  - done.
Qed.
End MutexModel.

(** ** A cache that keeps everything *)

Module CacheModel.

#[export] Instance cache_model : MokaCache := {|
  cache := gmap Z Node;
  cache_build _ _ _ _ := ∅;
  cache_get k c := (c, c !! k);
  cache_insert k x c := <[k := x]> c;
  cache_entries c := c;
|}.

#[export] Instance cache_model_laws : MokaCacheLaws cache_model.
Proof. by constructor. Qed.
End CacheModel.
