(* ===== verification/Core.v ===== *)
(** * The hypercore

    [core.rs] and [builder.rs]: the state [Hypercore] with the storage, the
    oplog, the merkle tree, the bitfield and the header, and its operations as
    computations on that state.  A failing operation keeps what it changed
    before it failed.  The replication channel is the list of the events sent
    on it ([replication/events.rs]). *)

From stdpp Require Import base list gmap.
From Stdlib Require Import ZArith Lia Bool.
From S2P Require Import Prelude FlatTree Common BitfieldFixed BitfieldDynamic CompactEncoding.
From S2P Require Import Encoding Crypto OplogEntry Changeset Storage Oplog MerkleTree.
From S2P Require Import MerkleProof.
Open Scope Z_scope.

(** ** Events *)

Inductive Event :=
  | EventGet (index : Z)
  | EventDataUpgrade
  | EventHave (start length : Z) (drop : bool).

Definition Have_from (u : BitfieldUpdate) : Event :=
  EventHave (bu_start u) (bu_length u) (bu_drop u).

(** ** State *)

Record AppendOutcome := mkAppendOutcome { ao_length : Z; ao_byte_length : Z }.

Record Info := mkInfo {
  info_length : Z;
  info_byte_length : Z;
  info_contiguous_length : Z;
  info_fork : Z;
  info_writeable : bool;
}.

(** How often an operation asks the tree again after it read more nodes. *)
Definition retry_fuel : nat := 128.

Section State.
Context `{ED : Ed25519} `{RA : RandomAccess}.

Record HypercoreOptions := mkOptions {
  opt_key_pair : option PartialKeypair;
  opt_open : bool;
}.

Definition HypercoreOptions_new : HypercoreOptions := mkOptions None false.

Record Hypercore := mkHypercore {
  hc_key_pair : PartialKeypair;
  hc_storage : Storage;
  hc_oplog : Oplog_;
  hc_tree : MerkleTree;
  hc_bitfield : DynamicBitfield;
  hc_skip_flush_count : Z;
  hc_header : Header;
  hc_events : list Event;
}.

Definition coreM (A : Type) : Type := stateR Hypercore HypercoreError A.

Implicit Types s : Hypercore.

Definition set_key_pair (k : PartialKeypair) s : Hypercore :=
  mkHypercore k (hc_storage s) (hc_oplog s) (hc_tree s) (hc_bitfield s) (hc_skip_flush_count s)
    (hc_header s) (hc_events s).
Definition set_storage (st : Storage) s : Hypercore :=
  mkHypercore (hc_key_pair s) st (hc_oplog s) (hc_tree s) (hc_bitfield s) (hc_skip_flush_count s)
    (hc_header s) (hc_events s).
Definition set_oplog (o : Oplog_) s : Hypercore :=
  mkHypercore (hc_key_pair s) (hc_storage s) o (hc_tree s) (hc_bitfield s) (hc_skip_flush_count s)
    (hc_header s) (hc_events s).
Definition set_tree (t : MerkleTree) s : Hypercore :=
  mkHypercore (hc_key_pair s) (hc_storage s) (hc_oplog s) t (hc_bitfield s) (hc_skip_flush_count s)
    (hc_header s) (hc_events s).
Definition set_bitfield (b : DynamicBitfield) s : Hypercore :=
  mkHypercore (hc_key_pair s) (hc_storage s) (hc_oplog s) (hc_tree s) b (hc_skip_flush_count s)
    (hc_header s) (hc_events s).
Definition set_skip_flush_count (n : Z) s : Hypercore :=
  mkHypercore (hc_key_pair s) (hc_storage s) (hc_oplog s) (hc_tree s) (hc_bitfield s) n
    (hc_header s) (hc_events s).
Definition set_header (h : Header) s : Hypercore :=
  mkHypercore (hc_key_pair s) (hc_storage s) (hc_oplog s) (hc_tree s) (hc_bitfield s)
    (hc_skip_flush_count s) h (hc_events s).

Definition push_event (e : Event) s : Hypercore :=
  mkHypercore (hc_key_pair s) (hc_storage s) (hc_oplog s) (hc_tree s) (hc_bitfield s)
    (hc_skip_flush_count s) (hc_header s) (hc_events s ++ [e]).

(** [Events::send]: best effort, never an error. *)
Definition send (e : Event) : coreM unit := modify (push_event e).

Definition send_on_get (index : Z) : coreM unit := send (EventGet index).

(** [header.hints.contiguous_length = c] *)
Definition set_contiguous_length (c : Z) (h : Header) : Header :=
  mkHeader _ (hd_key h) (hd_manifest h) (hd_key_pair h) (hd_user_data h) (hd_tree h)
    (mkHeaderHints (hh_reorgs (hd_hints h)) c).

(** [key_pair.secret = None] *)
Definition without_secret (k : PartialKeypair) : PartialKeypair := mkKeypair _ (kp_public k) None.
Definition set_header_key_pair (k : PartialKeypair) (h : Header) : Header :=
  mkHeader _ (hd_key h) (hd_manifest h) k (hd_user_data h) (hd_tree h) (hd_hints h).

(** Storage calls. *)
Definition core_flush_infos (infos : list StoreInfo) : coreM unit := fun s =>
  match flush_infos infos (hc_storage s) with
  | (st, r) => (set_storage st s, r)
  end.
Definition core_flush_info (info : StoreInfo) : coreM unit := core_flush_infos [info].
Definition core_read_infos (ins : list StoreInfoInstruction) : coreM (list StoreInfo) :=
  st ← gets hc_storage; lift (read_infos_to_vec st ins).
Definition core_read_info (i : StoreInfoInstruction) : coreM StoreInfo :=
  st ← gets hc_storage; lift (read_info st i).
End State.

Module Core.
Section Ops.
Context `{FT : FlatTree} `{CE : CompactEncoding} `{B2 : Blake2b} `{ED : Ed25519} `{CR : Crc32}
  `{RA : RandomAccess} `{IO : IntMapOrder}.

(** ** Contiguous length *)

(** [while bitfield.get(c) { c += 1; }] *)
Fixpoint advance (fuel : nat) (bitfield : DynamicBitfield) (c : Z) : result Z :=
  match fuel with
  | O => Diverge
  | S fuel =>
      b ← Dynamic.get bitfield c;
      if (b : bool) then c ← c +64 1; advance fuel bitfield c else Ok c
  end.

(** One more step than the bitfield has bits. *)
Definition advance_fuel (bitfield : DynamicBitfield) : nat :=
  S (Z.to_nat (DYNAMIC_BITFIELD_PAGE_SIZE * (biggest_page_index bitfield + 1))).

Definition update_contiguous_length (header : Header) (bitfield : DynamicBitfield)
    (bitfield_update : BitfieldUpdate) : result Header :=
  end_ ← bu_start bitfield_update +64 bu_length bitfield_update;
  let c := hh_contiguous_length (hd_hints header) in
  c' ←
    (if bu_drop bitfield_update then
       if (c <=? end_) && (bu_start bitfield_update <? c) then Ok (bu_start bitfield_update) else Ok c
     else if (c <=? end_) && (bu_start bitfield_update <=? c) then
       advance (advance_fuel bitfield) bitfield end_
     else Ok c);
  Ok (if negb (c' =? c) then set_contiguous_length c' header else header).

(** ** Opening *)

Definition storageM (A : Type) : Type := stateR Storage HypercoreError A.

Definition open_key_pair (generated : SigningKey) (options : HypercoreOptions)
  : result (option PartialKeypair) :=
  if opt_open options then
    match opt_key_pair options with
    | Some _ => Err BadArgument
    | None => Ok None
    end
  else
    Ok (Some (match opt_key_pair options with
              | Some key_pair => key_pair
              | None => mkKeypair _ (sk_verifying_key generated) (Some generated)
              end)).

Definition open_oplog (key_pair : option PartialKeypair) : storageM OplogOpenOutcome :=
  r ← lift (Oplog.open key_pair None);
  match r with
  | Right value => mret value
  | Left instruction =>
      storage ← gets id;
      info ← lift (read_info storage instruction);
      r ← lift (Oplog.open key_pair (Some info));
      match r with
      | Right value => mret value
      | Left _ => lift (Err InvalidOperation)
      end
  end.

Definition open_tree (header_tree : HeaderTree) : storageM MerkleTree :=
  r ← lift (Tree.open header_tree None);
  match r with
  | Right value => mret value
  | Left instructions =>
      storage ← gets id;
      infos ← lift (read_infos storage instructions);
      r ← lift (Tree.open header_tree (Some infos));
      match r with
      | Right value => mret value
      | Left _ => lift (Err InvalidOperation)
      end
  end.

Definition open_bitfield : storageM DynamicBitfield :=
  r ← lift (Dynamic.open None);
  match r with
  | Right value => mret value
  | Left instruction =>
      storage ← gets id;
      info ← lift (read_info storage instruction);
      r ← lift (Dynamic.open (Some info));
      match r with
      | Right value => mret value
      | Left instruction =>
          info ← lift (read_info storage instruction);
          r ← lift (Dynamic.open (Some info));
          match r with
          | Right value => mret value
          | Left _ => lift (Err InvalidOperation)
          end
      end
  end.

(** The changeset of an entry that upgraded the tree. *)
Definition replay_truncate (tree : MerkleTree) (length fork : Z) : storageM MerkleTreeChangeset :=
  r ← lift (Tree.truncate tree length fork None);
  match r with
  | Right value => mret value
  | Left instructions =>
      storage ← gets id;
      infos ← lift (read_infos storage instructions);
      r ← lift (Tree.truncate tree length fork (Some infos));
      match r with
      | Right value => mret value
      | Left _ => lift (Err InvalidOperation)
      end
  end.

Definition set_ancestors (cs : MerkleTreeChangeset) (ancestors : Z) : MerkleTreeChangeset :=
  mkChangeset _ (cs_length cs) ancestors (cs_byte_length cs) (cs_batch_length cs) (cs_fork cs)
    (cs_roots cs) (cs_nodes cs) (cs_hash cs) (cs_signature cs) (cs_upgraded cs)
    (cs_original_tree_length cs) (cs_original_tree_fork cs).

(** One turn of [for entry in entries.iter()]. *)
Definition replay_entry (tree : MerkleTree) (bitfield : DynamicBitfield) (header : Header)
    (entry : Entry) : storageM (MerkleTree * DynamicBitfield * Header) :=
  let tree := foldl Tree.add_node tree (en_tree_nodes entry) in
  '(bitfield, header) ←
    match en_bitfield entry with
    | Some bitfield_update =>
        bitfield ← lift (Dynamic.update bitfield bitfield_update);
        header ← lift (update_contiguous_length header bitfield bitfield_update);
        mret (bitfield, header)
    | None => mret (bitfield, header)
    end;
  match en_tree_upgrade entry with
  | Some tree_upgrade =>
      changeset ← replay_truncate tree (etu_length tree_upgrade) (etu_fork tree_upgrade);
      let changeset := set_ancestors changeset (etu_ancestors tree_upgrade) in
      hash ← lift (Changeset.hash changeset);
      signature ← lift (match sig_try_from (etu_signature tree_upgrade) with
                        | Some signature => Ok signature
                        | None => Err InvalidSignature
                        end);
      let changeset := Changeset.set_hash_signature changeset (Some hash) (Some signature) in
      '(header, _) ← lift (Oplog.update_header_with_changeset changeset None header);
      tree ← lift (Tree.commit tree changeset);
      mret (tree, bitfield, header)
  | None => mret (tree, bitfield, header)
  end.

Fixpoint replay_entries (tree : MerkleTree) (bitfield : DynamicBitfield) (header : Header)
    (entries : list Entry) : storageM (MerkleTree * DynamicBitfield * Header) :=
  match entries with
  | [] => mret (tree, bitfield, header)
  | entry :: entries =>
      '(tree, bitfield, header) ← replay_entry tree bitfield header entry;
      replay_entries tree bitfield header entries
  end.

(** [Hypercore::new]; the key that [generate_signing_key] draws is an argument. *)
Definition new (generated : SigningKey) (options : HypercoreOptions) : storageM Hypercore :=
  key_pair ← lift (open_key_pair generated options);
  outcome ← open_oplog key_pair;
  _ ← flush_infos (oo_infos_to_flush outcome);
  tree ← open_tree (hd_tree (oo_header outcome));
  bitfield ← open_bitfield;
  '(tree, bitfield, header) ←
    match oo_entries outcome with
    | Some entries => replay_entries tree bitfield (oo_header outcome) entries
    | None => mret (tree, bitfield, oo_header outcome)
    end;
  storage ← gets id;
  mret (mkHypercore (hd_key_pair header) storage (oo_oplog outcome) tree bitfield 0 header []).

(** ** Reading *)

Definition key_pair (s : Hypercore) : PartialKeypair := hc_key_pair s.

Definition info (s : Hypercore) : Info :=
  mkInfo (mt_length (hc_tree s)) (mt_byte_length (hc_tree s))
    (hh_contiguous_length (hd_hints (hc_header s))) (mt_fork (hc_tree s))
    (match kp_secret (hc_key_pair s) with Some _ => true | None => false end).

Definition has (s : Hypercore) (index : Z) : result bool := Dynamic.get (hc_bitfield s) index.

(** [loop { infos.extend(read_infos_to_vec(..)?); match ask(Some(&infos))? .. }]:
    [byte_range], [create_valueless_proof] and [missing_nodes] have this loop. *)
Fixpoint ask_again {A} (fuel : nat) (ask : list StoreInfo -> result (either_instructions A))
    (instructions : list StoreInfoInstruction) (infos : list StoreInfo) : coreM A :=
  match fuel with
  | O => lift Diverge
  | S fuel =>
      new_infos ← core_read_infos instructions;
      let infos := infos ++ new_infos in
      r ← lift (ask infos);
      match r with
      | Right value => mret value
      | Left new_instructions => ask_again fuel ask new_instructions infos
      end
  end.

Definition byte_range (index : Z) (initial_infos : option (list StoreInfo)) : coreM NodeByteRange :=
  tree ← gets hc_tree;
  r ← lift (Tree.byte_range tree index initial_infos);
  match r with
  | Right value => mret value
  | Left instructions =>
      ask_again retry_fuel (fun infos => Tree.byte_range tree index (Some infos)) instructions []
  end.

Definition create_valueless_proof (block hash : option RequestBlock) (seek : option RequestSeek)
    (upgrade : option RequestUpgrade) : coreM ValuelessProof :=
  tree ← gets hc_tree;
  r ← lift (Proofs.create_valueless_proof tree block hash seek upgrade None);
  match r with
  | Right value => mret value
  | Left instructions =>
      ask_again retry_fuel
        (fun infos => Proofs.create_valueless_proof tree block hash seek upgrade (Some infos))
        instructions []
  end.

Definition missing_nodes_from_merkle_tree_index (merkle_tree_index : Z) : coreM Z :=
  tree ← gets hc_tree;
  r ← lift (Tree.missing_nodes tree merkle_tree_index None);
  match r with
  | Right value => mret value
  | Left instructions =>
      ask_again retry_fuel (fun infos => Tree.missing_nodes tree merkle_tree_index (Some infos))
        instructions []
  end.

Definition missing_nodes (index : Z) : coreM Z :=
  merkle_tree_index ← lift (index *64 2);
  missing_nodes_from_merkle_tree_index merkle_tree_index.

Definition verify_proof (proof : Proof_) : coreM MerkleTreeChangeset :=
  tree ← gets hc_tree;
  kp ← gets hc_key_pair;
  r ← lift (Proofs.verify_proof tree proof (kp_public kp) None);
  match r with
  | Right value => mret value
  | Left instructions =>
      infos ← core_read_infos instructions;
      r ← lift (Proofs.verify_proof tree proof (kp_public kp) (Some infos));
      match r with
      | Right value => mret value
      | Left _ => lift (Err InvalidOperation)
      end
  end.

Definition get (index : Z) : coreM (option (list Z)) :=
  bitfield ← gets hc_bitfield;
  b ← lift (Dynamic.get bitfield index);
  if negb (b : bool) then
    _ ← send_on_get index;
    mret None
  else
    range ← byte_range index None;
    r ← lift (BlockStore.read range None);
    match r with
    | Right value => mret (Some value)
    | Left instruction =>
        info ← core_read_info instruction;
        r ← lift (BlockStore.read range (Some info));
        match r with
        | Right value => mret (Some value)
        | Left _ => lift (Err InvalidOperation)
        end
    end.

Definition create_proof (block hash : option RequestBlock) (seek : option RequestSeek)
    (upgrade : option RequestUpgrade) : coreM (option Proof_) :=
  valueless_proof ← create_valueless_proof block hash seek upgrade;
  match vp_block valueless_proof with
  | Some block =>
      value ← get (dh_index block);
      match value with
      | None => mret None
      | Some _ => proof ← lift (into_proof valueless_proof value); mret (Some proof)
      end
  | None => proof ← lift (into_proof valueless_proof None); mret (Some proof)
  end.

(** ** Flushing *)

Definition should_flush_bitfield_and_tree_and_oplog : coreM bool :=
  count ← gets hc_skip_flush_count;
  oplog ← gets hc_oplog;
  if (count =? 0) || (MAX_OPLOG_ENTRIES_BYTE_SIZE <=? op_entries_byte_length oplog) then
    _ ← modify (set_skip_flush_count 3);
    mret true
  else
    count ← lift (count -? 1);
    _ ← modify (set_skip_flush_count count);
    mret false.

Definition flush_bitfield_and_tree_and_oplog (clear_traces : bool) : coreM unit :=
  bitfield ← gets hc_bitfield;
  '(bitfield, infos) ← lift (Dynamic.flush bitfield);
  _ ← modify (set_bitfield bitfield);
  _ ← core_flush_infos infos;
  tree ← gets hc_tree;
  '(tree, infos) ← lift (Tree.flush tree);
  _ ← modify (set_tree tree);
  _ ← core_flush_infos infos;
  oplog ← gets hc_oplog;
  header ← gets hc_header;
  '(oplog, infos) ← lift (Oplog.flush oplog header clear_traces);
  _ ← modify (set_oplog oplog);
  core_flush_infos infos.

Definition maybe_flush : coreM unit :=
  b ← should_flush_bitfield_and_tree_and_oplog;
  if (b : bool) then flush_bitfield_and_tree_and_oplog false else mret tt.

(** ** Writing *)

(** [for data in batch { batch_length += changeset.append(data) }] *)
Fixpoint append_all (changeset : MerkleTreeChangeset) (batch_length : Z) (batch : list (list Z))
  : result (MerkleTreeChangeset * Z) :=
  match batch with
  | [] => Ok (changeset, batch_length)
  | data :: batch =>
      '(changeset, n) ← Changeset.append changeset data;
      batch_length ← batch_length +64 n;
      append_all changeset batch_length batch
  end.

(** The changeset goes to the oplog, the bitfield and the tree. *)
Definition log_changeset (changeset : MerkleTreeChangeset) (bitfield_update : option BitfieldUpdate)
  : coreM unit :=
  oplog ← gets hc_oplog;
  header ← gets hc_header;
  '(oplog, outcome) ← lift (Oplog.append_changeset oplog changeset bitfield_update false header);
  _ ← modify (set_oplog oplog);
  _ ← core_flush_infos (oc_infos_to_flush outcome);
  _ ← modify (set_header (oc_header outcome));
  _ ← match bitfield_update with
      | Some bitfield_update =>
          bitfield ← gets hc_bitfield;
          bitfield ← lift (Dynamic.update bitfield bitfield_update);
          _ ← modify (set_bitfield bitfield);
          header ← gets hc_header;
          header ← lift (update_contiguous_length header bitfield bitfield_update);
          modify (set_header header)
      | None => mret tt
      end;
  tree ← gets hc_tree;
  tree ← lift (Tree.commit tree changeset);
  _ ← modify (set_tree tree);
  maybe_flush.

Definition append_batch (batch : list (list Z)) : coreM AppendOutcome :=
  kp ← gets hc_key_pair;
  match kp_secret kp with
  | None => lift (Err NotWritable)
  | Some secret_key =>
      _ ← (if negb (is_empty batch) then
             tree ← gets hc_tree;
             '(changeset, batch_length) ← lift (append_all (Tree.changeset tree) 0 batch);
             changeset ← lift (Changeset.hash_and_sign changeset secret_key);
             _ ← core_flush_info (BlockStore.append_batch batch batch_length (mt_byte_length tree));
             let bitfield_update :=
               mkBitfieldUpdate false (cs_ancestors changeset) (cs_batch_length changeset) in
             _ ← log_changeset changeset (Some bitfield_update);
             _ ← send EventDataUpgrade;
             send (Have_from bitfield_update)
           else mret tt);
      tree ← gets hc_tree;
      mret (mkAppendOutcome (mt_length tree) (mt_byte_length tree))
  end.

Definition append (data : list Z) : coreM AppendOutcome := append_batch [data].

(** The hole around the cleared range that has no block: its first and its end
    index. *)
Definition clear_hole (start end_ : Z) : coreM (Z * Z) :=
  bitfield ← gets hc_bitfield;
  before ← lift (Dynamic.last_index_of bitfield true start);
  start ← lift (match before with Some index => index +64 1 | None => Ok 0 end);
  after ← lift (Dynamic.index_of bitfield true end_);
  tree ← gets hc_tree;
  mret (start, match after with Some index => index | None => mt_length tree end).

(** The range is dropped in the oplog, the bitfield and the header. *)
Definition clear_log (start end_ : Z) : coreM unit :=
  oplog ← gets hc_oplog;
  '(oplog, infos_to_flush) ← lift (Oplog.clear oplog start end_);
  _ ← modify (set_oplog oplog);
  _ ← core_flush_infos infos_to_flush;
  bitfield ← gets hc_bitfield;
  bitfield ← lift (Dynamic.set_range bitfield start (end_ - start) false);
  _ ← modify (set_bitfield bitfield);
  header ← gets hc_header;
  if start <? hh_contiguous_length (hd_hints header)
  then modify (set_header (set_contiguous_length start header)) else mret tt.

(** The byte offset of the first block of the hole, with the nodes read for it. *)
Definition clear_offset (start : Z) : coreM (Z * list StoreInfo) :=
  tree ← gets hc_tree;
  r ← lift (Tree.byte_offset tree start None);
  match r with
  | Right value => mret (value, [])
  | Left instructions =>
      infos ← core_read_infos instructions;
      r ← lift (Tree.byte_offset tree start (Some infos));
      match r with
      | Right value => mret (value, infos)
      | Left _ => lift (Err InvalidOperation)
      end
  end.

(** The bytes of the hole are deleted. *)
Definition clear_data (start end_ : Z) : coreM unit :=
  '(start, end_) ← clear_hole start end_;
  '(offset, infos) ← clear_offset start;
  last ← lift (end_ -? 1);
  last_byte_range ← byte_range last (Some infos);
  clear_end ← lift (nbr_index last_byte_range +64 nbr_length last_byte_range);
  clear_length ← lift (clear_end -? offset);
  core_flush_info (BlockStore.clear offset clear_length).

Definition clear (start end_ : Z) : coreM unit :=
  if end_ <=? start then mret tt
  else
    _ ← clear_log start end_;
    _ ← clear_data start end_;
    maybe_flush.

(** The value of a verified block goes to the block store. *)
Definition store_block (changeset : MerkleTreeChangeset) (block : DataBlock) : coreM BitfieldUpdate :=
  tree ← gets hc_tree;
  r ← lift (Tree.byte_offset_in_changeset tree (db_index block) changeset None);
  byte_offset ←
    match r with
    | Right value => mret value
    | Left instructions =>
        infos ← core_read_infos instructions;
        r ← lift (Tree.byte_offset_in_changeset tree (db_index block) changeset (Some infos));
        match r with
        | Right value => mret value
        | Left _ => lift (Err InvalidOperation)
        end
    end;
  _ ← core_flush_info (BlockStore.put (db_value block) byte_offset);
  mret (mkBitfieldUpdate false (db_index block) 1).

Definition verify_and_apply_proof (proof : Proof_) : coreM bool :=
  tree ← gets hc_tree;
  if negb (proof_fork proof =? mt_fork tree) then mret false
  else
    changeset ← verify_proof proof;
    if negb (Tree.commitable tree changeset) then mret false
    else
      bitfield_update ←
        match proof_block proof with
        | Some block => u ← store_block changeset block; mret (Some u)
        | None => mret None
        end;
      _ ← log_changeset changeset bitfield_update;
      _ ← match proof_upgrade proof with
          | Some _ => send EventDataUpgrade
          | None => mret tt
          end;
      _ ← match bitfield_update with
          | Some bitfield_update => send (Have_from bitfield_update)
          | None => mret tt
          end;
      mret true.

Definition make_read_only : coreM bool :=
  kp ← gets hc_key_pair;
  match kp_secret kp with
  | Some _ =>
      _ ← modify (set_key_pair (without_secret kp));
      header ← gets hc_header;
      _ ← modify (set_header (set_header_key_pair (without_secret (hd_key_pair header)) header));
      _ ← flush_bitfield_and_tree_and_oplog true;
      mret true
  | None => mret false
  end.
End Ops.
End Core.

(** ** Builder *)

Module Builder.
Section Ops.
Context `{FT : FlatTree} `{CE : CompactEncoding} `{B2 : Blake2b} `{ED : Ed25519} `{CR : Crc32}
  `{RA : RandomAccess} `{IO : IntMapOrder}.

Record HypercoreBuilder := mkBuilder { b_storage : Storage; b_options : HypercoreOptions }.

Definition new (storage : Storage) : HypercoreBuilder := mkBuilder storage HypercoreOptions_new.
Definition key_pair (self : HypercoreBuilder) (k : PartialKeypair) : HypercoreBuilder :=
  mkBuilder (b_storage self) (mkOptions (Some k) (opt_open (b_options self))).
Definition open (self : HypercoreBuilder) (open : bool) : HypercoreBuilder :=
  mkBuilder (b_storage self) (mkOptions (opt_key_pair (b_options self)) open).
Definition build (generated : SigningKey) (self : HypercoreBuilder) : Storage * result Hypercore :=
  Core.new generated (b_options self) (b_storage self).
End Ops.
End Builder.
