(* ===== verification/Events.v ===== *)
(** * Events

    [replication/events.rs]: the channel on which a core tells its subscribers
    about blocks that were asked for, upgrades and new blocks.  The channel is
    [async_broadcast]'s, a parameter; [Core] keeps the list of the events sent,
    and [sees] says what of that list a subscriber finds. *)

From stdpp Require Import base list.
From Stdlib Require Import ZArith Lia Bool.
From S2P Require Import Prelude Channels Common OplogEntry Storage Core.
Open Scope Z_scope.

(** ** Events *)

Definition MAX_EVENT_QUEUE_CAPACITY : nat := 32.

Section Messages.
Context `{BC : Broadcast}.

(** The events with their fields; [Core.Event] is what of them the core's
    behaviour depends on. *)
Record Get := mkGet { get_index : Z; get_result : channel unit }.
Record Have := mkHave { have_start : Z; have_length : Z; have_drop : bool }.

Inductive Message :=
  | MsgGet (g : Get)
  | MsgDataUpgrade
  | MsgHave (h : Have).

Definition Have_of (u : BitfieldUpdate) : Have := mkHave (bu_start u) (bu_length u) (bu_drop u).

Definition event_of (m : Message) : Event :=
  match m with
  | MsgGet g => EventGet (get_index g)
  | MsgDataUpgrade => EventDataUpgrade
  | MsgHave h => EventHave (have_start h) (have_length h) (have_drop h)
  end.

Record Events_ := mkEvents { ev_channel : channel Message; ev_receiver : nat }.

End Messages.

Module Events.
Section Ops.
Context `{BC : Broadcast}.

Definition new : Events_ :=
  let '(ch, receiver) := broadcast MAX_EVENT_QUEUE_CAPACITY in
  let ch := set_await_active false ch in
  let ch := deactivate receiver ch in
  let ch := set_overflow true ch in
  mkEvents ch receiver.

Definition send (evt : Message) (self : Events_) : Events_ * result unit :=
  (mkEvents (try_broadcast evt (ev_channel self)).1 (ev_receiver self), Ok tt).

(** The receiver of the answer is returned with its channel. *)
Definition send_on_get (index : Z) (self : Events_) : Events_ * (channel unit * nat) :=
  let '(tx, rx) := broadcast 1 in
  let tx := set_await_active false tx in
  ((send (MsgGet (mkGet index tx)) self).1, (tx, rx)).

(** [Hypercore::event_subscribe] *)
Definition event_subscribe (self : Events_) : Events_ * nat :=
  let '(ch, r) := new_receiver (ev_channel self) in (mkEvents ch (ev_receiver self), r).

(** [send] and [send_on_get], for the events a core sends. *)
Definition send_event (e : Event) (self : Events_) : Events_ :=
  match e with
  | EventGet i => (send_on_get i self).1
  | EventDataUpgrade => (send MsgDataUpgrade self).1
  | EventHave start length drop => (send (MsgHave (mkHave start length drop)) self).1
  end.
End Ops.
End Events.

Section Facts.
Context `{BC : Broadcast} {BCL : BroadcastLaws BC}.
Implicit Types (self : Events_).

(** The receiver takes everything there is, errors included. *)
Fixpoint receive_all (fuel : nat) (r : nat) (self : Events_) : Events_ * list Message :=
  match fuel with
  | O => (self, [])
  | S fuel =>
      let '(ch, x) := bc_try_recv r (ev_channel self) in
      let self := mkEvents ch (ev_receiver self) in
      match x with
      | Received m => let '(self, ms) := receive_all fuel r self in (self, m :: ms)
      | RecvOverflowed _ => receive_all fuel r self
      | RecvEmpty | RecvClosed => (self, [])
      end
  end.

(** ** Facts *)

Definition events_ok self : Prop :=
  capacity (ev_channel self) = MAX_EVENT_QUEUE_CAPACITY /\ overflow (ev_channel self) = true.

Lemma events_new_ok : events_ok Events.new /\ forall k, pending (ev_channel Events.new) k = None.
Proof.
  unfold Events.new, events_ok. pose proof (broadcast_law Message MAX_EVENT_QUEUE_CAPACITY) as Hb.
  destruct (broadcast MAX_EVENT_QUEUE_CAPACITY) as [ch r]. destruct Hb as (Hc & _ & Hp). cbn [ev_channel].
  destruct (set_await_active_law _ false ch) as (Ha & Hac & _). set (ch1 := set_await_active false ch) in *.
  destruct (deactivate_law _ r ch1) as (Hd & Hdc & _). set (ch2 := deactivate r ch1) in *.
  destruct (set_overflow_law _ true ch2) as (Ho & Hoc & Hoo). split; [split; congruence|].
  intros k. destruct (Ho k) as [-> _]. rewrite Hd. case_decide as Hk; [done|].
  destruct (Ha k) as [-> _]. rewrite Hp. by rewrite decide_False.
Qed.

(** The message that is sent for an event. *)
Lemma send_event_message e self :
  exists m, event_of m = e /\ Events.send_event e self = (Events.send m self).1.
Proof.
  destruct e as [i| |start length drop]; cbn [Events.send_event].
  - unfold Events.send_on_get. destruct (broadcast 1) as [tx rx].
    by exists (MsgGet (mkGet i (set_await_active false tx))).
  - by exists MsgDataUpgrade.
  - by exists (MsgHave (mkHave start length drop)).
Qed.

Lemma lastn_short {A} n (l : list A) : (length l <= n)%nat -> lastn n l = l.
Proof. intros Hl. unfold lastn. by replace (length l - n)%nat with 0%nat by lia. Qed.

Lemma length_lastn {A} n (l : list A) : length (lastn n l) = Nat.min n (length l).
Proof. unfold lastn. rewrite length_drop. lia. Qed.

Lemma lastn_snoc {A} n (l : list A) x : lastn n (lastn n l ++ [x]) = lastn n (l ++ [x]).
Proof.
  destruct (decide (length l <= n)%nat) as [|Hgt]; [by rewrite (lastn_short n l)|].
  unfold lastn. rewrite <-(drop_app_le l) by lia. rewrite drop_drop. f_equal.
  rewrite length_drop, length_app. cbn [length]. lia.
Qed.

Lemma fmap_lastn {A B} (f : A -> B) n (l : list A) : f <$> lastn n l = lastn n (f <$> l).
Proof. unfold lastn. by rewrite fmap_drop, length_fmap. Qed.

(** What an active receiver [r] still has of the events [es] sent since it
    subscribed: the last ones, as many as the queue takes. *)
Definition sees (r : nat) (es : list Event) self : Prop :=
  exists q, pending (ev_channel self) r = Some q /\ event_of <$> q = lastn MAX_EVENT_QUEUE_CAPACITY es /\
    lost (ev_channel self) r = (length es - MAX_EVENT_QUEUE_CAPACITY)%nat.

Lemma subscribe_sees self : events_ok self ->
  events_ok (Events.event_subscribe self).1 /\ sees (Events.event_subscribe self).2 [] (Events.event_subscribe self).1.
Proof.
  intros [Hc Ho]. unfold Events.event_subscribe. pose proof (new_receiver_law _ (ev_channel self)) as Hn.
  destruct (new_receiver (ev_channel self)) as [ch r]. destruct Hn as (_ & Hp & Hl & _ & Hc' & Ho').
  split; [split; cbn; congruence|]. by exists [].
Qed.

(** Other subscribers are not disturbed. *)
Lemma subscribe_others self r es :
  sees r es self -> sees r es (Events.event_subscribe self).1.
Proof.
  intros (q & Hp & Hq & Hl). unfold Events.event_subscribe. pose proof (new_receiver_law _ (ev_channel self)) as Hn.
  destruct (new_receiver (ev_channel self)) as [ch r']. destruct Hn as (Hnone & _ & _ & Hoth & _).
  destruct (Hoth r) as [Hp' Hl']; [congruence|]. exists q. cbn [fst ev_channel]. by rewrite Hp', Hl'.
Qed.

Lemma send_sees r es e self :
  events_ok self -> sees r es self ->
  events_ok (Events.send_event e self) /\ sees r (es ++ [e]) (Events.send_event e self).
Proof.
  intros [Hc Ho] (q & Hp & Hq & Hl). destruct (send_event_message e self) as (m & <- & ->).
  destruct (try_broadcast_law _ m (ev_channel self) Ho) as (_ & Hc' & Ho' & Hall); [by exists r; rewrite Hp|].
  specialize (Hall r). rewrite Hp in Hall. destruct Hall as [Hp' Hl'].
  split; [split; cbn; congruence|]. exists (lastn MAX_EVENT_QUEUE_CAPACITY (q ++ [m])). cbn [Events.send ev_channel fst].
  assert (length q = Nat.min MAX_EVENT_QUEUE_CAPACITY (length es)) as Hlen.
  { rewrite <-(length_fmap event_of), Hq. apply length_lastn. }
  split_and!.
  - by rewrite Hp', Hc.
  - rewrite fmap_lastn, fmap_app, Hq. apply lastn_snoc.
  - rewrite Hl', Hl, Hc, !length_app. cbn [length]. lia.
Qed.

Lemma send_all_sees r es' : forall es self,
  events_ok self -> sees r es self ->
  events_ok (foldl (flip Events.send_event) self es') /\
  sees r (es ++ es') (foldl (flip Events.send_event) self es').
Proof.
  induction es' as [|e es' IH]; intros es self Hok Hs; cbn [foldl]; [by rewrite app_nil_r|].
  destruct (send_sees r es e self Hok Hs) as [Hok' Hs']. destruct (IH _ _ Hok' Hs') as [? Hs''].
  split; [done|]. by rewrite <-app_assoc in Hs''.
Qed.

(** Receiving takes the events that were kept, in the order they were sent. *)
Lemma receive_pending r q : forall fuel self,
  pending (ev_channel self) r = Some q -> lost (ev_channel self) r = 0%nat -> (length q < fuel)%nat ->
  (receive_all fuel r self).2 = q.
Proof.
  induction q as [|m q IH]; intros [|fuel] self Hp Hl Hf; cbn [length receive_all] in *; try lia.
  all: pose proof (try_recv_law _ r (ev_channel self) _ Hp) as Hr; destruct (bc_try_recv r (ev_channel self)) as [ch x].
  all: destruct Hr as (_ & _ & _ & Hl' & Hr); rewrite decide_True in Hr by done; destruct Hr as [-> Hp'].
  { done. }
  specialize (IH fuel (mkEvents ch (ev_receiver self)) Hp' Hl' ltac:(lia)).
  destruct (receive_all fuel r _). cbn [snd] in *. by rewrite IH.
Qed.

Lemma receive_all_sees r es self fuel :
  sees r es self -> (MAX_EVENT_QUEUE_CAPACITY + 2 <= fuel)%nat ->
  event_of <$> (receive_all fuel r self).2 = lastn MAX_EVENT_QUEUE_CAPACITY es.
Proof.
  intros (q & Hp & Hq & Hl) Hf.
  assert (length q <= MAX_EVENT_QUEUE_CAPACITY)%nat as Hlen.
  { rewrite <-(length_fmap event_of), Hq, length_lastn. lia. }
  destruct (decide (lost (ev_channel self) r = 0%nat)) as [H0|H0].
  { rewrite (receive_pending r q) by (done || lia). done. }
  destruct fuel as [|fuel]; [lia|]. cbn [receive_all].
  pose proof (try_recv_law _ r (ev_channel self) _ Hp) as Hr. destruct (bc_try_recv r (ev_channel self)) as [ch x].
  destruct Hr as (_ & _ & _ & Hl' & Hr). rewrite decide_False in Hr by done. destruct Hr as [-> Hp'].
  rewrite (receive_pending r q) by (done || lia). done.
Qed.
End Facts.
