(* ===== verification/CoreOpen.v ===== *)
(** * Opening a hypercore

    The contiguous length, what opening reads from the four stores, and the
    replay of the entries of the oplog: replaying the entry of an appended batch
    or of a cleared range repeats what the operation did to the tree and to the
    bitfield. *)

From stdpp Require Import base list gmap.
From Stdlib Require Import ZArith Lia Bool.
From S2P Require Import Prelude FlatTree Common BitfieldFixed BitfieldDynamic.
From S2P Require Import CompactEncoding Encoding Crypto OplogEntry Changeset Storage.
From S2P Require Import Oplog MerkleTree MerkleView MerkleTruncate BitfieldStore Core.
Open Scope Z_scope.

(** ** Contiguous length *)

(** All blocks before [c] are there and block [c] is not. *)
Definition contiguous (db : DynamicBitfield) (c : Z) : Prop :=
  0 <= c /\ (forall k, 0 <= k < c -> dbit db k = true) /\ dbit db c = false.

Lemma dbit_beyond db k :
  dyn_wf db -> 32768 * (biggest_page_index db + 1) <= k -> dbit db k = false.
Proof.
  intros Hwf Hk. unfold dbit. destruct (pages db !! (k / 32768)) as [p|] eqn:Hp; [|done].
  apply (dw_page _ Hwf) in Hp as [_ Hp]. Z.div_mod_to_equations. lia.
Qed.

Lemma advance_ok db c c' : forall fuel,
  dyn_wf db -> 0 <= c <= c' -> c' < 2 ^ 64 ->
  (forall k, c <= k < c' -> dbit db k = true) -> dbit db c' = false ->
  (Z.to_nat (c' - c) < fuel)%nat -> Core.advance fuel db c = Ok c'.
Proof.
  intros fuel. revert c. induction fuel as [|fuel IH]; intros c Hwf Hc Hb Hset Hunset Hf; [lia|].
  cbn [Core.advance]. rewrite dyn_get_Ok, bind_Ok by (done || lia).
  destruct (decide (c = c')) as [->|]; [by rewrite Hunset|]. rewrite Hset by lia.
  rewrite checked_add_Ok, bind_Ok by lia. apply IH; [done|lia|done| |done|lia].
  intros k Hk. apply Hset. lia.
Qed.

(** The loop ends at the first missing block. *)
Lemma advance_first db c :
  dyn_wf db -> 0 <= c < 2 ^ 63 -> (forall k, 2 ^ 63 <= k -> dbit db k = false) ->
  exists c', Core.advance (Core.advance_fuel db) db c = Ok c' /\ c <= c' <= 2 ^ 63 /\
    (forall k, c <= k < c' -> dbit db k = true) /\ dbit db c' = false.
Proof.
  intros Hwf Hc Hend. pose proof (dw_big _ Hwf) as Hbig.
  set (b := Z.max c (Z.min (2 ^ 63) (32768 * (biggest_page_index db + 1)))).
  assert (dbit db b = false) as Hbf.
  { destruct (decide (2 ^ 63 <= b)); [by apply Hend|]. apply dbit_beyond; [done|lia]. }
  destruct (range_first (fun k => negb (dbit db k)) c (b + 1)) as [(c' & Hc' & Hf & Hlow)|Hnone].
  2: { specialize (Hnone b ltac:(lia)). cbn in Hnone. by rewrite Hbf in Hnone. }
  apply negb_true_iff in Hf. exists c'. split_and!; [|lia|lia| |done].
  - apply advance_ok; [done|lia|lia| |done|].
    + intros k Hk. apply negb_false_iff, Hlow. lia.
    + unfold Core.advance_fuel, DYNAMIC_BITFIELD_PAGE_SIZE. lia.
  - intros k Hk. apply negb_false_iff, Hlow. lia.
Qed.

Section Open.
Context `{FT : FlatTree} {FL : FlatTreeLaws FT} `{CE : CompactEncoding} {CL : CompactEncodingLaws CE}
  `{B2 : Blake2b} {BL : Blake2bLaws B2} `{ED : Ed25519} {EL : Ed25519Laws ED} `{CR : Crc32}
  {CRL : Crc32Laws CR} `{RA : RandomAccess} {RL : RandomAccessLaws RA}
  `{IO : IntMapOrder} {IOL : IntMapOrderLaws IO}.
Implicit Types (blocks : list (list Z)) (st : Storage) (fs : Store -> list Z).

(** What an update keeps true: bits are set or dropped, and the contiguous
    length follows, unless a drop ends inside the contiguous blocks. *)
Lemma update_contiguous_ok header db db' u :
  dyn_wf db' -> 0 <= bu_start u -> 0 <= bu_length u -> bu_start u + bu_length u < 2 ^ 63 ->
  (forall k, 2 ^ 63 <= k -> dbit db' k = false) ->
  (forall k, 0 <= k -> dbit db' k = if decide (bu_start u <= k < bu_start u + bu_length u)
                                   then negb (bu_drop u) else dbit db k) ->
  contiguous db (hh_contiguous_length (hd_hints header)) ->
  (bu_drop u = true -> hh_contiguous_length (hd_hints header) <= bu_start u + bu_length u) ->
  exists c', Core.update_contiguous_length header db' u = Ok (set_contiguous_length c' header) /\
    contiguous db' c'.
Proof.
  intros Hwf Hs Hl Hb Hend Hbits (Hc0 & Hset & Hunset) Hdrop.
  set (c := hh_contiguous_length (hd_hints header)) in *. set (e := bu_start u + bu_length u) in *.
  assert (forall c', (if negb (c' =? c) then set_contiguous_length c' header else header) =
    set_contiguous_length c' header) as Hsame.
  { intros c'. destruct (Z.eqb_spec c' c) as [->|]; [|done]. subst c. by destruct header as [?????[]]. }
  unfold Core.update_contiguous_length. fold c.
  rewrite checked_add_Ok, bind_Ok by lia. fold e.
  destruct (bu_drop u).
  - specialize (Hdrop eq_refl). rewrite (proj2 (Z.leb_le c e)) by lia. cbn [andb].
    destruct (Z.ltb_spec (bu_start u) c); rewrite bind_Ok, Hsame; eexists; (split; [done|]).
    + split_and!; [done| |rewrite Hbits by lia; by rewrite decide_True by lia].
      intros k Hk. rewrite Hbits by lia. rewrite decide_False by lia. apply Hset. lia.
    + split_and!; [done| |].
      * intros k Hk. rewrite Hbits by lia. rewrite decide_False by lia. by apply Hset.
      * rewrite Hbits by lia. by case_decide.
  - destruct ((c <=? e) && (bu_start u <=? c)) eqn:Hin.
    + apply andb_true_iff in Hin as [Hce Hsc].
      destruct (advance_first db' e) as (c' & -> & Hc' & Hset' & Hunset'); [done|lia|done|].
      rewrite bind_Ok, Hsame. eexists. split; [done|]. split_and!; [lia| |done].
      intros k Hk. destruct (decide (k < e)); [|apply Hset'; lia]. rewrite Hbits by lia.
      case_decide; [done|]. apply Hset. lia.
    + rewrite bind_Ok, Hsame. eexists. split; [done|].
      assert (e < c \/ c < bu_start u) as Hout
        by (destruct (Z.leb_spec c e); [right|left; lia]; cbn in Hin; lia).
      split_and!; [done| |rewrite Hbits by lia; by rewrite decide_False by lia].
      intros k Hk. rewrite Hbits by lia. case_decide; [done|]. by apply Hset.
Qed.

(** ** Reading the stores *)

Lemma storage_read_info (st : Storage) fs i info (Q : StoreInfo -> Storage -> Prop) :
  holds st fs -> instruction_wf i -> read_effect fs i = Some info -> Q info st ->
  wp (lift (E:=HypercoreError) (read_info st i)) st Q.
Proof. intros Hh Hwf Hr HQ. eapply wp_lift; [|exact HQ]. by eapply read_info_ok. Qed.

(** Opening the tree of a log whose roots are stored. *)
Lemma open_tree_ok blocks (ht : HeaderTree) sig (st : Storage) fs (Q : MerkleTree -> Storage -> Prop) :
  holds st fs -> roots_stored blocks (fs Common.Tree) -> log_fits blocks -> ht_length ht = zlen blocks ->
  (if 0 <? zlen (ht_signature ht) then sig <> None /\ sig_try_from (ht_signature ht) = sig
   else sig = None) ->
  Q (opened_tree blocks ht sig) st -> wp (Core.open_tree ht) st Q.
Proof.
  intros Hh Hall Hfit Hlen Hsig HQ.
  destruct (open_protocol blocks ht sig fs Hall Hfit Hlen Hsig) as (ins & infos & Hl & Hwf & Hr & Ho).
  unfold Core.open_tree. wp_step. wp_step. apply wp_bind.
  eapply wp_lift; [by eapply (read_infos_ok _ fs)|]. cbn beta iota. wp_step. by wp_step.
Qed.

Lemma complete_nil d o : ~ complete (zlen (@nil (list Z))) d o.
Proof.
  intros (Hd & Ho & Hle). rewrite zlen_nil in Hle. pose proof (Z.pow_pos_nonneg 2 d ltac:(lia) Hd). nia.
Qed.

(** Opening the bitfield of a store of whole words. *)
Lemma open_bitfield_ok (st : Storage) fs db (Q : DynamicBitfield -> Storage -> Prop) :
  holds st fs -> (exists m, 0 <= m /\ zlen (fs Bitfield) = 4 * m) ->
  Dynamic.open (Some (StoreInfo.new_content Bitfield 0 (fs Bitfield))) = Ok (Right db) ->
  Q db st -> wp Core.open_bitfield st Q.
Proof.
  intros Hh (m & Hm & Hz) Ho HQ. unfold Core.open_bitfield. pose proof (zlen_nonneg (fs Bitfield)).
  apply wp_bind. eapply wp_lift; [done|]. wp_step. cbn beta iota. apply wp_bind.
  eapply (storage_read_info _ _ _ (StoreInfo.new_size Bitfield 0 (zlen (fs Bitfield) - 0)));
    [done|split; cbn; [lia|done]| |].
  { unfold read_effect. cbn [sii_info_type sii_index sii_store Instruction.new_size].
    by rewrite (proj2 (Z.leb_le _ _)) by lia. }
  apply wp_bind. eapply wp_lift.
  { unfold Dynamic.open. cbn [StoreInfo.new_size si_info_type si_length unwrap].
    rewrite decide_True, bind_Ok by done. rewrite Z.sub_0_r, Hz.
    change 3 with (Z.ones 2). rewrite Z.land_ones by lia. change (2 ^ 2) with 4.
    rewrite Z.mul_comm, Z.mod_mul by lia. rewrite checked_sub_Ok, bind_Ok by lia. done. }
  cbn beta iota. apply wp_bind.
  eapply (storage_read_info _ _ _ (StoreInfo.new_content Bitfield 0 (fs Bitfield)));
    [done|split; cbn; [lia|intros n [= <-]; lia]| |].
  { unfold read_effect. cbn [sii_info_type sii_index sii_store sii_length Instruction.new_content default id].
    replace (m * 4 - 0) with (zlen (fs Bitfield)) by lia. unfold id. rewrite slice_full.
    by rewrite (proj2 (Z.leb_le _ _)) by lia. }
  apply wp_bind. eapply wp_lift; [exact Ho|]. by wp_step.
Qed.

(** The bitfield of an empty store is empty. *)
Lemma open_bitfield_empty (st : Storage) fs (Q : DynamicBitfield -> Storage -> Prop) :
  holds st fs -> fs Bitfield = [] -> Q (mkDynamic ∅ 0 []) st -> wp Core.open_bitfield st Q.
Proof. intros Hh Hf HQ. eapply open_bitfield_ok; [done|by exists 0; rewrite Hf|by rewrite Hf|done]. Qed.

Definition options_key_pair (generated : SigningKey) (options : HypercoreOptions) : PartialKeypair :=
  match opt_key_pair options with
  | Some kp => kp
  | None => mkKeypair _ (sk_verifying_key generated) (Some generated)
  end.

Lemma open_empty_oplog key_pair :
  Oplog.open key_pair (Some (StoreInfo.new_content Oplog 0 [])) =
    (outcome ← Oplog.open_headers key_pair [] None None; Ok (Right outcome)).
Proof.
  assert (forall i, 0 <= i -> Oplog.validate_leader i [] = Ok None) as Hv
    by (intros; apply validate_leader_end; rewrite zlen_nil; lia).
  unfold Oplog.open. cbn [StoreInfo.new_content si_data unwrap].
  by rewrite bind_Ok, !Hv, !bind_Ok by apply slot_offset_nonneg.
Qed.

(** ** Committing *)

(** The roots, length, fork and signature of a tree. *)
Definition tree_head (t : MerkleTree) : list Node * Z * Z * option Signature :=
  (mt_roots t, mt_length t, mt_fork t, mt_signature t).

Lemma commit_head t cs t' :
  Tree.commit t cs = Ok t' ->
  tree_head t' = if cs_upgraded cs then (cs_roots cs, cs_length cs, cs_fork cs, cs_signature cs)
                 else tree_head t.
Proof.
  unfold Tree.commit. intros H. destruct (negb _); [discriminate H|].
  apply bind_inv_Ok in H as (t1 & H1 & H). destruct (cs_upgraded cs).
  - apply bind_inv_Ok in H1 as (t2 & _ & H1). injection H1 as <-. by injection H as <-.
  - injection H1 as <-. by injection H as <-.
Qed.

(** ** Replaying the oplog *)

(** Headers that differ in the contiguous length at most. *)
Definition up_to_hint (h h' : Header) : Prop := set_contiguous_length 0 h = set_contiguous_length 0 h'.

#[global] Instance up_to_hint_equivalence : Equivalence up_to_hint.
Proof. unfold up_to_hint. split; [by intros ?|by intros ? ?|by intros ? ? ? -> ->]. Qed.

Lemma up_to_hint_set h c : up_to_hint (set_contiguous_length c h) h.
Proof. by destruct h. Qed.

Lemma up_to_hint_parts h h' : up_to_hint h h' ->
  hd_key h = hd_key h' /\ hd_manifest h = hd_manifest h' /\ hd_key_pair h = hd_key_pair h' /\
  hd_user_data h = hd_user_data h' /\ hd_tree h = hd_tree h' /\
  hh_reorgs (hd_hints h) = hh_reorgs (hd_hints h').
Proof. unfold up_to_hint, set_contiguous_length. intros H. injection H. by intros; split_and!. Qed.

(** The contiguous length can always be updated. *)
Lemma update_contiguous_total header db u :
  dyn_wf db -> 0 <= bu_start u -> 0 <= bu_length u -> bu_start u + bu_length u < 2 ^ 63 ->
  (forall k, 2 ^ 63 <= k -> dbit db k = false) ->
  exists h, Core.update_contiguous_length header db u = Ok h /\ up_to_hint h header /\
    (is_u64 (hh_contiguous_length (hd_hints header)) -> is_u64 (hh_contiguous_length (hd_hints h))).
Proof.
  intros Hwf Hs Hl Hb Hend. unfold Core.update_contiguous_length. rewrite checked_add_Ok, bind_Ok by lia.
  set (c := hh_contiguous_length _).
  assert (forall c', (is_u64 c -> is_u64 c') -> exists h : Header, Ok (E:=HypercoreError) (if negb (c' =? c)
    then set_contiguous_length c' header else header) = Ok h /\ up_to_hint h header /\
    (is_u64 c -> is_u64 (hh_contiguous_length (hd_hints h)))) as Hset.
  { intros c' Hc'. eexists. split; [done|]. destruct (negb _); (split; [apply up_to_hint_set || reflexivity|done]). }
  assert (is_u64 (bu_start u)) as Hs64 by (unfold is_u64; lia).
  destruct (bu_drop u).
  - destruct (_ && _); rewrite bind_Ok; by apply Hset.
  - destruct (_ && _); [|rewrite bind_Ok; by apply Hset].
    destruct (advance_first db (bu_start u + bu_length u)) as (c' & -> & Hc' & Hset' & _); [done|lia|done|].
    rewrite bind_Ok. apply Hset. intros _. unfold is_u64. destruct (Z.lt_ge_cases (2 ^ 63) c'); [|lia].
    specialize (Hset' (2 ^ 63) ltac:(lia)). by rewrite Hend in Hset'.
Qed.

(** What a replay arrives at, compared with the state of the running core. *)
Record recovered blocks (f fb : list Z) (tree : MerkleTree) (db : DynamicBitfield) (header : Header)
    (r : MerkleTree * DynamicBitfield * Header) : Prop := {
  rc_tree : tree_inv blocks r.1.1 f;
  rc_fork : mt_fork r.1.1 = mt_fork tree;
  rc_signature : mt_signature r.1.1 = mt_signature tree;
  rc_wf : dyn_wf r.1.2;
  rc_bits k : 0 <= k -> dbit r.1.2 k = dbit db k;
  rc_header : up_to_hint r.2 header;
  rc_hint : is_u64 (hh_contiguous_length (hd_hints r.2));
  rc_stored : bits_stored (zlen blocks) r.1.2 fb;
}.

Lemma recovered_header blocks f fb tree db header header' r :
  recovered blocks f fb tree db header r -> up_to_hint header' header -> recovered blocks f fb tree db header' r.
Proof. intros [] Hh. constructor; try done. by rewrite Hh. Qed.

Lemma replay_entries_snoc es : forall t db h e st st1 t1 db1 h1,
  Core.replay_entries t db h es st = (st1, Ok (t1, db1, h1)) ->
  Core.replay_entries t db h (es ++ [e]) st = Core.replay_entry t1 db1 h1 e st1.
Proof.
  induction es as [|e' es IH]; intros t db h e st st1 t1 db1 h1 Hrun; cbn [Core.replay_entries app] in *.
  - injection Hrun as -> -> -> ->. unfold mbind, stateR_bind.
    by destruct (Core.replay_entry t1 db1 h1 e st1) as [st2 [[[? ?] ?]| | |]].
  - unfold mbind, stateR_bind in *. destruct (Core.replay_entry t db h e' st) as [st2 [[[? ?] ?]| | |]]; try done.
    by apply IH.
Qed.

(** The part of an entry that changes the bitfield. *)
Lemma replay_bits n n' fb db db1 db' u header :
  bits_stored n db1 fb -> n <= n' ->
  (forall k, bu_start u <= k < bu_start u + bu_length u -> dbit db k = bu_drop u -> k < n') ->
  dyn_wf db1 -> (forall k, 0 <= k -> dbit db1 k = dbit db k) ->
  0 <= bu_start u -> 0 <= bu_length u -> bu_start u + bu_length u < 2 ^ 63 ->
  (forall k, 2 ^ 63 <= k -> dbit db k = false) ->
  (forall k, 0 <= k -> dbit db' k = if decide (bu_start u <= k < bu_start u + bu_length u)
                                   then negb (bu_drop u) else dbit db k) ->
  exists db1' h, Dynamic.update db1 u = Ok db1' /\
    Core.update_contiguous_length header db1' u = Ok h /\ up_to_hint h header /\
    (is_u64 (hh_contiguous_length (hd_hints header)) -> is_u64 (hh_contiguous_length (hd_hints h))) /\
    bits_stored n' db1' fb /\ dyn_wf db1' /\ forall k, 0 <= k -> dbit db1' k = dbit db' k.
Proof.
  intros Hst Hn Hrange Hwf Hsame Hs Hl Hb Hend Hd'.
  destruct (dyn_update_Ok db1 u) as (db1' & Hu & Hwf' & Hbits); [done|lia..|].
  destruct (update_contiguous_total header db1' u) as (h & Hh & Hup & Hhint); [done|lia..| |].
  - intros k Hk. rewrite Hbits by lia. rewrite decide_False, Hsame by lia. by apply Hend.
  - exists db1', h. split_and!; [done..| |done|].
    { eapply bits_stored_update; [exact Hst|eapply (dyn_update_touched db1 u); [done|lia..|done]|done|].
      intros k Hk. rewrite negb_involutive, Hsame by lia. by apply Hrange. } intros k Hk. rewrite Hbits, Hd' by done. by rewrite Hsame.
Qed.

(** The entry of a cleared range. *)
Lemma replay_clear blocks f fb tree db db' header r u st :
  recovered blocks f fb tree db header r -> bu_drop u = true -> (forall k, zlen blocks <= k -> dbit db k = false) ->
  0 <= bu_start u -> 0 <= bu_length u -> bu_start u + bu_length u < 2 ^ 63 ->
  (forall k, 2 ^ 63 <= k -> dbit db k = false) ->
  (forall k, 0 <= k -> dbit db' k = if decide (bu_start u <= k < bu_start u + bu_length u)
                                   then false else dbit db k) ->
  exists r', Core.replay_entry r.1.1 r.1.2 r.2 (mkEntry [] [] None (Some u)) st = (st, Ok r') /\
    recovered blocks f fb tree db' header r'.
Proof.
  intros [Ht Hf Hsg Hwf Hbits Hh Hc64 Hst] Hu Hover Hs Hl Hb Hend Hd'.
  destruct (replay_bits (zlen blocks) (zlen blocks) fb db r.1.2 db' u r.2)
    as (db1 & h & Hup & Hc & Hhint & Hc' & Hst1 & Hwf1 & Hb1); [done..| |done|done|done|done|done|done|by rewrite Hu|].
  { intros k _. rewrite Hu. intros Hd. destruct (Z.lt_ge_cases k (zlen blocks)); [done|]. by rewrite Hover in Hd. }
  eexists. split.
  - unfold Core.replay_entry. cbn [en_tree_nodes en_bitfield en_tree_upgrade foldl].
    unfold mbind, stateR_bind, lift. by rewrite Hup, Hc.
  - constructor; cbn; try done; [by rewrite Hhint|by apply Hc'].
Qed.

(** [truncate] to the length of an entry whose nodes were added. *)
Lemma replay_truncate_ok blocks more self self' st fork :
  view_ok (blocks ++ more) self' ∅ -> mt_unflushed self = mt_unflushed self' ->
  readable (blocks ++ more) (contents (st_tree st)) (unknown self' [] (node_keys (peaks (zlen (blocks ++ more))))) ->
  mt_truncated self = false -> mt_roots self = merkle_roots blocks ->
  no_blank (blocks ++ more) -> log_fits (blocks ++ more) ->
  Core.replay_truncate self (zlen (blocks ++ more)) fork st =
    (st, Ok (extension self (blocks ++ more) fork)).
Proof.
  intros Hinv Hun Hrb Ht Hr Hnb Hfit. set (fs := fun k => contents (get_random_access st k)).
  assert (holds st fs) as Hh by done.
  pose proof (truncate_asked blocks more self self' (fs Common.Tree) [] fork Hinv Hun Ht Hr Hnb Hfit) as Hask.
  unfold Core.replay_truncate, mbind, stateR_bind, lift, gets, id. rewrite truncate_none.
  change (@nil StoreInfo) with (node_read (fs Common.Tree) <$> []). rewrite Hask by by intros ? ?%elem_of_nil.
  set (ps := new_peaks _ _). set (l := unknown self [] (node_keys ps)).
  destruct l as [|k l'] eqn:Hl; [done|]. cbn [asked]. rewrite <-Hl.
  assert (readable (blocks ++ more) (fs Common.Tree) l) as Hread.
  { intros k0 [Hk0 ([d o] & -> & Hin%new_peaks_sub)%list_elem_of_fmap]%list_elem_of_filter. apply Hrb.
    apply list_elem_of_filter. rewrite <-Hun. split; [done|]. apply list_elem_of_fmap. by exists (d, o). }
  destruct (readable_reads _ fs l Hread) as [Hwf Hr2].
  rewrite (read_infos_ok st fs _ _ Hh Hwf Hr2).
  rewrite (truncate_asked blocks more self self' (fs Common.Tree) l fork Hinv Hun Ht Hr Hnb Hfit Hread).
  pose proof (unknown_all self [] (node_keys ps)) as Hall. rewrite app_nil_l in Hall. fold l in Hall.
  fold ps. by rewrite Hall.
Qed.

(** Header and entry of a changeset [cs] that takes the tree [t] of [blocks] to
    [t'], the tree of the longer log, when the store has the bytes [f]. *)
Record replayable blocks more t cs t' (f : list Z) : Prop := {
  ry_commit : Tree.commit t cs = Ok t';
  ry_truncated : mt_truncated t = false;
  ry_roots : mt_roots t = merkle_roots blocks;
  ry_view : view_ok (blocks ++ more) t' ∅;
  ry_readable : readable (blocks ++ more) f (unknown t' [] (node_keys (peaks (zlen (blocks ++ more)))));
  ry_upgrade : cs_upgraded cs = true ->
    cs_for (blocks ++ more) cs /\ cs_ancestors cs = mt_length t /\ cs_original_tree_length cs = mt_length t /\
    exists sig hash, cs_signature cs = Some sig /\ cs_hash cs = Some hash /\ Changeset.hash cs = Ok hash;
}.

(** What an update does to the bitfield and to the contiguous length. *)
Definition updates (u : option BitfieldUpdate) (db : DynamicBitfield) (h : Header) (db' : DynamicBitfield)
    (h' : Header) : Prop :=
  match u with
  | Some u => Dynamic.update db u = Ok db' /\ Core.update_contiguous_length h db' u = Ok h'
  | None => db' = db /\ h' = h
  end.

(** Replaying the entry of a changeset does to the tree what its commit did. *)
Lemma replay_changeset_ok blocks more t cs t' u db db' header h e header' h' st :
  replayable blocks more t cs t' (contents (st_tree st)) -> no_blank (blocks ++ more) -> log_fits (blocks ++ more) ->
  updates u db h db' h' -> up_to_hint h' header ->
  Oplog.update_header_with_changeset cs u header = Ok (header', e) ->
  exists h'', Core.replay_entry t db h e st = (st, Ok (t', db', h'')) /\ up_to_hint h'' header' /\
    hd_hints h'' = hd_hints h'.
Proof.
  intros [Hc Htr Hroots Hview Hread Hupg] Hnb Hfit Hu Hhint Hue.
  set (t1 := foldl Tree.add_node t (cs_nodes cs)).
  assert (match u with
    | Some u => db ← lift (Dynamic.update db u); h ← lift (Core.update_contiguous_length h db u); mret (db, h)
    | None => mret (db, h)
    end st = (st, Ok (E:=HypercoreError) (db', h'))) as Hbits.
  { destruct u as [u|]; destruct Hu as [Hdb Hhd]; [|by subst].
    unfold mbind, stateR_bind, lift. by rewrite Hdb, Hhd. }
  unfold Oplog.update_header_with_changeset in Hue. destruct (cs_upgraded cs) eqn:Hup.
  2: { injection Hue as <- <-. exists h'. split_and!; [|done..].
    unfold Core.replay_entry. cbn [en_tree_nodes en_tree_upgrade en_bitfield]. fold t1.
    rewrite (run_bind _ _ _ _ _ Hbits).
    unfold Tree.commit in Hc. rewrite Hup in Hc. destruct (negb _); [discriminate Hc|]. rewrite bind_Ok in Hc.
    injection Hc as <-. unfold t1. by rewrite add_nodes_eq. }
  destruct (Hupg eq_refl) as (Hfor & Ha & Hol & sig & hash & Hsig & Hhash & Hhok).
  rewrite Hhash, Hsig in Hue. cbn [unwrap] in Hue. rewrite !bind_Ok in Hue. injection Hue as <- <-.
  pose proof (commit_extension (blocks ++ more) t cs t' (Some hash) Hc Hfor Hup Ha Hol) as Hext.
  assert (mt_unflushed t1 = mt_unflushed t') as Hun.
  { rewrite commit_forward in Hc by congruence. destruct (_ && _); [|discriminate Hc].
    injection Hc as <-. unfold t1. by rewrite add_nodes_eq. }
  assert (mt_roots t1 = merkle_roots blocks /\ mt_truncated t1 = false) as [Hr1 Htr1]
    by (unfold t1; by rewrite add_nodes_eq).
  pose proof (replay_truncate_ok blocks more t1 t' st (cs_fork cs) Hview Hun Hread Htr1 Hr1 Hnb Hfit) as Htrunc.
  pose proof Hfor as (Hcr & Hlen & _). eexists. split_and!.
  - unfold Core.replay_entry. cbn [en_tree_nodes en_tree_upgrade en_bitfield etu_length etu_fork
      etu_ancestors etu_signature]. fold t1. rewrite (run_bind _ _ _ _ _ Hbits), Hlen, (run_bind _ _ _ _ _ Htrunc), sig_from_to.
    unfold mbind, stateR_bind, lift. cbn beta iota. unfold Changeset.hash in *. cbn [cs_roots Core.set_ancestors extension].
    rewrite <-Hcr, Hhok. cbn beta iota. rewrite Ha.
    assert (Changeset.set_hash_signature (Core.set_ancestors (extension t1 (blocks ++ more) (cs_fork cs))
      (mt_length t)) (Some hash) (Some sig) = Changeset.set_hash_signature
      (mkChangeset _ (zlen (blocks ++ more)) (mt_length t) (zlen (concat (blocks ++ more))) 0 (cs_fork cs)
          (merkle_roots (blocks ++ more)) [] None None true (mt_length t) (mt_fork t)) (Some hash) (Some sig)) as ->.
    { unfold t1. by rewrite add_nodes_eq. }
    rewrite Hsig in Hext. fold t1 in Hext. cbn [Oplog.update_header_with_changeset]. rewrite Hext. done.
  - destruct (up_to_hint_parts _ _ Hhint) as (E1 & E2 & E3 & E4 & E5 & E6).
    unfold up_to_hint, set_contiguous_length. cbn. by rewrite E1, E2, E3, E4, E5, E6, Hlen.
  - done.
Qed.

(** The entry of an appended batch. *)
Lemma replay_append blocks more fb tree tree' db db' header header' cs u sig h e r st :
  recovered blocks (contents (st_tree st)) fb tree db header r ->
  log_fits (blocks ++ more) -> no_blank (blocks ++ more) ->
  cs_append blocks more cs -> more <> [] -> cs_original_tree_fork cs = mt_fork tree ->
  cs_signature cs = Some sig -> cs_hash cs = Some h -> Changeset.hash cs = Ok h ->
  Tree.commit tree cs = Ok tree' ->
  Oplog.update_header_with_changeset cs (Some u) header = Ok (header', e) ->
  0 <= bu_start u -> 0 <= bu_length u -> bu_start u + bu_length u < 2 ^ 63 ->
  bu_start u + bu_length u <= zlen (blocks ++ more) ->
  (forall k, 2 ^ 63 <= k -> dbit db k = false) ->
  (forall k, 0 <= k -> dbit db' k = if decide (bu_start u <= k < bu_start u + bu_length u)
                                   then negb (bu_drop u) else dbit db k) ->
  exists r', Core.replay_entry r.1.1 r.1.2 r.2 e st = (st, Ok r') /\
    recovered (blocks ++ more) (contents (st_tree st)) fb tree' db' header' r'.
Proof.
  intros [Ht Hf Hsg Hwf Hbits Hh Hc64 Hst] Hfit Hnb Hcs Hne Hof Hsig Hhash Hhok Hc Hue Hs Hl Hb Hmore Hend Hd'.
  destruct r as [[t db1] hd]. cbn [fst snd] in *.
  destruct (replay_bits (zlen blocks) (zlen (blocks ++ more)) fb db db1 db' u hd)
    as (db2 & h2 & Hup & Huc & Hhint & Hc' & Hst2 & Hwf2 & Hb2); [done| |lia|done..|].
  { rewrite zlen_app. pose proof (zlen_nonneg more). lia. }
  destruct (commit_append_ok blocks more t cs _ Ht Hcs) as (t' & Hct & Ht' & Hft); [congruence|].
  pose proof Hcs as (Hfor & Ha & Hol & Hupg & _). pose proof Ht as ((Hroots & Hlen & _) & Htr & _).
  assert (cs_upgraded cs = true) as Hup' by (rewrite Hupg; by destruct more).
  assert (replayable blocks more t cs t' (contents (st_tree st))) as Hrep.
  { constructor; try done.
    - by eapply tree_inv_view.
    - eapply unknown_readable; [done|]. intros d o. eapply tiles_complete, tiles_peaks, zlen_nonneg.
    - intros _. split_and!; [done|congruence..|]. by exists sig, h. }
  destruct (replay_changeset_ok blocks more t cs t' (Some u) db1 db2 header hd e header' h2 st) as (h3 & Hr & Hh3 & Hhints);
    [done..|by rewrite Hhint|done|]. eexists. split; [exact Hr|].
  pose proof (commit_head _ _ _ Hct) as Hth. pose proof (commit_head _ _ _ Hc) as Hth'.
  rewrite Hup' in Hth, Hth'. unfold tree_head in Hth, Hth'.
  constructor; cbn [fst snd]; [done|congruence|congruence|done|done|done| |done].
  rewrite Hhints. by apply Hc'.
Qed.

(** ** The stores of a core *)

(** The header of the tree it was written for. *)
Definition head_matches blocks (tree : MerkleTree) (ht : HeaderTree) : Prop :=
  ht_length ht = zlen blocks /\ ht_fork ht = mt_fork tree /\
  ht_signature ht = match mt_signature tree with Some sig => sig_to_bytes sig | None => [] end.

(** Stores with the bytes [ft] of the tree and [fb] of the bitfield, the header
    [h] and the entries [es] lead to the tree, the bitfield and the header.  For
    more than 8192 blocks [DynamicBitfield::open] does not give the bits back. *)
Definition replays_to (n : Z) (ft fb : list Z) (h : Header) (es : list Entry)
    (P : MerkleTree * DynamicBitfield * Header -> Prop) : Prop :=
  n <= 8192 -> forall st, contents (st_tree st) = ft -> contents (st_bitfield st) = fb ->
  exists t0 db0 r, Core.open_tree (hd_tree h) st = (st, Ok t0) /\ Core.open_bitfield st = (st, Ok db0) /\
    Core.replay_entries t0 db0 h es st = (st, Ok r) /\ P r.

Definition replays blocks (ft fb : list Z) (tree : MerkleTree) (db : DynamicBitfield) (header h : Header)
    (es : list Entry) : Prop :=
  replays_to (zlen blocks) ft fb h es (recovered blocks ft fb tree db header).

(** One entry more. *)
Lemma replays_to_snoc n n' ft fb h es e (P P' : MerkleTree * DynamicBitfield * Header -> Prop) :
  replays_to n ft fb h es P -> n <= n' ->
  (forall r st, P r -> contents (st_tree st) = ft ->
     exists r', Core.replay_entry r.1.1 r.1.2 r.2 e st = (st, Ok r') /\ P' r') ->
  replays_to n' ft fb h (es ++ [e]) P'.
Proof.
  intros Hrep Hle Hstep Hn st Hft Hfb.
  destruct (Hrep ltac:(lia) st Hft Hfb) as (t0 & db0 & [[t db] hd] & Hot & Hob & Hes & HP).
  destruct (Hstep _ st HP Hft) as (r' & Hr & HP'). exists t0, db0, r'. split_and!; [done..| |done].
  by rewrite (replay_entries_snoc _ _ _ _ _ _ _ _ _ _ Hes).
Qed.

(** Stores that were just flushed give back the roots and the bits. *)
Lemma replays_to_flushed blocks ft fb tree db header (P : MerkleTree * DynamicBitfield * Header -> Prop) :
  roots_stored blocks ft -> log_fits blocks -> bits_stored (zlen blocks) db fb -> unflushed db = [] ->
  (forall k, zlen blocks <= k -> dbit db k = false) -> head_matches blocks tree (hd_tree header) ->
  (forall db0, dyn_wf db0 -> (forall k, 0 <= k -> dbit db0 k = dbit db k) -> bits_stored (zlen blocks) db0 fb ->
     P (opened_tree blocks (hd_tree header) (mt_signature tree), db0, header)) ->
  replays_to (zlen blocks) ft fb header [] P.
Proof.
  intros Hroots Hfit Hst Hnil Hover (Hlen & Hfk & Hsg) HP Hn st Hft Hfb.
  set (fs := fun k => contents (get_random_access st k)). assert (holds st fs) as Hh by done.
  destruct (bits_stored_open _ _ _ Hst Hnil Hn Hover) as (db0 & Ho & Hwf0 & Hnil0 & Hbits).
  pose proof (bs_pages _ _ _ Hst) as (m & Hm & Hz & _).
  destruct (open_tree_ok blocks (hd_tree header) (mt_signature tree) st fs
    (fun t st' => st' = st /\ t = opened_tree blocks (hd_tree header) (mt_signature tree)))
    as (st1 & t0 & Hot & -> & ->); [done|by rewrite <-Hft in Hroots|done|done| |done|].
  { rewrite Hsg. destruct (mt_signature tree) as [sig|]; [|done].
    pose proof (sig_bytes sig) as [_ ->]. cbn. split; [done|]. apply sig_from_to. }
  destruct (open_bitfield_ok st fs db0 (fun db' st' => st' = st /\ db' = db0)) as (st2 & db1 & Hob & -> & ->);
    [done|exists (1024 * m); split; [lia|]|by rewrite <-Hfb in Ho|done|].
  { change (fs Bitfield) with (contents (st_bitfield st)). rewrite Hfb. lia. }
  eexists _, _, _. split_and!; [done..|]. apply HP; [done..|].
  destruct Hst as [Hu8 Hpages _ Hst]. constructor; [done|done|rewrite Hnil0; by intros i ?%elem_of_nil|].
  intros k Hk _. rewrite Hbits by done. apply Hst; [done|]. rewrite Hnil. by intros ?%elem_of_nil.
Qed.

Lemma replays_flushed blocks ft fb tree db header :
  tree_inv blocks tree ft -> mt_unflushed tree = ∅ -> log_fits blocks ->
  bits_stored (zlen blocks) db fb -> unflushed db = [] ->
  (forall k, zlen blocks <= k -> dbit db k = false) -> head_matches blocks tree (hd_tree header) ->
  is_u64 (hh_contiguous_length (hd_hints header)) ->
  replays blocks ft fb tree db header header [].
Proof.
  intros Ht Hun Hfit Hst Hnil Hover Hm Hhint.
  assert (all_stored blocks ft) as Hall by (intros d o Hc; apply Ht; [done|]; by rewrite Hun).
  apply (replays_to_flushed blocks ft fb tree db); try done; [by apply all_roots_stored|].
  intros db0 Hwf0 Hbits Hst0. destruct Hm as (_ & Hfk & _). constructor; cbn; try done. by apply opened_tree_inv.
Qed.

Lemma replays_append blocks more ft fb tree tree' db db' header header' header'' cs u sig hash e h es :
  replays blocks ft fb tree db header h es ->
  log_fits (blocks ++ more) -> no_blank (blocks ++ more) ->
  cs_append blocks more cs -> more <> [] -> cs_original_tree_fork cs = mt_fork tree ->
  cs_signature cs = Some sig -> cs_hash cs = Some hash -> Changeset.hash cs = Ok hash ->
  Tree.commit tree cs = Ok tree' ->
  Oplog.update_header_with_changeset cs (Some u) header = Ok (header', e) ->
  0 <= bu_start u -> 0 <= bu_length u -> bu_start u + bu_length u < 2 ^ 63 ->
  bu_start u + bu_length u <= zlen (blocks ++ more) ->
  (forall k, 2 ^ 63 <= k -> dbit db k = false) ->
  (forall k, 0 <= k -> dbit db' k = if decide (bu_start u <= k < bu_start u + bu_length u)
                                   then negb (bu_drop u) else dbit db k) ->
  up_to_hint header'' header' -> replays (blocks ++ more) ft fb tree' db' header'' h (es ++ [e]).
Proof.
  intros Hrep Hfit Hnb Hcs Hne Hof Hsig Hhash Hhok Hc Hue Hs Hl Hb Hmore Hend Hd' Hup.
  eapply replays_to_snoc; [exact Hrep|rewrite zlen_app; pose proof (zlen_nonneg more); lia|]. intros r st Hrec <-.
  destruct (replay_append blocks more fb tree tree' db db' header header' cs u sig hash e r st Hrec)
    as (r' & Hr & Hrec'); [done..|].
  exists r'. split; [done|by eapply recovered_header].
Qed.

Lemma replays_clear blocks ft fb tree db db' header header' u h es :
  replays blocks ft fb tree db header h es -> bu_drop u = true -> (forall k, zlen blocks <= k -> dbit db k = false) ->
  0 <= bu_start u -> 0 <= bu_length u -> bu_start u + bu_length u < 2 ^ 63 ->
  (forall k, 2 ^ 63 <= k -> dbit db k = false) ->
  (forall k, 0 <= k -> dbit db' k = if decide (bu_start u <= k < bu_start u + bu_length u)
                                   then false else dbit db k) ->
  up_to_hint header' header ->
  replays blocks ft fb tree db' header' h (es ++ [mkEntry [] [] None (Some u)]).
Proof.
  intros Hrep Hu Hover Hs Hl Hb Hend Hd' Hup. eapply replays_to_snoc; [exact Hrep|lia|]. intros r st Hrec _.
  destruct (replay_clear blocks ft fb tree db db' header r u st Hrec) as (r' & Hr & Hrec'); [done..|].
  exists r'. split; [done|by eapply recovered_header].
Qed.
End Open.
