(* ===== verification/CoreView.v ===== *)
(** * What the hypercore promises

    The invariant [core_live] ties the parts of a [Hypercore], one that was just
    opened included, to the blocks of the log it stands for; [core_inv] adds what
    holds as long as it was not opened again.  The lemmas show how each operation
    of [Core] changes those blocks. *)

From stdpp Require Import base list gmap.
From Stdlib Require Import ZArith Lia Bool.
From S2P Require Import Prelude FlatTree Common BitfieldFixed BitfieldDynamic.
From S2P Require Import CompactEncoding Encoding Crypto OplogEntry Changeset Storage.
From S2P Require Import Oplog MerkleTree MerkleView MerkleProof BitfieldStore Core CoreOpen.
Open Scope Z_scope.

(** ** Headers and entries fit their place *)

Section View.
Context `{FT : FlatTree} {FL : FlatTreeLaws FT} `{CE : CompactEncoding} {CL : CompactEncodingLaws CE}
  `{B2 : Blake2b} {BL : Blake2bLaws B2} `{ED : Ed25519} {EL : Ed25519Laws ED} `{CR : Crc32}
  {CRL : Crc32Laws CR} `{RA : RandomAccess} {RL : RandomAccessLaws RA}
  `{IO : IntMapOrder} {IOL : IntMapOrderLaws IO}.
Implicit Types (blocks : list (list Z)) (s : Hypercore) (fs : Store -> list Z).

Definition header_small (h : Header) : Prop :=
  header_wf h /\ zlen (ht_root_hash (hd_tree h)) <= 32 /\ zlen (ht_signature (hd_tree h)) <= 64 /\
  zlen (strings_bytes (hd_user_data h)) + zlen (strings_bytes (hh_reorgs (hd_hints h))) <= 3000.

Lemma buffer_bytes_length bs n : zlen bs <= n -> n <= 252 -> zlen (buffer_bytes bs) <= n + 1.
Proof.
  intros Hb Hn. pose proof (zlen_nonneg bs). rewrite zlen_buffer_bytes, uint_bytes_small by lia.
  change (zlen [_]) with 1. lia.
Qed.

Lemma header_small_fits h : header_small h -> header_fits h.
Proof.
  intros (Hwf & Hh & Hsig & Hstr). split; [done|].
  destruct Hwf as ([_ Hk] & (_ & _ & [_ Hn] & [_ Hp]) & _ & (Hf & Hl & _) & _ & Hc).
  pose proof (vk_bytes32 (kp_public (hd_key_pair h))) as [_ Hpk].
  assert (zlen (partial_keypair_bytes (hd_key_pair h)) <= 98) as Hkp.
  { unfold partial_keypair_bytes. destruct (kp_secret (hd_key_pair h)) as [sk|];
      rewrite ?zlen_app, ?Hpk; [pose proof (proj2 (sk_bytes32 sk)) as ->|];
      change (zlen [_]) with 1; lia. }
  pose proof (uint_bytes_length _ Hf). pose proof (uint_bytes_length _ Hl).
  pose proof (uint_bytes_length _ Hc).
  pose proof (buffer_bytes_length _ 32 Hh). pose proof (buffer_bytes_length _ 64 Hsig).
  unfold header_bytes, manifest_bytes, manifest_signer_bytes, header_tree_bytes, header_hints_bytes.
  rewrite !zlen_app, Hk, Hn, Hp. change (zlen [_]) with 1. unfold HEADER_SIZE. lia.
Qed.

Lemma header_small_contiguous h c :
  header_small h -> is_u64 c -> header_small (set_contiguous_length c h).
Proof. intros ((? & ? & ? & ? & ? & ?) & ? & ? & ?) Hc. by split_and!. Qed.

Lemma header_small_hint h h' :
  header_small h' -> up_to_hint h h' -> is_u64 (hh_contiguous_length (hd_hints h)) -> header_small h.
Proof.
  intros ((? & ? & ? & ? & ? & ?) & ? & ? & ?) Hu Hc. destruct (up_to_hint_parts _ _ Hu) as (E1 & E2 & E3 & E4 & E5 & E6).
  unfold header_small, header_wf, header_hints_wf. rewrite E1, E2, E4, E5, E6. by split_and!.
Qed.

Lemma Header_new_small kp : header_small (Header_new kp).
Proof. split; [apply Header_new_wf|]. split_and!; cbn; try done. rewrite strings_bytes_nil. done. Qed.

Lemma nodes_bytes_length ns : nodes_wf ns -> zlen (nodes_bytes ns) <= 9 + 50 * zlen ns.
Proof.
  intros [Hwf Hl]. unfold nodes_bytes. rewrite zlen_app.
  pose proof (uint_bytes_length _ Hl) as Hc.
  assert (zlen (concat (node_bytes <$> ns)) <= 50 * zlen ns); [|lia]. clear Hl Hc.
  induction Hwf as [|n ns (Hi & Hn & [_ Hh] & _) _ IH]; [done|].
  rewrite fmap_cons. cbn [concat]. rewrite zlen_app, zlen_cons. unfold node_bytes at 1.
  rewrite !zlen_app, Hh. pose proof (uint_bytes_length _ Hi). pose proof (uint_bytes_length _ Hn). lia.
Qed.

(** The entry of a changeset or of a cleared range. *)
Lemma small_entry_fits ns up u :
  nodes_wf ns -> zlen ns <= 2 ^ 24 -> opt_wf entry_tree_upgrade_wf up ->
  (forall x, up = Some x -> zlen (etu_signature x) <= 64) -> opt_wf bitfield_update_wf u ->
  entry_fits (mkEntry [] ns up u).
Proof.
  intros Hns Hlen Hup Hsig Hu. split.
  { split_and!; [|done..]. cbn. split; [constructor|done]. }
  pose proof (nodes_bytes_length ns Hns). pose proof (zlen_nonneg ns).
  unfold entry_bytes, entry_body_bytes. cbn [en_user_data en_tree_nodes en_tree_upgrade en_bitfield is_empty negb].
  rewrite !zlen_app. change (zlen [_]) with 1. rewrite zlen_nil.
  assert (zlen (if negb (is_empty ns) then nodes_bytes ns else []) <= 9 + 50 * zlen ns).
  { destruct (negb (is_empty ns)); [done|]. rewrite zlen_nil. lia. }
  assert (zlen (opt_bytes entry_tree_upgrade_bytes up) <= 92).
  { destruct up as [x|]; [|done]. destruct Hup as (Hf & Ha & Hl & _).
    specialize (Hsig x eq_refl). cbn [opt_bytes]. unfold entry_tree_upgrade_bytes.
    pose proof (uint_bytes_length _ Hf). pose proof (uint_bytes_length _ Ha).
    pose proof (uint_bytes_length _ Hl). pose proof (buffer_bytes_length _ 64 Hsig).
    rewrite !zlen_app. lia. }
  assert (zlen (opt_bytes bitfield_update_bytes u) <= 19).
  { destruct u as [x|]; [|done]. destruct Hu as (Hs & Hl). cbn [opt_bytes].
    unfold bitfield_update_bytes. pose proof (uint_bytes_length _ Hs).
    pose proof (uint_bytes_length _ Hl). rewrite !zlen_app. change (zlen [_]) with 1. lia. }
  lia.
Qed.

(** ** The invariant *)

Definition block_at blocks (k : Z) : list Z := default [] (blocks !! Z.to_nat k).

(** The stores hold the files [fs], the tree and the bitfield stand for [blocks],
    and the bytes of the blocks the bitfield has are in the data store.  Of an
    empty block there is nothing to store: the data file may end before it. *)
Record core_base blocks fs s : Prop := {
  ci_holds : holds (hc_storage s) fs;
  ci_fits : log_fits blocks;
  ci_blank : no_blank blocks;
  ci_tree : tree_inv blocks (hc_tree s) (fs Common.Tree);
  ci_bits : dyn_wf (hc_bitfield s);
  ci_held k : 0 <= k -> dbit (hc_bitfield s) k = true -> k < zlen blocks /\
    (block_at blocks k <> [] -> at_offset (fs Data) (byte_sum blocks k) (block_at blocks k));
}.

(** What reading needs: the data file reaches all the blocks the bitfield has. *)
Definition all_data blocks fs s : Prop :=
  forall k, 0 <= k -> dbit (hc_bitfield s) k = true -> at_offset (fs Data) (byte_sum blocks k) (block_at blocks k).

Record core_read blocks fs s : Prop := { cr_base :> core_base blocks fs s; cr_data : all_data blocks fs s }.

Lemma ci_data blocks fs s : core_read blocks fs s -> forall k, 0 <= k -> dbit (hc_bitfield s) k = true ->
  k < zlen blocks /\ at_offset (fs Data) (byte_sum blocks k) (block_at blocks k).
Proof. intros [Hb Hd] k Hk Hbit. split; [by apply (ci_held _ _ _ Hb)|by apply Hd]. Qed.

(** The core stands for [blocks], and at most [budget] operations come before
    the next flush. *)
Record core_pre (budget : Z) blocks fs s : Prop := {
  ci_read :> core_base blocks fs s;
  ci_fork : is_u64 (mt_fork (hc_tree s));
  ci_stored : bits_stored (zlen blocks) (hc_bitfield s) (fs Bitfield);
  ci_oplog : headed (hc_oplog s) (fs Oplog) /\ counted (hc_oplog s) /\
    op_entries_length (hc_oplog s) + hc_skip_flush_count s <= budget;
  ci_skip : 0 <= hc_skip_flush_count s;
  ci_header : header_small (hc_header s);
  ci_keys : hd_key_pair (hc_header s) = hc_key_pair s;
  ci_head : head_matches blocks (hc_tree s) (hd_tree (hc_header s));
}.

(** What is on the stores is enough: replaying the entries of the oplog file
    leads to the state of the core. *)
Definition durable blocks fs s : Prop :=
  exists o h es, op_header_bits o = op_header_bits (hc_oplog s) /\ oplog_file o h es (fs Oplog) /\
    replays blocks (fs Common.Tree) (fs Bitfield) (hc_tree s) (hc_bitfield s) (hc_header s) h es.

(** The counters of the oplog are those of the entries in its file. *)
Definition in_step fs s : Prop := exists h es, oplog_file (hc_oplog s) h es (fs Oplog).

(** The contiguous length of the header is the one of the bitfield. *)
Definition hint_exact s : Prop := contiguous (hc_bitfield s) (hh_contiguous_length (hd_hints (hc_header s))).

(** A core that runs or was just opened: either the next operation flushes, or
    the oplog is in step with its file. *)
Record core_live (budget : Z) blocks fs s : Prop := {
  cl_pre :> core_pre budget blocks fs s;
  cl_durable : durable blocks fs s;
  cl_step : 0 < hc_skip_flush_count s -> in_step fs s;
}.

(** A core that was not opened again since it was created. *)
Record core_ok (budget : Z) blocks fs s : Prop := {
  co_live :> core_live budget blocks fs s;
  co_data : all_data blocks fs s;
  co_step : in_step fs s;
  co_contiguous : hint_exact s;
}.

(** All blocks of the core can be read. *)
Record core_full (budget : Z) blocks fs s : Prop := {
  cf_live :> core_live budget blocks fs s;
  cf_data : all_data blocks fs s;
}.

(** The core is flushed after at most three operations that were not. *)
Abbreviation core_inv := (core_ok 3).

(** In an operation, before the flush: what is on the stores matters only if
    there is none. *)
Definition core_mid b blocks fs s : Prop :=
  core_pre (b + 1) blocks fs s /\ (0 < hc_skip_flush_count s -> durable blocks fs s /\ in_step fs s).

Lemma in_step_entries fs s h es o :
  in_step fs s -> oplog_file o h es (fs Oplog) -> oplog_file (hc_oplog s) h es (fs Oplog).
Proof. intros (h' & es' & Ho) Hf. by destruct (oplog_file_unique _ _ _ _ _ _ _ Hf Ho) as [-> ->]. Qed.

Lemma core_pre_counted b b' blocks fs s :
  core_pre b blocks fs s -> (op_entries_length (hc_oplog s) + hc_skip_flush_count s <= b') -> core_pre b' blocks fs s.
Proof. intros [] Hb. constructor; try done. by split_and!; try apply ci_oplog0. Qed.

Lemma core_live_within b b' blocks fs s : core_live b blocks fs s -> b <= b' -> core_live b' blocks fs s.
Proof.
  intros [Hpre ? ?] Hb. constructor; try done. eapply core_pre_counted; [done|]. destruct (ci_oplog _ _ _ _ Hpre). lia.
Qed.

Lemma core_full_read b blocks fs s : core_full b blocks fs s -> core_read blocks fs s.
Proof. intros [Hl Hd]. by split; [apply Hl|]. Qed.

Lemma core_ok_read b blocks fs s : core_ok b blocks fs s -> core_read blocks fs s.
Proof. intros [Hl Hd _ _]. by split; [apply Hl|]. Qed.

Lemma core_ok_entries b blocks fs s :
  core_ok b blocks fs s -> exists h es, oplog_file (hc_oplog s) h es (fs Oplog) /\ zlen es + hc_skip_flush_count s <= b.
Proof.
  intros [Hl _ (h & es & Ho) _]. exists h, es. split; [done|]. destruct (ci_oplog _ _ _ _ Hl) as (_ & _ & Hb).
  pose proof Ho as (_ & _ & _ & _ & _ & Hn & _). lia.
Qed.

Lemma core_bits_below b blocks fs s k :
  core_pre b blocks fs s -> zlen blocks <= k -> dbit (hc_bitfield s) k = false.
Proof.
  intros Hpre Hk. destruct (dbit (hc_bitfield s) k) eqn:Hd; [|done]. pose proof (zlen_nonneg blocks).
  destruct (ci_held _ _ _ Hpre k) as [Hlt _]; [lia|done|lia].
Qed.

(** After a flush nothing has to be replayed. *)
Definition flushed fs s : Prop :=
  oplog_file (hc_oplog s) (hc_header s) [] (fs Oplog) /\ mt_unflushed (hc_tree s) = ∅ /\ unflushed (hc_bitfield s) = [].

Lemma flushed_live b blocks fs s :
  core_pre b blocks fs s -> flushed fs s -> core_live b blocks fs s /\ in_step fs s.
Proof.
  intros Hpre (Ho & Ht & Hb). split; [|by eexists _, _]. constructor; [done| |by eexists _, _].
  exists (hc_oplog s), (hc_header s), []. split_and!; [done..|].
  apply replays_flushed; try done; try apply Hpre. intros k Hk. by eapply core_bits_below.
Qed.

(** Events do not touch the log. *)
Lemma core_live_event b blocks fs s e : core_live b blocks fs s -> core_live b blocks fs (push_event e s).
Proof. intros [[[] ???????] ??]. constructor; [|done..]. by constructor; [constructor|..]. Qed.
Lemma core_ok_event b blocks fs s e : core_ok b blocks fs s -> core_ok b blocks fs (push_event e s).
Proof. intros []. constructor; [by apply core_live_event|done..]. Qed.

(** What flushing leaves alone. *)
Definition same_view s s' : Prop :=
  hc_key_pair s' = hc_key_pair s /\ hc_header s' = hc_header s /\ hc_events s' = hc_events s /\
  mt_fork (hc_tree s') = mt_fork (hc_tree s) /\
  mt_signature (hc_tree s') = mt_signature (hc_tree s) /\
  (forall k, 0 <= k -> dbit (hc_bitfield s') k = dbit (hc_bitfield s) k).

Lemma core_flush_ok s fs k infos :
  holds (hc_storage s) fs -> Forall (writes_to k) infos ->
  wp (core_flush_infos infos) s (fun _ s' => exists st, s' = set_storage st s /\
    holds st (update_store fs k (file_effects (fs k) infos))).
Proof.
  intros Hh Hw. destruct (flush_writes_ok _ _ _ _ Hh Hw) as (st & Hf & Hh').
  exists (set_storage st s), tt. split; [|by exists st]. unfold core_flush_infos. by rewrite Hf.
Qed.

Lemma page_infos_writes db :
  dyn_wf db -> Forall (writes_to Bitfield) (page_info (pages db) <$> unflushed db).
Proof.
  intros Hwf. apply Forall_fmap, Forall_forall. intros i Hi.
  apply (dw_dirty _ Hwf) in Hi as (p & Hp & _). apply (dw_page _ Hwf) in Hp as [_ Hp].
  split; [done|]. split; cbn; [lia|done].
Qed.

Lemma node_infos_writes infos :
  Forall (fun info => exists n, 0 <= node_index n /\ info = node_write n) infos ->
  Forall (writes_to Common.Tree) infos.
Proof.
  intros H. eapply Forall_impl; [exact H|]. intros info (n & Hn & ->).
  split; [done|]. split; cbn; [lia|done].
Qed.

Lemma contiguous_ext db db' c :
  (forall k, 0 <= k -> dbit db' k = dbit db k) -> contiguous db c -> contiguous db' c.
Proof.
  intros Hd (H0 & H1 & H2). split_and!; [done| |by rewrite Hd].
  intros k Hk. rewrite Hd by lia. by apply H1.
Qed.

(** *** The operations in terms of what their parts return *)

(** The state with new parts. *)
Definition with_parts s (st : Storage) (o : Oplog_) (t : MerkleTree) (db : DynamicBitfield) (h : Header) : Hypercore :=
  mkHypercore (hc_key_pair s) st o t db (hc_skip_flush_count s) h (hc_events s).

Lemma flush_all_run s fs ct db binfos t tinfos o oinfos :
  holds (hc_storage s) fs ->
  Dynamic.flush (hc_bitfield s) = Ok (db, binfos) -> Forall (writes_to Bitfield) binfos ->
  Tree.flush (hc_tree s) = Ok (t, tinfos) -> Forall (writes_to Common.Tree) tinfos ->
  Oplog.flush (hc_oplog s) (hc_header s) ct = Ok (o, oinfos) -> Forall (writes_to Oplog) oinfos ->
  wp (Core.flush_bitfield_and_tree_and_oplog ct) s (fun _ s' => exists st fs',
    s' = with_parts s st o t db (hc_header s) /\ holds st fs' /\ fs' Data = fs Data /\
    fs' Bitfield = file_effects (fs Bitfield) binfos /\ fs' Common.Tree = file_effects (fs Common.Tree) tinfos /\
    fs' Oplog = file_effects (fs Oplog) oinfos).
Proof.
  intros Hh Hb Hbw Ht Htw Ho How. unfold Core.flush_bitfield_and_tree_and_oplog. wp_step. wp_step. wp_step.
  apply wp_bind. eapply wp_mono; [apply core_flush_ok; [exact Hh|exact Hbw]|].
  intros _ ? (st1 & -> & Hh1). wp_step. cbn [hc_tree set_storage set_bitfield]. wp_step. wp_step.
  apply wp_bind. eapply wp_mono; [apply core_flush_ok; [exact Hh1|exact Htw]|].
  intros _ ? (st2 & -> & Hh2). wp_step. wp_step.
  cbn [hc_oplog hc_header set_storage set_bitfield set_tree]. wp_step. wp_step.
  eapply wp_mono; [apply core_flush_ok; [exact Hh2|exact How]|].
  intros _ ? (st3 & -> & Hh3). eexists st3, _. split; [done|]. split; [exact Hh3|].
  by rewrite update_store_same, !update_store_other, update_store_same by done.
Qed.

Lemma maybe_flush_run s (Q : unit -> Hypercore -> Prop) :
  0 <= hc_skip_flush_count s ->
  wp (Core.flush_bitfield_and_tree_and_oplog false) (set_skip_flush_count 3 s) Q ->
  (0 < hc_skip_flush_count s -> Q tt (set_skip_flush_count (hc_skip_flush_count s - 1) s)) ->
  wp Core.maybe_flush s Q.
Proof.
  intros Hs Hflush Hskip. unfold Core.maybe_flush, Core.should_flush_bitfield_and_tree_and_oplog.
  apply wp_bind. wp_step. wp_step. destruct ((hc_skip_flush_count s =? 0) || _) eqn:Hf.
  - by wp_step; wp_step.
  - apply orb_false_iff in Hf as [Hne%Z.eqb_neq _].
    apply wp_bind. eapply wp_lift; [by apply checked_sub_Ok; lia|]. wp_step. wp_step. wp_step. apply Hskip. lia.
Qed.

Lemma log_changeset_run s fs cs (u : option BitfieldUpdate) h' oinfos o' db' h'' t' (Q : unit -> Hypercore -> Prop) :
  holds (hc_storage s) fs ->
  Oplog.append_changeset (hc_oplog s) cs u false (hc_header s) = Ok (o', mkCreateHeaderOutcome h' oinfos) ->
  Forall (writes_to Oplog) oinfos ->
  match u with
  | Some u => Dynamic.update (hc_bitfield s) u = Ok db' /\ Core.update_contiguous_length h' db' u = Ok h''
  | None => db' = hc_bitfield s /\ h'' = h'
  end ->
  Tree.commit (hc_tree s) cs = Ok t' ->
  (forall st, holds st (update_store fs Oplog (file_effects (fs Oplog) oinfos)) ->
     wp Core.maybe_flush (with_parts s st o' t' db' h'') Q) ->
  wp (Core.log_changeset cs u) s Q.
Proof.
  intros Hh Hap How Hu Ht HQ. unfold Core.log_changeset. wp_step. wp_step.
  apply wp_bind. eapply wp_lift; [exact Hap|]. wp_step. apply wp_bind.
  eapply wp_mono; [apply core_flush_ok; [exact Hh|exact How]|]. cbn [oc_infos_to_flush oc_header].
  intros _ ? (st & -> & Hst). wp_step. apply wp_bind. destruct u as [u|].
  - destruct Hu as [Hdb Hhd]. wp_step. cbn [hc_bitfield hc_header hc_tree set_header set_storage set_oplog].
    wp_step. wp_step. wp_step. wp_step. wp_step. wp_step. wp_step. wp_step. by apply HQ.
  - destruct Hu as [-> ->]. wp_step. wp_step. cbn [hc_tree set_header set_storage set_oplog]. wp_step. wp_step.
    by apply HQ.
Qed.

(** Flushing keeps the log, writes the header and empties the list of entries. *)
Lemma flush_all_ok budget blocks fs s ct :
  core_pre budget blocks fs s ->
  wp (Core.flush_bitfield_and_tree_and_oplog ct) s (fun _ s' => exists fs' infos,
    core_live (hc_skip_flush_count s) blocks fs' s' /\ in_step fs' s' /\ same_view s s' /\ fs' Data = fs Data /\
    hc_skip_flush_count s' = hc_skip_flush_count s /\
    Oplog.flush (hc_oplog s) (hc_header s) ct = Ok (hc_oplog s', infos) /\
    fs' Oplog = file_effects (fs Oplog) infos).
Proof.
  intros Hpre. pose proof Hpre as [[Hh Hfit Hnb Ht Hb Hd] Hfk Hst (Ho & _) Hskip Hhd Hk Hm].
  destruct (dyn_flush_Ok _ Hb) as (db' & Hbf & Hb' & Hnil & Hbits).
  pose proof (bits_stored_flush _ _ db' _ Hst Hb Hnil Hbits) as Hst'.
  destruct (flush_ok _ _ _ Ht Hfit) as (t' & tinfos & Htf & Ht' & Hempty & Hfork & Hsig & Htw).
  assert (head_matches blocks t' (hd_tree (hc_header s))) as Hm'
    by (unfold head_matches; by rewrite Hfork, Hsig).
  destruct (flush_headed _ _ (hc_header s) ct Ho (header_small_fits _ Hhd))
    as (o' & oinfos & Hof & Ho' & How).
  eapply wp_mono; [eapply flush_all_run; [exact Hh|exact Hbf|by apply page_infos_writes|exact Htf|
    by apply node_infos_writes|exact Hof|exact How]|].
  intros _ ? (st & fs' & -> & Hh' & Efd & Efb & Eft & Efo). exists fs', oinfos.
  set (s' := with_parts s st o' t' db' (hc_header s)).
  enough (core_live (hc_skip_flush_count s) blocks fs' s' /\ in_step fs' s') as [Hl Hs] by by split_and!.
  rewrite <-Efo in Ho'.
  pose proof (oplog_file_counted _ _ _ _ Ho' eq_refl) as Hcnt. pose proof Ho' as (_ & _ & _ & _ & _ & Hlen & _).
  apply flushed_live; [|done..]. subst s'.
  constructor; [constructor|..]; cbn [hc_storage hc_tree hc_bitfield hc_oplog hc_skip_flush_count
    hc_header hc_key_pair with_parts]; rewrite ?Efd, ?Efb, ?Eft; try done.
  - intros k Hk0. rewrite Hbits by done. by apply Hd.
  - by rewrite Hfork.
  - split_and!; [by eapply oplog_file_headed|done|]. rewrite Hlen, zlen_nil. lia.
Qed.

(** The flush every fourth time, or when the entries take too much room. *)
Lemma maybe_flush_ok b blocks fs s :
  core_mid b blocks fs s -> 3 <= b ->
  wp Core.maybe_flush s (fun _ s' => exists fs', core_live b blocks fs' s' /\ in_step fs' s' /\ same_view s s' /\
    fs' Data = fs Data).
Proof.
  intros [Hpre Hdur] Hb3. apply maybe_flush_run; [apply (ci_skip _ _ _ _ Hpre)|..].
  - assert (core_pre (b + 4) blocks fs (set_skip_flush_count 3 s)) as Hpre'.
    { destruct Hpre as [[] ? ? (Ho & Hc & Hn) Hs ???]. constructor; [by constructor|..]; try done.
      split_and!; [done..|]. cbn. lia. }
    eapply wp_mono; [by eapply flush_all_ok|].
    intros _ s' (fs' & infos & Hinv & Hstep & Hsame & Hdat & _). exists fs'. split_and!; try done.
    eapply core_live_within; [exact Hinv|]. cbn. lia.
  - intros Hpos. destruct (Hdur Hpos) as [Hd Hst]. exists fs. split_and!; try done. constructor; [|done..].
    destruct Hpre as [[] ? ? (Ho & Hc & Hn) Hs ???]. constructor; [by constructor|..]; try done.
    + split_and!; [done..|]. cbn. lia.
    + cbn. lia.
Qed.

Lemma same_view_hint s s' : same_view s s' -> hint_exact s -> hint_exact s'.
Proof. intros (_ & Hh & _ & _ & _ & Hd) Hc. unfold hint_exact. rewrite Hh. by eapply contiguous_ext. Qed.

(** ** Appending *)

Lemma append_all_ok blocks batch : forall more cs bl,
  cs_append blocks more cs -> log_fits (blocks ++ more ++ batch) ->
  cs_batch_length cs = zlen more -> 0 <= bl -> bl + zlen (concat batch) < 2 ^ 64 ->
  exists cs', Core.append_all cs bl batch = Ok (cs', bl + zlen (concat batch)) /\
    cs_append blocks (more ++ batch) cs' /\ cs_batch_length cs' = zlen (more ++ batch) /\
    cs_fork cs' = cs_fork cs /\ cs_original_tree_fork cs' = cs_original_tree_fork cs.
Proof.
  induction batch as [|data batch IH]; intros more cs bl Hcs Hfit Hbl H0 Hb.
  { exists cs. rewrite app_nil_r. cbn [Core.append_all concat]. rewrite zlen_nil, Z.add_0_r. done. }
  cbn [Core.append_all concat] in *. rewrite zlen_app in *.
  pose proof (zlen_nonneg data). pose proof (zlen_nonneg (concat batch)).
  assert (log_fits (blocks ++ more ++ [data])) as Hfit1.
  { apply log_fits_prefix with batch. by rewrite <-!app_assoc. }
  assert (zlen more + 1 < 2 ^ 57) as Hm.
  { destruct Hfit1 as [Hl _]. rewrite !zlen_app in Hl. change (zlen [data]) with 1 in Hl.
    pose proof (zlen_nonneg blocks). lia. }
  destruct (cs_append_snoc _ _ _ data Hcs Hfit1) as (cs1 & -> & Hcs1 & Hbl1 & Hf1 & Ho1); [lia|].
  rewrite bind_Ok. rewrite checked_add_Ok, bind_Ok by lia.
  destruct (IH (more ++ [data]) cs1 (bl + zlen data)) as (cs2 & -> & Hcs2 & Hbl2 & Hf2 & Ho2).
  - done.
  - by rewrite <-app_assoc.
  - rewrite zlen_app. change (zlen [data]) with 1. lia.
  - lia.
  - lia.
  - exists cs2. rewrite <-app_assoc in *. split_and!; [by rewrite Z.add_assoc|done|done|congruence..].
Qed.

Lemma merkle_node_wf blocks d o :
  complete (zlen blocks) d o -> log_fits blocks -> node_wf (merkle_at blocks d o).
Proof.
  intros Hc Hfit. pose proof (complete_node_at _ _ _ Hc). pose proof Hfit as [Hn _].
  split_and!; [|by apply merkle_at_u64|apply merkle_hash32|apply merkle_new].
  rewrite merkle_at_index by apply Hc. unfold is_u64. lia.
Qed.

(** A block of a piece of the log in its bytes. *)
Lemma at_offset_block f o more j :
  0 <= o -> 0 <= j < zlen more -> at_offset f o (concat more) ->
  at_offset f (o + byte_sum more j) (block_at more j).
Proof.
  intros Ho Hj Hat. unfold zlen in Hj. destruct (lookup_lt_is_Some_2 more (Z.to_nat j)) as [b Hb]; [lia|].
  unfold block_at. rewrite Hb. cbn [default]. rewrite <-(take_drop_middle _ _ _ Hb) in Hat.
  rewrite concat_app in Hat. apply at_offset_app in Hat as [_ Hat]; [|done].
  cbn [concat] in Hat. apply at_offset_app in Hat as [Hat _]; [|pose proof (zlen_nonneg (concat (take (Z.to_nat j) more))); lia].
  exact Hat.
Qed.

Lemma block_at_app_l blocks more k : 0 <= k < zlen blocks -> block_at (blocks ++ more) k = block_at blocks k.
Proof. intros Hk. unfold block_at. rewrite lookup_app_l; [done|]. unfold zlen in Hk. lia. Qed.
Lemma block_at_app_r blocks more k :
  zlen blocks <= k -> block_at (blocks ++ more) k = block_at more (k - zlen blocks).
Proof.
  intros Hk. unfold block_at. pose proof (zlen_nonneg blocks).
  rewrite lookup_app_r by (unfold zlen in *; lia). do 2 f_equal. unfold zlen in *. lia.
Qed.
Lemma byte_sum_app_r blocks more k :
  zlen blocks <= k -> byte_sum (blocks ++ more) k = zlen (concat blocks) + byte_sum more (k - zlen blocks).
Proof.
  intros Hk. unfold byte_sum, ztake. pose proof (zlen_nonneg blocks).
  rewrite take_app_ge by (unfold zlen in *; lia). rewrite concat_app, zlen_app. do 4 f_equal.
  unfold zlen in *. lia.
Qed.

(** The part of the invariant that an appended batch needs of the data store. *)
Definition stored_after blocks more (f : list Z) : Prop :=
  forall k, zlen blocks <= k < zlen (blocks ++ more) ->
    at_offset f (byte_sum (blocks ++ more) k) (block_at (blocks ++ more) k).

(** A changeset that is ready to be logged. *)
Record signed_append blocks more s (cs : MerkleTreeChangeset) : Prop := {
  sa_append : cs_append blocks more cs;
  sa_some : more <> [];
  sa_size : zlen more <= 2 ^ 18;
  sa_count : cs_batch_length cs = zlen more;
  sa_fork : cs_fork cs = mt_fork (hc_tree s);
  sa_old_fork : cs_original_tree_fork cs = mt_fork (hc_tree s);
  sa_hash : exists h, cs_hash cs = Some h /\ is_bytes32 h /\ Changeset.hash cs = Ok h;
  sa_sig : exists sig, cs_signature cs = Some sig;
}.

(** The header and the entry of the changeset. *)
Lemma changeset_entry_ok b blocks more fs s cs u :
  core_live b blocks fs s -> log_fits (blocks ++ more) -> signed_append blocks more s cs ->
  bitfield_update_wf u ->
  exists h' e, Oplog.update_header_with_changeset cs (Some u) (hc_header s) = Ok (h', e) /\
    entry_fits e /\ header_small h' /\ hd_key_pair h' = hd_key_pair (hc_header s) /\
    hd_hints h' = hd_hints (hc_header s) /\ ht_fork (hd_tree h') = ht_fork (hd_tree (hc_header s)) /\
    ht_length (hd_tree h') = zlen (blocks ++ more) /\
    exists sig, cs_signature cs = Some sig /\ ht_signature (hd_tree h') = sig_to_bytes sig.
Proof.
  intros Hinv Hfit [Hcs Hne Hsz Hcnt Hf Hof (h & Hh & Hh32 & _) (sig & Hsig)] Hu.
  destruct Hcs as ((_ & Hl & _) & Ha & _ & Hup & Hnc & Hn & _).
  unfold Oplog.update_header_with_changeset.
  assert (cs_upgraded cs = true) as -> by (rewrite Hup; by destruct more).
  rewrite Hh, Hsig. cbn [unwrap]. rewrite !bind_Ok. eexists _, _. split; [done|].
  pose proof (zlen_nonneg (cs_nodes cs)). pose proof (sig_bytes sig) as [Hsb Hsl].
  unfold SIGNATURE_LENGTH in Hsl. pose proof (ci_fork _ _ _ _ Hinv) as Hfk.
  assert (is_bytes (sig_to_bytes sig)) as Hsby by (split; [done|lia]).
  assert (is_u64 (zlen blocks) /\ is_u64 (cs_length cs)) as [Hzb Hzl].
  { destruct Hfit as [Hz _]. rewrite Hl. rewrite zlen_app in *. pose proof (zlen_nonneg blocks).
    pose proof (zlen_nonneg more). unfold is_u64. lia. }
  split_and!; [|destruct (ci_header _ _ _ _ Hinv) as ((? & ? & ? & (? & ?) & ?) & _ & _ & ?)|done..|by exists sig].
  - apply small_entry_fits.
    + split; [|unfold is_u64; lia]. apply Forall_forall. intros x (d & o & Hc & ->)%Hn.
      by apply merkle_node_wf.
    + lia.
    + cbn. unfold entry_tree_upgrade_wf. cbn. rewrite Ha, Hf. by split_and!.
    + intros x [= <-]. cbn. lia.
    + done.
  - destruct Hh32 as [Hb32 Hl32]. assert (is_bytes h) by (split; [done|lia]).
    split_and!; cbn [hd_tree ht_root_hash ht_signature]; [|lia|lia|done]. by split_and!.
Qed.

(** The entry of an operation in the oplog; the entries before it, if they stay,
    are those that [R] holds of. *)
Lemma log_entry_run fs s e (R : Header -> list Entry -> Prop) :
  headed (hc_oplog s) (fs Oplog) -> counted (hc_oplog s) -> op_entries_length (hc_oplog s) < 2 ^ 31 -> entry_fits e ->
  (exists o h es, oplog_file o h es (fs Oplog) /\ R h es) ->
  exists o' infos, Oplog.append_entries (hc_oplog s) [e] false = Ok (o', infos) /\ Forall (writes_to Oplog) infos /\
    headed o' (file_effects (fs Oplog) infos) /\ counted o' /\
    op_entries_length o' = op_entries_length (hc_oplog s) + 1 /\
    (in_step fs s -> exists h es, oplog_file o' h (es ++ [e]) (file_effects (fs Oplog) infos) /\ R h es).
Proof.
  intros Hhead Hcnt Hbud He (o & h & es & Hf & HR).
  destruct (append_headed _ _ e false Hhead Hcnt He) as (o' & infos & Hap & Hhead' & _ & Hlen & Hbl & Hw).
  pose proof Hcnt as [Hc1 Hc2]. exists o', infos. split_and!; try done; [split; [lia|done]|].
  intros Hstep. exists h, es. split; [|done]. pose proof (in_step_entries _ _ _ _ _ Hstep Hf) as Hs.
  destruct (append_preserves _ _ _ _ e false Hs He) as (o2 & infos2 & Hap2 & Hf2 & _); [lia..|].
  rewrite Hap in Hap2. by injection Hap2 as <- <-.
Qed.

Lemma log_entry_ok b blocks fs s e :
  core_live b blocks fs s -> b < 2 ^ 31 -> entry_fits e ->
  exists o' infos, Oplog.append_entries (hc_oplog s) [e] false = Ok (o', infos) /\ Forall (writes_to Oplog) infos /\
    headed o' (file_effects (fs Oplog) infos) /\ counted o' /\
    op_entries_length o' = op_entries_length (hc_oplog s) + 1 /\
    (in_step fs s -> exists h es,
       oplog_file o' h (es ++ [e]) (file_effects (fs Oplog) infos) /\
       replays blocks (fs Common.Tree) (fs Bitfield) (hc_tree s) (hc_bitfield s) (hc_header s) h es).
Proof.
  intros Hl Hb He. destruct (ci_oplog _ _ _ _ Hl) as (Hhead & Hcnt & Hbud). pose proof (ci_skip _ _ _ _ Hl).
  destruct (cl_durable _ _ _ _ Hl) as (o & h & es & _ & Hf & Hrep).
  apply (log_entry_run fs s e (replays blocks (fs Common.Tree) (fs Bitfield) (hc_tree s) (hc_bitfield s) (hc_header s)));
    [done|done|lia|done|by exists o, h, es].
Qed.

(** The bits of the appended blocks, and the contiguous length after them. *)
Lemma append_bits_ok b blocks more fs s h :
  core_pre b blocks fs s -> log_fits (blocks ++ more) -> hd_hints h = hd_hints (hc_header s) ->
  let u := mkBitfieldUpdate false (zlen blocks) (zlen more) in
  exists db' h', Dynamic.update (hc_bitfield s) u = Ok db' /\ dyn_wf db' /\
    Core.update_contiguous_length h db' u = Ok h' /\ up_to_hint h' h /\
    (is_u64 (hh_contiguous_length (hd_hints h)) -> is_u64 (hh_contiguous_length (hd_hints h'))) /\
    (hint_exact s -> contiguous db' (hh_contiguous_length (hd_hints h'))) /\
    bits_stored (zlen (blocks ++ more)) db' (fs Bitfield) /\
    forall k, 0 <= k -> dbit db' k =
      if decide (zlen blocks <= k < zlen (blocks ++ more)) then true else dbit (hc_bitfield s) k.
Proof.
  intros Hpre [Hlen _] Hhints u. pose proof (zlen_nonneg blocks). pose proof (zlen_nonneg more). rewrite zlen_app in *.
  pose proof (ci_bits _ _ _ Hpre) as Hb.
  destruct (dyn_update_Ok (hc_bitfield s) u) as (db' & Hdb & Hb' & Hbits); [done|cbn; lia..|].
  cbn [bu_start bu_length bu_drop u negb] in Hbits.
  assert (forall k, 2 ^ 63 <= k -> dbit db' k = false) as Hend.
  { intros k Hk0. rewrite Hbits by lia. rewrite decide_False by lia. apply (core_bits_below _ _ _ _ k Hpre). lia. }
  destruct (update_contiguous_total h db' u) as (h' & Huc & Hhint & Hc64); [done|cbn; lia..|done|].
  exists db', h'. split_and!; try done.
  - intros Hc. destruct (update_contiguous_ok h (hc_bitfield s) db' u) as (c' & Huc' & Hc');
      [done|cbn; lia..|done|done|by rewrite Hhints|done|]. rewrite Huc in Huc'. by injection Huc' as ->.
  - eapply bits_stored_update; [apply (ci_stored _ _ _ _ Hpre)|eapply (dyn_update_touched _ u); [done|cbn; lia..|done]|lia|cbn; lia].
Qed.

(** Committing an append keeps the fork and takes over the signature. *)
Lemma commit_signed blocks more s cs f :
  tree_inv blocks (hc_tree s) f -> signed_append blocks more s cs ->
  exists t', Tree.commit (hc_tree s) cs = Ok t' /\ tree_inv (blocks ++ more) t' f /\
    mt_fork t' = mt_fork (hc_tree s) /\ mt_signature t' = cs_signature cs.
Proof.
  intros Ht [Hcs Hne _ _ Hf Hof _ _]. destruct (commit_append_ok _ _ _ _ _ Ht Hcs Hof) as (t' & Htc & Ht' & Hfork).
  exists t'. split_and!; [done..| |].
  - rewrite Hfork. by destruct more.
  - pose proof (commit_head _ _ _ Htc) as Hth. destruct Hcs as (_ & _ & _ & Hup & _).
    assert (cs_upgraded cs = true) as Hupg by (rewrite Hup; by destruct more). rewrite Hupg in Hth. by injection Hth as _ _ _ ->.
Qed.

(** Logging the changeset makes the core stand for the longer log. *)
Lemma log_append_ok b blocks more fs s cs :
  core_live b blocks fs s -> 3 <= b < 2 ^ 31 -> log_fits (blocks ++ more) -> no_blank (blocks ++ more) ->
  signed_append blocks more s cs -> stored_after blocks more (fs Data) ->
  wp (Core.log_changeset cs (Some (mkBitfieldUpdate false (zlen blocks) (zlen more)))) s
    (fun _ s' => exists fs', core_live b (blocks ++ more) fs' s' /\ in_step fs' s' /\ (hint_exact s -> hint_exact s') /\
      fs' Data = fs Data /\ hc_key_pair s' = hc_key_pair s /\ hc_events s' = hc_events s /\
      mt_fork (hc_tree s') = mt_fork (hc_tree s) /\ mt_signature (hc_tree s') = cs_signature cs /\
      forall k, 0 <= k -> dbit (hc_bitfield s') k =
        if decide (zlen blocks <= k < zlen (blocks ++ more)) then true else dbit (hc_bitfield s) k).
Proof.
  intros Hinv Hb3 Hfit Hnb Hsa Hstored. pose proof Hfit as [Hlen _].
  set (u := mkBitfieldUpdate false (zlen blocks) (zlen more)).
  pose proof (zlen_nonneg blocks). pose proof (zlen_nonneg more).
  assert (bitfield_update_wf u) as Hu by (rewrite zlen_app in Hlen; unfold bitfield_update_wf, is_u64; cbn; lia).
  destruct (changeset_entry_ok _ _ _ _ _ _ _ Hinv Hfit Hsa Hu) as (h' & e & Hue & He & Hh' & Hkeys & Hhints & Hhf & Hhl & sig & Hsig & Hhs).
  pose proof (fun k => core_bits_below _ _ _ _ k Hinv) as Hover.
  destruct (log_entry_ok _ _ _ _ e Hinv ltac:(lia) He) as (o' & oinfos & Hap & How & Ho' & Hcnt' & Hol & Hdur).
  destruct (append_bits_ok _ _ _ _ _ h' Hinv Hfit Hhints) as (db' & h'' & Hdb & Hb' & Huc & Hhint & Hc64 & Hexact & Hbst & Hbits).
  fold u in Hdb, Huc. destruct (up_to_hint_parts _ _ Hhint) as (_ & _ & E3 & _ & E5 & _).
  destruct Hinv as [[[Hh _ _ Ht _ Hd] Hfk _ (_ & _ & Hbud) Hskip Hhd Hk Hm] _ Hstep0].
  destruct (commit_signed _ _ _ _ _ Ht Hsa) as (t' & Htc & Ht' & Hfork' & Hts).
  destruct Hsa as [Hcs Hne Hsz Hcnt Hf Hof (hash & Hhash & _ & Hhok) _].
  eapply (log_changeset_run s fs cs (Some u)); [exact Hh| |exact How|by split|exact Htc|].
  { unfold Oplog.append_changeset. by rewrite Hue, bind_Ok, Hap, bind_Ok. }
  intros st Hst. eapply wp_mono.
  { apply (maybe_flush_ok b (blocks ++ more) (update_store fs Oplog (file_effects (fs Oplog) oinfos))); [|lia]. split.
    - constructor; [constructor|..]; cbn [hc_storage hc_tree hc_bitfield hc_oplog hc_skip_flush_count hc_header
        hc_key_pair with_parts]; try done; rewrite ?update_store_same, ?update_store_other by done.
      + intros k Hk0. rewrite Hbits by done. case_decide as Hin.
        * intros _. split; [lia|]. intros _. by apply Hstored.
        * intros Hdk. destruct (Hd k Hk0 Hdk) as [Hlt Hat]. rewrite zlen_app. split; [lia|].
          by rewrite byte_sum_app, block_at_app_l by lia.
      + by rewrite Hfork'.
      + split_and!; [done..|]. lia.
      + eapply header_small_hint; [exact Hh'|done|]. apply Hc64, Hh'.
      + congruence.
      + destruct Hm as (_ & Hmf & _). rewrite E5. split_and!; [done|cbn; congruence|]. by rewrite Hhs, Hts, Hsig.
    - cbn [with_parts hc_skip_flush_count]. intros Hpos. destruct (Hdur (Hstep0 Hpos)) as (h & es & Hfile & Hrep).
      split; [|eexists _, _; cbn [hc_oplog with_parts]; by rewrite update_store_same].
      exists o', h, (es ++ [e]). rewrite update_store_same, !update_store_other by done.
      cbn [hc_oplog with_parts hc_tree hc_bitfield hc_header]. split_and!; [done..|].
      eapply (replays_append _ _ _ _ _ _ _ _ _ h' _ cs u); try done.
      + cbn. rewrite zlen_app in Hlen. lia.
      + cbn. rewrite zlen_app. lia.
      + intros k Hk0. apply Hover. rewrite zlen_app in Hlen. lia.
      + cbn. intros k Hk0. rewrite <-zlen_app. by apply Hbits. }
  intros _ s' (fs' & Hinv' & Hstep & Hsame & Hdat). pose proof Hsame as (Hk' & _ & He' & Hf' & Hs' & Hd'). exists fs'.
  split_and!; [done|done| |by rewrite Hdat, update_store_other|by rewrite Hk'|by rewrite He'|by rewrite Hf'|by rewrite Hs'|].
  - intros Hc. eapply same_view_hint; [exact Hsame|]. by apply Hexact.
  - intros k Hk0. rewrite Hd' by done. by apply Hbits.
Qed.

Lemma core_flush_info_ok s fs k info :
  holds (hc_storage s) fs -> writes_to k info ->
  wp (core_flush_info info) s (fun _ s' => exists st, s' = set_storage st s /\
    holds st (update_store fs k (info_effect info (fs k)))).
Proof.
  intros Hh Hw. apply (core_flush_ok s fs k [info]); [done|]. by constructor.
Qed.

(** The bytes of the batch behind the bytes of the log. *)
Lemma stored_after_write blocks more f :
  stored_after blocks more (file_write f (zlen (concat blocks)) (concat more)).
Proof.
  intros k Hk. rewrite zlen_app in Hk. rewrite byte_sum_app_r, block_at_app_r by lia.
  apply at_offset_block; [apply zlen_nonneg|lia|]. apply at_offset_write_same. apply zlen_nonneg.
Qed.

Lemma core_live_data b blocks fs s st f :
  core_live b blocks fs s -> holds st (update_store fs Data f) ->
  (forall k, 0 <= k < zlen blocks -> dbit (hc_bitfield s) k = true ->
     at_offset (fs Data) (byte_sum blocks k) (block_at blocks k) ->
     at_offset f (byte_sum blocks k) (block_at blocks k)) ->
  core_live b blocks (update_store fs Data f) (set_storage st s).
Proof.
  intros [[[Hh ? ? ? ? Hd] ? ? Ho ? ? ? ?] Hdur Hstep] Hst Hkeep. constructor; [|done..]. constructor; [constructor|..]; try done.
  intros k Hk Hb. destruct (Hd k Hk Hb) as [Hlt Hat]. split; [done|].
  rewrite update_store_same. intros Hne. apply Hkeep; auto.
Qed.

Lemma data_before_write blocks f bs k :
  0 <= k < zlen blocks -> at_offset f (byte_sum blocks k) (block_at blocks k) ->
  at_offset (file_write f (zlen (concat blocks)) bs) (byte_sum blocks k) (block_at blocks k).
Proof.
  intros Hk. pose proof (byte_sum_nonneg blocks k). pose proof (zlen_nonneg (concat blocks)).
  apply at_offset_write_other; [done..|]. left.
  pose proof (byte_sum_succ blocks k ltac:(lia)) as Hsucc. fold (block_at blocks k) in Hsucc.
  pose proof (byte_sum_le blocks (k + 1) ltac:(lia)). lia.
Qed.

(** What [append_batch] does to the log, the bitfield and the events. *)
Lemma append_batch_live b blocks batch fs s sk :
  core_live b blocks fs s -> 3 <= b < 2 ^ 31 -> kp_secret (hc_key_pair s) = Some sk ->
  log_fits (blocks ++ batch) -> no_blank (blocks ++ batch) -> zlen batch <= 2 ^ 18 ->
  wp (Core.append_batch batch) s (fun r s' =>
    r = mkAppendOutcome (zlen (blocks ++ batch)) (zlen (concat (blocks ++ batch))) /\
    (exists fs', core_live b (blocks ++ batch) fs' s' /\ (in_step fs s -> in_step fs' s') /\
       fs' Data = if is_empty batch then fs Data else file_write (fs Data) (zlen (concat blocks)) (concat batch)) /\
    (hint_exact s -> hint_exact s') /\
    hc_key_pair s' = hc_key_pair s /\
    hc_events s' = hc_events s ++ (if is_empty batch then [] else
      [EventDataUpgrade; EventHave (zlen blocks) (zlen batch) false]) /\
    (mt_fork (hc_tree s') = mt_fork (hc_tree s) /\
     mt_signature (hc_tree s') = if is_empty batch then mt_signature (hc_tree s)
       else Some (ed_sign sk (signed_bytes (blocks ++ batch) (mt_fork (hc_tree s'))))) /\
    forall k, 0 <= k -> dbit (hc_bitfield s') k =
      if decide (zlen blocks <= k < zlen (blocks ++ batch)) then true else dbit (hc_bitfield s) k).
Proof.
  intros Hinv Hb3 Hsk Hfit Hnb Hsz. unfold Core.append_batch. wp_step. rewrite Hsk.
  destruct (decide (batch = [])) as [->|Hne].
  { cbn [is_empty negb]. wp_step. wp_step. wp_step. rewrite app_nil_r.
    pose proof (ci_tree _ _ _ Hinv) as ((_ & -> & ->) & _). rewrite app_nil_r.
    split_and!; try done; [by exists fs|]. intros k Hk. by rewrite decide_False by lia. }
  assert (is_empty batch = false) as -> by by destruct batch. cbn [negb].
  pose proof (ci_tree _ _ _ Hinv) as (Htf & _). pose proof Hfit as [_ Hbytes].
  destruct (append_all_ok blocks batch [] (Tree.changeset (hc_tree s)) 0) as (cs & Hall & Hcs & Hcnt & Hfk & Hof).
  { by apply changeset_append_nil. } { done. } { done. } { lia. }
  { rewrite concat_app, zlen_app in Hbytes. pose proof (zlen_nonneg (concat blocks)). lia. }
  cbn [app] in Hcs, Hcnt. pose proof Hcs as (Hfor & Ha & _).
  assert (is_u64 (cs_fork cs)) as Hfork64 by (rewrite Hfk; apply (ci_fork _ _ _ _ Hinv)).
  pose proof (hash_and_sign_ok _ _ sk Hfor Hfit Hfork64) as Hsign.
  set (cs' := Changeset.set_hash_signature cs _ _) in Hsign.
  assert (signed_append blocks batch s cs') as Hsa.
  { constructor; try done.
    - eexists. split_and!; [done|apply blake2b256_bytes|]. by apply (hash_signable_ok _ _ Hfor Hfit Hfork64).
    - by eexists. }
  apply wp_bind. wp_step. wp_step. wp_step. apply wp_bind.
  eapply wp_mono; [apply (core_flush_info_ok s fs Data); [apply (ci_holds _ _ _ Hinv)|]|].
  { split; [done|]. split; [|done]. cbn. rewrite (proj2 (proj2 Htf)). apply zlen_nonneg. }
  intros _ ? (st & -> & Hst). cbn [info_effect BlockStore.append_batch StoreInfo.new_content
    si_info_type si_miss si_data si_index] in Hst.
  rewrite BlockStore.extend_all_concat, app_nil_l, (proj2 (proj2 Htf)) in Hst.
  apply wp_bind. change (cs_ancestors cs') with (cs_ancestors cs).
  change (cs_batch_length cs') with (cs_batch_length cs). rewrite Ha, Hcnt.
  eapply wp_mono.
  { eapply (log_append_ok b blocks batch _ _ cs'); [by apply core_live_data; [..|intros; by apply data_before_write]|done|done|done| |].
    - destruct Hsa. by constructor.
    - rewrite update_store_same. apply stored_after_write. }
  intros _ s' (fs' & Hinv' & Hstep' & Hc' & Hdat' & Hk' & He' & Hf' & Hs' & Hd'). unfold send. wp_step. wp_step. wp_step.
  cbn [hc_tree push_event]. pose proof (ci_tree _ _ _ Hinv') as ((_ & Hl' & Hb') & _).
  apply wp_ret. rewrite Hl', Hb'. split_and!; try done.
  - exists fs'. split_and!; [by do 2 apply core_live_event|done|by rewrite Hdat', update_store_same].
  - cbn [hc_events push_event]. rewrite He', <-app_assoc. done.
  - cbn [hc_tree push_event]. rewrite Hs', Hf'. unfold cs'. cbn. by rewrite Hfk.
Qed.

(** All the data of the longer log is there if it was. *)
Lemma all_data_append blocks batch fs fs' s s' :
  core_base blocks fs s -> all_data blocks fs s ->
  fs' Data = (if is_empty batch then fs Data else file_write (fs Data) (zlen (concat blocks)) (concat batch)) ->
  (forall k, 0 <= k -> dbit (hc_bitfield s') k =
     if decide (zlen blocks <= k < zlen (blocks ++ batch)) then true else dbit (hc_bitfield s) k) ->
  all_data (blocks ++ batch) fs' s'.
Proof.
  intros Hb Hd Hdat Hbits k Hk. destruct (decide (batch = [])) as [->|Hne].
  { rewrite app_nil_r, Hbits, Hdat by done. rewrite decide_False by (rewrite app_nil_r; lia). by apply Hd. }
  replace (is_empty batch) with false in Hdat by by destruct batch. rewrite Hbits, Hdat by done. case_decide; [intros _; by apply stored_after_write|].
  intros Hbit. destruct (ci_held _ _ _ Hb k Hk Hbit) as [Hlt _].
  rewrite byte_sum_app, block_at_app_l by lia. apply data_before_write; [lia|]. by apply Hd.
Qed.

Lemma append_batch_ok blocks batch fs s sk :
  core_inv blocks fs s -> kp_secret (hc_key_pair s) = Some sk ->
  log_fits (blocks ++ batch) -> no_blank (blocks ++ batch) -> zlen batch <= 2 ^ 18 ->
  wp (Core.append_batch batch) s (fun r s' =>
    r = mkAppendOutcome (zlen (blocks ++ batch)) (zlen (concat (blocks ++ batch))) /\
    (exists fs', core_inv (blocks ++ batch) fs' s') /\
    hc_key_pair s' = hc_key_pair s /\
    hc_events s' = hc_events s ++ (if is_empty batch then [] else
      [EventDataUpgrade; EventHave (zlen blocks) (zlen batch) false]) /\
    (mt_fork (hc_tree s') = mt_fork (hc_tree s) /\
     mt_signature (hc_tree s') = if is_empty batch then mt_signature (hc_tree s)
       else Some (ed_sign sk (signed_bytes (blocks ++ batch) (mt_fork (hc_tree s'))))) /\
    forall k, 0 <= k -> dbit (hc_bitfield s') k =
      if decide (zlen blocks <= k < zlen (blocks ++ batch)) then true else dbit (hc_bitfield s) k).
Proof.
  intros [Hl Hd Hs Hc] Hsk Hfit Hnb Hsz. eapply wp_mono; [by apply (append_batch_live 3 blocks batch fs s sk)|].
  intros r s' (Hr & (fs' & Hl' & Hs' & Hdat) & Hc' & Hk & He & Hsg & Hbits).
  split; [done|]. split; [|done]. exists fs'. constructor; auto.
  eapply (all_data_append _ _ fs _ s); try done. apply Hl.
Qed.

(** ** Reading *)

Lemma core_read_infos_ok s fs ins infos (Q : list StoreInfo -> Hypercore -> Prop) :
  holds (hc_storage s) fs -> Forall instruction_wf ins ->
  Forall2 (fun ins info => read_effect fs ins = Some info) ins infos ->
  Q infos s -> wp (core_read_infos ins) s Q.
Proof.
  intros Hh Hwf Hr HQ. unfold core_read_infos. wp_step.
  eapply wp_lift; [|exact HQ]. by eapply (read_infos_ok _ fs).
Qed.

(** The loop that asks the tree again ends: the second reading leaves nothing
    unknown. *)
Lemma ask_again_ok {A} (ask : list StoreInfo -> result (either_instructions A)) blocks fs s ks ps a
    (Q : A -> Hypercore -> Prop) :
  holds (hc_storage s) fs ->
  (forall ks, readable blocks (fs Common.Tree) (unknown (hc_tree s) ks (node_keys ps))) ->
  (forall ks, readable blocks (fs Common.Tree) ks ->
     ask (node_read (fs Common.Tree) <$> ks) = Ok (asked (unknown (hc_tree s) ks (node_keys ps)) a)) ->
  Q a s ->
  wp (Core.ask_again retry_fuel ask (read_node <$> unknown (hc_tree s) ks (node_keys ps)) []) s Q.
Proof.
  intros Hh Hps Hask HQ. set (l1 := unknown (hc_tree s) ks (node_keys ps)).
  pose proof (Hps ks) as Hr1. fold l1 in Hr1.
  destruct (readable_reads _ _ _ Hr1) as [Hw1 Hrd1]. unfold retry_fuel. cbn [Core.ask_again].
  apply wp_bind. eapply core_read_infos_ok; [exact Hh|done..|]. cbn [app].
  apply wp_bind. eapply wp_lift; [by apply Hask|].
  set (l2 := unknown (hc_tree s) l1 (node_keys ps)).
  destruct (decide (l2 = [])) as [Hnil|Hne]; [rewrite Hnil; cbn [asked]; by wp_step|].
  assert (asked l2 a = Left (read_node <$> l2)) as -> by by destruct l2.
  pose proof (Hps l1) as Hr2. fold l2 in Hr2.
  destruct (readable_reads _ _ _ Hr2) as [Hw2 Hrd2].
  apply wp_bind. eapply core_read_infos_ok; [exact Hh|done..|].
  rewrite <-fmap_app. apply wp_bind. eapply wp_lift.
  { apply Hask. intros k [Hk|Hk]%elem_of_app; [by apply Hr1|by apply Hr2]. }
  unfold l2. rewrite unknown_all. cbn [asked]. by wp_step.
Qed.

(** What reading the block [i] needs: nodes that agree with the log, and the
    ones on the path of the block known. *)
Record block_known blocks fs s i : Prop := {
  bk_holds : holds (hc_storage s) fs;
  bk_fits : log_fits blocks;
  bk_blank : no_blank blocks;
  bk_for : tree_for blocks (hc_tree s);
  bk_view : view_ok blocks (hc_tree s) ∅;
  bk_index : 0 <= i < zlen blocks;
  bk_path ks : readable blocks (fs Common.Tree) (unknown (hc_tree s) ks (node_keys (needed (zlen blocks) i)));
}.

Lemma core_read_known blocks fs s i :
  core_base blocks fs s -> 0 <= i < zlen blocks -> block_known blocks fs s i.
Proof.
  intros [Hh Hfit Hnb Ht ? ?] Hi. pose proof (tree_inv_view _ _ _ Ht). constructor; try done; [apply Ht|].
  intros ks. apply unknown_readable; [done|by apply needed_complete_all].
Qed.

(** [byte_range], whatever nodes [ks] are known before. *)
Lemma core_byte_range_ok blocks fs s i ks infos (Q : NodeByteRange -> Hypercore -> Prop) :
  block_known blocks fs s i -> readable blocks (fs Common.Tree) ks ->
  Tree.byte_range (hc_tree s) i infos =
    Tree.byte_range (hc_tree s) i (Some (node_read (fs Common.Tree) <$> ks)) ->
  Q (block_range blocks i) s -> wp (Core.byte_range i infos) s Q.
Proof.
  intros [Hh Hfit Hnb Hfor Hview Hi Hps] Hks Hinfos HQ. unfold Core.byte_range. wp_step. rewrite Hinfos.
  pose proof (fun ks H => byte_range_asked_view blocks (hc_tree s) (fs Common.Tree) ks i
    Hfor Hview Hnb Hfit H Hi) as Hask.
  apply wp_bind. eapply wp_lift; [by apply Hask|]. destruct (unknown _ _ _) as [|k l] eqn:Hu; cbn [asked]; [by wp_step|].
  rewrite <-Hu. by eapply ask_again_ok.
Qed.

(** A block that is there is read back, and nothing changes. *)
Lemma get_known blocks fs s i :
  block_known blocks fs s i -> dyn_wf (hc_bitfield s) -> dbit (hc_bitfield s) i = true ->
  at_offset (fs Data) (byte_sum blocks i) (block_at blocks i) ->
  Core.get i s = (s, Ok (Some (block_at blocks i))).
Proof.
  intros Hk Hwf Hb [Hl Hs]. pose proof (bk_fits _ _ _ _ Hk) as [Hn _]. pose proof (bk_index _ _ _ _ Hk).
  cut (wp (Core.get i) s (fun r s' => r = Some (block_at blocks i) /\ s' = s)).
  { intros (s' & r & Hg & -> & ->). done. }
  unfold Core.get. wp_step.
  apply wp_bind. eapply wp_lift; [apply dyn_get_Ok; [done|lia]|]. rewrite Hb. cbn [negb].
  apply wp_bind. eapply (core_byte_range_ok _ _ _ _ []); [done|by intros ? ?%elem_of_nil|done|].
  apply wp_bind. eapply wp_lift; [done|]. cbn beta iota. apply wp_bind.
  unfold core_read_info. wp_step. eapply wp_lift.
  { eapply read_info_ok; [apply (bk_holds _ _ _ _ Hk)| |].
    - split; cbn; [apply byte_sum_nonneg|]. intros n [= <-]. apply zlen_nonneg.
    - unfold read_effect. cbn. fold (block_at blocks i). by rewrite (proj2 (Z.leb_le _ _)). }
  cbn beta iota. rewrite Hs. apply wp_bind. by eapply wp_lift; [done|]; wp_step.
Qed.

Lemma get_present blocks fs s i :
  core_read blocks fs s -> 0 <= i -> dbit (hc_bitfield s) i = true ->
  Core.get i s = (s, Ok (Some (block_at blocks i))).
Proof.
  intros Hinv Hi Hb. destruct (ci_data _ _ _ Hinv i Hi Hb) as [Hlt Hat].
  apply (get_known blocks fs); [apply core_read_known; [apply Hinv|lia]|apply Hinv|done..].
Qed.

(** A block behind the end of the data file cannot be read. *)
Lemma get_short blocks fs s i :
  core_base blocks fs s -> 0 <= i -> dbit (hc_bitfield s) i = true ->
  zlen (fs Data) < byte_sum blocks i + zlen (block_at blocks i) -> Core.get i s = (s, Err InvalidOperation).
Proof.
  intros Hinv Hi Hb Hlt. destruct (ci_held _ _ _ Hinv i Hi Hb) as [Hil _]. pose proof (ci_fits _ _ _ Hinv) as [Hn _].
  destruct (core_byte_range_ok blocks fs s i [] None (fun r s' => r = block_range blocks i /\ s' = s))
    as (s' & r & Hrun & -> & ->); [apply core_read_known; [done|lia]|by intros ? ?%elem_of_nil|done|done|].
  unfold Core.get, mbind, stateR_bind, gets, lift. rewrite dyn_get_Ok by (apply Hinv || lia). rewrite Hb. cbn [negb]. rewrite Hrun.
  unfold core_read_info, mbind, stateR_bind, gets, lift. cbn [BlockStore.read].
  rewrite (read_content_short _ fs); [done|apply Hinv|apply byte_sum_nonneg|apply zlen_nonneg|]. cbn. done.
Qed.

(** A block that is not there is asked for on the channel. *)
Lemma get_missing blocks fs s i :
  core_base blocks fs s -> 0 <= i < 2 ^ 64 -> dbit (hc_bitfield s) i = false ->
  Core.get i s = (push_event (EventGet i) s, Ok None).
Proof.
  intros Hinv Hi Hb. unfold Core.get, mbind, stateR_bind, gets, lift.
  rewrite dyn_get_Ok by (apply Hinv || lia). by rewrite Hb.
Qed.

(** ** Clearing *)

(** The first half: the blocks of the range are gone from the bitfield. *)
Lemma clear_log_ok b blocks fs s start end_ :
  core_live b blocks fs s -> b < 2 ^ 31 -> 0 <= start < end_ -> end_ < 2 ^ 63 ->
  wp (Core.clear_log start end_) s (fun _ s' => exists fs', core_mid b blocks fs' s' /\
    (in_step fs s -> durable blocks fs' s' /\ in_step fs' s') /\
    (hint_exact s -> hint_exact s') /\ fs' Data = fs Data /\
    hc_key_pair s' = hc_key_pair s /\ hc_events s' = hc_events s /\
    op_entries_length (hc_oplog s') = op_entries_length (hc_oplog s) + 1 /\
    forall k, 0 <= k -> dbit (hc_bitfield s') k =
      if decide (start <= k < end_) then false else dbit (hc_bitfield s) k).
Proof.
  intros Hinv Hb31 Hr He. pose proof (fun k => core_bits_below _ _ _ _ k Hinv) as Hover.
  set (u := mkBitfieldUpdate true start (end_ - start)). set (e := mkEntry [] [] None (Some u)).
  assert (entry_fits e) as Hef.
  { apply small_entry_fits; try done. unfold bitfield_update_wf, is_u64. cbn. lia. }
  destruct (log_entry_ok _ _ _ _ e Hinv ltac:(lia) Hef) as (o' & oinfos & Hap & How & Ho' & Hcnt' & Hol & Hdur).
  destruct Hinv as [[[Hh Hfit ? Ht Hb Hd] ? Hbst (_ & _ & Hbud) ? Hhd Hk Hm] _ Hstep0].
  destruct (dyn_set_range_Ok (hc_bitfield s) start (end_ - start) false)
    as (db' & Hdb & Hb' & Hbits); [done|lia..|].
  replace (start + (end_ - start)) with end_ in Hbits by lia.
  unfold Core.clear_log. wp_step. apply wp_bind. eapply wp_lift.
  { unfold Oplog.clear. rewrite checked_sub_Ok, bind_Ok by lia. exact Hap. }
  cbn beta iota. wp_step. apply wp_bind.
  eapply wp_mono; [apply core_flush_ok; [exact Hh|exact How]|].
  intros _ ? (st & -> & Hst). wp_step. cbn [hc_bitfield set_storage set_oplog]. wp_step. wp_step. wp_step.
  assert (forall hd, header_small hd -> hd_key_pair hd = hc_key_pair s -> up_to_hint hd (hc_header s) ->
    let fs' := update_store fs Oplog (file_effects (fs Oplog) oinfos) in
    let s' := set_header hd (set_bitfield db' (set_storage st (set_oplog o' s))) in
    core_pre (b + 1) blocks fs' s' /\ (in_step fs s -> durable blocks fs' s' /\ in_step fs' s')) as Hpre.
  { intros hd Hhd' Hkp Hup. split.
    - constructor; [constructor|..]; try done; cbn [hc_bitfield set_header set_bitfield].
      + intros k Hk0. cbn. rewrite Hbits, update_store_other by done. case_decide; [done|]. by apply Hd.
      + eapply bits_stored_update; [exact Hbst|by eapply (dyn_update_touched _ u); cbn; try lia|done|].
        intros k Hk0 Hdk. destruct (Z.lt_ge_cases k (zlen blocks)) as [|Hge]; [done|].
        by rewrite (Hover k Hge) in Hdk.
      + rewrite update_store_same. split_and!; [done..|]. cbn. lia.
      + destruct (up_to_hint_parts _ _ Hup) as (_ & _ & _ & _ & Htr & _). cbn. by rewrite Htr.
    - intros Hs0. destruct (Hdur Hs0) as (h & es & Hfile & Hrep).
      split; [|eexists _, _; cbn; by rewrite update_store_same].
      exists o', h, (es ++ [e]). rewrite update_store_same, !update_store_other by done. split_and!; [done..|].
      eapply (replays_clear _ _ _ _ _ _ _ _ u); try done; cbn [bu_start bu_length u]; [lia..| |].
      + intros k Hk0. apply Hover. destruct Hfit as [? _]. lia.
      + by replace (start + (end_ - start)) with end_ by lia. }
  set (c := hh_contiguous_length _) in *.
  destruct (Z.ltb_spec start c).
  - apply wp_modify. eexists. destruct (Hpre (set_contiguous_length start (hc_header s))) as [Hp Hs];
      [apply header_small_contiguous; [done|unfold is_u64; lia]|done|apply up_to_hint_set|].
    split; [by split; [exact Hp|auto]|]. split; [exact Hs|]. split_and!; try done.
    + intros (Hc0 & Hset & Hunset). change (forall k, 0 <= k < c -> dbit (hc_bitfield s) k = true) in Hset.
      split_and!; [cbn; lia| |cbn; rewrite Hbits by lia; by rewrite decide_True by lia].
      cbn. intros k Hk0. rewrite Hbits by lia. rewrite decide_False by lia. apply Hset. lia.
  - apply wp_ret. eexists. destruct (Hpre (hc_header s)) as [Hp Hs]; [done..|].
    split; [by split; [exact Hp|auto]|]. split; [exact Hs|]. split_and!; try done.
    intros (Hc0 & Hset & Hunset). change (forall k, 0 <= k < c -> dbit (hc_bitfield s) k = true) in Hset.
    change (0 <= c) in Hc0. split_and!; [done| |].
    + cbn. intros k Hk0. change (0 <= k < c) in Hk0. rewrite Hbits by lia. rewrite decide_False by lia. by apply Hset.
    + cbn. rewrite Hbits by done. by case_decide.
Qed.

(** The hole around a cleared range in [n] blocks: from behind the last block
    before the range to the next block behind it, or to the end. *)
Record hole (n : Z) (bit : Z -> bool) (start end_ hs he : Z) : Prop := {
  hole_low : 0 <= hs <= start;
  hole_before : 0 < hs -> bit (hs - 1) = true;
  hole_free k : hs <= k <= start -> bit k = false;
  hole_next : he = n \/ end_ <= he < n /\ bit he = true;
  hole_gap k : end_ <= k < he -> bit k = false;
}.

Lemma hole_unique n bit start end_ hs he hs' he' :
  hole n bit start end_ hs he -> hole n bit start end_ hs' he' -> hs = hs' /\ he = he'.
Proof.
  intros [Hl Hb Hf Hn Hg] [Hl' Hb' Hf' Hn' Hg']. split.
  - destruct (Z.lt_trichotomy hs hs') as [Hlt|[?|Hlt]]; [|done|].
    + specialize (Hb' ltac:(lia)). rewrite Hf in Hb' by lia. done.
    + specialize (Hb ltac:(lia)). rewrite Hf' in Hb by lia. done.
  - destruct (Z.lt_trichotomy he he') as [Hlt|[?|Hlt]]; [|done|].
    + destruct Hn as [->|[? Hbit]]; [lia|]. rewrite Hg' in Hbit by lia. done.
    + destruct Hn' as [->|[? Hbit]]; [lia|]. rewrite Hg in Hbit by lia. done.
Qed.

(** A hole that starts inside the log. *)
Lemma hole_inside n bit start end_ hs he :
  hole n bit start end_ hs he -> start < end_ -> (forall k, start <= k < end_ -> bit k = false) -> hs < n ->
  hs < he <= n /\ forall k, hs <= k < he -> bit k = false.
Proof.
  intros [Hl Hb Hf Hn Hg] Hlt Hclr Hin. split; [lia|]. intros k Hk.
  destruct (decide (k <= start)); [apply Hf; lia|]. destruct (decide (k < end_)); [apply Hclr; lia|apply Hg; lia].
Qed.

Lemma clear_hole_ok b blocks fs s start end_ :
  core_pre b blocks fs s -> 0 <= start < end_ -> end_ < 2 ^ 63 ->
  (forall k, start <= k < end_ -> dbit (hc_bitfield s) k = false) ->
  exists hs he, Core.clear_hole start end_ s = (s, Ok (hs, he)) /\
    hole (zlen blocks) (dbit (hc_bitfield s)) start end_ hs he.
Proof.
  intros Hinv Hr He Hclr. pose proof (ci_bits _ _ _ Hinv) as Hb. pose proof (zlen_nonneg blocks).
  pose proof (ci_fits _ _ _ Hinv) as [Hn _].
  assert (forall k, 0 <= k -> dbit (hc_bitfield s) k = true -> k < zlen blocks) as Hd
    by (intros k ? ?; by destruct (ci_held _ _ _ Hinv k)).
  destruct (dyn_last_index_of_true _ start Hb) as (before & Hbf & Hlast); [lia|].
  destruct (dyn_index_of_true _ end_ Hb) as (after & Haf & Hfirst); [lia|].
  pose proof (ci_tree _ _ _ Hinv) as ((_ & Hlen & _) & _).
  assert (exists hs, (match before with Some i => i +64 1 | None => Ok 0 end) = Ok (E:=HypercoreError) hs /\
    0 <= hs <= start /\ (0 < hs -> dbit (hc_bitfield s) (hs - 1) = true) /\
    (forall k, hs <= k <= start -> dbit (hc_bitfield s) k = false)) as (hs & Hhs & Hh0 & Hhp & Hhb).
  { destruct before as [i|]; cbn in Hlast.
    - destruct Hlast as (Hi & Hset & Hun). exists (i + 1). rewrite checked_add_Ok by lia.
      assert (i <> start). { intros ->. rewrite Hclr in Hset by lia. done. }
      split_and!; [done|lia|lia|intros _; by replace (i + 1 - 1) with i by lia|]. intros k Hk. apply Hun. lia.
    - exists 0. split_and!; [done|lia..|]. intros k Hk. apply Hlast. lia. }
  exists hs, (match after with Some i => i | None => zlen blocks end). split.
  - unfold Core.clear_hole, mbind, stateR_bind, gets, lift. rewrite Hbf, Hhs, Haf, Hlen. done.
  - destruct after as [i|].
    + destruct Hfirst as (Hi & Hset & Hun). specialize (Hd i ltac:(lia) Hset). constructor; try done. right. split; [lia|done].
    + constructor; try done; [by left|]. intros k Hk. apply Hfirst. lia.
Qed.

Lemma byte_offset_past_end blocks self infos :
  tree_for blocks self -> log_fits blocks -> Tree.byte_offset self (zlen blocks) infos = Err BadArgument.
Proof.
  intros Ht Hfit. pose proof (zlen_nonneg blocks). pose proof Hfit as [? _].
  pose proof (validate_index_ok blocks self (zlen blocks) Ht Hfit ltac:(lia)) as Hv.
  rewrite (proj2 (Z.ltb_ge _ _)) in Hv by lia. unfold Tree.byte_offset. by rewrite Hv.
Qed.

Lemma clear_offset_ok b blocks fs s i (Q : Z * list StoreInfo -> Hypercore -> Prop) :
  core_pre b blocks fs s -> 0 <= i < zlen blocks ->
  (forall ks, readable blocks (fs Common.Tree) ks ->
     Q (byte_sum blocks i, node_read (fs Common.Tree) <$> ks) s) ->
  wp (Core.clear_offset i) s Q.
Proof.
  intros Hinv Hi HQ. unfold Core.clear_offset. wp_step. rewrite byte_offset_none.
  pose proof (ci_tree _ _ _ Hinv) as Ht.
  pose proof (fun ks H => byte_offset_asked blocks (hc_tree s) (fs Common.Tree) ks i
    Ht (ci_blank _ _ _ Hinv) (ci_fits _ _ _ Hinv) H Hi) as Hask.
  set (keys := node_keys _) in Hask. set (l1 := unknown (hc_tree s) [] keys).
  assert (readable blocks (fs Common.Tree) []) as Hnil by by intros ? ?%elem_of_nil.
  assert (readable blocks (fs Common.Tree) l1) as Hr1.
  { apply unknown_readable; [done|]. apply root_path_complete_all. apply zlen_nonneg. }
  apply wp_bind. eapply wp_lift; [by apply (Hask [])|]. fold l1.
  destruct (decide (l1 = [])) as [Hl|Hl]; [rewrite Hl; cbn [asked]; wp_step; by apply (HQ [])|].
  assert (asked l1 (byte_sum blocks i) = Left (read_node <$> l1)) as -> by by destruct l1.
  destruct (readable_reads _ _ _ Hr1) as [Hw1 Hrd1]. apply wp_bind.
  eapply core_read_infos_ok; [apply (ci_holds _ _ _ Hinv)|done..|].
  apply wp_bind. eapply wp_lift; [by apply Hask|].
  replace (unknown (hc_tree s) l1 keys) with (@nil Z) by (symmetry; apply (unknown_all _ [])).
  cbn [asked]. wp_step. by apply HQ.
Qed.

Lemma byte_sum_next blocks k : 0 <= k -> byte_sum blocks (k + 1) = byte_sum blocks k + zlen (block_at blocks k).
Proof. apply byte_sum_succ. Qed.

(** The second half: the bytes of the hole are deleted, those of the blocks
    that are left stay.  There is nothing to delete behind the last block, and
    nothing can be deleted behind the end of the data file. *)
Definition clear_error blocks fs (hs : Z) : option HypercoreError :=
  if hs =? zlen blocks then Some BadArgument
  else if zlen (fs Data) <? byte_sum blocks hs then Some InvalidOperation else None.

Lemma clear_range_ok b blocks fs s start end_ hs he :
  core_pre b blocks fs s -> start < end_ -> (forall k, start <= k < end_ -> dbit (hc_bitfield s) k = false) ->
  Core.clear_hole start end_ s = (s, Ok (hs, he)) -> hole (zlen blocks) (dbit (hc_bitfield s)) start end_ hs he ->
  hs < zlen blocks -> let from := byte_sum blocks hs in let to := byte_sum blocks he in
  0 <= from <= to /\ Core.clear_data start end_ s = core_flush_info (BlockStore.clear from (to - from)) s.
Proof.
  intros Hinv Hlt Hclr Hrun Hhole Hin from to. destruct (hole_inside _ _ _ _ _ _ Hhole Hlt Hclr Hin) as [Hhe _].
  destruct Hhole as [Hhs _ _ _ _]. pose proof (ci_fits _ _ _ Hinv) as [_ Hbytes].
  pose proof (byte_sum_next blocks (he - 1) ltac:(lia)) as Hlast. replace (he - 1 + 1) with he in Hlast by lia.
  pose proof (byte_sum_le blocks he ltac:(lia)). pose proof (byte_sum_nonneg blocks (he - 1)).
  pose proof (zlen_nonneg (block_at blocks (he - 1))).
  pose proof (byte_sum_mono blocks hs he ltac:(lia)). pose proof (byte_sum_nonneg blocks hs). split; [lia|].
  destruct (clear_offset_ok b blocks fs s hs (fun r s' => s' = s /\ exists ks, readable blocks (fs Common.Tree) ks /\
    r = (from, node_read (fs Common.Tree) <$> ks)) Hinv) as (s1 & r1 & Hoff & -> & ks & Hks & ->); [lia|by eauto|].
  destruct (core_byte_range_ok blocks fs s (he - 1) ks (Some (node_read (fs Common.Tree) <$> ks))
    (fun r s' => r = block_range blocks (he - 1) /\ s' = s)) as (s2 & r2 & Hbr & -> & ->);
    [by apply core_read_known; [apply Hinv|lia]|done..|].
  unfold Core.clear_data. rewrite (run_bind _ _ _ _ _ Hrun), (run_bind _ _ _ _ _ Hoff).
  unfold mbind, stateR_bind, lift. rewrite checked_sub_Ok by lia. rewrite Hbr.
  cbn [block_range nbr_index nbr_length]. fold (block_at blocks (he - 1)).
  rewrite checked_add_Ok by lia. rewrite <-Hlast. fold to. by rewrite checked_sub_Ok by lia.
Qed.

(** The outcome of the second half. *)
Definition clear_outcome (b : Z) blocks fs s start end_ : Prop :=
  exists hs he, hole (zlen blocks) (dbit (hc_bitfield s)) start end_ hs he /\
  match clear_error blocks fs hs with
  | Some e => Core.clear_data start end_ s = (s, Err e)
  | None => exists fs' st, Core.clear_data start end_ s = (set_storage st s, Ok tt) /\
      core_mid b blocks fs' (set_storage st s) /\
      fs' Data = file_del (fs Data) (byte_sum blocks hs) (byte_sum blocks he - byte_sum blocks hs) /\
      0 <= byte_sum blocks hs <= byte_sum blocks he
  end.

Lemma clear_data_ok b blocks fs s start end_ :
  core_mid b blocks fs s -> 0 <= start < end_ -> end_ < 2 ^ 63 ->
  (forall k, start <= k < end_ -> dbit (hc_bitfield s) k = false) -> clear_outcome b blocks fs s start end_.
Proof.
  intros [Hinv Hdur] Hr He Hclr. destruct (clear_hole_ok _ _ _ _ _ _ Hinv Hr He Hclr) as (hs & he & Hrun & Hhole).
  exists hs, he. split; [done|]. unfold clear_error. destruct (Z.eqb_spec hs (zlen blocks)) as [->|Hne].
  { unfold Core.clear_data. rewrite (run_bind _ _ _ _ _ Hrun). unfold Core.clear_offset, mbind, stateR_bind, gets, lift.
    by rewrite (byte_offset_past_end blocks) by apply Hinv. }
  assert (hs < zlen blocks) as Hin.
  { destruct Hhole as [Hl Hb _ _ _]. pose proof (zlen_nonneg blocks). destruct (decide (hs = 0)) as [->|Hpos]; [lia|].
    destruct (ci_held _ _ _ Hinv (hs - 1)); [lia|apply Hb; lia|]. lia. }
  assert (start < end_) as Hlt by lia.
  destruct (clear_range_ok _ _ _ _ _ _ _ _ Hinv Hlt Hclr Hrun Hhole Hin) as [Hft ->].
  destruct (hole_inside _ _ _ _ _ _ Hhole Hlt Hclr Hin) as [Hhe Hfree]. pose proof (hole_low _ _ _ _ _ _ Hhole).
  destruct (Z.ltb_spec (zlen (fs Data)) (byte_sum blocks hs)) as [Hsh|Hfile].
  { unfold core_flush_info, core_flush_infos. unfold BlockStore.clear.
    rewrite (flush_delete_short _ fs) by (apply Hinv || lia). f_equal. by destruct s. }
  set (info := BlockStore.clear (byte_sum blocks hs) (byte_sum blocks he - byte_sum blocks hs)).
  destruct (flush_infos_ok (hc_storage s) fs [info]) as (st & Hf & Hst).
  { apply Hinv. } { split; [|done]. split; cbn; [lia|]. intros _. eexists. split_and!; [done|lia|lia]. }
  exists (foldl effect fs [info]), st. split_and!; [unfold core_flush_info, core_flush_infos; by rewrite Hf| |done|lia|lia].
  destruct Hinv as [[_ ? ? ? ? Hd] ? ? Ho ? ? ? ?]. split; [|done]. constructor; [constructor|..]; try done.
  intros k Hk Hbit. destruct (Hd k Hk Hbit) as [Hkn Hat]. split; [done|]. intros Hbl. specialize (Hat Hbl).
  change (foldl effect fs [info] Data) with
    (file_del (fs Data) (byte_sum blocks hs) (byte_sum blocks he - byte_sum blocks hs)).
  apply at_offset_del; [lia|lia|apply byte_sum_nonneg| |done].
  destruct (decide (k < hs)).
  - left. rewrite <-byte_sum_next by lia. apply byte_sum_mono. lia.
  - right. assert (he <= k). { destruct (decide (he <= k)); [done|]. cbn in Hbit. rewrite Hfree in Hbit by lia. done. }
    split; [pose proof (byte_sum_mono blocks he k ltac:(lia)); lia|done].
Qed.

(** [clear] drops the blocks of the range and no other.  Where it fails, the
    range is cleared all the same, and its entry is in the oplog. *)
Lemma clear_live b blocks fs s start end_ :
  core_live b blocks fs s -> 3 <= b < 2 ^ 31 -> 0 <= start < end_ -> end_ < 2 ^ 63 ->
  let bit k := if decide (start <= k < end_) then false else dbit (hc_bitfield s) k in
  exists hs he s' fs', hole (zlen blocks) bit start end_ hs he /\
    Core.clear start end_ s = (s', match clear_error blocks fs hs with Some e => Err e | None => Ok tt end) /\
    match clear_error blocks fs hs with
    | Some _ => in_step fs s -> core_live (b + 1) blocks fs' s' /\ in_step fs' s'
    | None => core_live b blocks fs' s' /\ in_step fs' s'
    end /\
    zlen (fs' Data) = match clear_error blocks fs hs with
                      | Some _ => zlen (fs Data)
                      | None => if zlen (fs Data) <=? byte_sum blocks he then byte_sum blocks hs else zlen (fs Data)
                      end /\
    (hint_exact s -> hint_exact s') /\ hc_key_pair s' = hc_key_pair s /\ hc_events s' = hc_events s /\
    forall k, 0 <= k -> dbit (hc_bitfield s') k = bit k.
Proof.
  intros Hinv Hb31 Hr He bit. unfold Core.clear. rewrite (proj2 (Z.leb_gt _ _)) by lia.
  destruct (clear_log_ok b blocks fs s start end_ Hinv ltac:(lia) Hr He)
    as (s1 & [] & Hrun & fs1 & Hinv1 & Hstep1 & Hc1 & Hdat1 & Hk1 & He1 & _ & Hd1).
  rewrite (run_bind _ _ _ _ _ Hrun).
  destruct (clear_data_ok b blocks fs1 s1 start end_ Hinv1 Hr He) as (hs & he & Hhole & Hout).
  { intros k Hk. rewrite Hd1 by lia. by rewrite decide_True. }
  assert (hole (zlen blocks) bit start end_ hs he) as Hhole'.
  { destruct Hhole as [Hl Hb Hf Hn Hg]. constructor; [done|..].
    - intros Hpos. unfold bit. rewrite <-Hd1 by lia. by apply Hb.
    - intros k Hk. unfold bit. rewrite <-Hd1 by lia. by apply Hf.
    - destruct Hn as [?|[? Hbit]]; [by left|right]. split; [done|]. unfold bit. by rewrite <-Hd1 by lia.
    - intros k Hk. unfold bit. rewrite <-Hd1 by lia. by apply Hg. }
  assert (clear_error blocks fs1 hs = clear_error blocks fs hs) as Herr by (unfold clear_error; by rewrite Hdat1).
  rewrite Herr in Hout. exists hs, he. destruct (clear_error blocks fs hs) as [e|] eqn:Hce.
  - exists s1, fs1. split; [done|]. unfold mbind, stateR_bind. rewrite Hout. split_and!; try done; [|by rewrite Hdat1].
    intros Hs. destruct (Hstep1 Hs) as [Hdur Hs1]. split; [|done]. constructor; [apply Hinv1|done..].
  - destruct Hout as (fs2 & st & Hrun2 & Hinv2 & Hdat2 & Hft). rewrite (run_bind _ _ _ _ _ Hrun2).
    destruct (maybe_flush_ok b blocks fs2 _ Hinv2 ltac:(lia)) as (s3 & [] & Hrun3 & fs3 & Hinv3 & Hs3 & Hsame & Hdat3).
    pose proof Hsame as (Hk3 & _ & He3 & _ & _ & Hd3).
    exists s3, fs3. split; [done|]. split; [exact Hrun3|]. split_and!; try done.
    + rewrite Hdat3, Hdat2, Hdat1. unfold clear_error in Hce.
      destruct (_ =? _); [done|]. destruct (Z.ltb_spec (zlen (fs Data)) (byte_sum blocks hs)); [done|].
      rewrite zlen_file_del by lia. by replace (byte_sum blocks hs + (byte_sum blocks he - byte_sum blocks hs)) with (byte_sum blocks he) by lia.
    + intros Hc. eapply same_view_hint; [exact Hsame|]. by apply Hc1.
    + by rewrite Hk3.
    + by rewrite He3.
    + intros k Hk. rewrite Hd3 by done. by apply Hd1.
Qed.

(** With all the data there, a range that starts inside the log can be cleared. *)
Lemma clear_error_none blocks fs s start end_ hs he :
  all_data blocks fs s ->
  hole (zlen blocks) (fun k => if decide (start <= k < end_) then false else dbit (hc_bitfield s) k) start end_ hs he ->
  start < zlen blocks -> clear_error blocks fs hs = None.
Proof.
  intros Hd [Hlow Hbef _ _ _] Hlt. unfold clear_error. rewrite (proj2 (Z.eqb_neq _ _)) by lia.
  enough (byte_sum blocks hs <= zlen (fs Data)) by by rewrite (proj2 (Z.ltb_ge _ _)).
  destruct (decide (hs = 0)) as [->|]; [apply zlen_nonneg|]. specialize (Hbef ltac:(lia)). cbn in Hbef.
  rewrite decide_False in Hbef by lia. destruct (Hd (hs - 1) ltac:(lia) Hbef) as [Hl _].
  rewrite <-byte_sum_next in Hl by lia. by replace (hs - 1 + 1) with hs in Hl by lia.
Qed.

(** Reading a block that was there after its surroundings were cleared. *)
Lemma get_cleared blocks fs fs' s s' start end_ hs he k :
  core_live 3 blocks fs' s' -> all_data blocks fs s -> start < end_ ->
  hole (zlen blocks) (fun k => if decide (start <= k < end_) then false else dbit (hc_bitfield s) k) start end_ hs he ->
  zlen (fs' Data) = (if zlen (fs Data) <=? byte_sum blocks he then byte_sum blocks hs else zlen (fs Data)) ->
  0 <= k -> ~ (start <= k < end_) -> dbit (hc_bitfield s) k = true -> dbit (hc_bitfield s') k = true ->
  Core.get k s' = (s', Ok (Some (block_at blocks k))) \/
  (end_ <= k /\ (forall j, k <= j -> dbit (hc_bitfield s) j = true -> block_at blocks j = []) /\
   Core.get k s' = (s', Err InvalidOperation)).
Proof.
  intros Hl Hd Hlt Hhole Hlen Hk Hout Hbit Hbit'. destruct (ci_held _ _ _ Hl k Hk Hbit') as [Hkn Hat].
  destruct (Z.le_gt_cases (byte_sum blocks k + zlen (block_at blocks k)) (zlen (fs' Data))) as [Hle|Hsh].
  { left. apply (get_known blocks fs'); [apply core_read_known; [apply Hl|lia]|apply Hl|done|].
    destruct (decide (block_at blocks k = [])) as [E|Hne]; [|by apply Hat]. rewrite E in *. by split. }
  right. destruct (Hd k Hk Hbit) as [Hdk _]. destruct (Z.leb_spec (zlen (fs Data)) (byte_sum blocks he)) as [Hcut|]; [|lia].
  rewrite <-byte_sum_next in Hsh, Hdk by done. destruct Hhole as [Hlow _ Hfree Hnext Hgap].
  assert (hs <= k). { destruct (decide (hs <= k)); [done|]. pose proof (byte_sum_mono blocks (k + 1) hs ltac:(lia)). lia. }
  assert (end_ <= k) as Hek.
  { destruct (decide (k <= start)); [|lia]. specialize (Hfree k ltac:(lia)). cbn in Hfree. rewrite decide_False in Hfree by done. congruence. }
  assert (he <= k).
  { destruct (decide (he <= k)); [done|]. specialize (Hgap k ltac:(lia)). cbn in Hgap. rewrite decide_False in Hgap by done. congruence. }
  split_and!; [done| |apply (get_short blocks fs'); [apply Hl|done|done|]; by rewrite <-byte_sum_next].
  intros j Hj Hbj. destruct (Hd j ltac:(lia) Hbj) as [Hdj _]. assert (0 <= he) by (pose proof (zlen_nonneg blocks); lia).
  pose proof (byte_sum_mono blocks he j ltac:(lia)). destruct (block_at blocks j) as [|x xs]; [done|].
  rewrite zlen_cons in Hdj. pose proof (zlen_nonneg xs). lia.
Qed.

(** ** Making read-only *)

(** Nothing but two copies of the header without the secret key is left in
    the oplog file. *)
Lemma make_read_only_live b blocks fs s sk :
  core_live b blocks fs s -> kp_secret (hc_key_pair s) = Some sk ->
  wp Core.make_read_only s (fun r s' => r = true /\
    kp_secret (hc_key_pair s') = None /\ kp_public (hc_key_pair s') = kp_public (hc_key_pair s) /\
    exists fs' b0 b1, core_live b blocks fs' s' /\ in_step fs' s' /\ (hint_exact s -> hint_exact s') /\
      fs' Data = fs Data /\
      fs' Oplog = header_buffer b0 true (hc_header s') ++ header_buffer b1 true (hc_header s') /\
      kp_secret (hd_key_pair (hc_header s')) = None /\
      forall k, 0 <= k -> dbit (hc_bitfield s') k = dbit (hc_bitfield s) k).
Proof.
  intros Hinv Hsk. unfold Core.make_read_only. wp_step. rewrite Hsk. wp_step. wp_step. wp_step.
  set (s1 := set_header _ _).
  assert (core_pre b blocks fs s1) as Hinv1.
  { pose proof (ci_keys _ _ _ _ Hinv) as Hk. destruct Hinv as [[[]] _ _]. constructor; [by constructor|..]; try done.
    cbn. by rewrite Hk. }
  apply wp_bind. eapply wp_mono; [by apply (flush_all_ok b blocks fs)|].
  intros _ s' (fs' & infos & Hinv' & Hstep & Hsame & Hdat & Hskip & Hf & Hfs). pose proof Hsame as (Hk & Hh & _ & _ & _ & Hd).
  destruct (ci_oplog _ _ _ _ Hinv1) as (Ho & [[Hlen _] _] & Hbud).
  destruct (flush_traces _ _ (hc_header s1) Ho) as (o & infos' & b0 & b1 & Hf' & He).
  { apply header_small_fits, Hinv1. }
  wp_step. rewrite Hf in Hf'. injection Hf' as <- <-. rewrite Hk, Hh. split_and!; [done..|].
  exists fs', b0, b1. split_and!; [|done|by eapply (same_view_hint s1)|done|by rewrite Hfs|done|done].
  destruct Hinv' as [Hpre ? ?]. constructor; [|done..]. eapply core_pre_counted; [done|].
  pose proof (proj2 (proj2 (ci_oplog _ _ _ _ Hpre))) as Hb. lia.
Qed.

Lemma make_read_only_ok blocks fs s sk :
  core_inv blocks fs s -> kp_secret (hc_key_pair s) = Some sk ->
  wp Core.make_read_only s (fun r s' => r = true /\
    kp_secret (hc_key_pair s') = None /\ kp_public (hc_key_pair s') = kp_public (hc_key_pair s) /\
    exists fs' b0 b1, core_inv blocks fs' s' /\
      fs' Oplog = header_buffer b0 true (hc_header s') ++ header_buffer b1 true (hc_header s') /\
      kp_secret (hd_key_pair (hc_header s')) = None /\
      forall k, 0 <= k -> dbit (hc_bitfield s') k = dbit (hc_bitfield s) k).
Proof.
  intros [Hl Hd Hs Hc] Hsk. eapply wp_mono; [by eapply make_read_only_live|].
  intros r s' (? & ? & ? & fs' & b0 & b1 & Hl' & Hs' & Hc' & Hdat & Hf & Hn & Hbits). split_and!; try done.
  exists fs', b0, b1. split; [|done]. constructor; auto. intros k Hk. rewrite Hbits, Hdat by done. by apply Hd.
Qed.

(** ** Opening *)

(** A new core on empty stores stands for the empty log. *)
Lemma new_fresh_ok generated options (st : Storage) :
  holds st (fun _ => []) -> opt_open options = false ->
  wp (Core.new generated options) st (fun s st' => hc_storage s = st' /\
    hc_key_pair s = options_key_pair generated options /\ hc_events s = [] /\
    exists fs, core_inv [] fs s /\ fs Common.Tree = [] /\ mt_fork (hc_tree s) = 0 /\ flushed fs s /\ fs Data = []).
Proof.
  intros Hh Hopen. set (kp := options_key_pair generated options).
  destruct (fresh_ok kp (header_small_fits _ (Header_new_small kp))) as (o & infos & Hfr & Ho & Hw).
  unfold Core.new. apply wp_bind. eapply (wp_lift _ (Some kp)).
  { unfold Core.open_key_pair. rewrite Hopen. subst kp. unfold options_key_pair.
    by destruct (opt_key_pair options). }
  apply wp_bind. unfold Core.open_oplog. apply wp_bind. eapply wp_lift; [done|].
  wp_step. cbn beta iota. apply wp_bind.
  eapply (storage_read_info _ _ _ (StoreInfo.new_content Oplog 0 []));
    [exact Hh|split; cbn; [lia|done]|done|].
  apply wp_bind. eapply wp_lift.
  { rewrite open_empty_oplog. cbn [Oplog.open_headers]. by rewrite Hfr, bind_Ok. }
  cbn beta iota. wp_step. apply wp_bind. cbn [oo_infos_to_flush].
  destruct (flush_writes_ok _ _ _ _ Hh Hw) as (st1 & Hf1 & Hh1).
  exists st1, tt. split; [done|]. cbn [oo_header]. apply wp_bind.
  eapply (open_tree_ok [] _ None); [exact Hh1|by intros ? ? ?%elem_of_nil|done|done|done|].
  apply wp_bind. eapply open_bitfield_empty; [exact Hh1|done|]. cbn [oo_entries].
  wp_step. cbn beta iota. wp_step. apply wp_ret.
  split_and!; [done..|]. exists (update_store (fun _ => []) Oplog (file_effects [] infos)).
  match goal with |- core_ok _ _ ?fs ?s /\ _ => assert (flushed fs s) as Hfl by by (split; [cbn; rewrite update_store_same|]) end.
  split_and!; [|by rewrite update_store_other|done|exact Hfl|by rewrite update_store_other].
  match goal with |- core_ok _ _ ?fs ?s => destruct (flushed_live 3 [] fs s) as [Hl Hs] end.
  - constructor; [constructor|..]; cbn [hc_storage hc_tree hc_bitfield hc_oplog hc_skip_flush_count hc_header
      hc_key_pair]; [exact Hh1|done|by intros ? ? ?%complete_nil|..]; try done.
    + apply opened_tree_inv. by intros ? ? ?%complete_nil.
    + apply dyn_empty_wf.
    + apply bits_stored_empty.
    + rewrite update_store_same. pose proof (oplog_file_counted _ _ _ _ Ho eq_refl).
      pose proof Ho as (_ & _ & _ & _ & _ & Hlen & _). split_and!; [by eapply oplog_file_headed|done|].
      cbn [oo_oplog]. by rewrite Hlen.
    + apply Header_new_small.
  - exact Hfl.
  - constructor; [done..|]. split_and!; [done| |done]. cbn. lia.
Qed.

(** ** What a changeset does to the tree *)

Lemma core_flush_infos_inv infos s s' r :
  core_flush_infos infos s = (s', r) -> exists st, s' = set_storage st s.
Proof.
  unfold core_flush_infos. destruct (flush_infos infos (hc_storage s)) as [st r'].
  intros [= <- _]. by exists st.
Qed.

Lemma tree_flush_head t t' infos : Tree.flush t = Ok (t', infos) -> tree_head t' = tree_head t.
Proof.
  unfold Tree.flush. intros H. apply bind_inv_Ok in H as ([t1 i1] & H1 & H).
  apply bind_inv_Ok in H as ([t2 i2] & H2 & H). injection H as <- _.
  assert (tree_head t1 = tree_head t) as <-.
  { destruct (mt_truncated t); [|by injection H1 as <- _]. unfold Tree.flush_truncation in H1.
    apply bind_inv_Ok in H1 as (o & _ & H1). by injection H1 as <- _. }
  unfold Tree.flush_nodes in H2. apply bind_inv_Ok in H2 as (l & _ & H2). by injection H2 as <- _.
Qed.

Lemma flush_all_head ct s s' :
  Core.flush_bitfield_and_tree_and_oplog ct s = (s', Ok tt) ->
  tree_head (hc_tree s') = tree_head (hc_tree s).
Proof.
  unfold Core.flush_bitfield_and_tree_and_oplog, mbind, stateR_bind, gets, lift, modify. intros H.
  destruct (Dynamic.flush (hc_bitfield s)) as [[db i1]| | |]; try discriminate H.
  destruct (core_flush_infos i1 _) as [s1 [[]| | |]] eqn:H1; try discriminate H.
  apply core_flush_infos_inv in H1 as [st1 ->]. cbn [hc_tree set_storage set_bitfield] in H.
  destruct (Tree.flush (hc_tree s)) as [[t i2]| | |] eqn:Ht; try discriminate H.
  apply tree_flush_head in Ht as <-.
  destruct (core_flush_infos i2 _) as [s2 [[]| | |]] eqn:H2; try discriminate H.
  apply core_flush_infos_inv in H2 as [st2 ->].
  destruct (Oplog.flush _ _ ct) as [[o i3]| | |]; try discriminate H.
  by apply core_flush_infos_inv in H as [st3 ->].
Qed.

Lemma maybe_flush_head s s' :
  Core.maybe_flush s = (s', Ok tt) -> tree_head (hc_tree s') = tree_head (hc_tree s).
Proof.
  unfold Core.maybe_flush, Core.should_flush_bitfield_and_tree_and_oplog, mbind, stateR_bind, gets,
    lift, modify, mret, stateR_ret. intros H. destruct (_ || _).
  - by apply flush_all_head in H.
  - destruct (hc_skip_flush_count s -? 1); try discriminate H. by injection H as <-.
Qed.

(** The tree a logged changeset leaves is the one [commit] makes. *)
Lemma log_changeset_head cs u s s' :
  Core.log_changeset cs u s = (s', Ok tt) ->
  exists t, Tree.commit (hc_tree s) cs = Ok t /\ tree_head (hc_tree s') = tree_head t.
Proof.
  unfold Core.log_changeset. intros H.
  apply run_bind_inv in H as (? & o & [= <- <-] & H). apply run_bind_inv in H as (? & hd & [= <- <-] & H).
  apply run_bind_inv in H as (? & [o' out] & Ho & H). injection Ho as <- Ho.
  apply run_bind_inv in H as (? & [] & [= <-] & H).
  apply run_bind_inv in H as (? & [] & Hf & H). apply core_flush_infos_inv in Hf as [st ->].
  apply run_bind_inv in H as (? & [] & [= <-] & H).
  apply run_bind_inv in H as (s1 & [] & Hb & H).
  assert (hc_tree s1 = hc_tree s) as Ht.
  { destruct u as [u|]; [|by injection Hb as <-].
    apply run_bind_inv in Hb as (? & db & [= <- <-] & Hb).
    apply run_bind_inv in Hb as (? & db' & Hdb & Hb). injection Hdb as <- _.
    apply run_bind_inv in Hb as (? & [] & [= <-] & Hb).
    apply run_bind_inv in Hb as (? & h1 & [= <- <-] & Hb).
    apply run_bind_inv in Hb as (? & h2 & Hh & Hb). injection Hh as <- _. by injection Hb as <-. }
  apply run_bind_inv in H as (? & t0 & [= <- <-] & H).
  apply run_bind_inv in H as (? & t & Hc & H). injection Hc as <- Hc.
  apply run_bind_inv in H as (? & [] & [= <-] & H).
  exists t. rewrite Ht in Hc. split; [done|]. by apply maybe_flush_head in H.
Qed.


(** ** Applying a proof *)

Lemma core_read_infos_inv ins s s' r : core_read_infos ins s = (s', r) -> s' = s.
Proof. unfold core_read_infos, mbind, stateR_bind, gets, lift. by intros [= <- _]. Qed.

(** The changeset of a verified proof is one that the tree accepted. *)
Lemma core_verify_proof_inv proof s s' cs :
  Core.verify_proof proof s = (s', Ok cs) ->
  s' = s /\ exists infos,
    Proofs.verify_proof (hc_tree s) proof (kp_public (hc_key_pair s)) infos = Ok (Right cs).
Proof.
  unfold Core.verify_proof. intros H.
  apply run_bind_inv in H as (? & t & [= <- <-] & H). apply run_bind_inv in H as (? & kp & [= <- <-] & H).
  apply run_bind_inv in H as (? & [ins|cs1] & [= <- Hv] & H); [|injection H as <- <-; eauto].
  apply run_bind_inv in H as (? & infos & ->%core_read_infos_inv & H).
  apply run_bind_inv in H as (? & [ins'|cs1] & [= <- Hv'] & H); [discriminate H|].
  injection H as <- <-. eauto.
Qed.

Lemma store_block_inv cs block s s' u :
  Core.store_block cs block s = (s', Ok u) ->
  u = mkBitfieldUpdate false (db_index block) 1 /\ exists st, s' = set_storage st s.
Proof.
  unfold Core.store_block. intros H.
  apply run_bind_inv in H as (? & t & [= <- <-] & H). apply run_bind_inv in H as (? & r & [= <- Hr] & H).
  apply run_bind_inv in H as (s1 & o & Ho & H).
  assert (s1 = s) as ->.
  { destruct r as [ins|v]; [|by injection Ho as <- _].
    apply run_bind_inv in Ho as (? & infos & ->%core_read_infos_inv & Ho).
    apply run_bind_inv in Ho as (? & [ins'|v] & [= <- _] & Ho); [discriminate Ho|].
    by injection Ho as <- _. }
  apply run_bind_inv in H as (? & [] & [st ->]%core_flush_infos_inv & H). injection H as <- <-. eauto.
Qed.

(** An applied proof: the verified changeset was logged, and the events say so. *)
Lemma apply_proof_inv proof s s' :
  Core.verify_and_apply_proof proof s = (s', Ok true) ->
  exists infos cs t, proof_fork proof = mt_fork (hc_tree s) /\
    Proofs.verify_proof (hc_tree s) proof (kp_public (hc_key_pair s)) infos = Ok (Right cs) /\
    Tree.commitable (hc_tree s) cs = true /\
    Tree.commit (hc_tree s) cs = Ok t /\ tree_head (hc_tree s') = tree_head t.
Proof.
  unfold Core.verify_and_apply_proof. intros H. apply run_bind_inv in H as (? & tr & [= <- <-] & H).
  destruct (negb (_ =? _)) eqn:Hf; [discriminate H|].
  apply run_bind_inv in H as (? & cs & (-> & infos & Hv)%core_verify_proof_inv & H).
  destruct (Tree.commitable (hc_tree s) cs) eqn:Hc; cbn [negb] in H; [|discriminate H].
  apply run_bind_inv in H as (s1 & u & Hu & H).
  assert (exists st, s1 = set_storage st s) as [st ->].
  { destruct (proof_block proof) as [b|]; [|injection Hu as <- _; exists (hc_storage s); by destruct s].
    apply run_bind_inv in Hu as (? & u' & [_ Hst]%store_block_inv & [= <- _]). done. }
  apply run_bind_inv in H as (s2 & [] & (t & Ht & Hhead)%log_changeset_head & H).
  apply run_bind_inv in H as (s3 & [] & H3 & H). apply run_bind_inv in H as (s4 & [] & H4 & H).
  injection H as <-. exists infos, cs, t. apply negb_false_iff, Z.eqb_eq in Hf.
  split_and!; [done..|]. rewrite <-Hhead.
  destruct u, (proof_upgrade proof); injection H3 as <-; by injection H4 as <-.
Qed.
End View.

Abbreviation core_inv := (core_ok 3).
