(* ===== verification/CoreSpec.v ===== *)
(** * The hypercore as a log

    The abstract specification of a hypercore: a list of blocks, each present
    or cleared, whether the log can be written, and how far the data file
    reaches.  The last matters in two cases only, both of [clear]: a range
    behind the last block cannot be cleared, and a block without bytes cannot
    be read while the data file ends before it.  Elsewhere the log is a plain
    list ([plain_exec_ok]).  [core_run_ok]: a run of operations on a [Hypercore]
    gives the replies of the same run on the log; [state_run_ok]: so does one on
    a core that was opened again, the contiguous length apart. *)

From stdpp Require Import base list gmap.
From Stdlib Require Import ZArith Lia Bool.
From S2P Require Import Prelude FlatTree Common BitfieldFixed BitfieldDynamic.
From S2P Require Import CompactEncoding Encoding Crypto OplogEntry Changeset Storage.
From S2P Require Import Oplog MerkleTree MerkleView MerkleProof Core CoreOpen CoreView.
Open Scope Z_scope.

Record log := mkLog {
  log_entries : list (list Z * bool);
  log_writeable : bool;
  log_data : Z;
}.

Definition log_blocks (l : log) : list (list Z) := (log_entries l).*1.
Definition log_has (l : log) (i : Z) : bool := default false (snd <$> log_entries l !! Z.to_nat i).

(** The number of blocks before the first missing one. *)
Fixpoint present_prefix (es : list (list Z * bool)) : Z :=
  match es with
  | (_, true) :: es => 1 + present_prefix es
  | _ => 0
  end.

Inductive core_op :=
  | OpAppendBatch (batch : list (list Z))
  | OpGet (index : Z)
  | OpHas (index : Z)
  | OpClear (start end_ : Z)
  | OpInfo
  | OpMakeReadOnly.

Inductive core_reply :=
  | ReplyAppend (o : AppendOutcome)
  | ReplyGet (data : option (list Z))
  | ReplyHas (b : bool)
  | ReplyClear
  | ReplyInfo (length byte_length contiguous_length : Z) (writeable : bool)
  | ReplyMakeReadOnly (changed : bool).

Definition clear_entries (start end_ : Z) (es : list (list Z * bool)) : list (list Z * bool) :=
  imap (fun k '(b, p) => (b, if (start <=? Z.of_nat k) && (Z.of_nat k <? end_) then false else p)) es.

(** The hole around a cleared range: where the last block before it ends, and
    where the next one is. *)
Fixpoint hole_start (k start : Z) (es : list (list Z * bool)) (acc : Z) : Z :=
  match es with
  | [] => acc
  | (_, p) :: es => hole_start (k + 1) start es (if p && (k <=? start) then k + 1 else acc)
  end.
Fixpoint hole_end (k end_ : Z) (es : list (list Z * bool)) : Z :=
  match es with
  | [] => k
  | (_, p) :: es => if p && (end_ <=? k) then k else hole_end (k + 1) end_ es
  end.

(** Why clearing fails: the hole starts at the end of the log, or behind the
    end of the data file. *)
Definition hole_error (l : log) (hs : Z) : option HypercoreError :=
  if hs =? zlen (log_entries l) then Some BadArgument
  else if log_data l <? byte_sum (log_blocks l) hs then Some InvalidOperation else None.

(** The blocks are gone even if it fails; the data file is cut at the hole if
    it ends there. *)
Definition log_clear (l : log) (start end_ : Z) : log * result core_reply :=
  let es := clear_entries start end_ (log_entries l) in
  let hs := hole_start 0 start es 0 in
  let from := byte_sum (log_blocks l) hs in
  let to := byte_sum (log_blocks l) (hole_end 0 end_ es) in
  match hole_error l hs with
  | Some e => (mkLog es (log_writeable l) (log_data l), Err e)
  | None => (mkLog es (log_writeable l) (if log_data l <=? to then from else log_data l), Ok ReplyClear)
  end.

(** What an operation does to the log, and what it replies. *)
Definition log_exec (l : log) (op : core_op) : log * result core_reply :=
  match op with
  | OpAppendBatch batch =>
      if log_writeable l then
        let es := log_entries l ++ ((fun b => (b, true)) <$> batch) in
        (mkLog es true (if is_empty batch then log_data l else Z.max (log_data l) (zlen (concat es.*1))),
         Ok (ReplyAppend (mkAppendOutcome (zlen es) (zlen (concat es.*1)))))
      else (l, Err NotWritable)
  | OpGet i =>
      (l, if log_has l i then
            let block := block_at (log_blocks l) i in
            if byte_sum (log_blocks l) i + zlen block <=? log_data l then Ok (ReplyGet (Some block))
            else Err InvalidOperation
          else Ok (ReplyGet None))
  | OpHas i => (l, Ok (ReplyHas (log_has l i)))
  | OpClear start end_ => if end_ <=? start then (l, Ok ReplyClear) else log_clear l start end_
  | OpInfo =>
      (l, Ok (ReplyInfo (zlen (log_entries l)) (zlen (concat (log_blocks l)))
                (present_prefix (log_entries l)) (log_writeable l)))
  | OpMakeReadOnly => (mkLog (log_entries l) false (log_data l), Ok (ReplyMakeReadOnly (log_writeable l)))
  end.

(** The failed clears of a run: each leaves an entry in the oplog that no flush
    follows. *)
Definition failed_clear (l : log) (op : core_op) : Z :=
  match op, (log_exec l op).2 with
  | OpClear _ _, Err _ => 1
  | _, _ => 0
  end.
Fixpoint failed_clears (l : log) (ops : list core_op) : Z :=
  match ops with
  | [] => 0
  | op :: ops => failed_clear l op + failed_clears (log_exec l op).1 ops
  end.

(** A reply without the contiguous length. *)
Definition forget_hint (r : result core_reply) : result core_reply :=
  match r with
  | Ok (ReplyInfo length byte_length _ writeable) => Ok (ReplyInfo length byte_length 0 writeable)
  | _ => r
  end.

Fixpoint log_run (l : log) (ops : list core_op) : log * list (result core_reply) :=
  match ops with
  | [] => (l, [])
  | op :: ops =>
      let '(l, r) := log_exec l op in
      let '(l, rs) := log_run l ops in
      (l, r :: rs)
  end.

Section Refinement.
Context `{FT : FlatTree} {FL : FlatTreeLaws FT} `{CE : CompactEncoding} {CL : CompactEncodingLaws CE}
  `{B2 : Blake2b} {BL : Blake2bLaws B2} `{ED : Ed25519} {EL : Ed25519Laws ED} `{CR : Crc32}
  {CRL : Crc32Laws CR} `{RA : RandomAccess} {RL : RandomAccessLaws RA}
  `{IO : IntMapOrder} {IOL : IntMapOrderLaws IO}.
Implicit Types (s : Hypercore) (l : log).

(** The same operations on the core. *)
Definition core_exec (op : core_op) : coreM core_reply :=
  match op with
  | OpAppendBatch batch => o ← Core.append_batch batch; mret (ReplyAppend o)
  | OpGet i => data ← Core.get i; mret (ReplyGet data)
  | OpHas i => s ← gets id; b ← lift (Core.has s i); mret (ReplyHas b)
  | OpClear start end_ => _ ← Core.clear start end_; mret ReplyClear
  | OpInfo =>
      i ← gets Core.info;
      mret (ReplyInfo (info_length i) (info_byte_length i) (info_contiguous_length i) (info_writeable i))
  | OpMakeReadOnly => b ← Core.make_read_only; mret (ReplyMakeReadOnly b)
  end.

Fixpoint core_run (s : Hypercore) (ops : list core_op) : Hypercore * list (result core_reply) :=
  match ops with
  | [] => (s, [])
  | op :: ops =>
      let '(s, r) := core_exec op s in
      let '(s, rs) := core_run s ops in
      (s, r :: rs)
  end.

(** The sizes for which this is claimed: a batch of at most 2^18 blocks, less
    than 2^57 blocks and 2^64 bytes in all, none of whose tree nodes hashes to
    zeros, indices of 64 bits, and cleared ranges that end below 2^63. *)
Definition op_ok l (op : core_op) : Prop :=
  match op with
  | OpAppendBatch batch =>
      log_fits (log_blocks l ++ batch) /\ no_blank (log_blocks l ++ batch) /\ zlen batch <= 2 ^ 18
  | OpGet i | OpHas i => 0 <= i < 2 ^ 64
  | OpClear start end_ => 0 <= start /\ end_ < 2 ^ 63
  | OpInfo | OpMakeReadOnly => True
  end.

Fixpoint ops_ok l (ops : list core_op) : Prop :=
  match ops with
  | [] => True
  | op :: ops => op_ok l op /\ ops_ok (log_exec l op).1 ops
  end.

(** The core stands for the log.  [strict] is for a core that was not opened
    again: its contiguous length is exact and its oplog in step with the file. *)
Definition log_within (budget : Z) (strict : bool) l s : Prop :=
  (exists fs, core_live budget (log_blocks l) fs s /\ (strict = true -> in_step fs s) /\ zlen (fs Data) = log_data l) /\
  (strict = true -> hint_exact s) /\
  (forall k, 0 <= k -> dbit (hc_bitfield s) k = log_has l k) /\
  (match kp_secret (hc_key_pair s) with Some _ => true | None => false end) = log_writeable l.

(** At most three operations come before the next flush. *)
Abbreviation log_state := (log_within 3).
Definition stands_for l s : Prop := log_state true l s.

Lemma zlen_blocks l : zlen (log_blocks l) = zlen (log_entries l).
Proof. unfold zlen, log_blocks. by rewrite length_fmap. Qed.

Lemma log_blocks_append es batch :
  ((es ++ ((fun b => (b, true)) <$> batch)).*1 : list (list Z)) = es.*1 ++ batch.
Proof. rewrite fmap_app, <-list_fmap_compose. f_equal. apply list_fmap_id. Qed.

Lemma log_has_append es w d batch k :
  0 <= k ->
  log_has (mkLog (es ++ ((fun b => (b, true)) <$> batch)) w d) k =
    if decide (zlen es <= k < zlen es + zlen batch) then true else log_has (mkLog es w d) k.
Proof.
  intros Hk. unfold log_has. cbn [log_entries]. unfold zlen. case_decide.
  - rewrite lookup_app_r by lia. rewrite list_lookup_fmap.
    destruct (lookup_lt_is_Some_2 batch (Z.to_nat k - length es)) as [b ->]; [lia|done].
  - destruct (decide (Z.to_nat k < length es)%nat).
    + by rewrite lookup_app_l.
    + rewrite lookup_app_r, list_lookup_fmap by lia. rewrite (lookup_ge_None_2 batch) by lia.
      by rewrite (lookup_ge_None_2 es) by lia.
Qed.

Lemma clear_entries_blocks a b es : (clear_entries a b es).*1 = es.*1.
Proof.
  unfold clear_entries. rewrite fmap_imap. apply list_eq. intros i.
  rewrite list_lookup_imap, list_lookup_fmap. by destruct (es !! i) as [[]|].
Qed.

Lemma log_has_clear a b es w d k :
  0 <= k ->
  log_has (mkLog (clear_entries a b es) w d) k =
    if decide (a <= k < b) then false else log_has (mkLog es w d) k.
Proof.
  intros Hk. unfold log_has. cbn [log_entries clear_entries]. unfold clear_entries.
  rewrite list_lookup_imap. destruct (es !! Z.to_nat k) as [[x p]|]; cbn; [|by case_decide].
  rewrite Z2Nat.id by done. case_decide.
  - by rewrite (proj2 (Z.leb_le _ _)), (proj2 (Z.ltb_lt _ _)) by lia.
  - destruct (Z.leb_spec a k), (Z.ltb_spec k b); try done. lia.
Qed.

Lemma log_has_bound l k : 0 <= k -> zlen (log_entries l) <= k -> log_has l k = false.
Proof. intros H0 Hk. unfold log_has, zlen in *. by rewrite lookup_ge_None_2 by lia. Qed.

(** The contiguous length is the one of the log. *)
Lemma present_prefix_first es w d :
  0 <= present_prefix es /\
  (forall k, 0 <= k < present_prefix es -> log_has (mkLog es w d) k = true) /\
  log_has (mkLog es w d) (present_prefix es) = false.
Proof.
  induction es as [|[b p] es (H0 & Hset & Hun)]; [split_and!; [done|cbn; lia|done]|].
  cbn [present_prefix]. destruct p; [|split_and!; [done|lia|done]].
  assert (forall k, 0 < k -> log_has (mkLog ((b, true) :: es) w d) k = log_has (mkLog es w d) (k - 1)) as Hs.
  { intros k Hk. unfold log_has. cbn [log_entries].
    replace (Z.to_nat k) with (S (Z.to_nat (k - 1))) by lia. done. }
  split_and!; [lia| |rewrite Hs by lia; by replace (1 + present_prefix es - 1) with (present_prefix es) by lia].
  intros k Hk. destruct (decide (k = 0)) as [->|]; [done|]. rewrite Hs by lia. apply Hset. lia.
Qed.

Lemma contiguous_prefix db es w d c :
  (forall k, 0 <= k -> dbit db k = log_has (mkLog es w d) k) -> contiguous db c -> c = present_prefix es.
Proof.
  intros Hd (H0 & Hset & Hun). destruct (present_prefix_first es w d) as (H0' & Hset' & Hun').
  rewrite Hd in Hun by done. destruct (Z.lt_trichotomy c (present_prefix es)) as [Hlt|[?|Hgt]]; [|done|].
  - rewrite Hset' in Hun by lia. done.
  - rewrite <-Hd, Hset in Hun' by lia. done.
Qed.

(** *** Holes *)

Lemma hole_ext n bit bit' start end_ hs he :
  0 <= end_ -> (forall k, 0 <= k -> bit k = bit' k) -> hole n bit start end_ hs he -> hole n bit' start end_ hs he.
Proof.
  intros He Hb [Hl Hbf Hf Hn Hg]. constructor; [done|..].
  - intros Hp. rewrite <-Hb by lia. by apply Hbf.
  - intros k Hk. rewrite <-Hb by lia. by apply Hf.
  - destruct Hn as [?|[? Hbit]]; [by left|right]. by rewrite <-Hb by lia.
  - intros k Hk. rewrite <-Hb by lia. by apply Hg.
Qed.

(** Whether the entry that is [i] behind the first is present. *)
Definition entry_has (es : list (list Z * bool)) (i : Z) : bool := default false (snd <$> es !! Z.to_nat i).

Lemma entry_has_cons x p es i : 0 < i -> entry_has ((x, p) :: es) i = entry_has es (i - 1).
Proof. intros Hi. unfold entry_has. by replace (Z.to_nat i) with (S (Z.to_nat (i - 1))) by lia. Qed.
Lemma entry_has_end es i : zlen es <= i -> entry_has es i = false.
Proof. intros Hi. unfold entry_has. rewrite lookup_ge_None_2; [done|]. unfold zlen in Hi. lia. Qed.

Lemma hole_start_ok start es : forall k acc,
  let r := hole_start k start es acc in
  (forall j, r <= j -> k <= j <= start -> entry_has es (j - k) = false) /\
  (r = acc \/ k < r <= start + 1 /\ entry_has es (r - 1 - k) = true).
Proof.
  induction es as [|[x p] es IH]; intros k acc; cbn [hole_start].
  { split; [|by left]. intros j _ _. done. }
  destruct (IH (k + 1) (if p && (k <=? start) then k + 1 else acc)) as [Hfree Hr].
  set (r := hole_start _ _ _ _) in *. clearbody r. split.
  - intros j Hj Hk. destruct (decide (j = k)) as [->|Hne].
    + rewrite Z.sub_diag. cbn. destruct p; [|done]. rewrite (proj2 (Z.leb_le _ _)) in Hr by lia. cbn in Hr. lia.
    + rewrite entry_has_cons by lia. replace (j - k - 1) with (j - (k + 1)) by lia. apply Hfree; lia.
  - destruct Hr as [->|[Hr Hset]].
    + destruct p; [|by left]. destruct (Z.leb_spec k start); [|by left]. right. cbn [andb].
      split; [lia|]. by replace (k + 1 - 1 - k) with 0 by lia.
    + right. split; [lia|]. rewrite entry_has_cons by lia. by replace (r - 1 - k - 1) with (r - 1 - (k + 1)) by lia.
Qed.

Lemma hole_end_ok end_ es : forall k,
  let r := hole_end k end_ es in k <= r <= k + zlen es /\
  (r = k + zlen es \/ end_ <= r /\ entry_has es (r - k) = true) /\
  (forall j, end_ <= j -> k <= j < r -> entry_has es (j - k) = false).
Proof.
  induction es as [|[x p] es IH]; intros k; cbn [hole_end].
  { rewrite zlen_nil. split_and!; [lia|lia|left; lia|lia]. }
  rewrite zlen_cons. pose proof (zlen_nonneg es). destruct (p && (end_ <=? k)) eqn:Hp.
  { apply andb_true_iff in Hp as [-> Hk%Z.leb_le]. split_and!; [lia|lia| |lia]. right. split; [done|]. by rewrite Z.sub_diag. }
  destruct (IH (k + 1)) as (Hr & Hat & Hgap). set (r := hole_end _ _ _) in *. split; [lia|]. split.
  - destruct Hat as [?|[? Hset]]; [left; lia|right]. split; [done|]. rewrite entry_has_cons by lia.
    by replace (r - k - 1) with (r - (k + 1)) by lia.
  - intros j Hj Hk. destruct (decide (j = k)) as [->|Hne].
    + rewrite Z.sub_diag. cbn. rewrite (proj2 (Z.leb_le _ _) Hj), andb_true_r in Hp. done.
    + rewrite entry_has_cons by lia. replace (j - k - 1) with (j - (k + 1)) by lia. apply Hgap; lia.
Qed.

Lemma log_hole l start end_ :
  0 <= start -> 0 <= end_ -> log_has l start = false ->
  hole (zlen (log_entries l)) (log_has l) start end_ (hole_start 0 start (log_entries l) 0) (hole_end 0 end_ (log_entries l)).
Proof.
  intros Hs He Hno. destruct (hole_start_ok start (log_entries l) 0 0) as [Hfree Hr].
  destruct (hole_end_ok end_ (log_entries l) 0) as (Hre & Hat & Hgap).
  set (hs := hole_start _ _ _ _) in *. set (he := hole_end _ _ _) in *.
  change (entry_has (log_entries l)) with (log_has l) in *.
  assert (0 <= hs <= start) as Hhs.
  { destruct Hr as [->|[Hr Hset]]; [lia|]. destruct (decide (hs - 1 = start)) as [E|]; [|lia].
    rewrite Z.sub_0_r, E in Hset. congruence. }
  constructor; [done|..].
  - intros Hp. destruct Hr as [?|[_ Hset]]; [lia|]. by rewrite Z.sub_0_r in Hset.
  - intros k Hk. rewrite <-(Z.sub_0_r k). apply Hfree; lia.
  - destruct Hat as [Hat|[Hat Hset]]; [left; lia|]. rewrite Z.sub_0_r in Hset.
    destruct (decide (he = zlen (log_entries l))); [by left|right]. split; [lia|done].
  - intros k Hk. rewrite <-(Z.sub_0_r k). apply Hgap; lia.
Qed.

(** *** One operation *)

Lemma exec_append n b l s batch :
  log_within n b l s -> 3 <= n < 2 ^ 31 -> op_ok l (OpAppendBatch batch) ->
  exists s', core_exec (OpAppendBatch batch) s = (s', (log_exec l (OpAppendBatch batch)).2) /\
    log_within n b (log_exec l (OpAppendBatch batch)).1 s'.
Proof.
  intros ((fs & Hl & Hs & Hda) & Hc & Hd & Hw) Hn31 (Hfit & Hnb & Hsz). cbn [log_exec core_exec].
  destruct (kp_secret (hc_key_pair s)) as [sk|] eqn:Hsk; rewrite <-Hw.
  - cbn [fst snd]. destruct (append_batch_live n _ batch fs s sk Hl Hn31 Hsk Hfit Hnb Hsz)
      as (s' & r & Hrun & -> & (fs' & Hl' & Hs' & Hda') & Hc' & Hk & _ & _ & Hbits).
    exists s'. split.
    + unfold mbind, stateR_bind. rewrite Hrun. unfold mret, stateR_ret.
      rewrite log_blocks_append. do 4 f_equal. rewrite !zlen_app, zlen_blocks.
      unfold zlen. by rewrite length_fmap.
    + unfold log_within, log_blocks. cbn [log_entries log_writeable log_data]. rewrite log_blocks_append.
      split_and!; [exists fs'; split_and!; auto|by auto| |by rewrite Hk, Hsk].
      { rewrite Hda'. destruct (is_empty batch); [done|].
        rewrite zlen_file_write, Hda, concat_app, zlen_app by apply zlen_nonneg. done. } intros k Hk0.
      rewrite Hbits, log_has_append, Hd, zlen_app, zlen_blocks by done. by destruct l.
  - exists s. split; [|by split_and!; [exists fs|..]; rewrite ?Hsk].
    unfold Core.append_batch, mbind, stateR_bind, gets. by rewrite Hsk.
Qed.

Lemma exec_clear n b l s start end_ :
  log_within n b l s -> 3 <= n < 2 ^ 31 -> op_ok l (OpClear start end_) ->
  b = true \/ failed_clear l (OpClear start end_) = 0 ->
  exists s', core_exec (OpClear start end_) s = (s', (log_exec l (OpClear start end_)).2) /\
    log_within (n + failed_clear l (OpClear start end_)) b (log_exec l (OpClear start end_)).1 s'.
Proof.
  intros ((fs & Hl & Hs & Hda) & Hc & Hd & Hw) Hn (Ha & He) Hf. unfold failed_clear in *. cbn [log_exec core_exec] in *.
  destruct (Z.leb_spec end_ start) as [Hge|Hlt].
  { exists s. cbn [fst snd]. rewrite Z.add_0_r. split; [|by split_and!; [exists fs|..]].
    unfold Core.clear. by rewrite (proj2 (Z.leb_le _ _)). }
  destruct (clear_live n (log_blocks l) fs s start end_ Hl Hn ltac:(lia) He)
    as (hs & he & s' & fs' & Hhole & Hrun & Hlive & Hlen & Hc' & Hk & _ & Hbits).
  set (es := clear_entries start end_ (log_entries l)) in *.
  assert (forall k d, 0 <= k -> log_has (mkLog es (log_writeable l) d) k =
    if decide (start <= k < end_) then false else dbit (hc_bitfield s) k) as Hhas.
  { intros k d Hk0. unfold es. rewrite log_has_clear, Hd by done. done. }
  assert (hs = hole_start 0 start es 0 /\ he = hole_end 0 end_ es) as [Ehs Ehe].
  { eapply (hole_unique (zlen (log_blocks l))); [exact Hhole|].
    replace (zlen (log_blocks l)) with (zlen es) by (rewrite zlen_blocks; unfold zlen, es, clear_entries; by rewrite length_imap).
    eapply hole_ext; [lia| |apply (log_hole (mkLog es (log_writeable l) 0)); [lia..|]].
    - intros k Hk0. by apply Hhas.
    - rewrite Hhas by done. by rewrite decide_True by lia. }
  assert (hole_error l hs = clear_error (log_blocks l) fs hs) as Herr
    by (unfold hole_error, clear_error; by rewrite zlen_blocks, Hda).
  unfold log_clear in *. fold es in Hf |- *. rewrite <-Ehs, <-Ehe, Herr in *.
  exists s'. unfold mbind, stateR_bind. rewrite Hrun.
  assert (forall d fs', core_live (n + (match clear_error (log_blocks l) fs hs with Some _ => 1 | None => 0 end)) (log_blocks l) fs' s' ->
    (b = true -> in_step fs' s') -> zlen (fs' Data) = d ->
    log_within (n + (match clear_error (log_blocks l) fs hs with Some _ => 1 | None => 0 end)) b (mkLog es (log_writeable l) d) s') as Hst.
  { intros d fs2 Hl2 Hs2 Hd2. unfold log_within, log_blocks. cbn [log_entries log_writeable log_data].
    unfold es at 1. rewrite clear_entries_blocks. split_and!; [by exists fs2|by auto| |by rewrite Hk].
    intros k Hk0. rewrite Hbits, Hhas by done. done. }
  destruct (clear_error (log_blocks l) fs hs) as [e|]; cbn [fst snd] in *.
  - split; [done|]. destruct Hf as [->|?]; [|done]. destruct (Hlive (Hs eq_refl)) as [Hl' Hs'].
    eapply Hst; [exact Hl'|done|]. congruence.
  - split; [done|]. destruct Hlive as [Hl' Hs']. rewrite Z.add_0_r in *. eapply Hst; [exact Hl'|done|]. by rewrite Hlen, Hda.
Qed.

Lemma exec_get n b l s i :
  log_within n b l s -> op_ok l (OpGet i) ->
  exists s', core_exec (OpGet i) s = (s', (log_exec l (OpGet i)).2) /\ log_within n b l s'.
Proof.
  intros ((fs & Hl & Hs & Hda) & Hc & Hd & Hw) Hi. cbn [log_exec core_exec fst snd op_ok] in *.
  rewrite <-Hd by lia. unfold mbind, stateR_bind. destruct (dbit (hc_bitfield s) i) eqn:Hb.
  - exists s. split; [|split_and!; [by exists fs|done..]]. destruct (ci_held _ _ _ Hl i) as [Hlt Hat]; [lia|done|].
    destruct (Z.leb_spec (byte_sum (log_blocks l) i + zlen (block_at (log_blocks l) i)) (log_data l)) as [Hle|Hsh].
    + rewrite (get_known (log_blocks l) fs); [done|apply core_read_known; [apply Hl|lia]|apply Hl|done|].
      destruct (decide (block_at (log_blocks l) i = [])) as [E|Hne]; [|by apply Hat].
      rewrite E in *. by split; [rewrite Hda|].
    + rewrite (get_short (log_blocks l) fs); [done|apply Hl|lia|done|by rewrite Hda].
  - rewrite (get_missing (log_blocks l) fs); [|apply Hl|lia|done]. eexists. split; [done|].
    split_and!; [|done..]. exists fs. split_and!; [by apply core_live_event|done..].
Qed.

Lemma exec_has n b l s i :
  log_within n b l s -> op_ok l (OpHas i) -> core_exec (OpHas i) s = (s, (log_exec l (OpHas i)).2).
Proof.
  intros ((fs & Hl & _) & _ & Hd & _) Hi. cbn in Hi.
  cbn [log_exec core_exec snd]. unfold mbind, stateR_bind, gets, lift, id, Core.has.
  by rewrite dyn_get_Ok, Hd by (done || lia || apply Hl).
Qed.

Lemma exec_info n b l s :
  log_within n b l s -> exists r, core_exec OpInfo s = (s, r) /\ forget_hint r = forget_hint (log_exec l OpInfo).2 /\
    (b = true -> r = (log_exec l OpInfo).2).
Proof.
  intros ((fs & Hl & _) & Hc & Hd & Hw). eexists. split; [done|].
  cbn [log_exec snd Core.info forget_hint info_length info_byte_length info_contiguous_length info_writeable].
  pose proof (ci_tree _ _ _ Hl) as ((_ & -> & ->) & _). rewrite Hw, zlen_blocks. split; [done|].
  intros Hb. do 2 f_equal. destruct l as [es w d]. eapply contiguous_prefix; [done|]. by apply Hc.
Qed.

Lemma exec_read_only n b l s :
  log_within n b l s ->
  exists s', core_exec OpMakeReadOnly s = (s', (log_exec l OpMakeReadOnly).2) /\
    log_within n b (log_exec l OpMakeReadOnly).1 s'.
Proof.
  intros ((fs & Hl & Hs & Hda) & Hc & Hd & Hw). cbn [log_exec core_exec fst snd]. unfold mbind, stateR_bind.
  destruct (kp_secret (hc_key_pair s)) as [sk|] eqn:Hsk; rewrite <-Hw.
  - destruct (make_read_only_live _ _ _ _ _ Hl Hsk)
      as (s' & r & -> & -> & Hn & _ & fs' & b0 & b1 & Hl' & Hs' & Hc' & Hda' & _ & _ & Hd').
    exists s'. split; [done|]. split_and!; [exists fs'; by rewrite Hda'|by auto| |by rewrite Hn].
    intros k Hk. rewrite Hd', Hd by done. by destruct l.
  - exists s. unfold Core.make_read_only, mbind, stateR_bind, gets. rewrite Hsk. split; [done|].
    split_and!; [by exists fs|done| |by rewrite Hsk]. intros k Hk. rewrite Hd by done. by destruct l.
Qed.

Lemma state_exec_ok n b l s op :
  log_within n b l s -> 3 <= n < 2 ^ 31 -> op_ok l op -> b = true \/ failed_clear l op = 0 ->
  exists s' r, core_exec op s = (s', r) /\ forget_hint r = forget_hint (log_exec l op).2 /\
    (b = true -> r = (log_exec l op).2) /\ log_within (n + failed_clear l op) b (log_exec l op).1 s'.
Proof.
  intros Hst Hn Hok Hf. destruct op as [batch|i|i|start end_| |].
  4: { destruct (exec_clear n b l s start end_ Hst Hn Hok Hf) as (s' & Hex & Hst'). eauto 6. }
  all: change (failed_clear _ _) with 0; rewrite Z.add_0_r.
  - destruct (exec_append n b l s batch Hst Hn Hok) as (s' & Hex & Hst'). eauto 6.
  - destruct (exec_get n b l s i Hst Hok) as (s' & Hex & Hst'). eauto 6.
  - pose proof (exec_has n b l s i Hst Hok). eauto 6.
  - destruct (exec_info n b l s Hst) as (r & Hex & Hf' & Hr). eauto 6.
  - destruct (exec_read_only n b l s Hst) as (s' & Hex & Hst'). eauto 6.
Qed.

Lemma failed_clear_range l op : 0 <= failed_clear l op <= 1.
Proof. unfold failed_clear. destruct op; cbn; try lia. by destruct (if _ <=? _ then _ else _) as [? []]; cbn. Qed.
Lemma failed_clears_range ops : forall l, 0 <= failed_clears l ops <= zlen ops.
Proof.
  induction ops as [|op ops IH]; intros l; cbn [failed_clears]; [done|]. pose proof (failed_clear_range l op).
  specialize (IH (log_exec l op).1). rewrite zlen_cons. lia.
Qed.

(** A run replies like the run of the log; on a core that was opened again, up to
    the contiguous length, and as long as no [clear] fails. *)
Lemma within_run_ok b ops : forall n l s,
  log_within n b l s -> ops_ok l ops -> 3 <= n -> n + failed_clears l ops < 2 ^ 31 ->
  b = true \/ failed_clears l ops = 0 ->
  exists s' rs, core_run s ops = (s', rs) /\ forget_hint <$> rs = forget_hint <$> (log_run l ops).2 /\
    (b = true -> rs = (log_run l ops).2) /\ log_within (n + failed_clears l ops) b (log_run l ops).1 s'.
Proof.
  induction ops as [|op ops IH]; intros n l s Hst Hok Hn3 Hn Hf.
  { exists s, []. cbn [failed_clears log_run fst snd]. by rewrite Z.add_0_r. }
  destruct Hok as [Hop Hok]. cbn [failed_clears] in *. pose proof (failed_clear_range l op).
  pose proof (failed_clears_range ops (log_exec l op).1).
  destruct (state_exec_ok n b l s op Hst ltac:(lia) Hop) as (s1 & r & Hex & Hr & Hx & Hst1);
    [destruct Hf; [by left|right; lia]|]. cbn [core_run log_run].
  rewrite Hex. destruct (log_exec l op) as [l1 r']. cbn [fst snd] in *.
  destruct (IH _ l1 s1 Hst1 Hok) as (s' & rs & -> & Hrs & Hxs & Hst'); [lia|lia|destruct Hf; [by left|right; lia]|].
  exists s', (r :: rs). rewrite Z.add_assoc. destruct (log_run l1 ops) as [l2 rs']. cbn [fst snd fmap list_fmap] in *.
  split_and!; [done|by rewrite Hr; f_equal| |done]. intros Hb. by rewrite (Hx Hb), (Hxs Hb).
Qed.

Lemma state_run_ok b ops l s :
  log_state b l s -> ops_ok l ops -> failed_clears l ops = 0 ->
  exists s' rs, core_run s ops = (s', rs) /\ forget_hint <$> rs = forget_hint <$> (log_run l ops).2 /\
    log_state b (log_run l ops).1 s'.
Proof.
  intros Hst Hok Hf. destruct (within_run_ok b ops 3 l s Hst Hok) as (s' & rs & Hrun & Hrs & _ & Hst'); [lia|lia|by right|].
  rewrite Hf in Hst'. by exists s', rs.
Qed.

(** The run of the core replies like the run of the log. *)
Lemma core_run_ok ops l s :
  stands_for l s -> ops_ok l ops -> zlen ops < 2 ^ 30 ->
  exists s', core_run s ops = (s', (log_run l ops).2) /\ log_within (3 + failed_clears l ops) true (log_run l ops).1 s'.
Proof.
  intros Hst Hok Hn. pose proof (failed_clears_range ops l).
  destruct (within_run_ok true ops 3 l s Hst Hok) as (s' & rs & Hrun & _ & Hrs & Hst'); [lia|lia|by left|].
  rewrite (Hrs eq_refl) in Hrun. by exists s'.
Qed.

(** ** The plain list *)

(** All the present blocks are in the data file. *)
Definition log_full l : Prop :=
  0 <= log_data l /\ forall k, 0 <= k -> log_has l k = true -> byte_sum (log_blocks l) (k + 1) <= log_data l.

(** A list of blocks that are present or cleared and whether it may be written,
    with the replies one expects of it. *)
Definition plain : Type := list (list Z * bool) * bool.

Definition plain_exec (a : plain) (op : core_op) : plain * result core_reply :=
  let '(es, w) := a in
  match op with
  | OpAppendBatch batch =>
      if w then
        let es := es ++ ((fun b => (b, true)) <$> batch) in
        ((es, w), Ok (ReplyAppend (mkAppendOutcome (zlen es) (zlen (concat es.*1)))))
      else (a, Err NotWritable)
  | OpGet i => (a, Ok (ReplyGet (match es !! Z.to_nat i with Some (b, true) => Some b | _ => None end)))
  | OpHas i => (a, Ok (ReplyHas (match es !! Z.to_nat i with Some (_, true) => true | _ => false end)))
  | OpClear start end_ => ((clear_entries start end_ es, w), Ok ReplyClear)
  | OpInfo => (a, Ok (ReplyInfo (zlen es) (zlen (concat es.*1)) (present_prefix es) w))
  | OpMakeReadOnly => ((es, false), Ok (ReplyMakeReadOnly w))
  end.

Fixpoint plain_run (a : plain) (ops : list core_op) : plain * list (result core_reply) :=
  match ops with
  | [] => (a, [])
  | op :: ops =>
      let '(a, r) := plain_exec a op in
      let '(a, rs) := plain_run a ops in
      (a, r :: rs)
  end.

(** Clearing starts inside the log, and no block behind the cleared range is
    present and empty. *)
Definition op_plain (a : plain) (op : core_op) : Prop :=
  match op with
  | OpClear start end_ => 0 <= start /\ (start < end_ -> start < zlen a.1 /\
      forall (k : nat) b, end_ <= Z.of_nat k -> a.1 !! k = Some (b, true) -> b <> [])
  | OpGet i => 0 <= i
  | _ => True
  end.
Fixpoint ops_plain (a : plain) (ops : list core_op) : Prop :=
  match ops with
  | [] => True
  | op :: ops => op_plain a op /\ ops_plain (plain_exec a op).1 ops
  end.

Definition plain_of l : plain := (log_entries l, log_writeable l).

Lemma clear_entries_none start end_ es : end_ <= start -> clear_entries start end_ es = es.
Proof.
  intros Hle. unfold clear_entries. apply list_eq. intros k. rewrite list_lookup_imap.
  destruct (es !! k) as [[x p]|]; [|done]. cbn. destruct (Z.leb_spec start (Z.of_nat k)), (Z.ltb_spec (Z.of_nat k) end_); try done. lia.
Qed.

Lemma plain_clear_ok l start end_ :
  log_full l -> op_plain (plain_of l) (OpClear start end_) -> start < end_ ->
  exists d, log_clear l start end_ = (mkLog (clear_entries start end_ (log_entries l)) (log_writeable l) d, Ok ReplyClear) /\
    log_full (mkLog (clear_entries start end_ (log_entries l)) (log_writeable l) d).
Proof.
  intros [Hd0 Hfull] [Ha Hp] Hlt. destruct (Hp Hlt) as [Hin Hne]. cbn [plain_of fst] in Hin, Hne. unfold log_clear.
  set (es := clear_entries start end_ (log_entries l)).
  assert (forall k d, 0 <= k -> log_has (mkLog es (log_writeable l) d) k = if decide (start <= k < end_) then false else log_has l k)
    as Hhas by (intros k d Hk0; unfold es; rewrite log_has_clear by done; done).
  destruct (log_hole (mkLog es (log_writeable l) 0) start end_) as [Hl Hb Hf Hn Hg];
    [lia|lia|rewrite Hhas by done; by rewrite decide_True by lia|]. cbn [log_entries] in *.
  set (hs := hole_start _ _ _ _) in *. set (he := hole_end _ _ _) in *.
  assert (byte_sum (log_blocks l) hs <= log_data l) as Hfrom.
  { destruct (decide (hs = 0)) as [->|]; [done|]. specialize (Hb ltac:(lia)). rewrite Hhas, decide_False in Hb by lia.
    apply Hfull in Hb; [|lia]. by replace (hs - 1 + 1) with hs in Hb by lia. }
  assert (hole_error l hs = None) as ->.
  { unfold hole_error. rewrite (proj2 (Z.eqb_neq _ _)) by lia. by rewrite (proj2 (Z.ltb_ge _ _)). }
  eexists. split; [done|]. pose proof (byte_sum_nonneg (log_blocks l) hs).
  split; cbn [log_data]; [by case_match|]. intros k Hk.
  assert (forall d, log_blocks (mkLog es (log_writeable l) d) = log_blocks l) as Hbl by (intros; apply clear_entries_blocks).
  rewrite Hbl, Hhas by done.
  case_decide as Hc; [done|]. intros Hset. pose proof (Hfull k Hk Hset) as Hend.
  destruct (Z.leb_spec (log_data l) (byte_sum (log_blocks l) he)) as [Hcut|]; [|done].
  destruct (decide (k < hs)); [by apply byte_sum_mono; lia|exfalso].
  destruct (decide (k <= start)). { specialize (Hf k ltac:(lia)). rewrite Hhas, decide_False in Hf by lia. congruence. }
  assert (he <= k). { destruct (decide (he <= k)); [done|]. specialize (Hg k ltac:(lia)). rewrite Hhas, decide_False in Hg by lia. congruence. }
  assert (0 <= he) by (destruct Hn; [pose proof (zlen_nonneg es)|]; lia).
  pose proof (byte_sum_mono (log_blocks l) he k ltac:(lia)). rewrite byte_sum_next in Hend by done.
  assert (log_entries l !! Z.to_nat k = Some (block_at (log_blocks l) k, true)) as Hk2.
  { unfold log_has in Hset. unfold block_at, log_blocks. rewrite list_lookup_fmap.
    destruct (log_entries l !! Z.to_nat k) as [[x []]|]; done. }
  assert (end_ <= Z.of_nat (Z.to_nat k)) as Hek by lia. specialize (Hne _ _ Hek Hk2). destruct (block_at (log_blocks l) k) as [|x xs]; [done|].
  rewrite zlen_cons in Hend. pose proof (zlen_nonneg xs). lia.
Qed.

Lemma full_get l i :
  log_full l -> 0 <= i -> (log_exec l (OpGet i)).2 = Ok (ReplyGet (if log_has l i then Some (block_at (log_blocks l) i) else None)).
Proof.
  intros [_ Hf] Hi. cbn [log_exec snd]. destruct (log_has l i) eqn:Hh; [|done].
  pose proof (Hf i Hi Hh) as Hle. rewrite byte_sum_next in Hle by done. by rewrite (proj2 (Z.leb_le _ _)).
Qed.

(** Where no present block is behind the end of the data file, and [clear] is
    given ranges that start inside the log and have no present empty block
    behind them, the log is a plain list, and stays one. *)
Lemma plain_exec_ok l op :
  log_full l -> op_plain (plain_of l) op ->
  plain_exec (plain_of l) op = (plain_of (log_exec l op).1, (log_exec l op).2) /\ log_full (log_exec l op).1.
Proof.
  intros Hfull Hop. pose proof Hfull as [Hd0 Hf]. destruct op as [batch|i|i|start end_| |]; cbn [log_exec plain_exec plain_of].
  - destruct (log_writeable l) eqn:Hw; [|by split; [unfold plain_of; cbn [fst snd]; rewrite Hw|]]. split; [done|]. cbn [fst]. unfold log_full, log_blocks. cbn [log_data log_entries].
    split; [destruct (is_empty batch); lia|]. intros k Hk. rewrite log_blocks_append.
    rewrite log_has_append by done. case_decide as Hin.
    + intros _. destruct batch as [|x xs]; [rewrite zlen_nil in Hin; lia|]. cbn [is_empty].
      etrans; [apply byte_sum_le; rewrite zlen_app; fold (log_blocks l); rewrite zlen_blocks; lia|]. apply Z.le_max_r.
    + intros Hset. assert (k < zlen (log_entries l)) as Hlt.
      { destruct (Z.lt_ge_cases k (zlen (log_entries l))); [done|]. rewrite log_has_bound in Hset by done. done. }
      rewrite byte_sum_app by (fold (log_blocks l); rewrite zlen_blocks; lia).
      etrans; [apply Hf; [done|by destruct l]|]. destruct (is_empty batch); lia.
  - split; [|done]. pose proof (full_get l i Hfull Hop) as Hg. cbn [log_exec snd fst] in Hg |- *. rewrite Hg.
    unfold log_has, block_at, log_blocks. rewrite list_lookup_fmap. by destruct (log_entries l !! Z.to_nat i) as [[x []]|].
  - split; [|done]. cbn [snd fst]. unfold log_has. by destruct (log_entries l !! Z.to_nat i) as [[x []]|].
  - destruct (Z.leb_spec end_ start) as [Hge|Hlt]; [by rewrite clear_entries_none|].
    destruct (plain_clear_ok l start end_ Hfull Hop Hlt) as (d & -> & Hfull'). done.
  - done.
  - split; done.
Qed.

Lemma plain_run_ok ops : forall l,
  log_full l -> ops_plain (plain_of l) ops -> plain_run (plain_of l) ops = (plain_of (log_run l ops).1, (log_run l ops).2).
Proof.
  induction ops as [|op ops IH]; intros l Hl; [done|]. intros [Hop Hops]. cbn [plain_run log_run].
  destruct (plain_exec_ok l op Hl Hop) as [He Hl']. rewrite He in Hops |- *. destruct (log_exec l op) as [l' r]. cbn [fst snd] in *.
  rewrite (IH l' Hl' Hops). by destruct (log_run l' ops).
Qed.

(** A new core stands for the empty log. *)
Lemma new_stands_for generated options (st : Storage) :
  holds st (fun _ => []) -> opt_open options = false ->
  exists s st', Core.new generated options st = (st', Ok s) /\
    stands_for (mkLog [] (match kp_secret (options_key_pair generated options) with
                          | Some _ => true | None => false end) 0) s.
Proof.
  intros Hh Ho. destruct (new_fresh_ok generated options st Hh Ho)
    as (st' & s & Hnew & _ & Hk & _ & fs & [Hl _ Hs Hc] & _ & _ & _ & Hda).
  exists s, st'. split; [done|]. split_and!; [exists fs; by rewrite Hda|done| |by rewrite Hk].
  intros k Hk0. destruct (dbit (hc_bitfield s) k) eqn:Hb; [|done].
  destruct (ci_held _ _ _ Hl k Hk0 Hb) as [Hlt _]. rewrite zlen_nil in Hlt. lia.
Qed.
End Refinement.

Abbreviation log_state := (log_within 3).
