(* ===== verification/CoreReopen.v ===== *)
(** * Reopening a hypercore

    A core that is opened again on the stores of a running one, at any moment
    between two operations, reads the header, the tree and the bitfield of the
    last flush and replays the entries since: it has the log of the running
    core, and it goes on from there ([sessions_ok]). *)

From stdpp Require Import base list gmap.
From Stdlib Require Import ZArith Lia Bool.
From S2P Require Import Prelude FlatTree Common BitfieldFixed BitfieldDynamic.
From S2P Require Import CompactEncoding Encoding Crypto OplogEntry Changeset Storage.
From S2P Require Import Oplog MerkleTree MerkleView BitfieldStore Core CoreOpen CoreView CoreSpec.
Open Scope Z_scope.

Section Reopen.
Context `{FT : FlatTree} {FL : FlatTreeLaws FT} `{CE : CompactEncoding} {CL : CompactEncodingLaws CE}
  `{B2 : Blake2b} {BL : Blake2bLaws B2} `{ED : Ed25519} {EL : Ed25519Laws ED} `{CR : Crc32}
  {CRL : Crc32Laws CR} `{RA : RandomAccess} {RL : RandomAccessLaws RA}
  `{IO : IntMapOrder} {IOL : IntMapOrderLaws IO}.
Implicit Types (blocks : list (list Z)) (s : Hypercore) (l : log).

(** [HypercoreBuilder::open(true)] on existing stores. *)
Definition reopen (generated : SigningKey) (st : Storage) : Storage * result Hypercore :=
  Core.new generated (mkOptions None true) st.

(** The oplog file of a running core is read back. *)
Lemma open_oplog_ok (st : Storage) fs self h es kp :
  holds st fs -> oplog_file self h es (fs Oplog) ->
  Core.open_oplog kp st =
    (st, Ok (mkOpenOutcome (mkOplog (op_header_bits self) 0 0) h []
               (match es with [] => None | _ => Some es end))).
Proof.
  intros Hh Ho. pose proof (zlen_nonneg (fs Oplog)).
  assert (read_info st (Instruction.new_all_content Oplog) = Ok (StoreInfo.new_content Oplog 0 (fs Oplog)))
    as Hread.
  { eapply read_info_ok; [done|split; cbn; [lia|done]|].
    unfold read_effect. cbn [sii_info_type sii_index sii_store sii_length Instruction.new_all_content default].
    rewrite (proj2 (Z.leb_le _ _)) by lia. by rewrite slice_full. }
  unfold Core.open_oplog, mbind, stateR_bind, lift, gets, id.
  change (Oplog.open kp None) with
    (Ok (Left (Instruction.new_all_content Oplog)) : result (Either StoreInfoInstruction OplogOpenOutcome)).
  cbn beta iota. by rewrite Hread, (open_ok _ _ _ _ kp Ho).
Qed.

(** Opening stores that replay to a tree, a bitfield and a header. *)
Lemma reopen_run generated fs (st : Storage) o h es t0 db0 t db hd :
  holds st fs -> oplog_file o h es (fs Oplog) -> Core.open_tree (hd_tree h) st = (st, Ok t0) ->
  Core.open_bitfield st = (st, Ok db0) -> Core.replay_entries t0 db0 h es st = (st, Ok (t, db, hd)) ->
  reopen generated st = (st, Ok (mkHypercore (hd_key_pair hd) st (mkOplog (op_header_bits o) 0 0) t db 0 hd [])).
Proof.
  intros Hh Ho Hot Hob Hes. unfold reopen, Core.new, mbind, stateR_bind, lift, gets, id.
  cbn [Core.open_key_pair opt_open opt_key_pair]. rewrite (open_oplog_ok _ fs _ _ _ None Hh Ho).
  cbn [oo_infos_to_flush oo_header oo_oplog oo_entries flush_infos]. unfold mret at 1, stateR_ret at 1.
  rewrite Hot, Hob. destruct es as [|e es]; [by injection Hes as -> -> ->|by rewrite Hes].
Qed.

(** The core after a reopen: the log, the keys and the bitfield of the running
    core, in stores that did not change. *)
Record reopened blocks (fs : Store -> list Z) (st : Storage) s s2 : Prop := {
  ro_live : core_live 3 blocks fs s2;
  ro_storage : hc_storage s2 = st;
  ro_keys : hc_key_pair s2 = hc_key_pair s;
  ro_fork : mt_fork (hc_tree s2) = mt_fork (hc_tree s);
  ro_signature : mt_signature (hc_tree s2) = mt_signature (hc_tree s);
  ro_bits k : 0 <= k -> dbit (hc_bitfield s2) k = dbit (hc_bitfield s) k;
  ro_header : up_to_hint (hc_header s2) (hc_header s);
}.

Lemma recovered_ext blocks f fb tree tree' db db' header header' r :
  recovered blocks f fb tree db header r -> mt_fork tree' = mt_fork tree -> mt_signature tree' = mt_signature tree ->
  (forall k, 0 <= k -> dbit db' k = dbit db k) -> up_to_hint header' header ->
  recovered blocks f fb tree' db' header' r.
Proof.
  intros [] Hf Hs Hd Hh. constructor; try done; [congruence..| |by rewrite Hh].
  intros k Hk. rewrite Hd by done. auto.
Qed.

Lemma reopen_ok generated b blocks fs s (st : Storage) :
  core_live b blocks fs s -> zlen blocks <= 8192 -> holds st fs ->
  exists s2, reopen generated st = (st, Ok s2) /\ reopened blocks fs st s s2.
Proof.
  intros [Hpre (o & h & es & Hbits0 & Ho & Hrep) _] Hn Hh.
  destruct (Hrep Hn st (Hh Common.Tree) (Hh Bitfield))
    as (t0 & db0 & [[t db] hd] & Hot & Hob & Hes & [Ht Hf Hsg Hwf Hbits Hhd Hc64 Hst]). cbn [fst snd] in *.
  exists (mkHypercore (hd_key_pair hd) st (mkOplog (op_header_bits o) 0 0) t db 0 hd []).
  split; [by eapply reopen_run|].
  - destruct (up_to_hint_parts _ _ Hhd) as (_ & _ & Hkp & _ & Htr & _).
    constructor; cbn [hc_storage hc_key_pair hc_tree hc_bitfield hc_header]; try done;
      [|by rewrite Hkp; apply (ci_keys _ _ _ _ Hpre)].
    destruct (oplog_file_headed _ _ _ _ Ho) as [Hslot Hz].
    destruct Hpre as [[_ ? ? ? ? Hd] ? ? _ ? Hhs Hk Hm]. constructor.
    + constructor; [constructor|..]; cbn [hc_storage hc_key_pair hc_tree hc_bitfield hc_header hc_oplog hc_skip_flush_count]; try done.
      * intros k Hk0. rewrite Hbits by done. by apply Hd.
      * by rewrite Hf.
      * by eapply header_small_hint.
      * unfold head_matches. by rewrite Htr, Hf, Hsg.
    + exists o, h, es. split_and!; [done..|]. intros _ st' Hft Hfb.
      destruct (Hrep Hn st' Hft Hfb) as (t1 & db1 & r & Hot1 & Hob1 & Hes1 & Hrec).
      exists t1, db1, r. split_and!; [done..|]. by eapply recovered_ext.
    + cbn. lia.
Qed.

(** The reopened core stands for the log; the contiguous length is a hint. *)
Lemma reopen_state generated n b l s (st : Storage) :
  log_within n b l s -> zlen (log_entries l) <= 8192 ->
  (forall k, contents (get_random_access st k) = contents (get_random_access (hc_storage s) k)) ->
  exists s2, reopen generated st = (st, Ok s2) /\ log_state false l s2 /\ hc_storage s2 = st /\
    hc_key_pair s2 = hc_key_pair s /\ mt_fork (hc_tree s2) = mt_fork (hc_tree s).
Proof.
  intros ((fs & Hl & _ & Hda) & _ & Hd & Hw) Hn Hsame. rewrite <-zlen_blocks in Hn.
  destruct (reopen_ok generated n (log_blocks l) fs s st Hl Hn) as (s2 & Hre & [Hl2 Hst Hk Hf _ Hb _]).
  { intros k. rewrite Hsame. apply (ci_holds _ _ _ Hl). }
  exists s2. split_and!; try done. split_and!; [by exists fs|done| |by rewrite Hk].
  intros k Hk0. rewrite Hb by done. by apply Hd.
Qed.

(** ** Sessions *)

(** Runs of operations, after each of which the core is dropped and opened
    again. *)
Fixpoint sessions_run (generated : SigningKey) (s : Hypercore) (sessions : list (list core_op))
  : result (Hypercore * list (result core_reply)) :=
  match sessions with
  | [] => Ok (s, [])
  | ops :: sessions =>
      let '(s, rs) := core_run s ops in
      s ← (reopen generated (hc_storage s)).2;
      '(s, rs') ← sessions_run generated s sessions;
      Ok (s, rs ++ rs')
  end.

Lemma log_run_app ops ops' : forall l,
  log_run l (ops ++ ops') =
    ((log_run (log_run l ops).1 ops').1, (log_run l ops).2 ++ (log_run (log_run l ops).1 ops').2).
Proof.
  induction ops as [|op ops IH]; intros l; cbn [app log_run fst snd]; [by destruct (log_run l ops')|].
  destruct (log_exec l op) as [l1 r]. rewrite IH. by destruct (log_run l1 ops) as [l2 rs].
Qed.

Lemma ops_ok_app ops ops' : forall l, ops_ok l (ops ++ ops') -> ops_ok l ops /\ ops_ok (log_run l ops).1 ops'.
Proof.
  induction ops as [|op ops IH]; intros l; cbn [app ops_ok log_run]; [done|]. intros [Hop Hops].
  apply IH in Hops as [H1 H2]. destruct (log_exec l op) as [l1 r]. cbn [fst] in *.
  by destruct (log_run l1 ops) as [l2 rs].
Qed.

Lemma failed_clears_app ops ops' : forall l,
  failed_clears l (ops ++ ops') = failed_clears l ops + failed_clears (log_run l ops).1 ops'.
Proof.
  induction ops as [|op ops IH]; intros l; cbn [app failed_clears log_run fst]; [done|].
  rewrite IH. destruct (log_exec l op) as [l1 r]. cbn [fst]. destruct (log_run l1 ops) as [l2 rs]. cbn [fst]. lia.
Qed.

(** A log never gets shorter. *)
Lemma log_exec_grows l op : zlen (log_entries l) <= zlen (log_entries (log_exec l op).1).
Proof.
  destruct op as [batch| | |start end_| |]; cbn [log_exec]; try (cbn; lia).
  - destruct (log_writeable l); cbn [fst log_entries]; [|lia]. rewrite zlen_app.
    pose proof (zlen_nonneg ((fun b => (b, true)) <$> batch)). lia.
  - destruct (end_ <=? start); [done|]. unfold log_clear.
    destruct (hole_error l _); cbn [fst log_entries]; unfold clear_entries, zlen; rewrite length_imap; lia.
Qed.

Lemma log_run_grows ops : forall l, zlen (log_entries l) <= zlen (log_entries (log_run l ops).1).
Proof.
  induction ops as [|op ops IH]; intros l; cbn [log_run]; [cbn; lia|]. pose proof (log_exec_grows l op) as Hg.
  destruct (log_exec l op) as [l1 r]. specialize (IH l1). destruct (log_run l1 ops) as [l2 rs]. cbn [fst] in *. lia.
Qed.

(** Every reopen succeeds, and the replies are those of one log. *)
Lemma sessions_ok generated sessions : forall b l s,
  log_state b l s -> ops_ok l (concat sessions) -> failed_clears l (concat sessions) = 0 -> zlen (log_entries (log_run l (concat sessions)).1) <= 8192 ->
  exists s' rs, sessions_run generated s sessions = Ok (s', rs) /\
    forget_hint <$> rs = forget_hint <$> (log_run l (concat sessions)).2 /\
    log_state (if is_empty sessions then b else false) (log_run l (concat sessions)).1 s'.
Proof.
  induction sessions as [|ops sessions IH]; intros b l s Hst Hok Hfc Hn; [by exists s, []|].
  cbn [concat] in *. apply ops_ok_app in Hok as [Hops Hok]. rewrite log_run_app in Hn |- *. cbn [fst snd] in *.
  rewrite failed_clears_app in Hfc. pose proof (failed_clears_range ops l). pose proof (failed_clears_range (concat sessions) (log_run l ops).1).
  destruct (state_run_ok b ops l s Hst Hops ltac:(lia)) as (s1 & rs & Hrun & Hrs & Hst1). cbn [sessions_run]. rewrite Hrun.
  pose proof (log_run_grows (concat sessions) (log_run l ops).1) as Hg.
  destruct (reopen_state generated 3 b _ s1 (hc_storage s1) Hst1 ltac:(lia) ltac:(done)) as (s2 & Hre & Hst2 & _).
  rewrite Hre. cbn [snd]. rewrite bind_Ok.
  destruct (IH false _ s2 Hst2 Hok ltac:(lia) Hn) as (s' & rs' & -> & Hrs' & Hst'). rewrite bind_Ok.
  exists s', (rs ++ rs'). split; [done|]. split; [by rewrite !fmap_app, Hrs, Hrs'|].
  cbn [is_empty]. by destruct (is_empty sessions).
Qed.
End Reopen.
