(* ===== verification/CoreReplicate.v ===== *)
(** * Proofs a core creates

    A core that stands for a log answers every request of a peer: for a block
    or a hash below a node of the log, and for an upgrade.  The answers are the
    ones the receiving side accepts ([MerkleComplete], [MerkleUpgrade]). *)

From stdpp Require Import base list gmap.
From Stdlib Require Import ZArith Lia Bool.
From S2P Require Import Prelude FlatTree Common BitfieldFixed BitfieldDynamic.
From S2P Require Import CompactEncoding Encoding Crypto OplogEntry Changeset Storage Oplog.
From S2P Require Import MerkleTree MerkleView MerkleProof MerkleComplete MerkleUpgrade.
From S2P Require Import BitfieldStore Core CoreOpen CoreView.
Open Scope Z_scope.

Section Replicate.
Context `{FT : FlatTree} {FL : FlatTreeLaws FT} `{CE : CompactEncoding} {CL : CompactEncodingLaws CE}
  `{B2 : Blake2b} {BL : Blake2bLaws B2} `{ED : Ed25519} {EL : Ed25519Laws ED} `{CR : Crc32}
  {CRL : Crc32Laws CR} `{RA : RandomAccess} {RL : RandomAccessLaws RA}
  `{IO : IntMapOrder} {IOL : IntMapOrderLaws IO}.
Implicit Types (blocks : list (list Z)) (s : Hypercore) (self : MerkleTree).

(** ** What the tree asks the store for *)

Lemma create_indexed_asked blocks self f ks value d o (m : nat) :
  tree_inv blocks self f -> no_blank blocks -> log_fits blocks -> readable blocks f ks ->
  (value = true -> d = 0) -> 0 <= d -> complete (zlen blocks) (d + Z.of_nat m) (o / 2 ^ Z.of_nat m) ->
  Proofs.create_valueless_proof self (request_of value (Z.of_nat m) d o).1
      (request_of value (Z.of_nat m) d o).2 None None (Some (node_read f <$> ks)) =
    Ok (asked (unknown self ks (node_keys (proof_path value m d o)))
          (answer_of self value d o (merkle_peaks blocks (proof_path value m d o)))).
Proof.
  intros Hinv Hnb Hfit Hks Hval Hd Hc. destruct (infos_view _ _ _ _ (tree_inv_view _ _ _ Hinv) Hfit Hks) as (nm & Hm & Hv & Hmiss).
  rewrite (create_indexed_ok blocks self _ nm) by (done || apply Hinv). by rewrite Hmiss, asked_match.
Qed.

Lemma create_upgrade_asked blocks self f ks a sig :
  tree_inv blocks self f -> no_blank blocks -> log_fits blocks -> readable blocks f ks ->
  0 <= a < zlen blocks -> mt_signature self = Some sig ->
  Proofs.create_valueless_proof self None None None (Some (mkRequestUpgrade a (zlen blocks - a)))
      (Some (node_read f <$> ks)) =
    Ok (asked (unknown self ks (node_keys (upgrade_nodes a (peaks (zlen blocks)))))
          (mkValuelessProof (mt_fork self) None None None (Some (upgrade_data blocks a sig)))).
Proof.
  intros Hinv Hnb Hfit Hks Ha Hsig. destruct (infos_view _ _ _ _ (tree_inv_view _ _ _ Hinv) Hfit Hks) as (nm & Hm & Hv & Hmiss).
  rewrite (create_upgrade_ok blocks self _ nm _ sig) by (done || apply Hinv). by rewrite Hmiss, asked_match.
Qed.

(** The loop around it ends with the answer. *)
Lemma core_create_ok blocks fs s block hash upgrade ps vp (Q : ValuelessProof -> Hypercore -> Prop) :
  core_base blocks fs s -> (forall d o, (d, o) ∈ ps -> complete (zlen blocks) d o) ->
  (forall ks, readable blocks (fs Common.Tree) ks ->
     Proofs.create_valueless_proof (hc_tree s) block hash None upgrade (Some (node_read (fs Common.Tree) <$> ks)) =
       Ok (asked (unknown (hc_tree s) ks (node_keys ps)) vp)) ->
  Q vp s -> wp (Core.create_valueless_proof block hash None upgrade) s Q.
Proof.
  intros Hr Hps Hask HQ. unfold Core.create_valueless_proof. wp_step.
  change (Proofs.create_valueless_proof (hc_tree s) block hash None upgrade None)
    with (Proofs.create_valueless_proof (hc_tree s) block hash None upgrade
            (Some (node_read (fs Common.Tree) <$> []))).
  apply wp_bind. eapply wp_lift; [apply Hask; by intros ? ?%elem_of_nil|].
  destruct (unknown _ _ _) as [|k l] eqn:Hu; cbn [asked]; [by wp_step|].
  rewrite <-Hu. eapply ask_again_ok; [apply Hr| |exact Hask|done].
  intros ks. apply unknown_readable; [apply Hr|done].
Qed.

(** ** Answers *)

(** A block that is there is sent with the siblings up to the node asked for. *)
Lemma create_block_proof blocks fs s i (m : nat) :
  core_read blocks fs s -> 0 <= i -> dbit (hc_bitfield s) i = true ->
  complete (zlen blocks) (Z.of_nat m) (i / 2 ^ Z.of_nat m) ->
  Core.create_proof (Some (mkRequestBlock i (Z.of_nat m))) None None None s =
    (s, Ok (Some (proof_for blocks (mt_fork (hc_tree s)) true m 0 i))).
Proof.
  intros Hr Hi Hb Hc.
  cut (wp (Core.create_proof (Some (mkRequestBlock i (Z.of_nat m))) None None None) s (fun r s' =>
    r = Some (proof_for blocks (mt_fork (hc_tree s)) true m 0 i) /\ s' = s)).
  { intros (s' & r & Hg & -> & ->). done. }
  unfold Core.create_proof. apply wp_bind.
  eapply (core_create_ok blocks fs s _ _ _ (proof_path true m 0 i)); [apply Hr| |intros ks Hks;
    by apply (create_indexed_asked blocks _ _ ks true 0 i m); try apply Hr|].
  { intros d o. apply proof_path_complete; [lia|by rewrite Z.add_0_l]. }
  cbn [answer_of vp_block dh_index]. apply wp_bind. exists s, (Some (block_at blocks i)).
  split; [by apply (get_present blocks fs)|]. cbn beta iota. apply wp_bind. eapply wp_lift; [done|]. by wp_step.
Qed.

(** A hash is sent with the siblings, whether the block below it is there or
    not. *)
Lemma create_hash_proof blocks fs s d o (m : nat) :
  core_base blocks fs s -> 0 <= d ->
  complete (zlen blocks) (d + Z.of_nat m) (o / 2 ^ Z.of_nat m) ->
  Core.create_proof None (Some (mkRequestBlock (node_at d o) (Z.of_nat m))) None None s =
    (s, Ok (Some (proof_for blocks (mt_fork (hc_tree s)) false m d o))).
Proof.
  intros Hr Hd Hc.
  cut (wp (Core.create_proof None (Some (mkRequestBlock (node_at d o) (Z.of_nat m))) None None) s (fun r s' =>
    r = Some (proof_for blocks (mt_fork (hc_tree s)) false m d o) /\ s' = s)).
  { intros (s' & r & Hg & -> & ->). done. }
  unfold Core.create_proof. apply wp_bind.
  eapply (core_create_ok blocks fs s _ _ _ (proof_path false m d o)); [done| |intros ks Hks;
    by apply (create_indexed_asked blocks _ _ ks false d o m); try apply Hr|].
  { intros d' o'. by apply proof_path_complete. }
  cbn [answer_of vp_block]. apply wp_bind. eapply wp_lift; [done|]. by wp_step.
Qed.

(** A block that is not there cannot be sent, and is asked for instead. *)
Lemma create_block_missing blocks fs s i (m : nat) :
  core_base blocks fs s -> 0 <= i < zlen blocks -> dbit (hc_bitfield s) i = false ->
  complete (zlen blocks) (Z.of_nat m) (i / 2 ^ Z.of_nat m) ->
  Core.create_proof (Some (mkRequestBlock i (Z.of_nat m))) None None None s =
    (push_event (EventGet i) s, Ok None).
Proof.
  intros Hr Hi Hb Hc. pose proof (ci_fits _ _ _ Hr) as [Hn _].
  cut (wp (Core.create_proof (Some (mkRequestBlock i (Z.of_nat m))) None None None) s (fun r s' =>
    r = None /\ s' = push_event (EventGet i) s)).
  { intros (s' & r & Hg & -> & ->). done. }
  unfold Core.create_proof. apply wp_bind.
  eapply (core_create_ok blocks fs s _ _ _ (proof_path true m 0 i)); [done| |intros ks Hks;
    by apply (create_indexed_asked blocks _ _ ks true 0 i m); try apply Hr|].
  { intros d o. apply proof_path_complete; [lia|by rewrite Z.add_0_l]. }
  cbn [answer_of vp_block dh_index]. apply wp_bind. exists (push_event (EventGet i) s), None.
  split; [by apply (get_missing blocks fs); [|lia|]|]. by wp_step.
Qed.

(** An upgrade of a peer with the first [a] blocks to all of them. *)
Lemma create_upgrade_proof blocks fs s a sig :
  core_base blocks fs s -> 0 <= a < zlen blocks -> mt_signature (hc_tree s) = Some sig ->
  Core.create_proof None None None (Some (mkRequestUpgrade a (zlen blocks - a))) s =
    (s, Ok (Some (mkProof (mt_fork (hc_tree s)) None None None (Some (upgrade_data blocks a sig))))).
Proof.
  intros Hr Ha Hsig.
  cut (wp (Core.create_proof None None None (Some (mkRequestUpgrade a (zlen blocks - a)))) s (fun r s' =>
    r = Some (mkProof (mt_fork (hc_tree s)) None None None (Some (upgrade_data blocks a sig))) /\ s' = s)).
  { intros (s' & r & Hg & -> & ->). done. }
  unfold Core.create_proof. apply wp_bind.
  eapply (core_create_ok blocks fs s _ _ _ (upgrade_nodes a (peaks (zlen blocks)))); [done| |intros ks Hks;
    by apply (create_upgrade_asked blocks _ _ ks a sig); try apply Hr|].
  { intros d o. apply (upgrade_nodes_complete a 0). apply full_peaks. lia. }
  cbn [vp_block]. apply wp_bind. eapply wp_lift; [done|]. by wp_step.
Qed.
End Replicate.
