(* ===== verification/CoreRebuild.v ===== *)
(** * Replaying the entries of a replica

    The tree of a replica has some nodes of the log only, so that opening its
    stores must give back exactly these.  [rebuilds]: stores lead to the tree, the
    bitfield and the header of the running core.  It holds after a flush, and
    an entry that the core logs extends it by what the core does. *)

From stdpp Require Import base list gmap.
From Stdlib Require Import ZArith Lia Bool.
From S2P Require Import Prelude FlatTree Common BitfieldFixed BitfieldDynamic.
From S2P Require Import CompactEncoding Encoding Crypto OplogEntry Changeset Storage Oplog.
From S2P Require Import MerkleTree MerkleView MerkleTruncate BitfieldStore Core CoreOpen.
Open Scope Z_scope.

(** ** The bit of a block that was taken *)

Definition have (i : Z) : BitfieldUpdate := mkBitfieldUpdate false i 1.

Lemma contiguous_unique db c c' : contiguous db c -> contiguous db c' -> c = c'.
Proof.
  intros (H0 & Hset & Hun) (H0' & Hset' & Hun'). destruct (Z.lt_trichotomy c c') as [|[|]]; [|done|].
  - rewrite Hset' in Hun by lia. done.
  - rewrite Hset in Hun' by lia. done.
Qed.

Lemma contiguous_below db c n : contiguous db c -> 0 <= n -> (forall k, n <= k -> dbit db k = false) -> c <= n.
Proof.
  intros (H0 & Hset & _) Hn Hover. destruct (Z.le_gt_cases c n); [done|].
  specialize (Hset n ltac:(lia)). by rewrite Hover in Hset.
Qed.

Section Rebuild.
Context `{FT : FlatTree} {FL : FlatTreeLaws FT} `{CE : CompactEncoding} {CL : CompactEncodingLaws CE}
  `{B2 : Blake2b} {BL : Blake2bLaws B2} `{ED : Ed25519} {EL : Ed25519Laws ED} `{CR : Crc32}
  {CRL : Crc32Laws CR} `{RA : RandomAccess} {RL : RandomAccessLaws RA}
  `{IO : IntMapOrder} {IOL : IntMapOrderLaws IO}.
Implicit Types (blocks : list (list Z)) (t : MerkleTree).

(** The block is there from then on, and the contiguous length stays exact. *)
Lemma have_ok n n' fb db h (i : option Z) :
  dyn_wf db -> contiguous db (hh_contiguous_length (hd_hints h)) -> bits_stored n db fb ->
  (forall k, n <= k -> dbit db k = false) -> n <= n' < 2 ^ 57 -> (forall k, i = Some k -> 0 <= k < n') ->
  exists db' h', updates (have <$> i) db h db' h' /\ dyn_wf db' /\ up_to_hint h' h /\
    contiguous db' (hh_contiguous_length (hd_hints h')) /\ bits_stored n' db' fb /\
    forall k, 0 <= k -> dbit db' k = if decide (i = Some k) then true else dbit db k.
Proof.
  intros Hwf Hc Hst Hover Hn Hi. destruct i as [k|].
  2: { exists db, h. split_and!; try done. destruct Hst as [? (m & ? & ? & ?) Hun ?]. constructor; try done.
    - exists m. split_and!; [done..|lia].
    - intros i Hin. specialize (Hun i Hin). lia. }
  specialize (Hi k eq_refl). destruct (dyn_update_Ok db (have k)) as (db' & Hdb & Hb' & Hbits); [done|cbn; lia..|].
  cbn [bu_start bu_length bu_drop have negb] in Hbits.
  assert (forall j, 0 <= j -> dbit db' j = if decide (Some k = Some j) then true else dbit db j) as Hbits'.
  { intros j Hj. rewrite Hbits by done. destruct (decide (Some k = Some j)) as [[= <-]|Hne];
      [by rewrite decide_True by lia|rewrite decide_False; [done|]]. intros ?. apply Hne. f_equal. lia. }
  destruct (update_contiguous_ok h db db' (have k)) as (c' & Huc & Hc'); try done; [cbn; lia..| |].
  { intros j Hj. rewrite Hbits', decide_False by (lia || intros [= ->]; lia). apply Hover. lia. }
  exists db', (set_contiguous_length c' h). split_and!; try done.
  eapply bits_stored_update; [exact Hst|eapply (dyn_update_touched db (have k)); [done|cbn; lia..|done]|lia|].
  cbn. intros j Hj _. lia.
Qed.

(** ** Trees that differ in nothing but the mark of an old truncation *)

Definition same_tree t t' : Prop :=
  exists k, t' = mkTree _ (mt_roots t) (mt_length t) (mt_byte_length t) (mt_fork t) (mt_signature t)
    (mt_unflushed t) (mt_truncated t) k.

Lemma same_tree_refl t : same_tree t t.
Proof. exists (mt_truncate_to t). by destruct t. Qed.

Lemma same_tree_trans t t' t'' : same_tree t t' -> same_tree t' t'' -> same_tree t t''.
Proof. intros [k ->] [k' ->]. by exists k'. Qed.

Lemma same_replayable blocks more t1 t cs t1' f :
  same_tree t1 t -> replayable blocks more t1 cs t1' f ->
  exists t', replayable blocks more t cs t' f /\ same_tree t1' t'.
Proof.
  intros [k ->] [Hc Htr Hr Hv Hread Hup]. set (t := mkTree _ _ _ _ _ _ _ _ _).
  assert (exists t', Tree.commit t cs = Ok t' /\ same_tree t1' t') as (t' & Hc' & Hsame).
  { destruct (cs_upgraded cs) eqn:Hupg.
    - destruct (Hup eq_refl) as (_ & Ha & Hol & _). rewrite commit_forward in Hc |- * by congruence.
      cbn [mt_fork mt_length t]. destruct (_ && _); [|discriminate Hc]. injection Hc as <-.
      eexists. split; [done|]. by exists k.
    - unfold Tree.commit, Tree.commitable in *. rewrite Hupg in *. cbn [mt_fork mt_length t].
      destruct (negb _); [discriminate Hc|]. rewrite bind_Ok in *. injection Hc as <-.
      eexists. split; [done|]. by exists k. }
  exists t'. split; [|done]. destruct Hsame as [k' ->]. by constructor.
Qed.

(** ** What the stores of a replica lead to *)

Record rebuilt (n : Z) (fb : list Z) t (db : DynamicBitfield) (header : Header)
    (r : MerkleTree * DynamicBitfield * Header) : Prop := {
  rb_tree : same_tree t r.1.1;
  rb_wf : dyn_wf r.1.2;
  rb_bits k : 0 <= k -> dbit r.1.2 k = dbit db k;
  rb_header : up_to_hint r.2 header;
  rb_contiguous : contiguous r.1.2 (hh_contiguous_length (hd_hints r.2));
  rb_stored : bits_stored n r.1.2 fb;
}.

Definition rebuilds blocks (ft fb : list Z) t (db : DynamicBitfield) (header h : Header) (es : list Entry) : Prop :=
  replays_to (zlen blocks) ft fb h es (rebuilt (zlen blocks) fb t db header).

Lemma rebuilt_ext n fb t t' db db' header header' r :
  rebuilt n fb t db header r -> same_tree t' t -> (forall k, 0 <= k -> dbit db' k = dbit db k) ->
  up_to_hint header' header -> rebuilt n fb t' db' header' r.
Proof.
  intros [] Ht Hd Hh. constructor; try done; [by eapply same_tree_trans| |by rewrite Hh].
  intros k Hk. rewrite Hd by done. auto.
Qed.

Lemma rebuilds_flushed blocks ft fb t db header :
  roots_stored blocks ft -> tree_for blocks t -> mt_truncated t = false -> mt_unflushed t = ∅ -> log_fits blocks ->
  bits_stored (zlen blocks) db fb -> unflushed db = [] ->
  (forall k, zlen blocks <= k -> dbit db k = false) -> head_matches blocks t (hd_tree header) ->
  contiguous db (hh_contiguous_length (hd_hints header)) ->
  rebuilds blocks ft fb t db header header [].
Proof.
  intros Hroots (Hr & Hl & Hb) Htr Hun Hfit Hst Hnil Hover Hm Hc.
  apply (replays_to_flushed blocks ft fb t db); try done. intros db0 Hwf0 Hbits Hst0. destruct Hm as (_ & Hfk & _).
  constructor; cbn; try done.
  - exists 0. unfold opened_tree. by rewrite Hr, Hl, Hb, Htr, Hun, Hfk.
  - destruct Hc as (H0 & Hset & Hunset). split_and!; [done|intros k Hk|]; rewrite Hbits by lia; auto.
Qed.

(** The entry of a changeset and of the block that came with it. *)
Lemma rebuilds_changeset old more ft fb t t' db db' header header' header'' cs (i : option Z) e h es :
  rebuilds old ft fb t db header h es -> replayable old more t cs t' ft ->
  no_blank (old ++ more) -> log_fits (old ++ more) ->
  (forall k, i = Some k -> 0 <= k < zlen (old ++ more)) -> (forall k, zlen old <= k -> dbit db k = false) ->
  (forall k, 0 <= k -> dbit db' k = if decide (i = Some k) then true else dbit db k) ->
  Oplog.update_header_with_changeset cs (have <$> i) header = Ok (header', e) -> up_to_hint header'' header' ->
  rebuilds (old ++ more) ft fb t' db' header'' h (es ++ [e]).
Proof.
  intros Hreb Hrep Hnb Hfit Hi Hover Hd' Hue Hup. pose proof (zlen_nonneg old). pose proof Hfit as [Hlen _].
  assert (zlen old <= zlen (old ++ more)) as Hle by (rewrite zlen_app; pose proof (zlen_nonneg more); lia).
  eapply replays_to_snoc; [exact Hreb|done|]. intros [[t1 db1] hd] st [Ht Hwf Hbits Hh Hc Hst] <-. cbn [fst snd] in *.
  destruct (same_replayable _ _ _ _ _ _ _ Ht Hrep) as (t1' & Hrep1 & Hsame).
  destruct (have_ok (zlen old) (zlen (old ++ more)) fb db1 hd i) as (db2 & h2 & Hu & Hwf2 & Hhint & Hc2 & Hst2 & Hbits2); try done.
  { intros k Hk. rewrite Hbits by lia. by apply Hover. }
  destruct (replay_changeset_ok old more t1 cs t1' (have <$> i) db1 db2 header hd e header' h2 st) as (h3 & Hr & Hh3 & Hhints);
    [done..|by rewrite Hhint|done|]. eexists. split; [exact Hr|]. constructor; cbn [fst snd]; try done.
  - intros k Hk. rewrite Hbits2, Hd', Hbits by done. done.
  - by rewrite Hh3, Hup.
  - by rewrite Hhints.
Qed.
End Rebuild.
