(* ===== verification/CoreReader.v ===== *)
(** * A core that replicates a log

    A reader has the public key of the log only.  It takes upgrades and block
    proofs of a core that has the log, in any order, and stands for the part of
    the log it has: [reader].  Each proof it asked for is applied, and the blocks
    it has are the blocks of the log. *)

From stdpp Require Import base list gmap.
From Stdlib Require Import ZArith Lia Bool.
From S2P Require Import Prelude FlatTree Common BitfieldFixed BitfieldDynamic.
From S2P Require Import CompactEncoding Encoding Crypto OplogEntry Changeset Storage Oplog.
From S2P Require Import MerkleTree MerkleView MerkleProof MerkleComplete MerkleUpgrade MerkleSparse.
From S2P Require Import BitfieldStore Core CoreOpen CoreView CoreRebuild.
Open Scope Z_scope.

Section Reader.
Context `{FT : FlatTree} {FL : FlatTreeLaws FT} `{CE : CompactEncoding} {CL : CompactEncodingLaws CE}
  `{B2 : Blake2b} {BL : Blake2bLaws B2} `{ED : Ed25519} {EL : Ed25519Laws ED} `{CR : Crc32}
  {CRL : Crc32Laws CR} `{RA : RandomAccess} {RL : RandomAccessLaws RA}
  `{IO : IntMapOrder} {IOL : IntMapOrderLaws IO}.
Implicit Types (blocks : list (list Z)) (s : Hypercore) (fs : Store -> list Z).

(** The reader has the roots of [blocks] and the blocks its bitfield has, each
    with its path.  At most [budget] operations come before the next flush. *)
Record reader_within (budget : Z) blocks fs s : Prop := {
  rd_holds : holds (hc_storage s) fs;
  rd_fits : log_fits blocks;
  rd_blank : no_blank blocks;
  rd_tree : sparse blocks (hc_tree s) (fs Common.Tree);
  rd_bits : dyn_wf (hc_bitfield s);
  rd_data k : 0 <= k -> dbit (hc_bitfield s) k = true ->
    k < zlen blocks /\ at_offset (fs Data) (byte_sum blocks k) (block_at blocks k) /\
    knows blocks (hc_tree s) (fs Common.Tree) 0 k;
  rd_fork : is_u64 (mt_fork (hc_tree s));
  rd_stored : bits_stored (zlen blocks) (hc_bitfield s) (fs Bitfield);
  rd_oplog : headed (hc_oplog s) (fs Oplog) /\ counted (hc_oplog s) /\
    op_entries_length (hc_oplog s) + hc_skip_flush_count s <= budget;
  rd_skip : 0 <= hc_skip_flush_count s;
  rd_header : header_small (hc_header s);
  rd_keys : hd_key_pair (hc_header s) = hc_key_pair s;
  rd_head : head_matches blocks (hc_tree s) (hd_tree (hc_header s));
  rd_contiguous : contiguous (hc_bitfield s) (hh_contiguous_length (hd_hints (hc_header s)));
}.

(** What is on the stores leads to the state of the reader. *)
Definition kept blocks fs s : Prop :=
  exists o h es, op_header_bits o = op_header_bits (hc_oplog s) /\ oplog_file o h es (fs Oplog) /\
    rebuilds blocks (fs Common.Tree) (fs Bitfield) (hc_tree s) (hc_bitfield s) (hc_header s) h es.

(** A reader that runs or was just opened: either the next operation flushes, or
    the oplog is in step with its file. *)
Record reader blocks fs s : Prop := {
  rd_within :> reader_within 3 blocks fs s;
  rd_kept : kept blocks fs s;
  rd_step : 0 < hc_skip_flush_count s -> in_step fs s;
}.

(** In an operation, before the flush. *)
Definition reader_mid blocks fs s : Prop :=
  reader_within 4 blocks fs s /\ (0 < hc_skip_flush_count s -> kept blocks fs s /\ in_step fs s).

Lemma reader_bits_below b blocks fs s k :
  reader_within b blocks fs s -> zlen blocks <= k -> dbit (hc_bitfield s) k = false.
Proof.
  intros Hr Hk. destruct (dbit (hc_bitfield s) k) eqn:Hd; [|done]. pose proof (zlen_nonneg blocks).
  destruct (rd_data _ _ _ _ Hr k) as [Hlt _]; [lia|done|lia].
Qed.

(** After a flush nothing has to be replayed. *)
Lemma flushed_kept b blocks fs s : reader_within b blocks fs s -> flushed fs s -> kept blocks fs s /\ in_step fs s.
Proof.
  intros Hr (Ho & Hu & Hb). split; [|by eexists _, _]. exists (hc_oplog s), (hc_header s), [].
  split_and!; [done..|]. pose proof (rd_tree _ _ _ _ Hr) as [Hfor Htr _ _ Hroots _].
  apply rebuilds_flushed; try done; try apply Hr; [|intros k; by apply (reader_bits_below b blocks fs)].
  intros d o Hin. destruct (Hroots d o Hin) as [_ [Hun|?]]; [|done]. rewrite Hu, lookup_empty in Hun. by destruct Hun.
Qed.

(** A core that was just created is a reader of the empty log. *)
Lemma fresh_reader fs s : core_inv [] fs s -> fs Common.Tree = [] -> flushed fs s -> reader [] fs s.
Proof.
  intros Hinv Hfs Hfl. destruct Hinv as [[[[Hh Hfit Hnb Ht Hb Hd] Hf Hst Ho Hsk Hhd Hk Hm] _ _] _ _ Hc].
  assert (reader_within 3 [] fs s) as Hr.
  { constructor; try done.
    - rewrite Hfs. destruct Ht as (Hfor & Htr & _). apply sparse_empty; [done..|]. apply Hfl.
    - intros k Hk0 Hbit. destruct (Hd k Hk0 Hbit) as [Hlt _]. rewrite zlen_nil in Hlt. lia. }
  destruct (flushed_kept 3 [] fs s Hr Hfl). by constructor.
Qed.

Lemma reader_within_event b blocks fs s e : reader_within b blocks fs s -> reader_within b blocks fs (push_event e s).
Proof. intros []. by constructor. Qed.
Lemma reader_event blocks fs s e : reader blocks fs s -> reader blocks fs (push_event e s).
Proof. intros []. constructor; [by apply reader_within_event|done..]. Qed.

(** ** Reading *)

Lemma reader_known b blocks fs s i :
  reader_within b blocks fs s -> 0 <= i -> knows blocks (hc_tree s) (fs Common.Tree) 0 i -> block_known blocks fs s i.
Proof.
  intros [Hh Hfit Hnb Ht _ _ _ _ _ _ _ _ _ _] Hi Hk. pose proof Hk as [(_ & _ & Hle) _]. constructor; try done.
  - apply Ht.
  - by eapply sparse_view.
  - rewrite Z.pow_0_r in Hle. lia.
  - intros ks. apply knows_readable. intros d o. by apply needed_knows.
Qed.

Lemma reader_get b blocks fs s i :
  reader_within b blocks fs s -> 0 <= i < 2 ^ 64 ->
  Core.get i s = if dbit (hc_bitfield s) i then (s, Ok (Some (block_at blocks i)))
                 else (push_event (EventGet i) s, Ok None).
Proof.
  intros Hr Hi. destruct (dbit (hc_bitfield s) i) eqn:Hb.
  - destruct (rd_data _ _ _ _ Hr i ltac:(lia) Hb) as (Hlt & Hat & Hk).
    apply (get_known blocks fs); [by eapply reader_known; [|lia|]|apply Hr|done..].
  - unfold Core.get, mbind, stateR_bind, gets, lift. rewrite dyn_get_Ok by (apply Hr || lia). by rewrite Hb.
Qed.

(** ** Flushing *)

Lemma reader_flush_ok b blocks fs s :
  reader_within b blocks fs s ->
  wp (Core.flush_bitfield_and_tree_and_oplog false) s (fun _ s' => exists fs',
    reader_within (hc_skip_flush_count s) blocks fs' s' /\ flushed fs' s' /\ same_view s s').
Proof.
  intros [Hh Hfit Hnb Ht Hb Hd Hfk Hst (Ho & _) Hskip Hhd Hkp Hm Hc].
  destruct (dyn_flush_Ok _ Hb) as (db' & Hbf & Hb' & Hnil & Hbits).
  pose proof (bits_stored_flush _ _ db' _ Hst Hb Hnil Hbits) as Hst'.
  destruct (sparse_flush _ _ _ Ht Hfit Hnb) as (t' & tinfos & Htf & Ht' & Hkn & Hfork & Hsig & Hempty & Htw).
  destruct (flush_headed _ _ (hc_header s) false Ho (header_small_fits _ Hhd)) as (o' & oinfos & Hof & Ho' & How).
  eapply wp_mono; [eapply flush_all_run; [exact Hh|exact Hbf|by apply page_infos_writes|exact Htf|
    by apply node_infos_writes|exact Hof|exact How]|].
  intros _ ? (st & fs' & -> & Hh' & Efd & Efb & Eft & Efo). exists fs'. rewrite <-Efo in Ho'.
  split_and!; [|done..]. pose proof (oplog_file_counted _ _ _ _ Ho' eq_refl) as Hcnt.
  pose proof Ho' as (_ & _ & _ & _ & _ & Hlen & _).
  constructor; cbn [hc_storage hc_tree hc_bitfield hc_oplog hc_skip_flush_count hc_header hc_key_pair with_parts];
    rewrite ?Efd, ?Efb, ?Eft; try done.
  - intros k Hk0. rewrite Hbits by done. intros Hbit. destruct (Hd k Hk0 Hbit) as (? & ? & ?).
    split_and!; [done..|]. by apply Hkn.
  - by rewrite Hfork.
  - split_and!; [by eapply oplog_file_headed|done|]. rewrite Hlen, zlen_nil. lia.
  - unfold head_matches. by rewrite Hfork, Hsig.
  - by eapply contiguous_ext.
Qed.

Lemma reader_maybe_flush_ok blocks fs s :
  reader_mid blocks fs s ->
  wp Core.maybe_flush s (fun _ s' => exists fs', reader blocks fs' s' /\ same_view s s').
Proof.
  intros [Hr Hkept]. apply maybe_flush_run; [apply (rd_skip _ _ _ _ Hr)|..].
  - assert (reader_within 7 blocks fs (set_skip_flush_count 3 s)) as Hr'.
    { destruct Hr as [???????? (Ho & Hcnt & Hn) ?????]. constructor; try done.
      split_and!; [done..|]. cbn. lia. }
    eapply wp_mono; [exact (reader_flush_ok 7 blocks fs _ Hr')|]. intros u s' (fs' & Hrd & Hfl & Hsame).
    exists fs'. split; [|done]. destruct (flushed_kept _ _ _ _ Hrd Hfl). by constructor.
  - intros Hpos. exists fs. destruct (Hkept Hpos) as [Hk Hs]. split; [|done]. constructor; [|done..].
    destruct Hr as [???????? (Ho & Hcnt & Hn) ?????]. constructor; try done.
    + split_and!; [done..|]. cbn. lia.
    + cbn. lia.
Qed.

(** ** Taking a block *)

Lemma length_path_nodes (m : nat) : forall d o, length (path_nodes m d o) = (2 * m)%nat.
Proof. induction m as [|m IH]; intros d o; cbn [path_nodes length]; [done|]. rewrite IH. lia. Qed.

Lemma merkle_nodes_wf blocks ps :
  log_fits blocks -> (forall d o, (d, o) ∈ ps -> complete (zlen blocks) d o) -> zlen ps < 2 ^ 64 ->
  nodes_wf (merkle_peaks blocks ps).
Proof.
  intros Hfit Hps Hl. split.
  - apply Forall_fmap, Forall_forall. intros [d o] Hin. by apply merkle_node_wf; [apply Hps|].
  - unfold is_u64, zlen, merkle_peaks in *. rewrite length_fmap. lia.
Qed.

(** The tree of the changeset of a verified block is committed. *)
Lemma commit_verified blocks self ps :
  Tree.commit self (Proofs.push_nodes (Tree.changeset self) (merkle_peaks blocks ps)) = Ok (with_nodes self blocks ps).
Proof.
  unfold Tree.commit, Tree.commitable. cbn. by rewrite Z.eqb_refl, Z.leb_refl.
Qed.

(** A question that is asked once more with the nodes that were read for it. *)
Lemma second_ask_ok {A} (ask : option (list StoreInfo) -> result (either_instructions A)) blocks fs s ps (a : A) :
  holds (hc_storage s) fs -> (forall d o, (d, o) ∈ ps -> knows blocks (hc_tree s) (fs Common.Tree) d o) ->
  (forall ks, readable blocks (fs Common.Tree) ks ->
     ask (Some (node_read (fs Common.Tree) <$> ks)) = Ok (asked (unknown (hc_tree s) ks (node_keys ps)) a)) ->
  wp (match asked (unknown (hc_tree s) [] (node_keys ps)) a with
      | Right value => mret value
      | Left instructions =>
          infos ← core_read_infos instructions;
          r ← lift (ask (Some infos));
          match r with Right value => mret value | Left _ => lift (Err InvalidOperation) end
      end) s (fun r s' => r = a /\ s' = s).
Proof.
  intros Hh Hps Hask. set (l1 := unknown (hc_tree s) [] _).
  destruct (decide (l1 = [])) as [Hnil|Hne]; [rewrite Hnil; cbn [asked]; by wp_step|].
  assert (forall a : A, asked l1 a = Left (read_node <$> l1)) as -> by by destruct l1.
  assert (readable blocks (fs Common.Tree) l1) as Hr1 by by apply knows_readable.
  destruct (readable_reads _ _ _ Hr1) as [Hw1 Hrd1]. apply wp_bind. eapply core_read_infos_ok; [exact Hh|done..|].
  apply wp_bind. eapply wp_lift; [by apply Hask|].
  pose proof (unknown_all (hc_tree s) [] (node_keys ps)) as Hall. rewrite app_nil_l in Hall. fold l1 in Hall.
  rewrite Hall. cbn [asked]. by wp_step.
Qed.

(** The node a proof ends at, as the tree finds it once [ks] were read. *)
Lemma checked_node_asked {A} blocks self f ks d o (a : A) :
  sparse blocks self f -> no_blank blocks -> log_fits blocks -> readable blocks f ks -> complete (zlen blocks) d o ->
  exists nodes, infos_to_nodes (Some (node_read f <$> ks)) = Ok nodes /\
    (r ← Tree.required_node self (node_at d o) nodes;
     match r with
     | Left instruction => Ok (Left [instruction])
     | Right verified =>
         if decide (node_hash verified = node_hash (merkle_at blocks d o)) then Ok (Right a) else Err InvalidChecksum
     end) = Ok (asked (unknown self ks (node_keys [(d, o)])) a).
Proof.
  intros Ht Hnb Hfit Hks Hc. pose proof Hfit as [Hlen _].
  destruct (infos_view _ _ _ _ (sparse_view _ _ _ Ht) Hfit Hks) as (nm & Hm & Hv & Hmiss). exists nm. split; [done|].
  rewrite (required_node_ok blocks) by done. rewrite bind_Ok. specialize (Hmiss [(d, o)]).
  unfold missing in Hmiss. cbn [fmap list_fmap] in Hmiss. rewrite filter_cons in Hmiss.
  unfold asked. destruct (unknown _ _ _) as [|k l] eqn:Hunk.
  - destruct (has _ _ _); [by rewrite decide_True|discriminate Hmiss].
  - destruct (has _ _ _); [discriminate Hmiss|]. by do 2 f_equal.
Qed.

(** A proof is verified with at most one round of reads. *)
Lemma reader_verify_asked b blocks fs s p ps cs :
  reader_within b blocks fs s -> (forall d o, (d, o) ∈ ps -> knows blocks (hc_tree s) (fs Common.Tree) d o) ->
  (forall ks, readable blocks (fs Common.Tree) ks ->
     Proofs.verify_proof (hc_tree s) p (kp_public (hc_key_pair s)) (Some (node_read (fs Common.Tree) <$> ks)) =
       Ok (asked (unknown (hc_tree s) ks (node_keys ps)) cs)) ->
  wp (Core.verify_proof p) s (fun cs' s' => cs' = cs /\ s' = s).
Proof.
  intros Hr Hps Hask. unfold Core.verify_proof. wp_step. wp_step.
  change (Proofs.verify_proof (hc_tree s) p (kp_public (hc_key_pair s)) None)
    with (Proofs.verify_proof (hc_tree s) p (kp_public (hc_key_pair s)) (Some (node_read (fs Common.Tree) <$> []))).
  apply wp_bind. eapply wp_lift; [apply Hask; by intros ? ?%elem_of_nil|].
  apply (second_ask_ok (Proofs.verify_proof (hc_tree s) p (kp_public (hc_key_pair s))) blocks fs); [apply Hr|done..].
Qed.

Lemma reader_verify_ok b blocks fs s fork i (m : nat) :
  reader_within b blocks fs s -> knows blocks (hc_tree s) (fs Common.Tree) (Z.of_nat m) (i / 2 ^ Z.of_nat m) ->
  wp (Core.verify_proof (proof_for blocks fork true m 0 i)) s (fun cs s' =>
    cs = Proofs.push_nodes (Tree.changeset (hc_tree s)) (merkle_peaks blocks (verified_nodes m 0 i)) /\ s' = s).
Proof.
  intros Hr Hk. pose proof Hk as [Hc _].
  apply (reader_verify_asked b blocks fs s _ [(Z.of_nat m, i / 2 ^ Z.of_nat m)]); [done|by intros d o [= -> ->]%list_elem_of_singleton|].
  intros ks Hks. destruct (checked_node_asked blocks (hc_tree s) (fs Common.Tree) ks _ _
    (Proofs.push_nodes (Tree.changeset (hc_tree s)) (merkle_peaks blocks (verified_nodes m 0 i)))
    (rd_tree _ _ _ _ Hr) (rd_blank _ _ _ _ Hr) (rd_fits _ _ _ _ Hr) Hks Hc) as (nm & Hm & <-).
  by rewrite (verify_proof_ok blocks _ _ nm) by (done || lia || apply Hr).
Qed.

(** Its value is written where the block belongs in the log that the changeset
    leads to. *)
Lemma reader_store_ok b old more fs s i ns cs ps :
  reader_within b old fs s -> log_fits (old ++ more) -> 0 <= i < zlen (old ++ more) ->
  (forall d o, (d, o) ∈ ps -> knows old (hc_tree s) (fs Common.Tree) d o) ->
  (forall ks, readable old (fs Common.Tree) ks ->
     Tree.byte_offset_in_changeset (hc_tree s) i cs (Some (node_read (fs Common.Tree) <$> ks)) =
       Ok (asked (unknown (hc_tree s) ks (node_keys ps)) (byte_sum (old ++ more) i))) ->
  let f := file_write (fs Data) (byte_sum (old ++ more) i) (block_at (old ++ more) i) in
  wp (Core.store_block cs (mkDataBlock i (block_at (old ++ more) i) ns)) s (fun u s' =>
    u = mkBitfieldUpdate false i 1 /\ exists st, s' = set_storage st s /\
    reader_within b old (update_store fs Data f) s' /\ at_offset f (byte_sum (old ++ more) i) (block_at (old ++ more) i)).
Proof.
  intros Hr Hfit Hi Hps Hask f. pose proof Hr as [Hh Hfit0 Hnb Ht ? Hd ? ? ? ? ? ? ? ?]. set (blocks := old ++ more) in *.
  unfold Core.store_block. wp_step. cbn [db_index db_value].
  change (Tree.byte_offset_in_changeset (hc_tree s) i cs None) with
    (Tree.byte_offset_in_changeset (hc_tree s) i cs (Some (node_read (fs Common.Tree) <$> []))).
  apply wp_bind. eapply wp_lift; [apply Hask; by intros ? ?%elem_of_nil|]. apply wp_bind.
  eapply wp_mono; [apply (second_ask_ok (Tree.byte_offset_in_changeset (hc_tree s) i cs) old fs); done|]. intros ? ? [-> ->]. apply wp_bind. pose proof (byte_sum_nonneg blocks i).
  eapply wp_mono; [apply (core_flush_info_ok s fs Data); [exact Hh|by split; [|split]]|].
  intros _ ? (st & -> & Hst). cbn [info_effect BlockStore.put StoreInfo.new_content si_info_type si_miss si_data si_index] in Hst.
  apply wp_ret. split; [done|]. exists st. split; [done|].
  split; [|by apply at_offset_write_same].
  constructor; cbn [hc_storage hc_tree hc_bitfield hc_oplog hc_skip_flush_count hc_header set_storage]; try done.
  intros k Hk0 Hb. destruct (Hd k Hk0 Hb) as (Hlt & Hat & Hkn). rewrite update_store_same, update_store_other by done.
  split_and!; [done| |done]. rewrite <-(byte_sum_app old more), <-(block_at_app_l old more) in Hat |- * by lia. fold blocks in Hat |- *.
  destruct (decide (k = i)) as [->|Hne]; [by apply at_offset_write_same|].
  apply at_offset_write_other; [done|apply byte_sum_nonneg| |done].
  pose proof (byte_sum_succ blocks k Hk0) as Hsk. pose proof (byte_sum_succ blocks i ltac:(lia)) as Hsi.
  fold (block_at blocks k) in Hsk. fold (block_at blocks i) in Hsi.
  destruct (Z.lt_ge_cases k i).
  - left. pose proof (byte_sum_mono blocks (k + 1) i ltac:(lia)). lia.
  - right. pose proof (byte_sum_mono blocks (i + 1) k ltac:(lia)). lia.
Qed.

(** What logging keeps. *)
Definition same_identity s s' : Prop :=
  hc_key_pair s' = hc_key_pair s /\ hc_events s' = hc_events s.

Lemma header_small_tree h len hash (sig : Signature) :
  header_small h -> is_u64 len -> is_bytes32 hash ->
  header_small (mkHeader _ (hd_key h) (hd_manifest h) (hd_key_pair h) (hd_user_data h)
    (mkHeaderTree (ht_fork (hd_tree h)) len hash (sig_to_bytes sig)) (hd_hints h)).
Proof.
  intros ((? & ? & ? & (? & ?) & ?) & _ & _ & ?) Hl [Hb32 Hl32].
  pose proof (sig_bytes sig) as [Hsb Hsl]. unfold SIGNATURE_LENGTH in Hsl.
  assert (is_bytes hash) by (split; [done|lia]). assert (is_bytes (sig_to_bytes sig)) by (split; [done|lia]).
  split_and!; cbn [hd_tree ht_root_hash ht_signature]; [|lia|lia|done]. by split_and!.
Qed.

(** What a reader takes from a changeset: nodes of the log [blocks], which
    begins with the one it had, and a signature if it is longer. *)
Record taken blocks fs s (cs : MerkleTreeChangeset) (ps : list (Z * Z)) (t' : MerkleTree) : Prop := {
  tk_nodes : cs_nodes cs = merkle_peaks blocks ps;
  tk_complete d o : (d, o) ∈ ps -> complete (zlen blocks) d o;
  tk_few : zlen ps <= 2 ^ 24;
  tk_commit : Tree.commit (hc_tree s) cs = Ok t';
  tk_sparse : sparse blocks t' (fs Common.Tree);
  tk_fork : mt_fork t' = mt_fork (hc_tree s);
  tk_signed : cs_upgraded cs = true ->
    cs_length cs = zlen blocks /\ is_u64 (cs_fork cs) /\ is_u64 (cs_ancestors cs) /\
    cs_ancestors cs = mt_length (hc_tree s) /\
    cs_hash cs = Some (blake2b256 (tree_preimage (merkle_roots blocks))) /\ is_Some (cs_signature cs);
}.

(** The entry it is logged as fits, and so does the header that follows. *)
Lemma taken_entry blocks fs s cs ps t' u :
  taken blocks fs s cs ps t' -> log_fits blocks -> header_small (hc_header s) -> opt_wf bitfield_update_wf u ->
  exists h' e, Oplog.update_header_with_changeset cs u (hc_header s) = Ok (h', e) /\ header_small h' /\
    hd_hints h' = hd_hints (hc_header s) /\ hd_key_pair h' = hd_key_pair (hc_header s) /\
    (forall old, tree_for old (hc_tree s) -> head_matches old (hc_tree s) (hd_tree (hc_header s)) ->
       head_matches blocks t' (hd_tree h')) /\ entry_fits e.
Proof.
  intros [Hn Hc Hz Hcom Hsp Hfork Hsig] Hfit Hh Hu. pose proof (commit_head _ _ _ Hcom) as Hth. unfold tree_head in Hth. pose proof Hfit as [Hlen _]. pose proof (zlen_nonneg blocks).
  assert (nodes_wf (cs_nodes cs)) as Hwf by (rewrite Hn; apply merkle_nodes_wf; [done..|lia]).
  assert (zlen (cs_nodes cs) <= 2 ^ 24) as Hnz by (rewrite Hn; unfold zlen, merkle_peaks in *; by rewrite length_fmap).
  unfold Oplog.update_header_with_changeset. destruct (cs_upgraded cs).
  - destruct (Hsig eq_refl) as (-> & Hf & Ha & _ & -> & [sig Hcs]). rewrite Hcs in *. cbn [unwrap]. rewrite !bind_Ok.
    pose proof (sig_bytes sig) as [Hsb Hsl]. unfold SIGNATURE_LENGTH in Hsl. eexists _, _. split_and!; [done| |done|done| |].
    + apply header_small_tree; [done|unfold is_u64; lia|apply blake2b256_bytes].
    + intros old _ (_ & Hhf & _). injection Hth as _ _ _ Hts. split_and!; [done|cbn; congruence|]. by rewrite Hts.
    + assert (is_bytes (sig_to_bytes sig)) by (split; [done|lia]). apply small_entry_fits; try done.
      * cbn. unfold entry_tree_upgrade_wf. cbn. split_and!; try done; unfold is_u64; lia.
      * intros x [= <-]. cbn. lia.
  - eexists _, _. split_and!; [done..| |by apply small_entry_fits]. intros old (_ & Hol & _) (Hhl & Hhf & Hhs).
    injection Hth as _ Htl Htf Hts. destruct (sp_for _ _ _ Hsp) as (_ & Hl & _). unfold head_matches.
    rewrite Htf, Hts. split_and!; [congruence|done..].
Qed.

(** It can be replayed. *)
Lemma taken_replayable old more fs s cs ps t' :
  taken (old ++ more) fs s cs ps t' -> sparse old (hc_tree s) (fs Common.Tree) -> log_fits (old ++ more) ->
  is_u64 (mt_fork (hc_tree s)) -> replayable old more (hc_tree s) cs t' (fs Common.Tree).
Proof.
  intros [Hn Hc Hz Hcom Hsp Hfork Hsig] Ht Hfit Hf. pose proof (commit_head _ _ _ Hcom) as Hth. unfold tree_head in Hth.
  destruct (sp_for _ _ _ Hsp) as (Hr' & Hl' & Hb'). constructor; try done.
  - by apply Ht.
  - apply (sp_for _ _ _ Ht).
  - by eapply sparse_view.
  - apply (knows_readable _ t' _ []). by apply Hsp.
  - intros Hup. rewrite Hup in Hth. injection Hth as Htr Htl Htf Hts.
    destruct (Hsig Hup) as (Hcl & Hcf & _ & Ha & Hch & [sig Hcs]).
    unfold Tree.commit, Tree.commitable in Hcom. rewrite Hup in Hcom.
    destruct (_ && _) eqn:Heq; cbn [negb] in Hcom; [|discriminate Hcom]. apply andb_true_iff in Heq as [_ Hol%Z.eqb_eq].
    assert (cs_for (old ++ more) cs) as Hfor.
    { unfold Tree.commit_truncation in Hcom. rewrite Ha, Hol, Z.ltb_irrefl in Hcom. injection Hcom as <-. by split_and!. }
    split_and!; [done..|]. exists sig. eexists. split_and!; [done..|].
    by apply (hash_signable_ok _ _ Hfor Hfit Hcf).
Qed.

(** It is logged and committed, the block is marked, and the reader follows the
    longer log. *)
Lemma reader_taken_ok old more fs s cs ps t' (i : option Z) :
  reader old fs s -> log_fits (old ++ more) -> no_blank (old ++ more) -> taken (old ++ more) fs s cs ps t' ->
  (forall d o, knows old (hc_tree s) (fs Common.Tree) d o -> knows (old ++ more) t' (fs Common.Tree) d o) ->
  (forall k, i = Some k -> 0 <= k < zlen (old ++ more) /\ knows (old ++ more) t' (fs Common.Tree) 0 k /\
     at_offset (fs Data) (byte_sum (old ++ more) k) (block_at (old ++ more) k)) ->
  wp (Core.log_changeset cs (have <$> i)) s (fun _ s' => exists fs', reader (old ++ more) fs' s' /\ same_identity s s' /\
    mt_fork (hc_tree s') = mt_fork (hc_tree s) /\
    forall k, 0 <= k -> dbit (hc_bitfield s') k = if decide (i = Some k) then true else dbit (hc_bitfield s) k).
Proof.
  intros Hr Hfit Hnb Htk Hkeep Hi. pose proof (fun k => reader_bits_below _ _ _ _ k Hr) as Hover.
  pose proof Hr as [[Hh Hfit0 _ Ht Hb Hd Hf Hst0 (Ho & Hcnt & Hbud) Hskip Hhd Hkp Hm Hc] (o & h0 & es0 & _ & Hfile & Hreb) Hstep].
  set (blocks := old ++ more) in *. pose proof Hfit as [Hlen _]. pose proof (zlen_nonneg blocks).
  assert (zlen old <= zlen blocks) as Hle by (unfold blocks; rewrite zlen_app; pose proof (zlen_nonneg more); lia).
  destruct (taken_entry _ _ _ _ _ _ (have <$> i) Htk Hfit Hhd) as (h' & e & Hup & Hh' & Hhints & Hkeys & Hmatch & He).
  { destruct i as [k|]; [|done]. destruct (Hi k eq_refl) as [? _]. unfold opt_wf, bitfield_update_wf, is_u64. cbn. lia. }
  destruct (log_entry_run fs s e (rebuilds old (fs Common.Tree) (fs Bitfield) (hc_tree s) (hc_bitfield s) (hc_header s)) Ho Hcnt
    ltac:(lia) He) as (o' & oinfos & Hap & How & Ho' & Hcnt' & Hel & Hdur); [by exists o, h0, es0|].
  destruct (have_ok (zlen old) (zlen blocks) (fs Bitfield) (hc_bitfield s) h' i) as (db' & h'' & Hu & Hb' & Hhint & Hc' & Hst' & Hbits);
    [done|by rewrite Hhints|done|done|lia|intros k Hk; by destruct (Hi k Hk)|].
  assert (is_u64 (hh_contiguous_length (hd_hints h''))) as Hc64.
  { unfold is_u64. pose proof Hc' as [? _]. split; [done|].
    enough (hh_contiguous_length (hd_hints h'') <= zlen blocks) by lia. apply (contiguous_below db'); [done|lia|].
    intros k Hk. rewrite Hbits, decide_False by (lia || (intros Hik; destruct (Hi k Hik); lia)). apply Hover. lia. }
  destruct (up_to_hint_parts _ _ Hhint) as (_ & _ & E3 & _ & E5 & _).
  eapply (log_changeset_run s fs cs (have <$> i) h' oinfos o' db' h'' t'); [exact Hh| |exact How|exact Hu|apply Htk|].
  { unfold Oplog.append_changeset. by rewrite Hup, bind_Ok, Hap, bind_Ok. }
  intros st Hst. eapply wp_mono.
  { apply (reader_maybe_flush_ok blocks (update_store fs Oplog (file_effects (fs Oplog) oinfos))). split.
    - constructor; cbn [hc_storage hc_tree hc_bitfield hc_oplog hc_skip_flush_count hc_header hc_key_pair with_parts];
        rewrite ?update_store_same, ?update_store_other by done; try done; [by eapply tk_sparse| |..].
      + intros k Hk0. rewrite Hbits by done. case_decide as Hik.
        * intros _. destruct (Hi k Hik) as (? & ? & ?). split_and!; [lia|done..].
        * intros Hbit. destruct (Hd k Hk0 Hbit) as (Hlt & Hat & Hkk). unfold blocks.
          rewrite byte_sum_app, block_at_app_l by lia. split_and!; [fold blocks; lia|done|by apply Hkeep].
      + by rewrite (tk_fork _ _ _ _ _ _ Htk).
      + split_and!; [done..|lia].
      + by eapply header_small_hint.
      + congruence.
      + rewrite E5. eapply Hmatch; [apply (sp_for _ _ _ Ht)|done].
    - cbn [with_parts hc_skip_flush_count]. intros Hpos. destruct (Hdur (Hstep Hpos)) as (h & es & Hfile' & Hreb').
      split; [|eexists _, _; cbn [hc_oplog with_parts]; by rewrite update_store_same].
      exists o', h, (es ++ [e]). rewrite update_store_same, !update_store_other by done.
      cbn [hc_oplog with_parts hc_tree hc_bitfield hc_header]. split_and!; [done..|].
      eapply (rebuilds_changeset old more _ _ _ _ _ _ _ h'); try done; [by eapply taken_replayable|intros k Hk; by destruct (Hi k Hk)]. }
  intros _ s' (fs' & Hinv' & (Hk' & _ & He' & Hf' & _ & Hd')). exists fs'. split_and!; try done.
  - rewrite Hf'. apply Htk.
  - intros k Hk0. rewrite Hd' by done. by apply Hbits.
Qed.

Lemma reader_taken_same blocks fs s cs ps t' (i : option Z) :
  reader blocks fs s -> taken blocks fs s cs ps t' ->
  (forall d o, knows blocks (hc_tree s) (fs Common.Tree) d o -> knows blocks t' (fs Common.Tree) d o) ->
  (forall k, i = Some k -> 0 <= k < zlen blocks /\ knows blocks t' (fs Common.Tree) 0 k /\
     at_offset (fs Data) (byte_sum blocks k) (block_at blocks k)) ->
  wp (Core.log_changeset cs (have <$> i)) s (fun _ s' => exists fs', reader blocks fs' s' /\ same_identity s s' /\
    mt_fork (hc_tree s') = mt_fork (hc_tree s) /\
    forall k, 0 <= k -> dbit (hc_bitfield s') k = if decide (i = Some k) then true else dbit (hc_bitfield s) k).
Proof.
  intros Hr. pose proof (reader_taken_ok blocks [] fs s cs ps t' i Hr) as Hlog. rewrite !app_nil_r in Hlog.
  apply Hlog; apply Hr.
Qed.

(** The nodes of a verified block. *)
Lemma taken_block blocks fs s i (m : nat) cs :
  sparse blocks (hc_tree s) (fs Common.Tree) -> log_fits blocks ->
  knows blocks (hc_tree s) (fs Common.Tree) (Z.of_nat m) (i / 2 ^ Z.of_nat m) ->
  cs_nodes cs = merkle_peaks blocks (verified_nodes m 0 i) -> cs_upgraded cs = false ->
  Tree.commit (hc_tree s) cs = Ok (with_nodes (hc_tree s) blocks (verified_nodes m 0 i)) ->
  taken blocks fs s cs (verified_nodes m 0 i) (with_nodes (hc_tree s) blocks (verified_nodes m 0 i)) /\
  forall d o, knows blocks (with_nodes (hc_tree s) blocks (verified_nodes m 0 i)) (fs Common.Tree) d o <->
    (d, o) ∈ verified_nodes m 0 i \/ knows blocks (hc_tree s) (fs Common.Tree) d o.
Proof.
  intros Ht [Hlen _] Hk Hn Hu Hcommit. pose proof Hk as [Hcm _]. pose proof (complete_depth _ _ _ Hcm Hlen).
  destruct (sparse_verified _ _ _ m 0 i Ht ltac:(lia)) as [Ht' Hkn]; [by rewrite Z.add_0_l|]. split; [|done].
  constructor; try done; [|unfold verified_nodes, zlen; cbn [length]; rewrite length_path_nodes; lia|by rewrite Hu].
  intros d o. apply verified_nodes_complete; [lia|by rewrite Z.add_0_l].
Qed.

(** The nodes of an accepted upgrade, after those of a block. *)
Lemma taken_upgrade old more fs s sig vs cs :
  sparse old (hc_tree s) (fs Common.Tree) -> log_fits (old ++ more) -> no_blank (old ++ more) -> is_u64 (mt_fork (hc_tree s)) ->
  climbs (zlen (old ++ more)) (knows old (hc_tree s) (fs Common.Tree)) vs -> zlen vs <= 2 ^ 23 ->
  (forall d o, (d, o) ∈ vs -> complete (zlen (old ++ more)) d o) ->
  accepted_upgrade (old ++ more) (mt_fork (hc_tree s)) sig
    (Proofs.push_nodes (Tree.changeset (hc_tree s)) (merkle_peaks (old ++ more) vs)) cs ->
  exists ps t', taken (old ++ more) fs s cs ps t' /\
    (forall d o, knows old (hc_tree s) (fs Common.Tree) d o -> knows (old ++ more) t' (fs Common.Tree) d o) /\
    forall d o, (d, o) ∈ vs -> knows (old ++ more) t' (fs Common.Tree) d o.
Proof.
  intros Ht Hfit Hnb Hf Hcl Hvz Hvs Hacc. set (blocks := old ++ more) in *.
  destruct (sparse_upgrade old more _ _ _ _ vs _ Ht Hnb Hcl Hacc Hvs) as (t' & Htc & Ht' & Hfork & _ & Hkn & Hkv).
  destruct (accepted_for _ _ _ _ _ Hacc) as ((_ & Hl & _) & Hu & Hcf & Hcs & Hch & Han & _ & _ & Hz & ps & Hn & Hps & _).
  cbn [Proofs.push_nodes Changeset.set_roots_nodes Tree.changeset Changeset.new cs_nodes cs_ancestors app] in Hn, Hz, Han.
  destruct (sp_for _ _ _ Ht) as (_ & Hol & _). pose proof (zlen_nonneg old).
  assert (zlen old <= zlen blocks) by (unfold blocks; rewrite zlen_app; pose proof (zlen_nonneg more); lia).
  pose proof Hfit as [Hlen _]. exists (vs ++ ps), t'. split_and!; [|done..].
  rewrite <-merkle_peaks_snoc in Hn. constructor; try done.
  - intros d o [?|?]%elem_of_app; [by apply Hvs|by apply Hps].
  - rewrite Hn in Hz. unfold zlen, merkle_peaks in *. rewrite !length_fmap, ?length_app in *. lia.
  - intros _. rewrite Hl, Hcf, Han, Hch, Hcs. split_and!; try done; unfold is_u64; lia.
Qed.

(** ** Asking for a block *)

Lemma above_key_fresh i (t : nat) : 0 <= i -> above_key i t ∉ (above_key i <$> seq 0 t).
Proof.
  intros Hi (j & Heq & Hj)%list_elem_of_fmap. apply elem_of_seq in Hj.
  apply node_at_inj in Heq as [Ht _]; [lia|lia|lia|..]; apply Z.div_pos; try apply Z.pow_pos_nonneg; lia.
Qed.

Lemma above_key_nonneg i (t : nat) : 0 <= i -> 0 <= above_key i t.
Proof.
  intros Hi. unfold above_key, node_at. pose proof (Z.pow_pos_nonneg 2 (Z.of_nat t)).
  assert (0 <= i / 2 ^ Z.of_nat t) by (apply Z.div_pos; lia). nia.
Qed.

(** What the tree answers once the slots of the first [t] levels were read. *)
Lemma missing_nodes_at blocks self f i (m t : nat) :
  sparse blocks self f -> no_blank blocks -> log_fits blocks -> 0 <= i < zlen blocks -> (t <= S m)%nat ->
  knows blocks self f (above i m).1 (above i m).2 ->
  (forall j, (j < m)%nat -> ~ knows blocks self f (above i j).1 (above i j).2) ->
  Tree.missing_nodes self (2 * i) (Some (slot_info f <$> (above_key i <$> seq 0 t))) =
    Ok (if decide ((t < m)%nat \/ t = m /\ mt_unflushed self !! above_key i m = None)
        then Left [slot_read (above_key i t)] else Right (Z.of_nat m)).
Proof.
  intros Hs Hnb Hfit Hi Ht Hm Hleast. pose proof Hfit as [Hlen _].
  pose proof (iter_new_law 0 i) as Hit. rewrite node_at_leaf in Hit.
  assert (in_tree 0 i) as Htree.
  { apply (complete_in_tree (zlen blocks)); [|lia]. split_and!; rewrite ?Z.pow_0_r; lia. }
  specialize (Hit Htree). pose proof Hit as (Hii & _ & Hif). rewrite node_at_leaf in Hii.
  unfold Tree.missing_nodes. destruct (sp_for _ _ _ Hs) as (_ & -> & _). rewrite Hii, Hif.
  rewrite checked_mul_Ok, bind_Ok by lia. change (2 ^ (0 + 1) / 2) with 1.
  rewrite checked_add_Ok, bind_Ok by lia. rewrite checked_sub_Ok, bind_Ok by lia.
  rewrite (proj2 (Z.leb_gt (2 * zlen blocks) _)) by lia. cbn [infos_to_nodes].
  destruct (insert_slots blocks f (above_key i <$> seq 0 t) ∅ (sp_slots _ _ _ Hs) Hfit) as (nm & -> & Hin & Hout).
  { intros k (j & -> & _)%list_elem_of_fmap. apply above_key_nonneg; lia. }
  rewrite bind_Ok. assert (forall j, (j < t)%nat -> above_key i j ∈ (above_key i <$> seq 0 t)) as Hks.
  { intros j Hj. apply list_elem_of_fmap_2. apply elem_of_seq. lia. }
  assert (forall j, (j < m)%nat -> mt_unflushed self !! above_key i j = None) as Hnone.
  { intros j Hj. destruct (mt_unflushed self !! above_key i j) eqn:Hu; [|done].
    destruct (Hleast j Hj). split; [|left; by exists n]. pose proof Hm as [Hcm _].
    cbn in *. apply (complete_climb (zlen blocks) (m - j)); [lia|].
    rewrite Z.div_div by (first [lia | apply Z.pow_nonzero; lia | apply Z.pow_pos_nonneg; lia]).
    rewrite <-Z.pow_add_r by lia. by replace (Z.of_nat j + Z.of_nat (m - j)) with (Z.of_nat m) by lia. }
  destruct (missing_loop_at blocks self f (above_key i <$> seq 0 t) nm Hs Hnb Hlen Hin Hout i m (Nat.min t m) (iter_new (2 * i)))
    as [Hask Hdone]; try done; try lia.
  { intros j Hj. apply Hks. lia. }
  case_decide as Hd.
  - replace (Nat.min t m) with t in Hask by lia. apply Hask; [apply above_key_fresh; lia|].
    destruct Hd as [Hlt|[-> Hu]]; [by apply Hnone|done].
  - apply Hdone; [lia|]. destruct (decide (t = m)) as [->|Hne].
    + right. destruct (mt_unflushed self !! above_key i m) eqn:Hu; [by eexists|]. destruct Hd. by right.
    + left. apply Hks. lia.
Qed.

Lemma slot_read_ok fs k :
  0 <= k -> instruction_wf (slot_read k) /\ read_effect fs (slot_read k) = Some (slot_info (fs Common.Tree) k).
Proof.
  intros Hk. split; [split; [cbn; lia|intros n [= <-]; lia]|].
  unfold read_effect, slot_read, slot_info. cbn [Instruction.new_content_allow_miss sii_store sii_info_type sii_length sii_index sii_allow_miss default].
  change (default (zlen (fs Common.Tree)) (Some 40)) with 40. by destruct (_ <=? _).
Qed.

(** The loop reads one level after the other, and stops at the first node that
    is known. *)
Lemma missing_ask_ok blocks fs s i (m : nat) : forall c (t : nat) fuel,
  holds (hc_storage s) fs -> sparse blocks (hc_tree s) (fs Common.Tree) -> no_blank blocks -> log_fits blocks ->
  0 <= i < zlen blocks -> (t + c = m)%nat ->
  knows blocks (hc_tree s) (fs Common.Tree) (above i m).1 (above i m).2 ->
  (forall j, (j < m)%nat -> ~ knows blocks (hc_tree s) (fs Common.Tree) (above i j).1 (above i j).2) ->
  wp (Core.ask_again (S c + fuel) (fun infos => Tree.missing_nodes (hc_tree s) (2 * i) (Some infos))
        [slot_read (above_key i t)] (slot_info (fs Common.Tree) <$> (above_key i <$> seq 0 t))) s
    (fun r s' => r = Z.of_nat m /\ s' = s).
Proof.
  induction c as [|c IH]; intros t fuel Hh Hs Hnb Hfit Hi Htm Hm Hleast; cbn [Nat.add Core.ask_again].
  all: destruct (slot_read_ok fs (above_key i t) ltac:(apply above_key_nonneg; lia)) as [Hw Hrd].
  all: apply wp_bind; eapply (core_read_infos_ok s fs _ [slot_info (fs Common.Tree) (above_key i t)]);
    [exact Hh|by constructor|by constructor|].
  all: change [slot_info (fs Common.Tree) (above_key i t)] with (slot_info (fs Common.Tree) <$> (above_key i <$> [t])).
  all: rewrite <-!fmap_app, <-seq_S; apply wp_bind; (eapply wp_lift; [apply (missing_nodes_at blocks _ _ i m); (done || lia)|]).
  - rewrite decide_False by lia. by wp_step.
  - case_decide as Hd; [|by wp_step]. apply (IH (S t) fuel); (done || lia).
Qed.

Lemma reader_missing_nodes b blocks fs s i :
  reader_within b blocks fs s -> 0 <= i < zlen blocks ->
  exists m : nat, Core.missing_nodes i s = (s, Ok (Z.of_nat m)) /\
    knows blocks (hc_tree s) (fs Common.Tree) (Z.of_nat m) (i / 2 ^ Z.of_nat m).
Proof.
  intros [Hh Hfit Hnb Hs _ _ _ _ _ _ _ _ _ _] Hi. pose proof Hfit as [Hlen _].
  destruct (first_known _ _ _ i Hs Hi) as (m & Hm & Hleast). exists m. split; [|done].
  cut (wp (Core.missing_nodes i) s (fun r s' => r = Z.of_nat m /\ s' = s)).
  { intros (s' & r & Hg & -> & ->). done. }
  pose proof Hm as [Hcm _]. pose proof (complete_depth _ _ _ Hcm Hlen) as Hdep. cbn in Hdep.
  unfold Core.missing_nodes. rewrite checked_mul_Ok by lia. apply wp_bind. eapply wp_lift; [done|]. rewrite Z.mul_comm.
  unfold Core.missing_nodes_from_merkle_tree_index. wp_step.
  change (Tree.missing_nodes (hc_tree s) (2 * i) None) with
    (Tree.missing_nodes (hc_tree s) (2 * i) (Some (slot_info (fs Common.Tree) <$> (above_key i <$> seq 0 0)))).
  apply wp_bind. eapply wp_lift; [apply (missing_nodes_at blocks _ _ i m); (done || lia)|].
  case_decide as Hd; cbn beta iota; [|destruct m; [by wp_step|lia]].
  replace retry_fuel with (S m + (retry_fuel - S m))%nat by (unfold retry_fuel; lia).
  by apply (missing_ask_ok blocks fs s i m m 0).
Qed.
(** ** Applying proofs *)

Lemma commit_commitable t cs t' : Tree.commit t cs = Ok t' -> Tree.commitable t cs = true.
Proof. unfold Tree.commit. by destruct (Tree.commitable t cs). Qed.

(** What is in the data store does not matter for opening. *)
Lemma reader_data blocks fs s f st :
  reader blocks fs s -> reader_within 3 blocks (update_store fs Data f) (set_storage st s) ->
  reader blocks (update_store fs Data f) (set_storage st s).
Proof.
  intros [_ (o & h & es & Hb & Ho & Hreb) Hstep] Hr. constructor; [done|..].
  - exists o, h, es. by rewrite !update_store_other.
  - intros Hpos. destruct (Hstep Hpos) as (h' & es' & Ho'). exists h', es'. by rewrite update_store_other.
Qed.

Lemma taken_stored blocks fs s cs ps t' st f :
  taken blocks fs s cs ps t' -> taken blocks (update_store fs Data f) (set_storage st s) cs ps t'.
Proof. intros []. by constructor. Qed.

(** A proof with a block, once it is verified: the block is stored and there
    from then on. *)
Lemma reader_apply_with_block old more fs s p i ns cs offset_nodes ps t' :
  reader old fs s -> log_fits (old ++ more) -> no_blank (old ++ more) -> 0 <= i < zlen (old ++ more) ->
  proof_fork p = mt_fork (hc_tree s) -> proof_block p = Some (mkDataBlock i (block_at (old ++ more) i) ns) ->
  wp (Core.verify_proof p) s (fun cs' s' => cs' = cs /\ s' = s) ->
  (forall d o, (d, o) ∈ offset_nodes -> knows old (hc_tree s) (fs Common.Tree) d o) ->
  (forall ks, readable old (fs Common.Tree) ks ->
     Tree.byte_offset_in_changeset (hc_tree s) i cs (Some (node_read (fs Common.Tree) <$> ks)) =
       Ok (asked (unknown (hc_tree s) ks (node_keys offset_nodes)) (byte_sum (old ++ more) i))) ->
  taken (old ++ more) fs s cs ps t' -> knows (old ++ more) t' (fs Common.Tree) 0 i ->
  (forall d o, knows old (hc_tree s) (fs Common.Tree) d o -> knows (old ++ more) t' (fs Common.Tree) d o) ->
  wp (Core.verify_and_apply_proof p) s (fun r s' =>
    r = true /\ exists fs', reader (old ++ more) fs' s' /\
    hc_key_pair s' = hc_key_pair s /\ mt_fork (hc_tree s') = mt_fork (hc_tree s) /\
    hc_events s' = hc_events s ++ (match proof_upgrade p with Some _ => [EventDataUpgrade] | None => [] end) ++ [EventHave i 1 false] /\
    forall k, 0 <= k -> dbit (hc_bitfield s') k = if decide (k = i) then true else dbit (hc_bitfield s) k).
Proof.
  intros Hr Hfit Hnb Hi Hf Hb Hv Hon Hoff Htk Hki Hkeep. unfold Core.verify_and_apply_proof. wp_step.
  rewrite Hf, Z.eqb_refl. cbn [negb]. apply wp_bind. eapply wp_mono; [exact Hv|]. intros ? ? [-> ->].
  rewrite (commit_commitable _ _ _ (tk_commit _ _ _ _ _ _ Htk)), Hb. cbn [negb]. apply wp_bind. apply wp_bind.
  eapply wp_mono; [apply (reader_store_ok 3 old more fs s i ns cs offset_nodes Hr); done|].
  intros ? s1 (-> & st & -> & Hr1%(reader_data _ _ _ _ _ Hr) & Hat). wp_step. apply wp_bind. set (fs1 := update_store _ _ _) in Hr1.
  assert (fs1 Common.Tree = fs Common.Tree) as Htree by (unfold fs1; by rewrite update_store_other).
  eapply wp_mono.
  { apply (reader_taken_ok old more fs1 (set_storage st s) cs ps t' (Some i) Hr1 Hfit Hnb);
      [by apply taken_stored|by rewrite Htree|].
    intros k [= <-]. split_and!; [lia|lia|by rewrite Htree|]. unfold fs1. by rewrite update_store_same. }
  intros _ s2 (fs' & Hr2 & (Hkp & Hev) & Hfork & Hbits).
  assert (forall k, 0 <= k -> dbit (hc_bitfield s2) k = if decide (k = i) then true else dbit (hc_bitfield s) k) as Hbits'.
  { intros k Hk0. rewrite Hbits by done. by rewrite (decide_ext _ (k = i)) by (split; [by intros [= ->]|by intros ->]). }
  destruct (proof_upgrade p); unfold send; repeat wp_step; (split; [done|]); exists fs';
    (split_and!; [by repeat apply reader_event|done|done| |done]); cbn; rewrite Hev; by rewrite <-?app_assoc.
Qed.

(** The proof of a block that the reader asked for: the block is there, and
    nothing else has changed. *)
Lemma reader_apply_block blocks fs s i (m : nat) :
  reader blocks fs s -> 0 <= i < zlen blocks ->
  knows blocks (hc_tree s) (fs Common.Tree) (Z.of_nat m) (i / 2 ^ Z.of_nat m) ->
  wp (Core.verify_and_apply_proof (proof_for blocks (mt_fork (hc_tree s)) true m 0 i)) s (fun r s' =>
    r = true /\ exists fs', reader blocks fs' s' /\
    hc_key_pair s' = hc_key_pair s /\ mt_fork (hc_tree s') = mt_fork (hc_tree s) /\
    hc_events s' = hc_events s ++ [EventHave i 1 false] /\
    forall k, 0 <= k -> dbit (hc_bitfield s') k = if decide (k = i) then true else dbit (hc_bitfield s) k).
Proof.
  intros Hr Hi Hk. pose proof (rd_tree _ _ _ _ Hr) as Ht.
  set (cs := Proofs.push_nodes (Tree.changeset (hc_tree s)) (merkle_peaks blocks (verified_nodes m 0 i))).
  destruct (block_offset_asked blocks (hc_tree s) (fs Common.Tree) i m cs) as (ps & Hps & Hask); [done|apply Hr|apply Hr|done..|].
  destruct (taken_block blocks fs s i m cs) as [Htk Hkn]; [done|apply Hr|done|done|done|apply commit_verified|].
  pose proof (reader_apply_with_block blocks [] fs s (proof_for blocks (mt_fork (hc_tree s)) true m 0 i) i
    (merkle_peaks blocks (proof_path true m 0 i)) cs ps (verified_nodes m 0 i)
    (with_nodes (hc_tree s) blocks (verified_nodes m 0 i)) Hr) as Happ. rewrite !app_nil_r in Happ.
  apply Happ; try done; [apply Hr|apply Hr|by apply (reader_verify_ok 3 blocks fs s _ i m Hr)| |].
  - apply Hkn. left. by left.
  - intros d o ?. apply Hkn. by right.
Qed.

(** An upgrade that was verified: the reader follows the longer log. *)
Lemma reader_apply_accepted old more fs s sig cs p u :
  reader old fs s -> log_fits (old ++ more) -> no_blank (old ++ more) ->
  proof_fork p = mt_fork (hc_tree s) -> proof_block p = None -> proof_upgrade p = Some u ->
  Core.verify_proof p s = (s, Ok cs) ->
  accepted_upgrade (old ++ more) (mt_fork (hc_tree s)) sig (Tree.changeset (hc_tree s)) cs ->
  wp (Core.verify_and_apply_proof p) s (fun r s' =>
    r = true /\ exists fs', reader (old ++ more) fs' s' /\
    hc_key_pair s' = hc_key_pair s /\ mt_fork (hc_tree s') = mt_fork (hc_tree s) /\
    hc_events s' = hc_events s ++ [EventDataUpgrade] /\
    forall k, 0 <= k -> dbit (hc_bitfield s') k = dbit (hc_bitfield s) k).
Proof.
  intros Hr Hfit Hnb Hf Hb Hu Hv Hacc. unfold Core.verify_and_apply_proof. wp_step.
  rewrite Hf, Z.eqb_refl. cbn [negb]. apply wp_bind. exists s, cs. split; [done|].
  rewrite <-(push_nodes_nil (Tree.changeset (hc_tree s))) in Hacc.
  destruct (taken_upgrade old more fs s sig [] cs) as (ps & t' & Htk & Hkn & _); [apply Hr|done|done|apply Hr|
    apply climbs_nil|done|by intros ? ? ?%elem_of_nil|done|].
  rewrite (commit_commitable _ _ _ (tk_commit _ _ _ _ _ _ Htk)), Hb, Hu. cbn [negb]. wp_step. apply wp_bind.
  eapply wp_mono; [by apply (reader_taken_ok old more fs s cs ps t' None Hr)|].
  intros _ s2 (fs' & Hr2 & (Hkp & Hev) & Hfork & Hbits). unfold send. wp_step. wp_step. wp_step.
  split; [done|]. exists fs'. split_and!; [by apply reader_event|done..| |done].
  cbn. by rewrite Hev.
Qed.

(** An upgrade that the key has signed. *)
Lemma reader_apply_upgrade old more fs s sig :
  reader old fs s -> more <> [] -> log_fits (old ++ more) -> no_blank (old ++ more) ->
  ed_verify (kp_public (hc_key_pair s)) (signed_bytes (old ++ more) (mt_fork (hc_tree s))) sig = true ->
  wp (Core.verify_and_apply_proof (mkProof (mt_fork (hc_tree s)) None None None
        (Some (upgrade_data (old ++ more) (zlen old) sig)))) s (fun r s' =>
    r = true /\ exists fs', reader (old ++ more) fs' s' /\
    hc_key_pair s' = hc_key_pair s /\ mt_fork (hc_tree s') = mt_fork (hc_tree s) /\
    hc_events s' = hc_events s ++ [EventDataUpgrade] /\
    forall k, 0 <= k -> dbit (hc_bitfield s') k = dbit (hc_bitfield s) k).
Proof.
  intros Hr Hmore Hfit Hnb Hsig. pose proof (zlen_nonneg old).
  assert (0 < zlen more) by (destruct more; [done|rewrite zlen_cons; pose proof (zlen_nonneg more); lia]).
  destruct (verify_proof_upgrade_ok (old ++ more) (zlen old) (hc_tree s) None ∅ (mt_fork (hc_tree s)) sig
    (kp_public (hc_key_pair s))) as (cs & Hv & Hacc); [done|done|rewrite zlen_app; lia| |apply Hr|done|].
  { apply tree_for_prefix, (sp_for _ _ _ (rd_tree _ _ _ _ Hr)). }
  apply (reader_apply_accepted old more fs s sig cs _ (upgrade_data (old ++ more) (zlen old) sig)); try done.
  unfold Core.verify_proof, mbind, stateR_bind, gets, lift. rewrite Hv. done.
Qed.
End Reader.
