(* ===== verification/CoreHonest.v ===== *)
(** * What strangers can do to a replica

    A replica takes proofs from peers it does not trust.  Whatever block proof
    it is given, it either refuses it and stays as it is, or the proof is the one
    an honest peer sends and the block is the block of the log; the only other
    possibility is that one of the inputs it hashed for this proof collides with
    an input that was hashed for the log. *)

From stdpp Require Import base list gmap.
From Stdlib Require Import ZArith Lia Bool.
From S2P Require Import Prelude FlatTree Common BitfieldFixed BitfieldDynamic.
From S2P Require Import CompactEncoding Encoding Crypto OplogEntry Changeset Storage Oplog.
From S2P Require Import MerkleTree MerkleView MerkleProof MerkleSound MerkleComplete MerkleUpgrade MerkleSparse.
From S2P Require Import MerkleHonest UpgradeHonest BitfieldStore Core CoreOpen CoreView CoreReader.
Open Scope Z_scope.

Section Honest.
Context `{FT : FlatTree} {FL : FlatTreeLaws FT} `{CE : CompactEncoding} {CL : CompactEncodingLaws CE}
  `{B2 : Blake2b} {BL : Blake2bLaws B2} `{ED : Ed25519} {EL : Ed25519Laws ED} `{CR : Crc32}
  {CRL : Crc32Laws CR} `{RA : RandomAccess} {RL : RandomAccessLaws RA}
  `{IO : IntMapOrder} {IOL : IntMapOrderLaws IO}.
Implicit Types (blocks : list (list Z)) (s : Hypercore) (fs : Store -> list Z).

(** Reading the slot of a node succeeds only inside of the store. *)
Lemma node_read_inv s fs k s' infos :
  holds (hc_storage s) fs -> 0 <= k -> core_read_infos [read_node k] s = (s', Ok infos) ->
  s' = s /\ infos = [slot_info (fs Common.Tree) k].
Proof.
  intros Hh Hk Hrun. assert (instruction_wf (read_node k)) as Hw by (split; [cbn; lia|intros n [= <-]; lia]).
  unfold slot_info. destruct (Z.leb_spec (40 * k + 40) (zlen (fs Common.Tree))) as [Hle|Hgt].
  - destruct (core_read_infos_ok s fs [read_node k] [node_read (fs Common.Tree) k] (fun r s1 => r = [node_read (fs Common.Tree) k] /\ s1 = s))
      as (s1 & r & Hg & -> & ->); [done|by constructor| |done|].
    + constructor; [|constructor]. unfold read_effect, read_node. cbn -[Z.mul].
      change (default _ (Some 40)) with 40. by rewrite (proj2 (Z.leb_le _ _)).
    + rewrite Hrun in Hg. by injection Hg as -> ->.
  - exfalso. unfold core_read_infos, mbind, stateR_bind, gets, lift in Hrun. injection Hrun as _ Hrun.
    unfold read_infos, read_infos_to_vec in Hrun. cbn [read_loop] in Hrun. apply bind_inv_Ok in Hrun as (i & Hr & _).
    unfold read_instruction in Hr. cbn [read_node Instruction.new_content sii_info_type sii_length sii_index sii_allow_miss sii_store] in Hr.
    rewrite bind_Ok in Hr.
    specialize (Hh Common.Tree). cbn [get_random_access] in Hh.
    destruct (ra_read_bounds (st_tree (hc_storage s)) (40 * k) 40) as [e He]; [lia..|by rewrite Hh|]. rewrite He in Hr. discriminate Hr.
Qed.

(** The nodes a replica trusts are nodes of the log that it knows. *)
Lemma reader_required blocks self f (ks : list Z) (nodes : nodes_map) k x :
  sparse blocks self f -> (forall k, k ∈ ks -> exists x, nodes !! k = Some x /\ slot_answer blocks f k x) ->
  (forall k, k ∉ ks -> nodes !! k = None) -> Tree.required_node self k nodes = Ok (Right x) ->
  exists d o, knows blocks self f d o /\ k = node_at d o /\ x = merkle_at blocks d o.
Proof.
  intros Hs Hin Hout Hreq. unfold Tree.required_node, Tree.node in Hreq.
  destruct (mt_unflushed self !! k) as [y|] eqn:Hu.
  - destruct (sp_unflushed _ _ _ Hs _ _ Hu) as (d & o & Hc & Hk & Hx). cbn in Hk, Hx.
    destruct (node_blank y || _); [discriminate Hreq|]. injection Hreq as <-.
    exists d, o. split_and!; [split; [done|left; rewrite <-Hk; by exists y]|done..].
  - destruct (decide (k ∈ ks)) as [Hk|Hk].
    + destruct (Hin k Hk) as (z & Hz & [[_ Hb]|(d & o & Hc & -> & Hst & ->)]); rewrite Hz in Hreq.
      * destruct z as [n|]; [rewrite Hb in Hreq|]; discriminate Hreq.
      * destruct (node_blank _); [discriminate Hreq|]. injection Hreq as <-. exists d, o. split_and!; [split; [done|by right]|done..].
    + rewrite (Hout k Hk) in Hreq. destruct (40 *64 k); discriminate Hreq.
Qed.

Lemma proof_place_nonneg (b : DataBlock) (m : nat) :
  0 <= db_index b -> 0 <= node_at (Z.of_nat m) (db_index b / 2 ^ Z.of_nat m).
Proof.
  intros Hb. pose proof (Z.pow_pos_nonneg 2 (Z.of_nat m)).
  assert (0 <= db_index b / 2 ^ Z.of_nat m) by (apply Z.div_pos; lia). unfold node_at. nia.
Qed.

(** A replica that accepts a block proof was given the honest one. *)
Lemma reader_verify_honest c blocks fs s p b s' cs :
  reader_within c blocks fs s -> block_proof p b -> Core.verify_proof p s = (s', Ok cs) ->
  let m := length (db_nodes b) in
  collision (verifier_hashed (hc_tree s) p cs) blocks \/ (p = proof_for blocks (proof_fork p) true m 0 (db_index b) /\
    knows blocks (hc_tree s) (fs Common.Tree) (Z.of_nat m) (db_index b / 2 ^ Z.of_nat m)).
Proof.
  intros [Hh Hfit _ Ht _ _ _ _ _ _ _] Hp Hrun. set (m := length (db_nodes b)). cbv zeta.
  pose proof Hp as (_ & _ & _ & _ & _ & [Hi _] & _).
  assert (forall ks, (forall k, k ∈ ks -> 0 <= k) ->
    Proofs.verify_proof (hc_tree s) p (kp_public (hc_key_pair s)) (Some (slot_info (fs Common.Tree) <$> ks)) = Ok (Right cs) ->
    collision (verifier_hashed (hc_tree s) p cs) blocks \/ (p = proof_for blocks (proof_fork p) true m 0 (db_index b) /\
      knows blocks (hc_tree s) (fs Common.Tree) (Z.of_nat m) (db_index b / 2 ^ Z.of_nat m))) as Hgot.
  { intros ks Hks Hv. destruct (insert_slots blocks _ ks ∅ (sp_slots _ _ _ Ht) Hfit Hks) as (nm & Hm & Hin & Hout).
    assert (forall k x, Tree.required_node (hc_tree s) k nm = Ok (Right x) ->
      exists d o, knows blocks (hc_tree s) (fs Common.Tree) d o /\ k = node_at d o /\ x = merkle_at blocks d o) as Hreq.
    { intros k x. by apply (reader_required blocks _ _ ks). }
    assert (forall k x, Tree.required_node (hc_tree s) k nm = Ok (Right x) -> log_node blocks (k, x)) as Hlog.
    { intros k x (d & o & [Hc _] & -> & ->)%Hreq. by exists d, o. }
    destruct (verify_proof_honest blocks _ (Some (slot_info (fs Common.Tree) <$> ks)) nm _ _ _ _ Hfit Hlog Hm Hp Hv) as [|(Hpf & Hc & x & Hx)]; [by left|].
    right. split; [done|]. destruct (Hreq _ _ Hx) as (d & o & Hk & Heq & _). pose proof Hk as [Hc' _].
    by destruct (complete_inj _ _ _ _ _ Hc Hc' Heq) as [<- <-]. }
  unfold Core.verify_proof in Hrun.
  apply run_bind_inv in Hrun as (? & t & [= <- <-] & Hrun). apply run_bind_inv in Hrun as (? & kp & [= <- <-] & Hrun).
  apply run_bind_inv in Hrun as (? & [ins|cs1] & [= <- Hv] & Hrun).
  - pose proof (verify_proof_asks blocks _ p b _ _ ins Hfit Hp Hv) as Hins. cbv zeta in Hins. fold m in Hins. subst ins.
    apply run_bind_inv in Hrun as (s1 & infos & Hread & Hrun).
    apply (node_read_inv s fs) in Hread as [-> ->]; [|done|by apply proof_place_nonneg].
    apply run_bind_inv in Hrun as (? & [ins|cs1] & [= <- Hv'] & Hrun); [discriminate Hrun|].
    injection Hrun as <- <-. eapply (Hgot [_]); [|exact Hv'].
    intros k ->%list_elem_of_singleton. by apply proof_place_nonneg.
  - injection Hrun as <- <-. apply (Hgot []); [by intros ? ?%elem_of_nil|exact Hv].
Qed.

(** Verifying changes nothing. *)
Lemma keeps_bind {S E A B} (m : stateR S E A) (f : A -> stateR S E B) :
  (forall x, (m x).1 = x) -> (forall a x, (f a x).1 = x) -> forall x, ((m ≫= f) x).1 = x.
Proof.
  intros Hm Hf x. specialize (Hm x). unfold mbind, stateR_bind. destruct (m x) as [y [a| | |]]; cbn in Hm; subst; [|done..].
  apply Hf.
Qed.

Lemma verify_proof_state p s : (Core.verify_proof p s).1 = s.
Proof.
  revert s. unfold Core.verify_proof. apply keeps_bind; [done|]. intros t. apply keeps_bind; [done|]. intros kp.
  apply keeps_bind; [done|]. intros [ins|cs]; [|done]. apply keeps_bind; [by apply keeps_bind|]. intros infos.
  apply keeps_bind; [done|]. by intros [].
Qed.

(** A proof is refused and nothing changes, or it was verified. *)
Lemma apply_cases p s s' r :
  Core.verify_and_apply_proof p s = (s', r) ->
  (s' = s /\ r <> Ok true) \/
  (proof_fork p = mt_fork (hc_tree s) /\ exists cs, Core.verify_proof p s = (s, Ok cs)).
Proof.
  intros Hrun. unfold Core.verify_and_apply_proof in Hrun. unfold mbind, stateR_bind, gets in Hrun. cbv beta iota in Hrun.
  destruct (Z.eqb_spec (proof_fork p) (mt_fork (hc_tree s))) as [Hf|Hf]; cbn [negb] in Hrun; [|left; by injection Hrun as <- <-].
  pose proof (verify_proof_state p s) as Hst. destruct (Core.verify_proof p s) as [s1 r1]. cbn in Hst. subst s1.
  destruct r1 as [cs| | |]; [right; by eauto|left; by injection Hrun as <- <-..].
Qed.

(** What taking a proof may have done to a replica of [blocks]. *)
Definition still_reader blocks s s' : Prop :=
  exists fs', reader blocks fs' s' /\ hc_key_pair s' = hc_key_pair s /\ mt_fork (hc_tree s') = mt_fork (hc_tree s).

(** The core accepts [p] because an input it hashes for it collides with one
    that was hashed for the log. *)
Definition collides blocks s p : Prop :=
  exists cs, Core.verify_proof p s = (s, Ok cs) /\ collision (verifier_hashed (hc_tree s) p cs) blocks.

(** It accepts [p] because of a signature over the changeset of [p] that the
    owner of the log did not make. *)
Definition forges full s p : Prop :=
  exists cs, Core.verify_proof p s = (s, Ok cs) /\ forged (kp_public (hc_key_pair s)) full cs.

(** The effect of any block proof on a replica. *)
Lemma reader_any_block blocks fs s p b s' r :
  reader blocks fs s -> block_proof p b -> Core.verify_and_apply_proof p s = (s', r) ->
  collides blocks s p \/ (s' = s /\ r <> Ok true) \/
  (r = Ok true /\ db_index b < zlen blocks /\ db_value b = block_at blocks (db_index b) /\ still_reader blocks s s' /\
   forall k, 0 <= k -> dbit (hc_bitfield s') k = if decide (k = db_index b) then true else dbit (hc_bitfield s) k).
Proof.
  intros Hr Hp Hrun. pose proof Hp as (Hb & _ & _ & _ & _ & [Hi _] & _).
  destruct (apply_cases _ _ _ _ Hrun) as [|[Hf [cs Hv]]]; [by right; left|].
  destruct (reader_verify_honest _ _ _ _ _ _ _ _ Hr Hp Hv) as [|[Hpf Hk]]; [left; by exists cs|right; right].
  set (m := length (db_nodes b)) in *. pose proof Hk as [Hc _].
  assert (db_index b < zlen blocks) as Hlt.
  { pose proof (complete_climb (zlen blocks) m 0 (db_index b) (Z.le_refl 0)) as H0. rewrite Z.add_0_l in H0.
    destruct (H0 Hc) as (_ & _ & Hle). rewrite Z.pow_0_r in Hle. lia. }
  destruct (reader_apply_block blocks fs s (db_index b) m Hr ltac:(lia) Hk) as (s2 & r2 & Happ & -> & fs' & Hr' & Hkp & Hfk & _ & Hbits).
  rewrite <-Hf, <-Hpf, Hrun in Happ. injection Happ as -> ->. split_and!; [done..| |by exists fs'|done].
  assert (Some b = Some (mkDataBlock (db_index b) (default [] (blocks !! Z.to_nat (db_index b)))
    (merkle_peaks blocks (proof_path true m 0 (db_index b))))) as Heq by (rewrite <-Hb, Hpf; done).
  injection Heq as ->. done.
Qed.

(** ** Upgrades *)

(** The changeset of an upgrade that adds nothing. *)
Definition same_changeset s (h : list Z) (sig : Signature) : MerkleTreeChangeset :=
  Changeset.set_hash_signature (Proofs.set_fork (Tree.changeset (hc_tree s)) (mt_fork (hc_tree s))) (Some h) (Some sig).

Lemma same_changeset_commit s h sig :
  Tree.commitable (hc_tree s) (same_changeset s h sig) = true /\
  Tree.commit (hc_tree s) (same_changeset s h sig) = Ok (hc_tree s).
Proof.
  assert (Tree.commitable (hc_tree s) (same_changeset s h sig) = true) as Hc.
  { unfold Tree.commitable. cbn. by rewrite Z.eqb_refl, Z.leb_refl. }
  split; [done|]. unfold Tree.commit. rewrite Hc. cbn [negb]. cbn. by destruct (hc_tree s).
Qed.

Lemma reader_apply_same blocks fs s h sig p u :
  reader blocks fs s -> proof_fork p = mt_fork (hc_tree s) -> proof_block p = None -> proof_upgrade p = Some u ->
  Core.verify_proof p s = (s, Ok (same_changeset s h sig)) ->
  wp (Core.verify_and_apply_proof p) s (fun r s' => r = true /\ exists fs', reader blocks fs' s' /\
    hc_key_pair s' = hc_key_pair s /\ mt_fork (hc_tree s') = mt_fork (hc_tree s) /\
    forall k, 0 <= k -> dbit (hc_bitfield s') k = dbit (hc_bitfield s) k).
Proof.
  intros Hr Hf Hb Hu Hv. unfold Core.verify_and_apply_proof. wp_step. rewrite Hf, Z.eqb_refl. cbn [negb].
  apply wp_bind. exists s, (same_changeset s h sig). split; [done|].
  rewrite (proj1 (same_changeset_commit s h sig)), Hb, Hu. cbn [negb]. wp_step. apply wp_bind.
  assert (taken blocks fs s (same_changeset s h sig) [] (hc_tree s)) as Htk.
  { constructor; try done; [by intros ? ? ?%elem_of_nil|apply same_changeset_commit|apply Hr]. }
  eapply wp_mono; [by apply (reader_taken_same blocks fs s _ _ _ None Hr Htk)|].
  intros _ s2 (fs' & Hr2 & (Hkp & Hev) & Hfork & Hbits). unfold send. wp_step. wp_step. wp_step.
  split; [done|]. exists fs'. split_and!; [by apply reader_event|done..].
Qed.

Lemma no_blank_prefix old full : old `prefix_of` full -> no_blank full -> no_blank old.
Proof.
  intros [rest ->] Hnb d o Hc. rewrite <-(merkle_at_app old rest) by done. apply Hnb.
  eapply complete_mono; [|done]. rewrite zlen_app. pose proof (zlen_nonneg rest). lia.
Qed.

Lemma log_fits_shorter old full : old `prefix_of` full -> log_fits full -> log_fits old.
Proof. intros [rest ->]. apply log_fits_prefix. Qed.

(** The effect of any upgrade on a replica of the first blocks of [full]: it
    then knows as much or more of [full]. *)
Lemma reader_any_upgrade full old fs s p u s' r :
  reader old fs s -> old `prefix_of` full -> log_fits full -> no_blank full -> upgrade_proof p u ->
  Core.verify_and_apply_proof p s = (s', r) ->
  collides full s p \/ forges full s p \/ (s' = s /\ r <> Ok true) \/
  (r = Ok true /\ (exists more, old ++ more `prefix_of` full /\ still_reader (old ++ more) s s') /\
   forall k, 0 <= k -> dbit (hc_bitfield s') k = dbit (hc_bitfield s) k).
Proof.
  intros Hr Hpre Hfit Hnb (Hb & Hh & Hs & Hu & Hw & Hadd & Hst & Hln & Hlt) Hrun.
  destruct (apply_cases _ _ _ _ Hrun) as [|[Hf [cs Hv]]]; [by right; right; left|].
  assert (exists ok, Proofs.verify_upgrade (proof_fork p) u None (kp_public (hc_key_pair s)) (Tree.changeset (hc_tree s)) = Ok (ok, cs))
    as [ok Hvu].
  { unfold Core.verify_proof, mbind, stateR_bind, gets, lift in Hv. cbv beta iota in Hv.
    unfold Proofs.verify_proof at 1 in Hv. rewrite Hb, Hh, Hs, Hu in Hv. cbn [infos_to_nodes] in Hv.
    unfold Proofs.verify_tree in Hv. cbn [Proofs.normalize_data fmap option_fmap option_map] in Hv. rewrite !bind_Ok in Hv.
    destruct (Proofs.verify_upgrade _ _ _ _ _) as [[ok cs1]| | |]; try discriminate Hv. exists ok.
    rewrite !bind_Ok in Hv. destruct ok; injection Hv as <-; done. }
  destruct (verify_upgrade_honest (kp_public (hc_key_pair s)) full old (hc_tree s) (proof_fork p) p u ok cs Hpre Hfit) as [|[|(sig & [Hcs|(more & _ & Hpre' & Hacc)])]];
    try done; [apply Hr|rewrite Hf; apply Hr|left; by exists cs|right; left; by exists cs|..]; rewrite Hf in *; right; right; right.
  - assert (cs = same_changeset s (blake2b256 (tree_preimage (merkle_roots old))) sig) as -> by (by rewrite Hcs).
    destruct (reader_apply_same old fs s _ sig p u Hr Hf Hb Hu Hv) as (s2 & r2 & Happ & -> & fs' & Hr' & Hkp & Hfk & Hbits).
    rewrite Hrun in Happ. injection Happ as -> ->. split_and!; [done| |done]. exists []. rewrite app_nil_r. split; [done|by exists fs'].
  - destruct (reader_apply_accepted old more fs s sig cs p u Hr) as (s2 & r2 & Happ & -> & fs' & Hr' & Hkp & Hfk & _ & Hbits);
      [by eapply log_fits_shorter|by eapply no_blank_prefix|done..|].
    rewrite Hrun in Happ. injection Happ as -> ->. split_and!; [done| |done]. exists more. split; [done|by exists fs'].
Qed.

(** ** Any number of proofs, from whomever *)

Definition take_proofs (ps : list Proof_) s : Hypercore :=
  foldl (fun s p => (Core.verify_and_apply_proof p s).1) s ps.

(** What strangers can send: a proof of a block, or an upgrade. *)
Definition stranger_proof (p : Proof_) : Prop :=
  (exists b, block_proof p b) \/ exists u, upgrade_proof p u.

(** The only ways to mislead a replica of [full] that is given [ps]: one of
    them is accepted because of a collision, or of a signature of bytes that were
    not signed. *)
Definition broken (full : list (list Z)) s (ps : list Proof_) : Prop :=
  exists ps1 p ps2, ps = ps1 ++ p :: ps2 /\
    (collides full (take_proofs ps1 s) p \/ forges full (take_proofs ps1 s) p).

Lemma broken_here full s p ps : collides full s p \/ forges full s p -> broken full s (p :: ps).
Proof. intros H. by exists [], p, ps. Qed.

Lemma broken_later full s p ps : broken full (Core.verify_and_apply_proof p s).1 ps -> broken full s (p :: ps).
Proof. intros (ps1 & q & ps2 & -> & H). by exists (p :: ps1), q, ps2. Qed.

Lemma collides_prefix old full s p : old `prefix_of` full -> collides old s p -> collides full s p.
Proof. intros Hpre (cs & Hv & Hc). exists cs. split; [done|]. by eapply collision_prefix. Qed.

Lemma reader_any_proof full old fs s p s' r :
  log_fits full -> no_blank full -> old `prefix_of` full -> reader old fs s -> stranger_proof p ->
  Core.verify_and_apply_proof p s = (s', r) ->
  (collides full s p \/ forges full s p) \/ s' = s \/
  (exists more, old ++ more `prefix_of` full /\ still_reader (old ++ more) s s') /\
    forall k, 0 <= k -> dbit (hc_bitfield s) k = true -> dbit (hc_bitfield s') k = true.
Proof.
  intros Hfit Hnb Hpre Hr [[b Hb]|(u & Hu)] Hrun.
  - destruct (reader_any_block _ _ _ _ _ _ _ Hr Hb Hrun) as [|[[-> _]|(_ & _ & _ & Hs & Hbits)]];
      [left; left; by eapply collides_prefix|by right; left|].
    right; right. split; [exists []; by rewrite app_nil_r|]. intros k Hk Hd. rewrite Hbits by done. by case_decide.
  - destruct (reader_any_upgrade _ _ _ _ _ _ _ _ Hr Hpre Hfit Hnb Hu Hrun) as [|[Hforged|[[-> _]|(_ & Hs & Hbits)]]];
      [by left; left|by left; right|by right; left|].
    right; right. split; [done|]. intros k Hk Hd. by rewrite Hbits.
Qed.

Lemma reader_any_proofs full ps : forall old fs s,
  log_fits full -> no_blank full -> old `prefix_of` full -> reader old fs s -> Forall stranger_proof ps ->
  broken full s ps \/
  exists more fs', old ++ more `prefix_of` full /\ reader (old ++ more) fs' (take_proofs ps s) /\
    forall k, 0 <= k -> dbit (hc_bitfield s) k = true -> dbit (hc_bitfield (take_proofs ps s)) k = true.
Proof.
  induction ps as [|p ps IH]; intros old fs s Hfit Hnb Hpre Hr Hall.
  { right. exists [], fs. by rewrite app_nil_r. }
  apply Forall_cons in Hall as [Hp Hall]. cbn [take_proofs foldl].
  destruct (Core.verify_and_apply_proof p s) as [s' r] eqn:Hrun. cbn [fst].
  pose proof (broken_later full s p ps) as Hlater. rewrite Hrun in Hlater. cbn [fst] in Hlater.
  destruct (reader_any_proof full old fs s p s' r Hfit Hnb Hpre Hr Hp Hrun) as [Hbr|[->|[(more & Hpre' & fs' & Hr' & _) Hbits]]].
  - left. by apply broken_here.
  - destruct (IH old fs s Hfit Hnb Hpre Hr Hall) as [Hbr|]; [left; by apply Hlater|by right].
  - destruct (IH (old ++ more) fs' s' Hfit Hnb Hpre' Hr' Hall) as [Hbr|(more2 & fs2 & Hpre2 & Hr2 & Hkeep)].
    { left. by apply Hlater. }
    right. exists (more ++ more2), fs2. rewrite app_assoc. split_and!; [done..|]. intros k Hk Hd. apply Hkeep; [done|]. by apply Hbits.
Qed.
End Honest.
