(* ===== verification/CoreHeader.v ===== *)
(** * The header stays small

    The header of the oplog is written to a slot of a fixed size.  Whatever is
    asked of a core, whatever proofs it is given, and however the calls end, the
    header it keeps in memory fits: the parts that change are the contiguous
    length, the length, hash and signature of the tree, and the secret key,
    which only ever goes away. *)

From stdpp Require Import base list gmap.
From Stdlib Require Import ZArith Lia Bool.
From S2P Require Import Prelude FlatTree Common BitfieldFixed BitfieldDynamic.
From S2P Require Import CompactEncoding Encoding Crypto OplogEntry Changeset Storage Oplog.
From S2P Require Import MerkleTree MerkleView MerkleProof MerkleSound UpgradeHonest.
From S2P Require Import Core CoreOpen CoreView CoreSpec CoreReader CoreHonest.
Open Scope Z_scope.

(** What holds after a run, however it ended. *)
Definition ends {S E A} (I : S -> Prop) (m : stateR S E A) (s : S) : Prop := I (m s).1.

Lemma ends_bind {S E A B} (I : S -> Prop) (m : stateR S E A) (f : A -> stateR S E B) s :
  ends I m s -> (forall s1 a, m s = (s1, Ok a) -> I s1 -> ends I (f a) s1) -> ends I (m ≫= f) s.
Proof.
  unfold ends, mbind, stateR_bind. destruct (m s) as [s1 [a| | |]]; cbn; intros Hm Hf; [by apply Hf|done..].
Qed.

Lemma ends_lift {S E A} (I : S -> Prop) (r : outcome E A) s : I s -> ends I (lift r) s.
Proof. done. Qed.

Lemma ends_mret {S E A} (I : S -> Prop) (a : A) s : I s -> ends I (mret a : stateR S E A) s.
Proof. done. Qed.

Section Header.
Context `{FT : FlatTree} {FL : FlatTreeLaws FT} `{CE : CompactEncoding} {CL : CompactEncodingLaws CE}
  `{B2 : Blake2b} {BL : Blake2bLaws B2} `{ED : Ed25519} {EL : Ed25519Laws ED} `{CR : Crc32}
  {CRL : Crc32Laws CR} `{RA : RandomAccess} {RL : RandomAccessLaws RA}
  `{IO : IntMapOrder} {IOL : IntMapOrderLaws IO}.
Implicit Types (s : Hypercore) (cs : MerkleTreeChangeset).

(** The header is small and the length of the tree a number of its type. *)
Definition head_ok s : Prop := header_small (hc_header s) /\ is_u64 (mt_length (hc_tree s)).

(** ** Changesets *)

(** What the header takes from a changeset. *)
Definition changeset_ok cs : Prop :=
  is_u64 (cs_length cs) /\ (cs_upgraded cs = true -> exists h, cs_hash cs = Some h /\ is_bytes32 h).

Lemma hash_tree_32 rs h : Hash_tree rs = Ok h -> is_bytes32 h.
Proof. unfold Hash_tree. intros H. apply bind_inv_Ok in H as (us & _ & [= <-]). apply blake2b256_bytes. Qed.

Lemma append_root_loop_batch fuel : forall cs it cs' it',
  Changeset.append_root_loop fuel cs it = Ok (cs', it') ->
  cs_ancestors cs' = cs_ancestors cs /\ cs_batch_length cs' = cs_batch_length cs.
Proof.
  induction fuel as [|fuel IH]; intros cs it cs' it'; cbn [Changeset.append_root_loop];
    (destruct (zlen (cs_roots cs) <=? 1); [by intros [= <- _]|]); [done|].
  intros H. apply bind_inv_Ok in H as (a & _ & H). apply bind_inv_Ok in H as (b & _ & H).
  destruct (negb _); [by injection H as <- _|].
  apply bind_inv_Ok in H as (hash & _ & H). apply bind_inv_Ok in H as (len & _ & H). by apply IH in H.
Qed.

Lemma append_keeps cs data cs' n :
  Changeset.append cs data = Ok (cs', n) -> is_u64 (cs_length cs) -> 0 <= cs_ancestors cs -> 0 <= cs_batch_length cs ->
  is_u64 (cs_length cs') /\ 0 <= cs_ancestors cs' /\ 0 <= cs_batch_length cs'.
Proof.
  unfold Changeset.append. intros H Hl Ha Hb. apply bind_inv_Ok in H as (head & _ & H). apply bind_inv_Ok in H as (h & _ & H).
  apply bind_inv_Ok in H as ([cs1 it1] & Hr & H). apply bind_inv_Ok in H as (bl & Hbl & [= <- _]).
  pose proof (append_root_mono _ _ _ _ _ Hr) as Hmono. unfold Changeset.append_root in Hr.
  apply bind_inv_Ok in Hr as (? & _ & Hr). apply bind_inv_Ok in Hr as (? & _ & Hr).
  apply append_root_loop_batch in Hr as [Ea Eb]. cbn in Ea, Eb |- *. unfold checked_add in Hbl.
  destruct (_ <? _); [|discriminate Hbl]. injection Hbl as <-. unfold is_u64 in *. lia.
Qed.

Lemma append_all_keeps batch : forall cs n cs' n',
  Core.append_all cs n batch = Ok (cs', n') -> is_u64 (cs_length cs) -> 0 <= cs_ancestors cs -> 0 <= cs_batch_length cs ->
  is_u64 (cs_length cs') /\ 0 <= cs_ancestors cs' /\ 0 <= cs_batch_length cs'.
Proof.
  induction batch as [|data batch IH]; intros cs n cs' n'; cbn [Core.append_all]; [by intros [= <- _]|].
  intros H Hl Ha Hb. apply bind_inv_Ok in H as ([cs1 k] & Hk & H). apply bind_inv_Ok in H as (m & _ & H).
  destruct (append_keeps _ _ _ _ Hk Hl Ha Hb) as (? & ? & ?). by eapply IH.
Qed.

Lemma extra_siblings_mono extra : forall it cs rest it' cs',
  Proofs.extra_siblings extra it cs = Ok (rest, it', cs') -> is_u64 (cs_length cs) -> is_u64 (cs_length cs').
Proof.
  induction extra as [|x extra IH]; intros it cs rest it' cs'; cbn [Proofs.extra_siblings]; [by intros [= _ _ <-]|].
  destruct (_ =? _); [|by intros [= _ _ <-]]. intros H Hl. apply bind_inv_Ok in H as ([cs1 it1] & Ha & H).
  apply IH in H; [done|]. apply append_root_mono in Ha. unfold is_u64 in *. lia.
Qed.

Lemma extra_roots_mono extra : forall it cs cs',
  Proofs.extra_roots extra it cs = Ok cs' -> is_u64 (cs_length cs) -> is_u64 (cs_length cs').
Proof.
  induction extra as [|x extra IH]; intros it cs cs'; cbn [Proofs.extra_roots]; [by intros [= <-]|].
  intros H Hl. apply bind_inv_Ok in H as (it0 & _ & H). apply bind_inv_Ok in H as ([cs1 it1] & Ha & H).
  apply IH in H; [done|]. apply append_root_mono in Ha. unfold is_u64 in *. lia.
Qed.

Lemma verify_upgrade_ok64 fork u root pk cs ok cs' :
  Proofs.verify_upgrade fork u root pk cs = Ok (ok, cs') -> is_u64 (cs_length cs) -> changeset_ok cs'.
Proof.
  unfold Proofs.verify_upgrade. intros H Hl. apply bind_inv_Ok in H as (e & _ & H). apply bind_inv_Ok in H as (to & _ & H).
  apply bind_inv_Ok in H as ([[q it] cs1] & Hloop & H). apply bind_inv_Ok in H as (lr & _ & H).
  apply bind_inv_Ok in H as ([[ex it2] cs2] & Hs & H). apply bind_inv_Ok in H as (cs3 & Hr & H).
  apply bind_inv_Ok in H as (cs4 & Hv & [= _ <-]). apply verify_roots_loop_mono in Hloop.
  apply extra_siblings_mono in Hs; [|unfold is_u64 in *; lia].
  apply verify_and_set_signature_sound in Hv as ((sig & h & m & _ & Hh & Hhash & _) & _ & Hlen & _).
  split; [|intros _; exists h; split; [done|by eapply hash_tree_32]].
  rewrite Hlen. change (is_u64 (cs_length cs3)). by eapply extra_roots_mono.
Qed.

Lemma verify_proof_ok64 self p pk infos cs :
  Proofs.verify_proof self p pk infos = Ok (Right cs) -> is_u64 (mt_length self) -> changeset_ok cs.
Proof.
  intros H Hl. unfold Proofs.verify_proof in H. apply bind_inv_Ok in H as (nodes & _ & H).
  apply bind_inv_Ok in H as ([root cs1] & Ht & H). apply verify_tree_keeps in Ht as [Hup Hlen].
  apply bind_inv_Ok in H as ([root2 cs2] & Hu & H).
  assert (changeset_ok cs2) as Hok.
  { destruct (proof_upgrade p) as [u|].
    - apply bind_inv_Ok in Hu as ([ok cs3] & Hu & [= _ <-]). eapply verify_upgrade_ok64; [exact Hu|]. by rewrite Hlen.
    - injection Hu as _ <-. split; [by rewrite Hlen|]. by rewrite Hup. }
  destruct root2 as [r|]; [|by injection H as <-].
  apply bind_inv_Ok in H as (ni & _ & H). destruct ni; [discriminate H|].
  case_decide; [by injection H as <-|discriminate H].
Qed.

(** ** Headers *)

Lemma update_header_small cs u h h' e :
  header_small h -> changeset_ok cs -> Oplog.update_header_with_changeset cs u h = Ok (h', e) -> header_small h'.
Proof.
  intros Hh [Hl Hup] H. unfold Oplog.update_header_with_changeset in H. destruct (cs_upgraded cs); [|by injection H as <- _].
  destruct (Hup eq_refl) as (hash & Hhash & H32). rewrite Hhash in H. cbn [unwrap] in H. rewrite bind_Ok in H.
  apply bind_inv_Ok in H as (sig & _ & [= <- _]). by apply header_small_tree.
Qed.

Lemma advance_u64 fuel b : forall c r, is_u64 c -> Core.advance fuel b c = Ok r -> is_u64 r.
Proof.
  induction fuel as [|fuel IH]; intros c r Hc; cbn [Core.advance]; [done|].
  intros H. apply bind_inv_Ok in H as (x & _ & H). destruct x; [|by injection H as <-].
  apply bind_inv_Ok in H as (c1 & Hc1 & H). unfold checked_add in Hc1.
  destruct (Z.ltb_spec (c + 1) (2 ^ 64)); [|discriminate Hc1]. injection Hc1 as <-. apply IH in H; [done|]. unfold is_u64 in *. lia.
Qed.

Lemma contiguous_header_small h b u h' :
  header_small h -> 0 <= bu_start u -> 0 <= bu_length u -> Core.update_contiguous_length h b u = Ok h' -> header_small h'.
Proof.
  intros Hh Hs Hl H. unfold Core.update_contiguous_length in H. apply bind_inv_Ok in H as (e & He & H).
  unfold checked_add in He. destruct (Z.ltb_spec (bu_start u + bu_length u) (2 ^ 64)) as [Hlt|]; [|discriminate He]. injection He as <-.
  apply bind_inv_Ok in H as (c & Hc & [= <-]). destruct (negb _); [|done]. apply header_small_contiguous; [done|].
  pose proof Hh as ((_ & _ & _ & _ & _ & Hu) & _). unfold is_u64 in *.
  destruct (bu_drop u); destruct (_ && _); try (injection Hc as <-; unfold is_u64; lia).
  apply advance_u64 in Hc; unfold is_u64 in *; lia.
Qed.

Lemma header_small_keys h k : header_small h -> header_small (set_header_key_pair k h).
Proof. intros H. exact H. Qed.

(** ** Calls *)

Lemma ends_flush_infos infos s : head_ok s -> ends head_ok (core_flush_infos infos) s.
Proof. intros H. unfold ends, core_flush_infos. by destruct (flush_infos infos (hc_storage s)). Qed.

Lemma flush_tree_length self self' infos : Tree.flush self = Ok (self', infos) -> mt_length self' = mt_length self.
Proof.
  unfold Tree.flush. intros H. apply bind_inv_Ok in H as ([t1 i1] & H1 & H). apply bind_inv_Ok in H as ([t2 i2] & H2 & [= <- _]).
  unfold Tree.flush_nodes in H2. apply bind_inv_Ok in H2 as (ns & _ & [= <- _]). cbn.
  destruct (mt_truncated self); [|by injection H1 as <- _]. unfold Tree.flush_truncation in H1.
  apply bind_inv_Ok in H1 as (off & _ & [= <- _]). done.
Qed.

Lemma ends_gets {A B} (g : Hypercore -> A) (f : A -> coreM B) s : ends head_ok (f (g s)) s -> ends head_ok (gets g ≫= f) s.
Proof. done. Qed.

Lemma ends_pure {A B} (r : result A) (f : A -> coreM B) s :
  head_ok s -> (forall a, r = Ok a -> ends head_ok (f a) s) -> ends head_ok (lift r ≫= f) s.
Proof. intros H Hf. apply ends_bind; [done|]. intros s1 a [= <- Hr] _. by apply Hf. Qed.

Lemma ends_modify {B} (g : Hypercore -> Hypercore) (f : unit -> coreM B) s :
  head_ok (g s) -> (head_ok (g s) -> ends head_ok (f tt) (g s)) -> ends head_ok (modify g ≫= f) s.
Proof. intros H Hf. apply Hf, H. Qed.

(** Runs that end well, with nothing known of what they return. *)
Lemma ends_any {A B} (m : coreM A) (f : A -> coreM B) s :
  ends head_ok m s -> (forall s1 a, head_ok s1 -> ends head_ok (f a) s1) -> ends head_ok (m ≫= f) s.
Proof. intros H Hf. apply ends_bind; [done|]. intros s1 a _ H1. by apply Hf. Qed.

#[local] Ltac ends_flush := apply ends_any; [by apply ends_flush_infos|]; intros ? [] ?.

Lemma ends_flush_all ct s : head_ok s -> ends head_ok (Core.flush_bitfield_and_tree_and_oplog ct) s.
Proof.
  intros H. unfold Core.flush_bitfield_and_tree_and_oplog. apply ends_gets, ends_pure; [done|]. intros [b infos] _.
  apply ends_modify; [done|]. intros H1. ends_flush. apply ends_gets, ends_pure; [done|]. intros [t infos'] Ht.
  apply ends_modify; [|intros H2]. { split; [apply H0|]. cbn. rewrite (flush_tree_length _ _ _ Ht). apply H0. }
  ends_flush. apply ends_gets, ends_gets, ends_pure; [done|]. intros [o infos''] _. apply ends_modify; [done|].
  intros H4. by apply ends_flush_infos.
Qed.

Lemma ends_maybe_flush s : head_ok s -> ends head_ok Core.maybe_flush s.
Proof.
  intros H. unfold Core.maybe_flush, Core.should_flush_bitfield_and_tree_and_oplog. apply ends_any.
  - apply ends_gets, ends_gets. destruct (_ || _); [done|]. by apply ends_pure.
  - intros s1 [] H1; [by apply ends_flush_all|done].
Qed.

Lemma ends_log_changeset cs u s :
  head_ok s -> changeset_ok cs -> (forall b, u = Some b -> 0 <= bu_start b /\ 0 <= bu_length b) ->
  ends head_ok (Core.log_changeset cs u) s.
Proof.
  intros H Hcs Hu. unfold Core.log_changeset. apply ends_gets, ends_gets, ends_pure; [done|]. intros [o out] Ho.
  unfold Oplog.append_changeset in Ho. apply bind_inv_Ok in Ho as ([h' e] & Hh & Ho). apply bind_inv_Ok in Ho as ([o1 infos] & _ & [= <- <-]).
  apply (update_header_small cs u _ _ _ (proj1 H) Hcs) in Hh. cbn [oc_header oc_infos_to_flush].
  apply ends_modify; [done|]. intros _. apply ends_any; [by apply ends_flush_infos|]. intros s1 [] H1.
  apply ends_modify; [split; [done|apply H1]|]. intros H2. apply ends_any.
  - destruct u as [b|]; [|done]. destruct (Hu b eq_refl) as [Hs Hl]. apply ends_gets, ends_pure; [done|]. intros db _.
    apply ends_modify; [done|]. intros H3. apply ends_gets, ends_pure; [done|]. intros hd Hhd. unfold ends, modify. cbn [fst].
    split; [|apply H3]. eapply contiguous_header_small; [|exact Hs|exact Hl|exact Hhd]. apply H3.
  - intros s2 [] H3. apply ends_gets, ends_pure; [done|]. intros t Ht. apply ends_modify; [|apply ends_maybe_flush].
    split; [apply H3|]. cbn. apply commit_head in Ht. unfold tree_head in Ht. destruct Hcs as [Hl _].
    destruct (cs_upgraded cs); injection Ht as _ -> _ _; [done|apply H3].
Qed.

Lemma ends_append_batch batch s : head_ok s -> ends head_ok (Core.append_batch batch) s.
Proof.
  intros H. unfold Core.append_batch. apply ends_gets. destruct (kp_secret (hc_key_pair s)) as [sk|]; [|done].
  apply ends_any; [|by intros]. destruct (negb (is_empty batch)); [|done]. apply ends_gets, ends_pure; [done|]. intros [cs n] Happ.
  destruct (append_all_keeps _ _ _ _ _ Happ) as (Hl & Ha & Hb); [apply H|apply H|done|].
  apply ends_pure; [done|]. intros cs2 Hsig. unfold Changeset.hash_and_sign in Hsig.
  apply bind_inv_Ok in Hsig as (h & Hh & Hsig). apply bind_inv_Ok in Hsig as (m & _ & [= <-]).
  ends_flush. apply ends_any; [|by intros].
  apply ends_log_changeset; [done| |by intros b [= <-]]. split; [done|]. intros _. exists h. split; [done|by eapply hash_tree_32].
Qed.

Lemma ends_ask_again {A} fuel (m : list StoreInfo -> result (either_instructions A)) : forall ins acc s,
  head_ok s -> ends head_ok (Core.ask_again fuel m ins acc) s.
Proof.
  induction fuel as [|fuel IH]; intros ins acc s H; cbn [Core.ask_again]; [done|].
  apply ends_any; [done|]. intros s1 infos H1. apply ends_pure; [done|]. intros [ins'|v] _; [by apply IH|done].
Qed.

Lemma ends_byte_range i infos s : head_ok s -> ends head_ok (Core.byte_range i infos) s.
Proof. intros H. unfold Core.byte_range. apply ends_gets, ends_pure; [done|]. intros [ins|v] _; [by apply ends_ask_again|done]. Qed.

Lemma ends_get i s : head_ok s -> ends head_ok (Core.get i) s.
Proof.
  intros H. unfold Core.get. apply ends_gets, ends_pure; [done|]. intros [] _; cbn [negb]; [|done].
  apply ends_any; [by apply ends_byte_range|]. intros s1 r H1. apply ends_pure; [done|]. intros [ins|v] _; [|done].
  apply ends_any; [done|]. intros s2 info H2. apply ends_pure; [done|]. by intros [].
Qed.

Lemma ends_clear start end_ s : is_u64 start -> head_ok s -> ends head_ok (Core.clear start end_) s.
Proof.
  intros Hs H. unfold Core.clear. destruct (_ <=? _); [done|]. apply ends_any.
  - unfold Core.clear_log. apply ends_gets, ends_pure; [done|]. intros [o infos] _. apply ends_modify; [done|]. intros _.
    ends_flush. apply ends_gets, ends_pure; [done|]. intros b _. apply ends_modify; [done|]. intros H2. apply ends_gets.
    destruct (_ <? _); [|done]. split; [|apply H2]. by apply header_small_contiguous; [apply H2|].
  - intros s1 [] H1. apply ends_any; [|intros s2 [] H2; by apply ends_maybe_flush]. unfold Core.clear_data.
    apply ends_any.
    { unfold Core.clear_hole. apply ends_gets. do 3 (apply ends_pure; [done|]; intros ? _). done. }
    intros s2 [a b] H2. apply ends_any.
    { unfold Core.clear_offset. apply ends_gets, ends_pure; [done|]. intros [ins|v] _; [|done]. apply ends_any; [done|].
      intros s3 infos H3. apply ends_pure; [done|]. by intros []. }
    intros s3 [off infos] H3. apply ends_pure; [done|]. intros l _. apply ends_any; [by apply ends_byte_range|].
    intros s4 r H4. do 2 (apply ends_pure; [done|]; intros ? _). by apply ends_flush_infos.
Qed.

Lemma ends_make_read_only s : head_ok s -> ends head_ok Core.make_read_only s.
Proof.
  intros H. unfold Core.make_read_only. apply ends_gets. destruct (kp_secret (hc_key_pair s)) as [sk|]; [|done].
  apply ends_modify; [done|]. intros H1. apply ends_gets, ends_modify; [exact H1|]. intros H2.
  apply ends_any; [by apply ends_flush_all|done].
Qed.

(** A proof, whatever is in it. *)
Lemma ends_apply p s :
  (forall b, proof_block p = Some b -> 0 <= db_index b) -> head_ok s -> ends head_ok (Core.verify_and_apply_proof p) s.
Proof.
  intros Hp H. unfold Core.verify_and_apply_proof. apply ends_gets. destruct (negb _); [done|].
  apply ends_bind; [by unfold ends; rewrite verify_proof_state|]. intros s1 cs Hv _.
  pose proof (verify_proof_state p s) as Hst. rewrite Hv in Hst. cbn in Hst. subst s1.
  assert (changeset_ok cs) as Hcs.
  { unfold Core.verify_proof in Hv. apply run_bind_inv in Hv as (? & t & [= <- <-] & Hv).
    apply run_bind_inv in Hv as (? & kp & [= <- <-] & Hv). apply run_bind_inv in Hv as (? & [ins|cs1] & [= <- Hr] & Hv).
    - apply run_bind_inv in Hv as (s2 & infos & _ & Hv). apply run_bind_inv in Hv as (? & [ins'|cs1] & [= <- Hr'] & Hv); [discriminate Hv|].
      injection Hv as _ <-. eapply verify_proof_ok64; [exact Hr'|apply H].
    - injection Hv as <-. eapply verify_proof_ok64; [exact Hr|apply H]. }
  destruct (negb _); [done|]. apply ends_bind.
  - destruct (proof_block p) as [b|]; [|done]. apply ends_any; [|done]. unfold Core.store_block.
    apply ends_gets, ends_pure; [done|]. intros r _. apply ends_any.
    { destruct r as [ins|v]; [|done]. apply ends_any; [done|]. intros s1 infos H1. apply ends_pure; [done|]. by intros []. }
    intros s1 off H1. apply ends_any; [by apply ends_flush_infos|done].
  - intros s1 u Hu H1. apply ends_any.
    + apply ends_log_changeset; [done..|]. intros x ->. destruct (proof_block p) as [b|]; [|discriminate Hu].
      apply run_bind_inv in Hu as (s2 & y & Hy & [= _ ->]). unfold Core.store_block in Hy.
      apply run_bind_inv in Hy as (? & t & _ & Hy). apply run_bind_inv in Hy as (? & r & _ & Hy).
      apply run_bind_inv in Hy as (? & off & _ & Hy). apply run_bind_inv in Hy as (? & ? & _ & [= _ <-]). cbn. split; [by apply Hp|lia].
    + intros s2 [] H2. apply ends_any; [by destruct (proof_upgrade p)|]. intros s3 [] H3. apply ends_any; [by destruct u|done].
Qed.

(** ** Sequences of calls *)

Inductive core_step :=
  | StepOp (op : core_op)
  | StepApply (p : Proof_).

(** The numbers that the code keeps in unsigned integers. *)
Definition step_typed (step : core_step) : Prop :=
  match step with
  | StepOp (OpClear start _) => is_u64 start
  | StepApply p => forall b, proof_block p = Some b -> 0 <= db_index b
  | _ => True
  end.

(** The core after a call, whatever it replied. *)
Definition core_after (s : Hypercore) (step : core_step) : Hypercore :=
  match step with
  | StepOp op => (core_exec op s).1
  | StepApply p => (Core.verify_and_apply_proof p s).1
  end.

Lemma core_after_ok s step : step_typed step -> head_ok s -> head_ok (core_after s step).
Proof.
  intros Ht H. destruct step as [[batch|i|i|start end_| |]|p]; cbn [core_after core_exec].
  - apply ends_any; [by apply ends_append_batch|done].
  - apply ends_any; [by apply ends_get|done].
  - by apply ends_gets, ends_pure.
  - apply ends_any; [by apply ends_clear|done].
  - done.
  - apply ends_any; [by apply ends_make_read_only|done].
  - by apply ends_apply.
Qed.

Lemma core_steps_ok steps : forall s, Forall step_typed steps -> head_ok s -> head_ok (foldl core_after s steps).
Proof.
  induction steps as [|step steps IH]; intros s Hall H; [done|]. apply Forall_cons in Hall as [Ht Hall].
  cbn [foldl]. apply IH; [done|]. by apply core_after_ok.
Qed.
End Header.
