(* ===== verification/CoreBoth.v ===== *)
(** * Cores that exchange a block and an upgrade in one proof

    The origin answers a request for a block and an upgrade; the reader that
    asked for them takes both, whether it follows a shorter log or the same one
    ([MerkleBoth] is the tree's side). *)

From stdpp Require Import base list gmap.
From Stdlib Require Import ZArith Lia Bool.
From S2P Require Import Prelude FlatTree Common BitfieldFixed BitfieldDynamic.
From S2P Require Import CompactEncoding Encoding Crypto OplogEntry Changeset Storage Oplog.
From S2P Require Import MerkleTree MerkleView MerkleProof MerkleComplete MerkleUpgrade MerkleSparse MerkleBoth.
From S2P Require Import BitfieldStore Core CoreOpen CoreView CoreReplicate CoreReader.
Open Scope Z_scope.

Section Both.
Context `{FT : FlatTree} {FL : FlatTreeLaws FT} `{CE : CompactEncoding} {CL : CompactEncodingLaws CE}
  `{B2 : Blake2b} {BL : Blake2bLaws B2} `{ED : Ed25519} {EL : Ed25519Laws ED} `{CR : Crc32}
  {CRL : Crc32Laws CR} `{RA : RandomAccess} {RL : RandomAccessLaws RA}
  `{IO : IntMapOrder} {IOL : IntMapOrderLaws IO}.
Implicit Types (blocks : list (list Z)) (s : Hypercore) (self : MerkleTree).

(** ** The origin *)

Lemma create_both_asked blocks self f ks a i cnt before (m : nat) after sig :
  tree_inv blocks self f -> no_blank blocks -> log_fits blocks -> readable blocks f ks ->
  0 <= a <= i -> i < zlen blocks -> mt_signature self = Some sig -> split_at (zlen blocks) a i before m after ->
  Proofs.create_valueless_proof self (Some (mkRequestBlock i cnt)) None None
      (Some (mkRequestUpgrade a (zlen blocks - a))) (Some (node_read f <$> ks)) =
    Ok (asked (unknown self ks (node_keys (before ++ proof_path true m 0 i ++ after)))
          (both_answer blocks self a i m (before ++ after) sig)).
Proof.
  intros Hinv Hnb Hfit Hks Ha Hi Hsig Hsp.
  destruct (infos_view _ _ _ _ (tree_inv_view _ _ _ Hinv) Hfit Hks) as (nm & Hm & Hv & Hmiss).
  rewrite (create_both_ok blocks self _ nm a i cnt before m after sig) by (done || apply Hinv).
  by rewrite Hmiss, asked_match.
Qed.

(** A block that is there is sent with the upgrade. *)
Lemma create_both_proof blocks fs s a i cnt before (m : nat) after sig :
  core_read blocks fs s -> 0 <= a <= i -> i < zlen blocks -> dbit (hc_bitfield s) i = true ->
  mt_signature (hc_tree s) = Some sig -> split_at (zlen blocks) a i before m after ->
  Core.create_proof (Some (mkRequestBlock i cnt)) None None (Some (mkRequestUpgrade a (zlen blocks - a))) s =
    (s, Ok (Some (both_proof blocks (mt_fork (hc_tree s)) a i m (before ++ after) sig))).
Proof.
  intros Hr Ha Hi Hb Hsig Hsp.
  cut (wp (Core.create_proof (Some (mkRequestBlock i cnt)) None None (Some (mkRequestUpgrade a (zlen blocks - a)))) s
    (fun r s' => r = Some (both_proof blocks (mt_fork (hc_tree s)) a i m (before ++ after) sig) /\ s' = s)).
  { intros (s' & r & Hg & -> & ->). done. }
  destruct (split_complete _ _ _ _ _ _ (zlen_nonneg _) Hsp) as [Hc Hcm].
  unfold Core.create_proof. apply wp_bind.
  eapply (core_create_ok blocks fs s _ _ _ (before ++ proof_path true m 0 i ++ after)); [apply Hr| |intros ks Hks;
    apply (create_both_asked blocks _ _ ks a i cnt before m after sig); try done; apply Hr|].
  { intros d o [Hin|[Hin|Hin]%elem_of_app]%elem_of_app; [apply Hc; by left| |apply Hc; by right].
    revert Hin. apply proof_path_complete; [lia|by rewrite Z.add_0_l]. }
  cbn [both_answer vp_block dh_index]. apply wp_bind. exists s, (Some (block_at blocks i)).
  split; [by apply (get_present blocks fs); [|lia|]|]. cbn beta iota. apply wp_bind. eapply wp_lift; [done|]. by wp_step.
Qed.

(** The question for missing nodes, up to the leaf of the block. *)
Lemma missing_nodes_first blocks self i infos nodes x :
  tree_for blocks self -> log_fits blocks -> 0 <= i < zlen blocks -> infos_to_nodes infos = Ok nodes ->
  Tree.optional_node self (node_at 0 i) nodes = Ok x -> x <> Right None ->
  Tree.missing_nodes self (2 * i) infos =
    Ok (match x with Left instruction => Left [instruction] | Right _ => Right 0 end).
Proof.
  intros (_ & Hl & _) [Hlen _] Hi Hinf Hx Hne. unfold Tree.missing_nodes.
  assert (complete (zlen blocks) 0 i) as Hc by (split_and!; rewrite ?Z.pow_0_r; lia).
  pose proof (iter_new_law 0 i (complete_in_tree _ _ _ Hc Hlen)) as Hit. pose proof Hit as (Hii & _ & Hif).
  rewrite node_at_leaf in Hit, Hii, Hif, Hx. rewrite Hl, Hii, Hif.
  rewrite checked_mul_Ok, bind_Ok by lia. change (2 ^ (0 + 1) / 2) with 1.
  rewrite checked_add_Ok, bind_Ok by lia. rewrite checked_sub_Ok, bind_Ok by lia.
  rewrite (proj2 (Z.leb_gt (2 * zlen blocks) _)), Hinf, bind_Ok by lia.
  unfold tree_fuel. cbn [Tree.missing_loop].
  rewrite (contains_complete (zlen blocks) 0 i) by (done || lia).
  rewrite Hii, Hx, bind_Ok. by destruct x as [|[|]].
Qed.

(** Whoever has the whole tree misses no node. *)
Lemma origin_missing_nodes blocks fs s i :
  core_base blocks fs s -> 0 <= i < zlen blocks -> Core.missing_nodes i s = (s, Ok 0).
Proof.
  intros [Hh Hfit Hnb Ht _ _] Hi. pose proof Ht as (Hfor & Htr & Hu & Hstored). pose proof Hfit as [Hlen _].
  assert (complete (zlen blocks) 0 i) as Hc by (split_and!; rewrite ?Z.pow_0_r; lia).
  cut (wp (Core.missing_nodes i) s (fun r s' => r = 0 /\ s' = s)); [by intros (s' & r & Hg & -> & ->)|].
  unfold Core.missing_nodes. rewrite checked_mul_Ok by lia. apply wp_bind. eapply wp_lift; [done|]. rewrite Z.mul_comm.
  unfold Core.missing_nodes_from_merkle_tree_index. wp_step.
  destruct (mt_unflushed (hc_tree s) !! node_at 0 i) as [x|] eqn:Hx.
  - apply wp_bind. eapply wp_lift; [apply (missing_nodes_first blocks _ i None ∅ (Right (Some x))); try done|by wp_step].
    unfold Tree.optional_node, Tree.node. rewrite Hx, Htr.
    destruct (Hu _ _ Hx) as (d & o & Hc' & Hk & ->). by rewrite (Hnb d o Hc').
  - pose proof (complete_node_at _ _ _ Hc) as Hat. specialize (Hstored 0 i Hc Hx).
    apply wp_bind. eapply wp_lift; [apply (missing_nodes_first blocks _ i None ∅ (Left (slot_read (node_at 0 i)))); try done|].
    { unfold Tree.optional_node, Tree.node. by rewrite Hx, lookup_empty, checked_mul_Ok, bind_Ok by lia. }
    cbn beta iota. destruct (slot_read_ok fs (node_at 0 i) ltac:(lia)) as [Hw Hrd].
    assert (slot_info (fs Common.Tree) (node_at 0 i) = node_read (fs Common.Tree) (node_at 0 i)) as Hsi.
    { unfold slot_info. destruct Hstored as [Hle _]. rewrite zlen_node_record in Hle.
      by rewrite (proj2 (Z.leb_le _ _)) by lia. }
    unfold retry_fuel. cbn [Core.ask_again]. apply wp_bind.
    eapply (core_read_infos_ok s fs _ [slot_info (fs Common.Tree) (node_at 0 i)]); [exact Hh|by constructor|by constructor|].
    rewrite Hsi. cbn [app].
    destruct (infos_view blocks (hc_tree s) (fs Common.Tree) [node_at 0 i]) as (nm & Hm & Hv & Hmiss);
      [by eapply tree_inv_view|done|by intros k ->%list_elem_of_singleton; exists 0, i|].
    apply wp_bind. eapply wp_lift; [apply (missing_nodes_first blocks _ i _ nm (Right (Some (merkle_at blocks 0 i)))); try done|by wp_step].
    unfold Tree.optional_node, Tree.node. rewrite Hx. destruct Hv as [_ Hv]. destruct (Hv 0 i Hc) as [_ Hn].
    specialize (Hmiss [(0, i)]). unfold missing, unknown, has in Hmiss. cbn [fmap list_fmap node_keys] in Hmiss.
    rewrite !filter_cons in Hmiss. rewrite Hx in Hmiss. destruct (nm !! node_at 0 i) as [y|].
    + rewrite (Hn y eq_refl), (Hnb 0 i Hc). done.
    + exfalso. repeat case_decide; try done. destruct H0 as [_ []]. by left.
Qed.

(** ** The reader *)

(** What the reader has after a proof with block [i] of [blocks] and an upgrade. *)
Definition took_both blocks (i : Z) s (r : bool) s' : Prop :=
  r = true /\ exists fs', reader blocks fs' s' /\
    hc_key_pair s' = hc_key_pair s /\ mt_fork (hc_tree s') = mt_fork (hc_tree s) /\
    hc_events s' = hc_events s ++ [EventDataUpgrade; EventHave i 1 false] /\
    forall k, 0 <= k -> dbit (hc_bitfield s') k = if decide (k = i) then true else dbit (hc_bitfield s) k.

Lemma length_verified n (m : nat) i : complete n (Z.of_nat m) (i / 2 ^ Z.of_nat m) -> n < 2 ^ 57 -> zlen (verified_nodes m 0 i) <= 2 ^ 23.
Proof.
  intros Hc Hn. pose proof (complete_depth _ _ _ Hc Hn). unfold verified_nodes, zlen. cbn [length].
  rewrite length_path_nodes. lia.
Qed.

(** A reader of the blocks up to the start of the upgrade. *)
Lemma reader_apply_both_new old more fs s i before (m : nat) after sig :
  reader old fs s -> log_fits (old ++ more) -> no_blank (old ++ more) -> zlen old <= i < zlen (old ++ more) ->
  block_in_place (zlen old) (zlen (old ++ more)) i = true ->
  ed_verify (kp_public (hc_key_pair s)) (signed_bytes (old ++ more) (mt_fork (hc_tree s))) sig = true ->
  split_at (zlen (old ++ more)) (zlen old) i before m after ->
  wp (Core.verify_and_apply_proof (both_proof (old ++ more) (mt_fork (hc_tree s)) (zlen old) i m (before ++ after) sig)) s
    (took_both (old ++ more) i s).
Proof.
  intros Hr Hfit Hnb Hi Hplace Hsig Hsp. pose proof (rd_tree _ _ _ _ Hr) as Ht. pose proof (zlen_nonneg old). pose proof Hfit as [Hlen _].
  destruct (split_complete _ _ _ _ _ _ (zlen_nonneg _) Hsp) as [_ Hcm].
  assert (forall infos nodes, infos_to_nodes infos = Ok nodes -> exists cs, Proofs.verify_proof (hc_tree s)
      (both_proof (old ++ more) (mt_fork (hc_tree s)) (zlen old) i m (before ++ after) sig) (kp_public (hc_key_pair s)) infos = Ok (Right cs) /\
      accepted_upgrade (old ++ more) (mt_fork (hc_tree s)) sig (block_changeset (old ++ more) (hc_tree s) m i) cs) as Hver.
  { intros infos nodes Hinf. apply (verify_both_new _ _ _ _ nodes); try done; [lia..| |apply Hr].
    apply tree_for_prefix, (sp_for _ _ _ Ht). }
  destruct (Hver None ∅ eq_refl) as (cs & Hv & Hacc).
  destruct (taken_upgrade old more fs s sig (verified_nodes m 0 i) cs) as (ps & t' & Htk & Hkeep & Hkv); try done;
    [apply Hr|by eapply split_climbs|by eapply length_verified| |].
  { intros d o. apply verified_nodes_complete; [lia|by rewrite Z.add_0_l]. }
  refine (reader_apply_with_block old more fs s
    (both_proof (old ++ more) (mt_fork (hc_tree s)) (zlen old) i m (before ++ after) sig) i
    (merkle_peaks (old ++ more) (proof_path true m 0 i)) cs [] ps t' Hr Hfit Hnb _ eq_refl eq_refl _ _ _ Htk _ Hkeep).
  - lia.
  - exists s, cs. split; [|done]. unfold Core.verify_proof, mbind, stateR_bind, gets, lift. by rewrite Hv.
  - by intros ? ? ?%elem_of_nil.
  - intros ks _. by apply (both_offset_ok old more (hc_tree s) (fs Common.Tree) (mt_fork (hc_tree s)) sig cs i before m after).
  - apply Hkv. by left.
Qed.

(** A reader that knows of all blocks already, from an upgrade that starts at
    most where its blocks have a gap. *)
Lemma reader_apply_both_same blocks fs s a i before (m : nat) after sig :
  reader blocks fs s -> 0 <= a <= i -> i < zlen blocks ->
  (0 < a -> dbit (hc_bitfield s) (a - 1) = true) ->
  ed_verify (kp_public (hc_key_pair s)) (signed_bytes blocks (mt_fork (hc_tree s))) sig = true ->
  split_at (zlen blocks) a i before m after ->
  wp (Core.verify_and_apply_proof (both_proof blocks (mt_fork (hc_tree s)) a i m (before ++ after) sig)) s
    (took_both blocks i s).
Proof.
  intros Hr Ha Hi Hbit Hsig Hsp. pose proof (rd_tree _ _ _ _ Hr) as Ht. pose proof (rd_fits _ _ _ _ Hr) as Hfit.
  destruct (split_complete _ _ _ _ _ _ (zlen_nonneg _) Hsp) as [_ Hcm].
  assert (knows blocks (hc_tree s) (fs Common.Tree) (Z.of_nat m) (i / 2 ^ Z.of_nat m)) as Hk.
  { apply (upgrade_closed (zlen blocks) _ a); [lia|by apply sparse_closed| |].
    - intros Hpos. destruct (rd_data _ _ _ _ Hr (a - 1) ltac:(lia) (Hbit Hpos)) as (_ & _ & Hk).
      exists 0, (a - 1). split; [done|]. rewrite Z.pow_0_r. lia.
    - rewrite (sa_parts _ _ _ _ _ _ Hsp). apply elem_of_app. right. by left. }
  set (cs := Changeset.set_hash_signature (Proofs.set_fork (block_changeset blocks (hc_tree s) m i) (mt_fork (hc_tree s)))
    (Some (blake2b256 (tree_preimage (merkle_roots blocks)))) (Some sig)).
  destruct (block_offset_asked blocks (hc_tree s) (fs Common.Tree) i m cs) as (ps & Hps & Hask); [done|apply Hr|done|lia|done..|].
  destruct (taken_block blocks fs s i m cs) as [Htk Hkn]; [done|done|done|done|done| |].
  { unfold Tree.commit, Tree.commitable. cbn. by rewrite Z.eqb_refl, Z.leb_refl. }
  pose proof (reader_apply_with_block blocks [] fs s (both_proof blocks (mt_fork (hc_tree s)) a i m (before ++ after) sig) i
    (merkle_peaks blocks (proof_path true m 0 i)) cs ps (verified_nodes m 0 i)
    (with_nodes (hc_tree s) blocks (verified_nodes m 0 i)) Hr) as Happ. rewrite !app_nil_r in Happ.
  refine (Happ Hfit (rd_blank _ _ _ _ Hr) _ eq_refl eq_refl _ Hps Hask Htk _ _); clear Happ; [lia| | |].
  - apply (reader_verify_asked 3 blocks fs s _ [(Z.of_nat m, i / 2 ^ Z.of_nat m)]); [apply Hr|by intros d o [= -> ->]%list_elem_of_singleton|].
    intros ks Hks. destruct (checked_node_asked blocks (hc_tree s) (fs Common.Tree) ks _ _ cs Ht (rd_blank _ _ _ _ Hr) Hfit Hks Hcm)
      as (nm & Hm & <-).
    rewrite (verify_both_same blocks a (hc_tree s) _ nm); try done; [lia|by destruct blocks; [rewrite zlen_nil in *; lia|]|apply Ht|apply Hr].
  - apply Hkn. left. by left.
  - intros d o ?. apply Hkn. by right.
Qed.
End Both.
