(* ===== verification/Replication.v ===== *)
(** * Two cores that replicate a log

    The origin has the secret key and appends; the replica has the public key
    and asks the origin for upgrades and blocks.  [peers_exec] is one exchange
    between them, [sync_exec] what it means for the log, the length the replica
    knows of and the blocks it has.  [peers_run_ok]: every exchange succeeds, in
    any order, and the two cores stand for the abstract state.

    [replicate_index] is the exchange of [examples/replication.rs]: a block and
    an upgrade in one proof.  [replicate_index_ok]: it succeeds for the blocks that
    [replicable] names. *)

From stdpp Require Import base list gmap.
From Stdlib Require Import ZArith Lia Bool.
From S2P Require Import Prelude FlatTree Common BitfieldFixed BitfieldDynamic.
From S2P Require Import CompactEncoding Encoding Crypto OplogEntry Changeset Storage Oplog.
From S2P Require Import MerkleTree MerkleView MerkleProof MerkleComplete MerkleUpgrade MerkleSparse MerkleBoth.
From S2P Require Import BitfieldStore Core CoreOpen CoreView CoreReplicate CoreRebuild CoreReader CoreBoth.
Open Scope Z_scope.

(** ** The exchanges *)

Section Peers.
Context `{FT : FlatTree} `{CE : CompactEncoding} `{B2 : Blake2b} `{ED : Ed25519} `{CR : Crc32}
  `{RA : RandomAccess} `{IO : IntMapOrder}.

Definition peersM (A : Type) : Type := stateR (Hypercore * Hypercore) HypercoreError A.

Definition at_origin {A} (m : coreM A) : peersM A := fun p => let '(o, x) := m p.1 in ((o, p.2), x).
Definition at_replica {A} (m : coreM A) : peersM A := fun p => let '(r, x) := m p.2 in ((p.1, r), x).

(** [.await.expect(..)] *)
Definition expect_at {S A} (m : stateR S HypercoreError A) : stateR S HypercoreError A := fun s =>
  let '(s, x) := m s in (s, expect x).

Definition replicate_index (request_index : Z) : peersM unit :=
  missing_nodes ← expect_at (at_origin (Core.missing_nodes request_index));
  upgrade_start ← at_replica (gets (info_contiguous_length ∘ Core.info));
  origin_length ← at_origin (gets (info_contiguous_length ∘ Core.info));
  upgrade_length ← lift (origin_length -? upgrade_start);
  proof ← expect_at (at_origin (Core.create_proof (Some (mkRequestBlock request_index missing_nodes)) None None
    (Some (mkRequestUpgrade upgrade_start upgrade_length))));
  proof ← lift (unwrap proof);
  applied ← expect_at (at_replica (Core.verify_and_apply_proof proof));
  if (applied : bool) then mret tt else lift Panic.

Fixpoint replicate_indexes (indexes : list Z) : peersM unit :=
  match indexes with
  | [] => mret tt
  | i :: indexes => _ ← replicate_index i; replicate_indexes indexes
  end.

(** The replica asks for what it does not know of yet. *)
Definition fetch_upgrade : peersM bool :=
  start ← at_replica (gets (info_length ∘ Core.info));
  length ← at_origin (gets (info_length ∘ Core.info));
  if length <=? start then mret true
  else
    proof ← at_origin (Core.create_proof None None None (Some (mkRequestUpgrade start (length - start))));
    match proof with
    | Some proof => at_replica (Core.verify_and_apply_proof proof)
    | None => mret false
    end.

(** The replica asks for a block, with as many nodes as it misses. *)
Definition fetch_block (index : Z) : peersM bool :=
  nodes ← at_replica (Core.missing_nodes index);
  proof ← at_origin (Core.create_proof (Some (mkRequestBlock index nodes)) None None None);
  match proof with
  | Some proof => at_replica (Core.verify_and_apply_proof proof)
  | None => mret false
  end.

Inductive sync_op :=
  | SyncAppend (batch : list (list Z))
  | SyncUpgrade
  | SyncFetch (index : Z).

Definition peers_exec (op : sync_op) : peersM bool :=
  match op with
  | SyncAppend batch => _ ← at_origin (Core.append_batch batch); mret true
  | SyncUpgrade => fetch_upgrade
  | SyncFetch index => fetch_block index
  end.

(** Whether all of the exchanges were accepted. *)
Fixpoint peers_run (ops : list sync_op) : peersM bool :=
  match ops with
  | [] => mret true
  | op :: ops => a ← peers_exec op; b ← peers_run ops; mret (a && b)
  end.
End Peers.

(** ** What they mean *)

(** The log of the origin, the length the replica knows of, the blocks it has. *)
Record sync_log := mkSync { sy_origin : list (list Z); sy_length : nat; sy_has : list Z }.

Definition sync_exec (y : sync_log) (op : sync_op) : sync_log :=
  match op with
  | SyncAppend batch => mkSync (sy_origin y ++ batch) (sy_length y) (sy_has y)
  | SyncUpgrade => mkSync (sy_origin y) (length (sy_origin y)) (sy_has y)
  | SyncFetch i => mkSync (sy_origin y) (sy_length y) (i :: sy_has y)
  end.
Definition sync_run (y : sync_log) (ops : list sync_op) : sync_log := foldl sync_exec y ops.
Definition sync_empty : sync_log := mkSync [] 0 [].

Definition sync_get (y : sync_log) (i : Z) : option (list Z) :=
  if decide (i ∈ sy_has y) then Some (block_at (sy_origin y) i) else None.

Section Refinement.
Context `{FT : FlatTree} {FL : FlatTreeLaws FT} `{CE : CompactEncoding} {CL : CompactEncodingLaws CE}
  `{B2 : Blake2b} {BL : Blake2bLaws B2} `{ED : Ed25519} {EL : Ed25519Laws ED} `{CR : Crc32}
  {CRL : Crc32Laws CR} `{RA : RandomAccess} {RL : RandomAccessLaws RA}
  `{IO : IntMapOrder} {IOL : IntMapOrderLaws IO}.
Implicit Types (o r : Hypercore) (y : sync_log).

(** The sizes for which this is claimed, as for a core alone; the replica asks
    for blocks it knows of. *)
Definition sync_op_ok y (op : sync_op) : Prop :=
  match op with
  | SyncAppend batch => log_fits (sy_origin y ++ batch) /\ no_blank (sy_origin y ++ batch) /\ zlen batch <= 2 ^ 18
  | SyncUpgrade => True
  | SyncFetch i => 0 <= i < Z.of_nat (sy_length y)
  end.

Fixpoint sync_ops_ok y (ops : list sync_op) : Prop :=
  match ops with
  | [] => True
  | op :: ops => sync_op_ok y op /\ sync_ops_ok (sync_exec y op) ops
  end.

Definition known_part y : list (list Z) := take (sy_length y) (sy_origin y).

Record origin_for (sk : SigningKey) blocks o : Prop := {
  of_inv : exists fs, core_full 3 blocks fs o;
  of_secret : kp_secret (hc_key_pair o) = Some sk;
  of_signature : blocks <> [] ->
    mt_signature (hc_tree o) = Some (ed_sign sk (signed_bytes blocks (mt_fork (hc_tree o))));
  of_bits k : 0 <= k < zlen blocks -> dbit (hc_bitfield o) k = true;
}.

Record replica_for (sk : SigningKey) blocks (has : list Z) r : Prop := {
  rf_inv : exists fs, reader blocks fs r;
  rf_public : kp_public (hc_key_pair r) = sk_verifying_key sk;
  rf_bits k : 0 <= k -> dbit (hc_bitfield r) k = bool_decide (k ∈ has);
}.

(** The two cores stand for [y]; if [exact], the origin also knows its contiguous
    length, which it may lose when it is opened again. *)
Record in_sync (exact : bool) (sk : SigningKey) y (p : Hypercore * Hypercore) : Prop := {
  is_length : (sy_length y <= length (sy_origin y))%nat;
  is_origin : origin_for sk (sy_origin y) p.1;
  is_replica : replica_for sk (known_part y) (sy_has y) p.2;
  is_fork : mt_fork (hc_tree p.2) = mt_fork (hc_tree p.1);
  is_exact : exact = true -> hint_exact p.1;
}.

Lemma wp_at_origin {A} (m : coreM A) o r (Q : A -> Hypercore * Hypercore -> Prop) :
  wp m o (fun a o => Q a (o, r)) -> wp (at_origin m) (o, r) Q.
Proof. intros (o' & a & Hm & HQ). exists (o', r), a. split; [|done]. unfold at_origin. cbn. by rewrite Hm. Qed.

Lemma wp_at_replica {A} (m : coreM A) o r (Q : A -> Hypercore * Hypercore -> Prop) :
  wp m r (fun a r => Q a (o, r)) -> wp (at_replica m) (o, r) Q.
Proof. intros (r' & a & Hm & HQ). exists (o, r'), a. split; [|done]. unfold at_replica. cbn. by rewrite Hm. Qed.

Lemma wp_run {S E A} (m : stateR S E A) s s' a (Q : A -> S -> Prop) : m s = (s', Ok a) -> Q a s' -> wp m s Q.
Proof. intros. by exists s', a. Qed.

(** ** Appending *)

Lemma sync_append_ok b sk y p batch :
  in_sync b sk y p -> sync_op_ok y (SyncAppend batch) ->
  wp (peers_exec (SyncAppend batch)) p (fun a p' => a = true /\ in_sync b sk (sync_exec y (SyncAppend batch)) p').
Proof.
  destruct p as [o r]. intros [Hlen [(fs & Hinv) Hsk Hsig Hbits] Hrep Hfork Hexact] (Hfit & Hnb & Hsz). cbn [fst snd] in *.
  cbn [peers_exec]. apply wp_bind, wp_at_origin. eapply wp_mono; [by eapply append_batch_live; [apply Hinv|lia|..]|].
  intros _ o' (_ & (fs' & Hinv' & _ & Hda) & Hc & Hk & _ & (Hf & Hs) & Hb). wp_step. split; [done|].
  constructor; cbn [sync_exec sy_origin sy_length sy_has fst snd].
  - rewrite length_app. lia.
  - constructor; [exists fs'; split; [done|eapply (all_data_append _ _ fs _ o); try done; apply Hinv]|by rewrite Hk|..].
    + intros Hne. rewrite Hs. destruct batch; [|done]. cbn [is_empty]. rewrite app_nil_r, Hf in *. by apply Hsig.
    + intros k Hk0. rewrite Hb by lia. case_decide; [done|]. apply Hbits. lia.
  - unfold known_part. cbn [sy_origin sy_length]. by rewrite take_app_le.
  - by rewrite Hf.
  - intros He. by apply Hc, Hexact.
Qed.

(** ** Upgrading *)

Lemma known_part_all y : known_part (sync_exec y SyncUpgrade) = sy_origin y.
Proof. unfold known_part. cbn. by rewrite firstn_all. Qed.

Lemma zlen_known_part y : (sy_length y <= length (sy_origin y))%nat -> zlen (known_part y) = Z.of_nat (sy_length y).
Proof. intros Hle. unfold known_part, zlen. rewrite length_take. lia. Qed.

Lemma known_part_length b blocks fs r : reader_within b blocks fs r -> mt_length (hc_tree r) = zlen blocks.
Proof. intros Hr. by destruct (sp_for _ _ _ (rd_tree _ _ _ _ Hr)) as (_ & -> & _). Qed.

Lemma sync_upgrade_ok b sk y p :
  in_sync b sk y p ->
  wp (peers_exec SyncUpgrade) p (fun a p' => a = true /\ in_sync b sk (sync_exec y SyncUpgrade) p').
Proof.
  destruct p as [o r]. intros [Hlen [(fs & Hinv) Hsk Hsig Hbits] [(fsr & Hr) Hpk Hhas] Hfork Hexact]. cbn [fst snd] in *.
  pose proof (known_part_length _ _ _ _ Hr) as Hl. rewrite zlen_known_part in Hl by done.
  pose proof (ci_tree _ _ _ Hinv) as ((_ & Ho & _) & _).
  cbn [peers_exec]. unfold fetch_upgrade. apply wp_bind, wp_at_replica, wp_gets. apply wp_bind, wp_at_origin, wp_gets.
  unfold compose. cbn [Core.info info_length]. rewrite Hl, Ho.
  destruct (Z.leb_spec (zlen (sy_origin y)) (Z.of_nat (sy_length y))) as [Hle|Hgt].
  - wp_step. split; [done|]. assert (sy_length y = length (sy_origin y)) as Heq by (unfold zlen in Hle; lia).
    assert (sync_exec y SyncUpgrade = y) as -> by (destruct y; cbn in *; by rewrite Heq).
    constructor; [done|..|done|done]; constructor; try done; [by exists fs|by exists fsr].
  - assert (sy_origin y = known_part y ++ drop (sy_length y) (sy_origin y)) as Hsplit
      by (symmetry; apply take_drop).
    set (more := drop (sy_length y) (sy_origin y)) in *.
    assert (sy_origin y <> []) as Hne by (intros Hnil; rewrite Hnil, zlen_nil in Hgt; lia).
    apply wp_bind, wp_at_origin. eapply wp_run.
    { eapply (create_upgrade_proof (sy_origin y) fs); [apply Hinv|lia|by apply Hsig]. }
    cbn beta iota. apply wp_at_replica.
    rewrite <-Hfork, <-(zlen_known_part y) by done.
    assert (more <> []) as Hmore.
    { intros Hnil. rewrite Hnil, app_nil_r in Hsplit. pose proof (zlen_known_part y Hlen) as Hz.
      rewrite <-Hsplit in Hz. lia. }
    pose proof (reader_apply_upgrade (known_part y) more fsr r) as Happ. rewrite <-Hsplit in Happ.
    eapply wp_mono.
    { apply Happ; [done..|apply Hinv|apply Hinv|]. rewrite Hpk. apply ed_verify_sign. }
    intros a r' (-> & fs' & Hr' & Hk' & Hf' & _ & Hb'). split; [done|].
    constructor; cbn [fst snd].
    + done.
    + constructor; try done. by exists fs.
    + constructor; [rewrite known_part_all; by exists fs'|by rewrite Hk'|].
      intros k Hk. rewrite Hb' by done. by apply Hhas.
    + by rewrite Hf'.
    + done.
Qed.

(** ** Fetching *)

Lemma merkle_peaks_prefix old more ps :
  (forall d x, (d, x) ∈ ps -> complete (zlen old) d x) -> merkle_peaks (old ++ more) ps = merkle_peaks old ps.
Proof.
  intros Hps. unfold merkle_peaks. apply list_fmap_ext. intros j [d x] Hl.
  apply list_elem_of_lookup_2, Hps in Hl. by apply merkle_at_app.
Qed.

(** The proof of a block is the one of the shorter log, up to a node of it. *)
Lemma proof_for_prefix old more fork (m : nat) i :
  0 <= i < zlen old -> complete (zlen old) (Z.of_nat m) (i / 2 ^ Z.of_nat m) ->
  proof_for (old ++ more) fork true m 0 i = proof_for old fork true m 0 i.
Proof.
  intros Hi Hc. unfold proof_for. rewrite merkle_peaks_prefix.
  - unfold data_of. rewrite lookup_app_l by (unfold zlen in Hi; lia). done.
  - intros d x. apply proof_path_complete; [lia|by rewrite Z.add_0_l].
Qed.

Lemma sync_fetch_ok b sk y p i :
  in_sync b sk y p -> sync_op_ok y (SyncFetch i) ->
  wp (peers_exec (SyncFetch i)) p (fun a p' => a = true /\ in_sync b sk (sync_exec y (SyncFetch i)) p').
Proof.
  destruct p as [o r]. intros [Hlen [(fs & Hinv) Hsk Hsig Hbits] [(fsr & Hr) Hpk Hhas] Hfork Hexact] Hi. cbn [fst snd sync_op_ok] in *.
  rewrite <-zlen_known_part in Hi by done.
  destruct (reader_missing_nodes 3 _ _ _ i Hr Hi) as (m & Hm & Hk). pose proof Hk as [Hc _].
  assert (zlen (known_part y) <= zlen (sy_origin y)) as Hle.
  { rewrite zlen_known_part by done. unfold zlen. lia. }
  cbn [peers_exec]. unfold fetch_block. apply wp_bind, wp_at_replica. eapply wp_run; [exact Hm|].
  apply wp_bind, wp_at_origin. eapply wp_run.
  { eapply (create_block_proof (sy_origin y) fs); [exact (core_full_read _ _ _ _ Hinv)|lia|apply Hbits; lia|by eapply complete_mono]. }
  cbn beta iota. apply wp_at_replica. rewrite <-Hfork. unfold known_part in Hi, Hc.
  rewrite <-(take_drop (sy_length y) (sy_origin y)), proof_for_prefix by done.
  eapply wp_mono; [by apply (reader_apply_block (known_part y) fsr r i m)|].
  intros a r' (-> & fs' & Hr' & Hk' & Hf' & _ & Hb'). split; [done|].
  constructor; cbn [fst snd]; [done|constructor; try done; by exists fs| |by rewrite Hf'|done].
  constructor; [by exists fs'|by rewrite Hk'|].
  intros k Hk0. rewrite Hb' by done. cbn [sync_exec sy_has]. case_decide as Hki.
  - symmetry. apply bool_decide_true. subst. by left.
  - rewrite Hhas by done. apply bool_decide_ext. rewrite elem_of_cons. split; [by right|by intros [?|?]].
Qed.

(** ** A block and an upgrade at once *)

(** What the exchange of [examples/replication.rs] works for: the replica lacks
    the block, it knows of all blocks or has all it knows of, and the block goes
    to its place. *)
Definition replicable y (i : Z) : Prop :=
  0 <= i < zlen (sy_origin y) /\ (i ∉ sy_has y) /\
  (sy_length y = length (sy_origin y) \/ (forall k, 0 <= k < Z.of_nat (sy_length y) -> k ∈ sy_has y)) /\
  block_in_place (Z.of_nat (sy_length y)) (zlen (sy_origin y)) i = true.

Definition sync_replicate y (i : Z) : sync_log := sync_exec (sync_exec y SyncUpgrade) (SyncFetch i).

Lemma wp_expect_at {S A} (m : stateR S HypercoreError A) p (Q : A -> S -> Prop) : wp m p Q -> wp (expect_at m) p Q.
Proof. intros (p' & a & Hm & HQ). exists p', a. split; [|done]. unfold expect_at. by rewrite Hm. Qed.

(** The two lengths the exchange asks for. *)
Lemma origin_contiguous sk blocks o : origin_for sk blocks o -> hint_exact o -> info_contiguous_length (Core.info o) = zlen blocks.
Proof.
  intros [(fs & Hinv) _ _ Hbits] Hc. cbn. eapply contiguous_unique; [exact Hc|]. split_and!; [apply zlen_nonneg|done|].
  destruct (dbit (hc_bitfield o) (zlen blocks)) eqn:Hb; [|done]. pose proof (zlen_nonneg blocks).
  destruct (ci_held _ _ _ Hinv (zlen blocks) ltac:(lia) Hb). lia.
Qed.

Lemma replica_contiguous sk blocks has r c :
  replica_for sk blocks has r -> info_contiguous_length (Core.info r) = c ->
  0 <= c <= zlen blocks /\ (forall k, 0 <= k < c -> k ∈ has) /\ c ∉ has.
Proof.
  intros [(fs & Hr) _ Hbits] <-. cbn. destruct (rd_contiguous _ _ _ _ Hr) as (H0 & Hset & Hun).
  set (c := hh_contiguous_length _) in *. split_and!; [done| | |].
  - destruct (Z.le_gt_cases c (zlen blocks)) as [|Hgt]; [done|]. pose proof (zlen_nonneg blocks).
    specialize (Hset (zlen blocks) ltac:(lia)). rewrite (reader_bits_below 3 blocks fs r _ Hr) in Hset by (done || lia). done.
  - intros k Hk. specialize (Hset k Hk). rewrite Hbits in Hset by lia. by apply bool_decide_eq_true in Hset.
  - rewrite Hbits in Hun by lia. by apply bool_decide_eq_false in Hun.
Qed.

Lemma took_in_sync b sk y i o r r' :
  in_sync b sk y (o, r) -> took_both (sy_origin y) i r true r' -> in_sync b sk (sync_replicate y i) (o, r').
Proof.
  intros [Hlen Ho [_ Hpk Hhas] Hfork Hexact] (_ & fs' & Hr' & Hk' & Hf' & _ & Hb'). cbn [fst snd] in *.
  constructor; cbn [sync_replicate sync_exec sy_origin sy_length sy_has fst snd]; [done|done| |by rewrite Hf'|done].
  constructor; [|by rewrite Hk'|].
  - exists fs'. unfold known_part. cbn [sy_origin sy_length]. by rewrite firstn_all.
  - intros k Hk0. rewrite Hb' by done. case_decide as Hki.
    + symmetry. apply bool_decide_true. subst. by left.
    + rewrite Hhas by done. apply bool_decide_ext. rewrite elem_of_cons. split; [by right|by intros [?|?]].
Qed.

Lemma replicate_index_ok sk y p i :
  in_sync true sk y p -> replicable y i ->
  wp (replicate_index i) p (fun _ p' => in_sync true sk (sync_replicate y i) p').
Proof.
  destruct p as [o r]. intros Hsync (Hi & Hnew & Hknown & Hplace).
  pose proof Hsync as [Hlen Ho Hrep Hfork Hexact]. pose proof Ho as [(fs & Hinv) _ Hsig Hbits].
  pose proof Hrep as [(fsr & Hr) Hpk Hhas]. cbn [fst snd] in *.
  destruct (replica_contiguous sk _ _ r _ Hrep eq_refl) as (Hc & Hbelow & Hgap).
  set (c := info_contiguous_length (Core.info r)) in *. rewrite zlen_known_part in Hc by done.
  assert (sy_origin y <> []) as Hne by (intros Hnil; rewrite Hnil in Hi; change (0 <= i < 0) in Hi; lia).
  assert (c <= i) as Hci by (destruct (Z.lt_ge_cases i c); [destruct Hnew; apply Hbelow; lia|done]).
  destruct (split_exists (zlen (sy_origin y)) c i) as (before & m & after & Hsp); [lia..|].
  unfold replicate_index. apply wp_bind, wp_expect_at, wp_at_origin. eapply wp_run; [by eapply origin_missing_nodes; [apply Hinv|]|].
  apply wp_bind, wp_at_replica, wp_gets. apply wp_bind, wp_at_origin, wp_gets. unfold compose.
  rewrite (origin_contiguous sk _ o Ho (Hexact eq_refl)). fold c. apply wp_bind. eapply wp_lift; [by apply checked_sub_Ok; lia|].
  apply wp_bind, wp_expect_at, wp_at_origin. eapply wp_run.
  { eapply (create_both_proof (sy_origin y) fs); [exact (core_full_read _ _ _ _ Hinv)|lia|lia|apply Hbits; lia|by apply Hsig|exact Hsp]. }
  apply wp_bind. eapply wp_lift; [done|]. apply wp_bind, wp_expect_at, wp_at_replica. rewrite <-Hfork.
  assert (wp (Core.verify_and_apply_proof (both_proof (sy_origin y) (mt_fork (hc_tree r)) c i m (before ++ after)
    (ed_sign sk (signed_bytes (sy_origin y) (mt_fork (hc_tree r)))))) r (took_both (sy_origin y) i r)) as Happ.
  { assert (ed_verify (kp_public (hc_key_pair r)) (signed_bytes (sy_origin y) (mt_fork (hc_tree r)))
      (ed_sign sk (signed_bytes (sy_origin y) (mt_fork (hc_tree r)))) = true) as Hver by (rewrite Hpk; apply ed_verify_sign).
    destruct (decide (sy_length y = length (sy_origin y))) as [Hall|Hless].
    - assert (known_part y = sy_origin y) as Hk by (unfold known_part; by rewrite Hall, firstn_all). rewrite Hk in Hr.
      apply (reader_apply_both_same _ fsr); try done; [lia..|]. intros Hpos. rewrite Hhas by lia.
      apply bool_decide_true, Hbelow. lia.
    - destruct Hknown as [|Hhave]; [done|]. assert (c = Z.of_nat (sy_length y)) as Hcl.
      { destruct (Z.eq_dec c (Z.of_nat (sy_length y))); [done|]. destruct Hgap. apply Hhave. lia. }
      assert (sy_origin y = known_part y ++ drop (sy_length y) (sy_origin y)) as Hsplit by (symmetry; apply take_drop).
      pose proof (reader_apply_both_new (known_part y) (drop (sy_length y) (sy_origin y)) fsr r i before m after
        (ed_sign sk (signed_bytes (sy_origin y) (mt_fork (hc_tree r))))) as Happly.
      rewrite <-Hsplit, zlen_known_part, <-Hcl in Happly by done.
      apply Happly; try done; [apply Hinv|apply Hinv|lia|by rewrite Hcl]. }
  eapply wp_mono; [exact Happ|]. intros b r' Htook. pose proof Htook as [-> _]. wp_step. by eapply took_in_sync.
Qed.

(** One exchange after the other. *)
Fixpoint replicables y (indexes : list Z) : Prop :=
  match indexes with
  | [] => True
  | i :: indexes => replicable y i /\ replicables (sync_replicate y i) indexes
  end.

Lemma replicate_indexes_ok sk indexes : forall y p,
  in_sync true sk y p -> replicables y indexes ->
  wp (replicate_indexes indexes) p (fun _ p' => in_sync true sk (foldl sync_replicate y indexes) p').
Proof.
  induction indexes as [|i indexes IH]; intros y p Hp Hok; cbn [replicate_indexes foldl]; [by wp_step|].
  destruct Hok as [Hi Hok]. apply wp_bind. eapply wp_mono; [by apply replicate_index_ok|].
  intros u p1 Hp1. by apply IH.
Qed.

(** A replica that knows of all blocks takes the others in any order. *)
Lemma replicables_known indexes : forall y,
  sy_length y = length (sy_origin y) -> NoDup indexes ->
  (forall i, i ∈ indexes -> 0 <= i < zlen (sy_origin y) /\ i ∉ sy_has y) -> replicables y indexes.
Proof.
  induction indexes as [|i indexes IH]; intros y Hlen Hnd Hin; cbn [replicables]; [done|].
  apply NoDup_cons in Hnd as [Hout Hnd]. destruct (Hin i ltac:(by left)) as [Hi Hnew]. split.
  - split_and!; [lia|lia|done|by left|]. unfold block_in_place. rewrite Hlen. fold (zlen (sy_origin y)).
    rewrite (in_place_refl i (peaks (zlen (sy_origin y))) 0 (zlen (sy_origin y))) by (done || apply tiles_peaks; lia).
    apply orb_true_r.
  - apply IH; [done|done|]. intros j Hj. destruct (Hin j ltac:(by right)) as [Hjr Hjn]. split; [done|].
    cbn. intros [->|?]%elem_of_cons; done.
Qed.

Lemma foldl_replicate indexes : forall y,
  indexes <> [] -> foldl sync_replicate y indexes = mkSync (sy_origin y) (length (sy_origin y)) (rev indexes ++ sy_has y).
Proof.
  induction indexes as [|i [|j indexes] IH]; intros y Hne; [done|done|].
  change (foldl sync_replicate y (i :: j :: indexes)) with (foldl sync_replicate (sync_replicate y i) (j :: indexes)).
  rewrite IH by done. cbn [sync_replicate sync_exec sy_origin sy_has]. cbn [rev]. by rewrite <-!app_assoc.
Qed.

(** Every sequence of exchanges goes through. *)
Lemma peers_run_ok b sk ops : forall y p,
  in_sync b sk y p -> sync_ops_ok y ops ->
  wp (peers_run ops) p (fun a p' => a = true /\ in_sync b sk (sync_run y ops) p').
Proof.
  induction ops as [|op ops IH]; intros y p Hp Hok; cbn [peers_run]; [by wp_step|].
  destruct Hok as [Hop Hops]. apply wp_bind.
  assert (wp (peers_exec op) p (fun a p' => a = true /\ in_sync b sk (sync_exec y op) p')) as Hexec.
  { destruct op; [by apply sync_append_ok|by apply sync_upgrade_ok|by apply sync_fetch_ok]. }
  eapply wp_mono; [exact Hexec|]. intros ? p1 [-> Hp1]. apply wp_bind.
  eapply wp_mono; [by apply IH|]. intros ? p2 [-> Hp2]. by wp_step.
Qed.

(** Two new cores, the second with the public key of the first. *)
Lemma new_in_sync generated generated' options (st st' : Storage) sk :
  holds st (fun _ => []) -> holds st' (fun _ => []) -> opt_open options = false ->
  kp_secret (options_key_pair generated options) = Some sk ->
  exists o r sto str, Core.new generated options st = (sto, Ok o) /\
    Core.new generated' (mkOptions (Some (mkKeypair _ (sk_verifying_key sk) None)) false) st' = (str, Ok r) /\
    in_sync true sk sync_empty (o, r).
Proof.
  intros Hh Hh' Ho Hsk.
  destruct (new_fresh_ok generated options st Hh Ho) as (sto & o & Hnew & _ & Hk & _ & fs & Hinv & _ & Hf & _).
  destruct (new_fresh_ok generated' (mkOptions (Some (mkKeypair _ (sk_verifying_key sk) None)) false) st' Hh' eq_refl)
    as (str & r & Hnew' & _ & Hk' & _ & fs' & Hinv' & Hfs' & Hf' & Hfl & _).
  exists o, r, sto, str. split_and!; [done..|]. pose proof (fresh_reader _ _ Hinv' Hfs' Hfl) as Hr.
  constructor; cbn [fst snd sync_empty sy_origin sy_length sy_has]; [done|..|by rewrite Hf, Hf'|intros _; apply Hinv].
  - constructor; [exists fs; split; apply Hinv|by rewrite Hk|done|]. intros k Hk0. change (0 <= k < 0) in Hk0. lia.
  - constructor; [by exists fs'|by rewrite Hk'|]. intros k Hk0. rewrite bool_decide_false by apply not_elem_of_nil.
    apply (reader_bits_below 3 [] fs' r k Hr). by rewrite zlen_nil.
Qed.

(** What the replica answers. *)
Lemma in_sync_get b sk y p i :
  in_sync b sk y p -> 0 <= i < 2 ^ 64 -> (Core.get i p.2).2 = Ok (sync_get y i).
Proof.
  intros [Hlen _ [(fs & Hr) _ Hhas] _ _] Hi. rewrite (reader_get 3 _ _ _ i Hr Hi). unfold sync_get.
  destruct (dbit (hc_bitfield p.2) i) eqn:Hb.
  - destruct (rd_data _ _ _ _ Hr i ltac:(lia) Hb) as [Hlt _]. rewrite Hhas in Hb by lia.
    apply bool_decide_eq_true in Hb. rewrite decide_True by done. cbn [snd]. do 2 f_equal. unfold known_part.
    rewrite <-(take_drop (sy_length y) (sy_origin y)) at 2. by rewrite block_at_app_l by (unfold known_part in Hlt; lia).
  - rewrite Hhas in Hb by lia. apply bool_decide_eq_false in Hb. by rewrite decide_False.
Qed.
End Refinement.
