(* ===== verification/PeerSessions.v ===== *)
(** * Two cores that replicate a log and are opened again

    A replica that is dropped at any moment between two exchanges, and opened
    again from its stores, has the nodes, the blocks and the length it had, and
    takes further proofs ([reader_reopen_ok]).  [sessions_exec] extends the exchanges
    of [Replication] by opening either core again; [peers_sessions_ok]: every
    exchange still succeeds, and the two cores stand for the log as if they had
    never been closed. *)

From stdpp Require Import base list gmap.
From Stdlib Require Import ZArith Lia Bool.
From S2P Require Import Prelude FlatTree Common BitfieldFixed BitfieldDynamic.
From S2P Require Import CompactEncoding Encoding Crypto OplogEntry Changeset Storage Oplog.
From S2P Require Import MerkleTree MerkleView MerkleSparse BitfieldStore Core CoreOpen CoreView.
From S2P Require Import CoreReopen CoreRebuild CoreReader Replication.
Open Scope Z_scope.

Section Reader.
Context `{FT : FlatTree} {FL : FlatTreeLaws FT} `{CE : CompactEncoding} {CL : CompactEncodingLaws CE}
  `{B2 : Blake2b} {BL : Blake2bLaws B2} `{ED : Ed25519} {EL : Ed25519Laws ED} `{CR : Crc32}
  {CRL : Crc32Laws CR} `{RA : RandomAccess} {RL : RandomAccessLaws RA}
  `{IO : IntMapOrder} {IOL : IntMapOrderLaws IO}.
Implicit Types (blocks : list (list Z)) (s : Hypercore).

Lemma same_tree_sparse blocks t t' f :
  same_tree t t' -> sparse blocks t f -> sparse blocks t' f /\ forall d o, knows blocks t f d o -> knows blocks t' f d o.
Proof. intros [k ->] []. split; [by constructor|done]. Qed.

(** ** Opening a replica again *)

Lemma reader_reopen_ok generated blocks fs s (st : Storage) :
  reader blocks fs s -> zlen blocks <= 8192 -> holds st fs ->
  exists s2, reopen generated st = (st, Ok s2) /\ reader blocks fs s2 /\
    hc_key_pair s2 = hc_key_pair s /\ mt_fork (hc_tree s2) = mt_fork (hc_tree s) /\
    forall k, 0 <= k -> dbit (hc_bitfield s2) k = dbit (hc_bitfield s) k.
Proof.
  intros Hr Hn Hh. pose proof (fun k => reader_bits_below _ _ _ _ k (rd_within _ _ _ Hr)) as Hover.
  destruct Hr as [[_ Hfit Hnb Ht _ Hd Hf _ _ _ Hhs Hk Hm _] (o & h & es & Hbits0 & Ho & Hreb) _].
  destruct (Hreb Hn st (Hh Common.Tree) (Hh Bitfield))
    as (t0 & db0 & [[t db] hd] & Hot & Hob & Hes & [Hsame Hwf Hbits Hhd Hc Hst]). cbn [fst snd] in *.
  eexists. split; [by eapply reopen_run|]. destruct (same_tree_sparse _ _ _ _ Hsame Ht) as [Ht' Hkn].
  destruct (up_to_hint_parts _ _ Hhd) as (_ & _ & Hkp & _ & Htr & _). destruct (oplog_file_headed _ _ _ _ Ho) as [Hslot Hz].
  assert (forall k, zlen blocks <= k -> dbit db k = false) as Hover'.
  { intros k Hk0. pose proof (zlen_nonneg blocks). rewrite Hbits by lia. by apply Hover. }
  assert (is_u64 (hh_contiguous_length (hd_hints hd))) as Hc64.
  { pose proof (contiguous_below _ _ _ Hc (zlen_nonneg blocks) Hover'). destruct Hc as [? _]. unfold is_u64. lia. }
  split_and!; cbn [hc_key_pair hc_tree hc_bitfield]; [|congruence|by destruct Hsame as [k ->]|done].
  constructor; [constructor|..]; cbn [hc_storage hc_key_pair hc_tree hc_bitfield hc_header hc_oplog hc_skip_flush_count]; try done.
  - intros k Hk0. rewrite Hbits by done. intros Hb. destruct (Hd k Hk0 Hb) as (? & ? & ?). split_and!; auto.
  - by destruct Hsame as [k ->].
  - by eapply header_small_hint.
  - rewrite Htr. by destruct Hsame as [k ->].
  - exists o, h, es. split_and!; [done..|]. intros _ st' Hft Hfb.
    destruct (Hreb Hn st' Hft Hfb) as (t1 & db1 & r & Hot1 & Hob1 & Hes1 & Hrec).
    exists t1, db1, r. split_and!; [done..|]. eapply rebuilt_ext; [exact Hrec| |done|done].
    destruct Hsame as [k ->]. exists (mt_truncate_to (hc_tree s)). by destruct (hc_tree s).
Qed.
End Reader.

(** ** Exchanges and reopening *)

Inductive session_op :=
  | Exchange (op : sync_op)
  | ReopenOrigin
  | ReopenReplica.

Section Sessions.
Context `{FT : FlatTree} `{CE : CompactEncoding} `{B2 : Blake2b} `{ED : Ed25519} `{CR : Crc32}
  `{RA : RandomAccess} `{IO : IntMapOrder}.

(** The core is dropped, and opened again from its stores. *)
Definition reopen_core (generated : SigningKey) : coreM unit := fun s =>
  match reopen generated (hc_storage s) with
  | (_, Ok s') => (s', Ok tt)
  | (st, Err e) => (set_storage st s, Err e)
  | (st, Panic) => (set_storage st s, Panic)
  | (st, Diverge) => (set_storage st s, Diverge)
  end.

Definition sessions_exec (generated : SigningKey) (op : session_op) : peersM bool :=
  match op with
  | Exchange op => peers_exec op
  | ReopenOrigin => _ ← at_origin (reopen_core generated); mret true
  | ReopenReplica => _ ← at_replica (reopen_core generated); mret true
  end.

Fixpoint peers_sessions (generated : SigningKey) (ops : list session_op) : peersM bool :=
  match ops with
  | [] => mret true
  | op :: ops => a ← sessions_exec generated op; b ← peers_sessions generated ops; mret (a && b)
  end.
End Sessions.

(** What they mean for the log: opening again means nothing. *)
Definition session_exec (y : sync_log) (op : session_op) : sync_log :=
  match op with
  | Exchange op => sync_exec y op
  | _ => y
  end.
Definition session_run (y : sync_log) (ops : list session_op) : sync_log := foldl session_exec y ops.

Section Refinement.
Context `{FT : FlatTree} {FL : FlatTreeLaws FT} `{CE : CompactEncoding} {CL : CompactEncodingLaws CE}
  `{B2 : Blake2b} {BL : Blake2bLaws B2} `{ED : Ed25519} {EL : Ed25519Laws ED} `{CR : Crc32}
  {CRL : Crc32Laws CR} `{RA : RandomAccess} {RL : RandomAccessLaws RA}
  `{IO : IntMapOrder} {IOL : IntMapOrderLaws IO}.
Implicit Types (y : sync_log) (p : Hypercore * Hypercore).

(** A core is opened again only while it knows of at most 8192 blocks. *)
Definition session_op_ok y (op : session_op) : Prop :=
  match op with
  | Exchange op => sync_op_ok y op
  | ReopenOrigin => zlen (sy_origin y) <= 8192
  | ReopenReplica => Z.of_nat (sy_length y) <= 8192
  end.

Fixpoint session_ops_ok y (ops : list session_op) : Prop :=
  match ops with
  | [] => True
  | op :: ops => session_op_ok y op /\ session_ops_ok (session_exec y op) ops
  end.

Lemma wp_reopen_core generated s s' (Q : unit -> Hypercore -> Prop) :
  reopen generated (hc_storage s) = (hc_storage s, Ok s') -> Q tt s' -> wp (reopen_core generated) s Q.
Proof. intros Hr HQ. exists s', tt. split; [|done]. unfold reopen_core. by rewrite Hr. Qed.

Lemma reopen_origin_ok generated b sk y p :
  in_sync b sk y p -> session_op_ok y ReopenOrigin ->
  wp (sessions_exec generated ReopenOrigin) p (fun a p' => a = true /\ in_sync false sk y p').
Proof.
  destruct p as [o r]. intros [Hlen [(fs & Hl) Hsk Hsig Hbits] Hrep Hfork _] Hn. cbn [fst snd session_op_ok] in *.
  destruct (reopen_ok generated 3 _ fs o (hc_storage o) Hl Hn (ci_holds _ _ _ Hl)) as (o' & Hre & [Hl' Hst Hk Hf Hs Hb _]).
  cbn [sessions_exec]. apply wp_bind, wp_at_origin. eapply wp_reopen_core; [exact Hre|]. wp_step. split; [done|].
  constructor; cbn [fst snd]; [done| |done|by rewrite Hf|done].
  constructor; [|by rewrite Hk|by rewrite Hs, Hf|intros k Hk0; rewrite Hb by lia; by apply Hbits].
  exists fs. split; [done|]. intros k Hk0. rewrite Hb by done. by apply (cf_data _ _ _ _ Hl).
Qed.

Lemma reopen_replica_ok generated b sk y p :
  in_sync b sk y p -> session_op_ok y ReopenReplica ->
  wp (sessions_exec generated ReopenReplica) p (fun a p' => a = true /\ in_sync b sk y p').
Proof.
  destruct p as [o r]. intros [Hlen Ho [(fs & Hr) Hpk Hhas] Hfork Hexact] Hn. cbn [fst snd session_op_ok] in *.
  rewrite <-zlen_known_part in Hn by done.
  destruct (reader_reopen_ok generated _ fs r (hc_storage r) Hr Hn (rd_holds _ _ _ _ Hr)) as (r' & Hre & Hr' & Hk & Hf & Hb).
  cbn [sessions_exec]. apply wp_bind, wp_at_replica. eapply wp_reopen_core; [exact Hre|]. wp_step. split; [done|].
  constructor; cbn [fst snd]; [done|done| |by rewrite Hf|done].
  constructor; [by exists fs|by rewrite Hk|]. intros k Hk0. rewrite Hb by lia. by apply Hhas.
Qed.

Lemma in_sync_forget b sk y p : in_sync b sk y p -> in_sync false sk y p.
Proof. intros []. by constructor. Qed.

(** Every sequence of exchanges goes through, with either core opened again in
    between. *)
Lemma peers_sessions_ok generated sk ops : forall y p,
  in_sync false sk y p -> session_ops_ok y ops ->
  wp (peers_sessions generated ops) p (fun a p' => a = true /\ in_sync false sk (session_run y ops) p').
Proof.
  induction ops as [|op ops IH]; intros y p Hp Hok; cbn [peers_sessions]; [by wp_step|].
  destruct Hok as [Hop Hops]. apply wp_bind.
  assert (wp (sessions_exec generated op) p (fun a p' => a = true /\ in_sync false sk (session_exec y op) p')) as Hexec.
  { destruct op as [op| |]; [|by eapply reopen_origin_ok|by apply reopen_replica_ok].
    destruct op; [by apply sync_append_ok|by apply sync_upgrade_ok|by apply sync_fetch_ok]. }
  eapply wp_mono; [exact Hexec|]. intros ? p1 [-> Hp1]. apply wp_bind.
  eapply wp_mono; [by apply IH|]. intros ? p2 [-> Hp2]. by wp_step.
Qed.
End Refinement.
