(* ===== verification/SharedCore.v ===== *)
(** * Shared cores

    [replication/shared_core.rs] and [replication/mod.rs]: a [Hypercore] behind
    an asynchronous mutex, with the methods of the traits [CoreInfo],
    [CoreMethods] and [ReplicationMethods].  Each method is a sequence of
    instructions ([body]): it locks the core, runs the core's method and drops
    the guard.

    Tasks call the methods of one shared core; their instructions interleave
    ([step]).  A method of the core is not one step: it is suspended at every
    access to a store, and in between the core is in whatever state the method
    has brought it to so far.  [system_inv] shows that the lock hides this: every
    reachable state stands for one sequential run of the calls, the history. *)

From stdpp Require Import base list gmap relations.
From Stdlib Require Import ZArith Lia Bool.
From S2P Require Import Prelude FlatTree Channels Common BitfieldFixed BitfieldDynamic.
From S2P Require Import CompactEncoding Encoding Crypto OplogEntry Changeset Storage Oplog.
From S2P Require Import MerkleTree MerkleView MerkleProof Core CoreOpen CoreView CoreSpec.
Open Scope Z_scope.

(** ** Errors *)

Inductive CoreMethodsError := CoreMethods_HypercoreError (e : HypercoreError).
Inductive ReplicationMethodsError :=
  | Replication_HypercoreError (e : HypercoreError)
  | Replication_CoreMethodsError (e : CoreMethodsError).

(** [Ok(m?)] with the error converted. *)
Definition question {S E F A} (from : E -> F) (m : stateR S E A) : stateR S F A := fun s =>
  let '(s, r) := m s in
  (s, match r with Ok a => Ok a | Err e => Err (from e) | Panic => Panic | Diverge => Diverge end).

(** ** The methods, once the lock is held *)

Module SharedCore.
Section Ops.
Context `{FT : FlatTree} `{CE : CompactEncoding} `{B2 : Blake2b} `{ED : Ed25519} `{CR : Crc32}
  `{RA : RandomAccess} `{IO : IntMapOrder}.
Abbreviation core_methods A := (stateR Hypercore CoreMethodsError A).
Abbreviation replication_methods A := (stateR Hypercore ReplicationMethodsError A).

Definition info : core_methods Info := gets Core.info.
Definition key_pair : core_methods PartialKeypair := gets Core.key_pair.

Definition verify_and_apply_proof (proof : Proof_) : replication_methods bool :=
  question Replication_HypercoreError (Core.verify_and_apply_proof proof).
Definition missing_nodes (index : Z) : replication_methods Z :=
  question Replication_HypercoreError (Core.missing_nodes index).
Definition create_proof (block hash : option RequestBlock) (seek : option RequestSeek)
    (upgrade : option RequestUpgrade) : replication_methods (option Proof_) :=
  question Replication_HypercoreError (Core.create_proof block hash seek upgrade).
(** The receiver gets the events that come after the ones sent so far. *)
Definition event_subscribe : replication_methods nat := gets (length ∘ hc_events).

Definition has (index : Z) : core_methods bool :=
  question CoreMethods_HypercoreError (fun s => (s, Core.has s index)).
Definition get (index : Z) : core_methods (option (list Z)) :=
  question CoreMethods_HypercoreError (Core.get index).
Definition append (data : list Z) : core_methods AppendOutcome :=
  question CoreMethods_HypercoreError (Core.append data).
Definition append_batch (batch : list (list Z)) : core_methods AppendOutcome :=
  question CoreMethods_HypercoreError (Core.append_batch batch).
End Ops.
End SharedCore.

(** A call of one of the methods, and what it returns. *)
Inductive call :=
  | CallInfo
  | CallKeyPair
  | CallVerifyAndApplyProof (proof : Proof_)
  | CallMissingNodes (index : Z)
  | CallCreateProof (block hash : option RequestBlock) (seek : option RequestSeek) (upgrade : option RequestUpgrade)
  | CallEventSubscribe
  | CallHas (index : Z)
  | CallGet (index : Z)
  | CallAppend (data : list Z)
  | CallAppendBatch (batch : list (list Z)).

Section Tasks.
Context `{FT : FlatTree} `{CE : CompactEncoding} `{B2 : Blake2b} `{ED : Ed25519} `{CR : Crc32}
  `{RA : RandomAccess} `{IO : IntMapOrder} `{AM : AsyncMutex}.

Inductive reply :=
  | ReturnInfo (i : Info)
  | ReturnKeyPair (k : PartialKeypair)
  | ReturnApplied (b : bool)
  | ReturnMissing (n : Z)
  | ReturnProof (p : option Proof_)
  | ReturnReceiver (position : nat)
  | ReturnHas (b : bool)
  | ReturnGet (data : option (list Z))
  | ReturnAppend (o : AppendOutcome).

(** All methods as one, with the larger of the error types. *)
Definition exec_call (c : call) : stateR Hypercore ReplicationMethodsError reply :=
  match c with
  | CallInfo => i ← question Replication_CoreMethodsError SharedCore.info; mret (ReturnInfo i)
  | CallKeyPair => k ← question Replication_CoreMethodsError SharedCore.key_pair; mret (ReturnKeyPair k)
  | CallVerifyAndApplyProof p => b ← SharedCore.verify_and_apply_proof p; mret (ReturnApplied b)
  | CallMissingNodes i => n ← SharedCore.missing_nodes i; mret (ReturnMissing n)
  | CallCreateProof b h k u => p ← SharedCore.create_proof b h k u; mret (ReturnProof p)
  | CallEventSubscribe => n ← SharedCore.event_subscribe; mret (ReturnReceiver n)
  | CallHas i => b ← question Replication_CoreMethodsError (SharedCore.has i); mret (ReturnHas b)
  | CallGet i => d ← question Replication_CoreMethodsError (SharedCore.get i); mret (ReturnGet d)
  | CallAppend d => o ← question Replication_CoreMethodsError (SharedCore.append d); mret (ReturnAppend o)
  | CallAppendBatch b => o ← question Replication_CoreMethodsError (SharedCore.append_batch b); mret (ReturnAppend o)
  end.

Definition outcome_of : Type := outcome ReplicationMethodsError reply.

(** ** Tasks *)

(** What a method of the shared core does: [self.0.lock()], its [await], the
    call of the core's method, its return, and the drop of the guard at the end
    of the block. *)
Inductive instr := Lock | Await | Enter | Leave | DropGuard.

Definition body (c : call) : list instr :=
  match c with
  | CallInfo | CallKeyPair => [Lock; Await; Enter; Leave; DropGuard]
  | CallVerifyAndApplyProof _ | CallMissingNodes _ | CallCreateProof _ _ _ _ => [Lock; Await; Enter; Leave; DropGuard]
  | CallEventSubscribe => [Lock; Await; Enter; Leave; DropGuard]
  | CallHas _ | CallGet _ | CallAppend _ | CallAppendBatch _ => [Lock; Await; Enter; Leave; DropGuard]
  end.

(** Where a task is: between calls, or in one, with the instructions left, the
    core as the core's method found it while that runs, and what it returned. *)
Inductive task_state :=
  | Ready
  | Running (c : call) (code : list instr) (found : option Hypercore) (r : option outcome_of).

Record task := mkTask { tk_state : task_state; tk_todo : list call; tk_done : list (call * outcome_of) }.

Record system := mkSystem {
  sys_core : Hypercore;
  sys_mutex : mutex;
  sys_tasks : list task;
  (** who called what, in the order in which the methods returned *)
  sys_history : list (nat * (call * outcome_of));
}.

Definition start (s : Hypercore) (programs : list (list call)) : system :=
  mkSystem s mutex_new ((fun p => mkTask Ready p []) <$> programs) [].

(** A panic unwinds the task; the guard is dropped all the same. *)
Definition after (r : outcome_of) (todo : list call) : list call :=
  match r with Panic => [] | _ => todo end.

(** Only [Await] looks at the lock.  While the core's method runs, the core that
    everybody sees is arbitrary ([torn]). *)
Inductive step (y : system) : system -> Prop :=
  | step_call t c todo don :
      sys_tasks y !! t = Some (mkTask Ready (c :: todo) don) ->
      step y (mkSystem (sys_core y) (sys_mutex y)
                (<[t := mkTask (Running c (body c) None None) todo don]> (sys_tasks y)) (sys_history y))
  | step_lock t c code e r todo don :
      sys_tasks y !! t = Some (mkTask (Running c (Lock :: code) e r) todo don) ->
      step y (mkSystem (sys_core y) (lock t (sys_mutex y))
                (<[t := mkTask (Running c code e r) todo don]> (sys_tasks y)) (sys_history y))
  | step_await t c code e r todo don m :
      sys_tasks y !! t = Some (mkTask (Running c (Await :: code) e r) todo don) -> poll_lock t (sys_mutex y) = Some m ->
      step y (mkSystem (sys_core y) m (<[t := mkTask (Running c code e r) todo don]> (sys_tasks y)) (sys_history y))
  | step_enter t c code e r todo don torn :
      sys_tasks y !! t = Some (mkTask (Running c (Enter :: code) e r) todo don) ->
      step y (mkSystem torn (sys_mutex y)
                (<[t := mkTask (Running c code (Some (sys_core y)) r) todo don]> (sys_tasks y)) (sys_history y))
  | step_leave t c code s0 r0 todo don s r :
      sys_tasks y !! t = Some (mkTask (Running c (Leave :: code) (Some s0) r0) todo don) ->
      exec_call c s0 = (s, r) -> r <> Diverge ->
      step y (mkSystem s (sys_mutex y) (<[t := mkTask (Running c code None (Some r)) todo don]> (sys_tasks y))
                (sys_history y ++ [(t, (c, r))]))
  | step_drop t c code e r todo don :
      sys_tasks y !! t = Some (mkTask (Running c (DropGuard :: code) e r) todo don) ->
      step y (mkSystem (sys_core y) (unlock (sys_mutex y))
                (<[t := mkTask (Running c code e r) todo don]> (sys_tasks y)) (sys_history y))
  | step_return t c e r todo don :
      sys_tasks y !! t = Some (mkTask (Running c [] e (Some r)) todo don) ->
      step y (mkSystem (sys_core y) (sys_mutex y)
                (<[t := mkTask Ready (after r todo) (don ++ [(c, r)])]> (sys_tasks y)) (sys_history y)).

(** Nobody has anything left to do. *)
Definition finished (y : system) : Prop :=
  forall t x, sys_tasks y !! t = Some x -> tk_state x = Ready /\ tk_todo x = [].

(** ** One core, one call after the other *)

Fixpoint run_calls (s : Hypercore) (cs : list call) : Hypercore * list outcome_of :=
  match cs with
  | [] => (s, [])
  | c :: cs =>
      let '(s, r) := exec_call c s in
      let '(s, rs) := run_calls s cs in
      (s, r :: rs)
  end.

(** The calls of a task in a history. *)
Definition of_task {A} (t : nat) (h : list (nat * A)) : list A := (filter (fun x => x.1 = t) h).*2.

(** The calls of the history are the ones of the programs, in their order. *)
Definition interleaves (programs : list (list call)) (h : list (nat * call)) : Prop :=
  forall t, of_task t h `prefix_of` default [] (programs !! t).

(** ** Every state stands for a sequential run *)

(** How far a task can be in a call. *)
Inductive stage : task_state -> Prop :=
  | stage_ready : stage Ready
  | stage_lock c : stage (Running c [Lock; Await; Enter; Leave; DropGuard] None None)
  | stage_await c : stage (Running c [Await; Enter; Leave; DropGuard] None None)
  | stage_enter c : stage (Running c [Enter; Leave; DropGuard] None None)
  | stage_leave c s : stage (Running c [Leave; DropGuard] (Some s) None)
  | stage_drop c r : stage (Running c [DropGuard] None (Some r))
  | stage_return c r : stage (Running c [] None (Some r)).

Definition returning (x : task) : list (call * outcome_of) :=
  match tk_state x with Running c _ _ (Some r) => [(c, r)] | _ => [] end.
Definition current (x : task) : list call :=
  match tk_state x with Running c _ _ None => [c] | _ => [] end.
Definition is_awaiting (x : task) : Prop := match tk_state x with Running _ (Await :: _) _ _ => True | _ => False end.
Definition is_holding (x : task) : Prop :=
  match tk_state x with Running _ ((Enter | Leave | DropGuard) :: _) _ _ => True | _ => False end.
Definition found (x : task) : option Hypercore := match tk_state x with Running _ _ e _ => e | _ => None end.

(** What the history and the lock say of a task. *)
Record task_inv (program : list call) (h : list (call * outcome_of)) (m : mutex) (t : nat) (x : task) : Prop := {
  ti_stage : stage (tk_state x);
  ti_history : h = tk_done x ++ returning x;
  ti_program : h.*1 ++ current x ++ tk_todo x `prefix_of` program;
  ti_whole : h.*1 ++ current x ++ tk_todo x = program \/ Panic ∈ h.*2;
  ti_holder : holder m = Some t <-> is_holding x;
  ti_waiting : t ∈ waiting m <-> is_awaiting x;
}.

(** Nobody is in a method of the core. *)
Definition idle (tasks : list task) : Prop := forall t x, tasks !! t = Some x -> found x = None.

Record system_inv (s : Hypercore) (programs : list (list call)) (y : system) : Prop := {
  si_replies : (run_calls s (sys_history y).*2.*1).2 = (sys_history y).*2.*2;
  (** what a method finds is what the calls before it left *)
  si_found t x s0 : sys_tasks y !! t = Some x -> found x = Some s0 -> s0 = (run_calls s (sys_history y).*2.*1).1;
  si_core : idle (sys_tasks y) -> sys_core y = (run_calls s (sys_history y).*2.*1).1;
  si_length : length (sys_tasks y) = length programs;
  si_task t x : sys_tasks y !! t = Some x ->
    task_inv (default [] (programs !! t)) (of_task t (sys_history y)) (sys_mutex y) t x;
  si_history t : sys_tasks y !! t = None -> of_task t (sys_history y) = [];
  si_holder t : holder (sys_mutex y) = Some t -> is_Some (sys_tasks y !! t);
  si_waiting t : t ∈ waiting (sys_mutex y) -> is_Some (sys_tasks y !! t);
}.

Context {AML : AsyncMutexLaws AM}.
Implicit Types (y : system) (s : Hypercore) (programs : list (list call)).

Lemma of_task_snoc {A} t t' (a : A) h :
  of_task t (h ++ [(t', a)]) = of_task t h ++ (if decide (t' = t) then [a] else []).
Proof.
  unfold of_task. rewrite filter_app, fmap_app. f_equal. rewrite filter_cons. cbn [fst].
  by destruct (decide (t' = t)).
Qed.

Lemma of_task_calls t (h : list (nat * (call * outcome_of))) :
  of_task t (prod_map id fst <$> h) = (of_task t h).*1.
Proof.
  unfold of_task. induction h as [|[t' [c r]] h IH]; [done|]. cbn [fmap list_fmap].
  rewrite !filter_cons. cbn [fst prod_map id]. destruct (decide (t' = t)); [|done]. cbn. by rewrite IH.
Qed.

Lemma run_calls_snoc cs c : forall s,
  run_calls s (cs ++ [c]) =
    ((exec_call c (run_calls s cs).1).1, (run_calls s cs).2 ++ [(exec_call c (run_calls s cs).1).2]).
Proof.
  induction cs as [|c' cs IH]; intros s; cbn [run_calls app fst snd].
  - by destruct (exec_call c s).
  - destruct (exec_call c' s) as [s' r']. rewrite IH. destruct (run_calls s' cs) as [s'' rs']. done.
Qed.

Lemma start_inv s programs : system_inv s programs (start s programs).
Proof.
  destruct mutex_new_law as [Hh Hw]. constructor; cbn [start sys_core sys_mutex sys_tasks sys_history]; try done.
  - intros t x s0 Hx. rewrite list_lookup_fmap in Hx. destruct (programs !! t) as [p|]; [|done]. by injection Hx as <-.
  - by rewrite length_fmap.
  - intros t x Hx. rewrite list_lookup_fmap in Hx. destruct (programs !! t) as [p|]; [|done]. injection Hx as <-.
    constructor; [constructor|done|done|by left| |]; cbn; [by rewrite Hh|rewrite Hw; set_solver].
  - by rewrite Hh.
  - rewrite Hw. set_solver.
Qed.

(** Only the holder of the lock is in a method of the core. *)
Lemma found_holder s programs y t x s0 :
  system_inv s programs y -> sys_tasks y !! t = Some x -> found x = Some s0 -> holder (sys_mutex y) = Some t.
Proof.
  intros Hinv Hx He. destruct (si_task _ _ _ Hinv t x Hx) as [Hst _ _ _ Hho _]. apply Hho.
  unfold found, is_holding in *. by destruct Hst.
Qed.

Lemma holder_idle s programs y t x :
  system_inv s programs y -> sys_tasks y !! t = Some x -> is_holding x -> found x = None -> idle (sys_tasks y).
Proof.
  intros Hinv Hx Hh Hnone t' x' Hx'. destruct (found x') as [s0|] eqn:He; [|done].
  pose proof (found_holder _ _ _ _ _ _ Hinv Hx' He) as Ht'.
  apply (ti_holder _ _ _ _ _ (si_task _ _ _ Hinv t x Hx)) in Hh. assert (t' = t) as -> by congruence. congruence.
Qed.

(** The other tasks see the history and the lock as before. *)
Lemma task_inv_other program h m m' t x :
  (holder m' = Some t <-> holder m = Some t) -> (t ∈ waiting m' <-> t ∈ waiting m) ->
  task_inv program h m t x -> task_inv program h m' t x.
Proof. intros Hh Hw [? ? ? ? Hho Hwa]. constructor; [done..| |]; [by rewrite Hh|by rewrite Hw]. Qed.

(** A step of task [t] changes its own entry, and the rest as the others allow. *)
Lemma step_task_inv s programs y t x x' s' m h :
  system_inv s programs y -> sys_tasks y !! t = Some x ->
  (run_calls s h.*2.*1).2 = h.*2.*2 ->
  (forall t' x1 s0, <[t := x']> (sys_tasks y) !! t' = Some x1 -> found x1 = Some s0 -> s0 = (run_calls s h.*2.*1).1) ->
  (idle (<[t := x']> (sys_tasks y)) -> s' = (run_calls s h.*2.*1).1) ->
  (forall t', t' <> t -> of_task t' h = of_task t' (sys_history y)) ->
  (forall t', t' <> t -> (holder m = Some t' <-> holder (sys_mutex y) = Some t') /\
     (t' ∈ waiting m <-> t' ∈ waiting (sys_mutex y))) ->
  task_inv (default [] (programs !! t)) (of_task t h) m t x' ->
  system_inv s programs (mkSystem s' m (<[t := x']> (sys_tasks y)) h).
Proof.
  intros [_ _ _ Hl Ht Hn Hh Hw] Hx Hrun Hfound Hidle Hhist Hlock Hinv.
  assert (forall t', is_Some (sys_tasks y !! t') -> is_Some (<[t := x']> (sys_tasks y) !! t')) as Hdom.
  { intros t' Ht'. destruct (decide (t' = t)) as [->|Hne].
    - rewrite list_lookup_insert_eq; [by eexists|]. by eapply lookup_lt_Some.
    - by rewrite list_lookup_insert_ne. }
  constructor; cbn [sys_core sys_mutex sys_tasks sys_history]; [done|done|done|by rewrite length_insert|..].
  - intros t' x1 Hx1. destruct (decide (t' = t)) as [->|Hne].
    + rewrite list_lookup_insert_eq in Hx1 by (by eapply lookup_lt_Some). by injection Hx1 as <-.
    + rewrite list_lookup_insert_ne in Hx1 by done. rewrite Hhist by done. destruct (Hlock t' Hne).
      by eapply task_inv_other; [..|apply Ht].
  - intros t' Hnone. destruct (decide (t' = t)) as [->|Hne].
    + rewrite list_lookup_insert_eq in Hnone by (by eapply lookup_lt_Some). done.
    + rewrite list_lookup_insert_ne in Hnone by done. rewrite Hhist by done. by apply Hn.
  - intros t' Ht'. apply Hdom. destruct (decide (t' = t)) as [->|Hne]; [by eexists|]. by apply Hh, Hlock.
  - intros t' Ht'. apply Hdom. destruct (decide (t' = t)) as [->|Hne]; [by eexists|]. by apply Hw, Hlock.
Qed.

(** A step that changes neither the core nor the history. *)
Lemma step_quiet_inv s programs y t x x' m :
  system_inv s programs y -> sys_tasks y !! t = Some x -> found x' = found x ->
  (forall t', t' <> t -> (holder m = Some t' <-> holder (sys_mutex y) = Some t') /\
     (t' ∈ waiting m <-> t' ∈ waiting (sys_mutex y))) ->
  task_inv (default [] (programs !! t)) (of_task t (sys_history y)) m t x' ->
  system_inv s programs (mkSystem (sys_core y) m (<[t := x']> (sys_tasks y)) (sys_history y)).
Proof.
  intros Hinv Hx Hf Hlock Ht. pose proof (lookup_lt_Some _ _ _ Hx) as Hlt.
  eapply step_task_inv; [done|done|apply Hinv|..|done|done|done].
  - intros t' x1 s0 Hx1 Hs0. destruct (decide (t' = t)) as [->|Hne].
    + rewrite list_lookup_insert_eq in Hx1 by done. injection Hx1 as <-. rewrite Hf in Hs0. by eapply (si_found _ _ _ Hinv).
    + rewrite list_lookup_insert_ne in Hx1 by done. by eapply (si_found _ _ _ Hinv).
  - intros Hidle. apply (si_core _ _ _ Hinv). intros t' x1 Hx1. destruct (decide (t' = t)) as [->|Hne].
    + rewrite Hx in Hx1. injection Hx1 as <-. rewrite <-Hf. apply (Hidle t). by apply list_lookup_insert_eq.
    + apply (Hidle t'). by rewrite list_lookup_insert_ne.
Qed.

(** Entering the core's method: it finds what the calls before it left. *)
Lemma step_enter_inv s programs y t c todo don torn :
  system_inv s programs y -> sys_tasks y !! t = Some (mkTask (Running c [Enter; Leave; DropGuard] None None) todo don) ->
  system_inv s programs (mkSystem torn (sys_mutex y)
    (<[t := mkTask (Running c [Leave; DropGuard] (Some (sys_core y)) None) todo don]> (sys_tasks y)) (sys_history y)).
Proof.
  intros Hinv Hx. pose proof (lookup_lt_Some _ _ _ Hx) as Hlt.
  assert (idle (sys_tasks y)) as Hidle by by eapply holder_idle.
  eapply step_task_inv; [done|done|apply Hinv|..|done|done|].
  - intros t' x1 s0 Hx1 Hs0. destruct (decide (t' = t)) as [->|Hne].
    + rewrite list_lookup_insert_eq in Hx1 by done. injection Hx1 as <-. injection Hs0 as <-. by apply Hinv.
    + rewrite list_lookup_insert_ne in Hx1 by done. by rewrite (Hidle t' x1 Hx1) in Hs0.
  - intros Hid. specialize (Hid t). rewrite list_lookup_insert_eq in Hid by done. by specialize (Hid _ eq_refl).
  - destruct (si_task _ _ _ Hinv t _ Hx) as [_ ? ? ? ? ?]. constructor; [constructor|done..].
Qed.

(** Leaving it: the core is what the call makes of what was found. *)
Lemma step_leave_inv s programs y t c s0 todo don s' r :
  system_inv s programs y -> sys_tasks y !! t = Some (mkTask (Running c [Leave; DropGuard] (Some s0) None) todo don) ->
  exec_call c s0 = (s', r) ->
  system_inv s programs (mkSystem s' (sys_mutex y)
    (<[t := mkTask (Running c [DropGuard] None (Some r)) todo don]> (sys_tasks y)) (sys_history y ++ [(t, (c, r))])).
Proof.
  intros Hinv Hx Hex. pose proof (lookup_lt_Some _ _ _ Hx) as Hlt.
  pose proof (si_found _ _ _ Hinv t _ s0 Hx eq_refl) as Hs0. rewrite Hs0 in Hex.
  pose proof (found_holder _ _ _ _ _ _ Hinv Hx eq_refl) as Hht.
  assert ((run_calls s (sys_history y ++ [(t, (c, r))]).*2.*1) = (s', (sys_history y).*2.*2 ++ [r])) as Hrun.
  { rewrite !fmap_app. cbn [fmap list_fmap]. rewrite run_calls_snoc, (si_replies _ _ _ Hinv). cbn [snd fst]. by rewrite Hex. }
  eapply step_task_inv; [done|done|by rewrite Hrun, !fmap_app|..|done|].
  - intros t' x1 s1 Hx1 Hs1. exfalso. destruct (decide (t' = t)) as [->|Hne].
    + rewrite list_lookup_insert_eq in Hx1 by done. by injection Hx1 as <-.
    + rewrite list_lookup_insert_ne in Hx1 by done. pose proof (found_holder _ _ _ _ _ _ Hinv Hx1 Hs1). congruence.
  - by rewrite Hrun.
  - intros t' Hne. by rewrite of_task_snoc, decide_False, app_nil_r.
  - destruct (si_task _ _ _ Hinv t _ Hx) as [_ Hh Hp Hall Hho Hwa]. unfold returning, current in Hh, Hp, Hall.
    cbn [tk_state tk_todo tk_done] in Hh, Hp, Hall. rewrite of_task_snoc, decide_True by done.
    constructor; cbn; [constructor| |by rewrite fmap_app, <-app_assoc| |done|done].
    + by rewrite Hh, app_nil_r.
    + destruct Hall as [Hall|Hpanic]; [left; by rewrite fmap_app, <-app_assoc|right].
      rewrite fmap_app. apply elem_of_app. by left.
Qed.

(** The body of a call is the first stage of it. *)
Lemma body_stage c : body c = [Lock; Await; Enter; Leave; DropGuard].
Proof. by destruct c. Qed.

Lemma step_inv s programs y y' : system_inv s programs y -> step y y' -> system_inv s programs y'.
Proof.
  intros Hinv Hstep. destruct Hstep as [t c todo don Hx|t c code e r todo don Hx|t c code e r todo don m Hx Hm|
    t c code e r todo don torn Hx|t c code s0 r0 todo don s' r Hx Hr Hd|t c code e r todo don Hx|t c e r todo don Hx].
  all: pose proof (si_task _ _ _ Hinv _ _ Hx) as [Hst Hh Hp Hall Hho Hwa]; unfold returning, current in Hh, Hp, Hall;
    cbn [tk_state tk_todo tk_done] in Hst, Hh, Hp, Hall; inversion Hst; subst.
  - rewrite body_stage. eapply step_quiet_inv; [done|done|done|done|]. constructor; [constructor|done..].
  - destruct (lock_law t (sys_mutex y)) as [Hlh Hlw]. eapply step_quiet_inv; [done|done|done|..].
    + intros t' Hne. rewrite Hlh, Hlw. set_solver.
    + constructor; [constructor|done..| |]; cbn; [by rewrite Hlh|]. rewrite Hlw. set_solver.
  - destruct (poll_lock_law _ _ _ Hm) as (Hfree & Hin & Hlh & Hlw). eapply step_quiet_inv; [done|done|done|..].
    + intros t' Hne. rewrite Hlh, Hlw, Hfree. split; [naive_solver|set_solver].
    + constructor; [constructor|done..| |]; cbn; [by rewrite Hlh|]. rewrite Hlw. set_solver.
  - by apply step_enter_inv.
  - by eapply step_leave_inv.
  - destruct (unlock_law (sys_mutex y)) as [Hlh Hlw]. cbn in Hho. eapply step_quiet_inv; [done|done|done|..].
    + intros t' Hne. rewrite Hlh, Hlw, (proj2 Hho) by done. split; [naive_solver|done].
    + constructor; [constructor|done..| |by rewrite Hlw]. cbn. by rewrite Hlh.
  - eapply step_quiet_inv; [done|done|done|done|]. constructor; [constructor|by cbn; rewrite app_nil_r| | |done|done]; cbn.
    + destruct r; cbn [after]; try done. etrans; [|exact Hp]. apply prefix_app, prefix_nil.
    + destruct r; cbn [after]; try done. right. rewrite Hh, fmap_app. apply elem_of_app. right. by left.
Qed.

Lemma reachable_inv s programs y : rtc step (start s programs) y -> system_inv s programs y.
Proof.
  intros Hr. pose proof (start_inv s programs) as Hs. remember (start s programs) as y0 eqn:Hy0. clear Hy0.
  induction Hr; [done|]. eauto using step_inv.
Qed.

(** The history is an interleaving of the programs. *)
Lemma history_interleaves s programs y :
  system_inv s programs y -> interleaves programs (prod_map id fst <$> sys_history y).
Proof.
  intros Hinv t. rewrite of_task_calls. destruct (sys_tasks y !! t) as [x|] eqn:Hx.
  - destruct (si_task _ _ _ Hinv t x Hx) as [_ _ Hp _ _ _]. etrans; [|exact Hp]. by apply prefix_app_r.
  - rewrite (si_history _ _ _ Hinv t Hx). apply prefix_nil.
Qed.

(** The first call of an interleaving. *)
Lemma interleaves_cons programs t c h :
  interleaves programs ((t, c) :: h) ->
  exists rest, programs !! t = Some (c :: rest) /\ interleaves (<[t := rest]> programs) h.
Proof.
  intros Hh. pose proof (Hh t) as Ht. unfold of_task in Ht. rewrite filter_cons_True in Ht by done.
  destruct (programs !! t) as [p|] eqn:Hp; [|by apply prefix_nil_not in Ht].
  destruct Ht as [k Hk]. change (p = c :: (of_task t h ++ k)) in Hk. subst p. exists (of_task t h ++ k).
  split; [done|]. intros t'. destruct (decide (t' = t)) as [->|Hne].
  - rewrite list_lookup_insert_eq by (by eapply lookup_lt_Some). by exists k.
  - rewrite list_lookup_insert_ne by done. specialize (Hh t'). unfold of_task in *.
    by rewrite filter_cons_False in Hh by (cbn; congruence).
Qed.

(** ** Progress *)

(** A task can go on by itself. *)
Definition may_go (x : task) : bool :=
  match tk_state x, tk_todo x with
  | Ready, _ :: _ => true
  | Running _ (Lock :: _) _ _, _ | Running _ [] _ (Some _), _ => true
  | _, _ => false
  end.

(** A call whose method of the core does not return. *)
Definition stuck_in (y : system) (t : nat) (c : call) (s : Hypercore) : Prop :=
  (exists code r todo don, sys_tasks y !! t = Some (mkTask (Running c code (Some s) r) todo don)) /\
  (exec_call c s).2 = Diverge.

(** Somebody can go on until everybody is done, unless a method of the core
    runs for ever. *)
Lemma system_progress s programs y :
  system_inv s programs y ->
  finished y \/ (exists y', step y y') \/ exists t c s0, stuck_in y t c s0.
Proof.
  intros Hinv. destruct (existsb may_go (sys_tasks y)) eqn:Hex.
  { right; left. apply existsb_exists in Hex as ([st todo don] & Hin & Hmay).
    apply list_elem_of_In, list_elem_of_lookup in Hin as [t Hx].
    destruct st as [|c [|[] code] e [r|]]; try done; [|eexists; by eapply step_return|eexists; by eapply step_lock..].
    destruct todo as [|c todo]; [done|]. eexists. by eapply step_call. }
  destruct (holder (sys_mutex y)) as [t|] eqn:Hh.
  - right. destruct (si_holder _ _ _ Hinv t Hh) as [[st todo don] Hx].
    destruct (si_task _ _ _ Hinv t _ Hx) as [Hst _ _ _ Hho _]. apply Hho in Hh. cbn [tk_state] in Hst.
    destruct Hst as [|c|c|c|c s0|c r|c r]; try done; [left; eexists; by eapply (step_enter y t c _ _ _ _ _ s)| |left; eexists; by eapply step_drop].
    destruct (exec_call c s0) as [s' r] eqn:Hr. assert (r = Diverge \/ r <> Diverge) as [->|Hne] by (destruct r; auto).
    + right. exists t, c, s0. split; [by eexists _, _, _, _|]. by rewrite Hr.
    + left. eexists. by eapply step_leave.
  - destruct (decide (waiting (sys_mutex y) = ∅)) as [He|Hne].
    + left. intros t [st todo don] Hx. destruct (si_task _ _ _ Hinv t _ Hx) as [Hst _ _ _ Hho Hwa].
      rewrite Hh in Hho. rewrite He in Hwa.
      assert (may_go (mkTask st todo don) = false) as Hmay.
      { destruct (may_go _) eqn:E; [|done]. enough (existsb may_go (sys_tasks y) = true) by congruence.
        apply existsb_exists. eexists. split; [|exact E]. apply list_elem_of_In. by eapply list_elem_of_lookup_2. }
      cbn [tk_state] in Hst. destruct Hst; cbn in Hho, Hwa, Hmay; try done; try by (exfalso; naive_solver || set_solver).
      split; [done|]. by destruct todo.
    + right; left. destruct (poll_lock_free _ Hh Hne) as (t & Hin & [m Hm]).
      destruct (si_waiting _ _ _ Hinv t Hin) as [[st todo don] Hx].
      destruct (si_task _ _ _ Hinv t _ Hx) as [Hst _ _ _ _ Hwa]. apply Hwa in Hin. cbn [tk_state] in Hst.
      destruct Hst; try done. eexists. by eapply step_await.
Qed.

(** How many steps are left. *)
Definition work (x : task) : nat :=
  7 * length (tk_todo x) +
  match tk_state x with Ready => 0 | Running _ code _ _ => S (length code) end.
Definition work_left (y : system) : nat := sum_list_with work (sys_tasks y).

Lemma sum_list_insert (l : list task) : forall t x x',
  l !! t = Some x -> (work x' < work x)%nat -> (sum_list_with work (<[t := x']> l) < sum_list_with work l)%nat.
Proof.
  induction l as [|x0 l IH]; intros [|t] x x' Hx Hlt; [done..| |].
  - injection Hx as ->. change (work x' + sum_list_with work l < work x + sum_list_with work l)%nat. lia.
  - specialize (IH t x x' Hx Hlt).
    change (work x0 + sum_list_with work (<[t := x']> l) < work x0 + sum_list_with work l)%nat. lia.
Qed.

Lemma step_work y y' : step y y' -> (work_left y' < work_left y)%nat.
Proof.
  intros Hs. destruct Hs as [t c todo don Hx|t c code e r todo don Hx|t c code e r todo don m Hx Hm|
    t c code e r todo don torn Hx|t c code s0 r0 todo don s' r Hx Hr Hd|t c code e r todo don Hx|t c e r todo don Hx].
  all: eapply sum_list_insert; [exact Hx|]; unfold work; rewrite ?body_stage; cbn [tk_state tk_todo length]; try lia.
  destruct r; cbn [after length]; lia.
Qed.

Lemma steps_work n y y' : nsteps step n y y' -> (n + work_left y' <= work_left y)%nat.
Proof.
  intros Hn. induction Hn as [|n y y1 y' Hs _ IH]; [done|]. apply step_work in Hs. lia.
Qed.

Lemma start_work s programs : work_left (start s programs) = (7 * sum_list_with length programs)%nat.
Proof.
  unfold work_left. cbn [start sys_tasks]. induction programs as [|p ps IH]; [done|].
  cbn [fmap list_fmap sum_list_with] in *. rewrite IH. unfold work. cbn [tk_todo tk_state]. lia.
Qed.

(** When all is done, everything was called, unless a call panicked. *)
Lemma finished_done s programs y t x :
  system_inv s programs y -> finished y -> sys_tasks y !! t = Some x -> tk_done x = of_task t (sys_history y).
Proof.
  intros Hinv Hf Hx. destruct (Hf t x Hx) as [Hst _]. destruct (si_task _ _ _ Hinv t x Hx) as [_ -> _ _ _ _].
  unfold returning. rewrite Hst. by rewrite app_nil_r.
Qed.
End Tasks.

(** ** Shared logs *)

(** The calls that have a meaning for the log. *)
Definition op_of (c : call) : option core_op :=
  match c with
  | CallInfo => Some OpInfo
  | CallHas i => Some (OpHas i)
  | CallGet i => Some (OpGet i)
  | CallAppend data => Some (OpAppendBatch [data])
  | CallAppendBatch batch => Some (OpAppendBatch batch)
  | _ => None
  end.

Section SharedLog.
Context `{FT : FlatTree} {FL : FlatTreeLaws FT} `{CE : CompactEncoding} {CL : CompactEncodingLaws CE}
  `{B2 : Blake2b} {BL : Blake2bLaws B2} `{ED : Ed25519} {EL : Ed25519Laws ED} `{CR : Crc32}
  {CRL : Crc32Laws CR} `{RA : RandomAccess} {RL : RandomAccessLaws RA}
  `{IO : IntMapOrder} {IOL : IntMapOrderLaws IO} `{AM : AsyncMutex} {AML : AsyncMutexLaws AM}.
Implicit Types (y : system) (s : Hypercore) (l : log).

(** What a call returned, as a reply of the log. *)
Definition as_log (r : outcome_of) : result core_reply :=
  match r with
  | Ok (ReturnInfo i) =>
      Ok (ReplyInfo (info_length i) (info_byte_length i) (info_contiguous_length i) (info_writeable i))
  | Ok (ReturnHas b) => Ok (ReplyHas b)
  | Ok (ReturnGet d) => Ok (ReplyGet d)
  | Ok (ReturnAppend o) => Ok (ReplyAppend o)
  | Ok _ => Panic
  | Err (Replication_HypercoreError e) => Err e
  | Err (Replication_CoreMethodsError (CoreMethods_HypercoreError e)) => Err e
  | Panic => Panic
  | Diverge => Diverge
  end.

Lemma exec_call_op c op s :
  op_of c = Some op -> core_exec op s = ((exec_call c s).1, as_log (exec_call c s).2).
Proof.
  destruct c; intros [= <-]; cbn [core_exec exec_call]; unfold mbind, stateR_bind, SharedCore.info, SharedCore.has,
    SharedCore.get, SharedCore.append, SharedCore.append_batch, question, gets, lift, id.
  - done.
  - by destruct (Core.has s index).
  - by destruct (Core.get index s) as [s' []].
  - unfold Core.append. by destruct (Core.append_batch [data] s) as [s' []].
  - by destruct (Core.append_batch batch s) as [s' []].
Qed.

(** The calls that have a meaning for the log, or none at all. *)
Definition log_call (c : call) : Prop := is_Some (op_of c) \/ c = CallKeyPair \/ c = CallEventSubscribe.

(** The replies to those that have one. *)
Definition log_replies (h : list (call * outcome_of)) : list (result core_reply) :=
  omap (fun x => (fun _ => as_log x.2) <$> op_of x.1) h.

(** The log never panics and always answers. *)
Lemma log_exec_defined l op : (log_exec l op).2 <> Panic /\ (log_exec l op).2 <> Diverge.
Proof.
  destruct op as [batch|i|i|start end_| |]; cbn [log_exec]; try done.
  - by destruct (log_writeable l).
  - cbn. destruct (log_has l i); [|done]. by destruct (_ <=? _).
  - destruct (end_ <=? start); [done|]. unfold log_clear. by destruct (hole_error l _).
Qed.

Lemma op_of_failed c op l : op_of c = Some op -> failed_clear l op = 0.
Proof. by destruct c; intros [= <-]. Qed.

(** A sequence of such calls is a run of the log. *)
Lemma run_calls_log cs : forall l s,
  stands_for l s -> Forall log_call cs -> ops_ok l (omap op_of cs) ->
  log_replies (zip cs (run_calls s cs).2) = (log_run l (omap op_of cs)).2 /\
  stands_for (log_run l (omap op_of cs)).1 (run_calls s cs).1 /\
  Forall (fun r => r <> Panic /\ r <> Diverge) (run_calls s cs).2.
Proof.
  induction cs as [|c cs IH]; intros l s Hst Hcs Hok; [done|]. apply Forall_cons in Hcs as [Hc Hcs].
  assert (op_of c = None \/ exists op, op_of c = Some op) as [Hop|[op Hop]] by (destruct (op_of c); eauto).
  - assert (exists r, exec_call c s = (s, Ok r)) as [r Hr]
      by (destruct Hc as [[? ?]|[-> | ->]]; [congruence|by eexists..]).
    cbn [omap list_omap] in *. rewrite Hop in *. destruct (IH l s Hst Hcs Hok) as (H1 & H2 & H3). cbn [run_calls].
    rewrite Hr. destruct (run_calls s cs) as [s2 rs]. cbn [fst snd zip_with] in *.
    split_and!; [|done|by constructor]. unfold log_replies. cbn [omap list_omap fst snd]. by rewrite Hop.
  - cbn [omap list_omap] in *. rewrite Hop in *. destruct Hok as [Hop1 Hok]. pose proof (op_of_failed c op l Hop) as Hf.
    destruct (state_exec_ok 3 true l s op Hst ltac:(lia) Hop1 ltac:(by left)) as (s1 & r1 & Hex & _ & Hr1 & Hst1).
    rewrite Hf in Hst1. specialize (Hr1 eq_refl). subst r1. rewrite (exec_call_op c op s Hop) in Hex. injection Hex as Hs1 Hr.
    pose proof (log_exec_defined l op) as Hdef. cbn [log_run run_calls].
    destruct (log_exec l op) as [l1 r']. destruct (exec_call c s) as [s1' r]. cbn [fst snd] in *. subst s1' r'.
    destruct (IH l1 s1 Hst1 Hcs Hok) as (H1 & H2 & H3).
    change (list_omap call core_op op_of cs) with (omap op_of cs) in *.
    destruct (run_calls s1 cs) as [s2 rs], (log_run l1 (omap op_of cs)) as [l2 rs']. cbn [fst snd zip_with] in *.
    split_and!; [|done|constructor; [|done]].
    + unfold log_replies in *. cbn [omap list_omap fst snd]. rewrite Hop. cbn [fmap option_fmap option_map]. by f_equal.
    + destruct r; cbn in Hdef; naive_solver.
Qed.

(** The programs: such calls, in sizes for which every interleaving is in the
    range of [CoreSpec]. *)
Record programs_ok l (programs : list (list call)) : Prop := {
  po_calls : Forall (Forall log_call) programs;
  po_range h : interleaves programs h -> ops_ok l (omap op_of h.*2);
}.

Lemma interleaves_calls programs h :
  Forall (Forall log_call) programs -> interleaves programs h -> Forall log_call h.*2.
Proof.
  intros Hp Hh. apply Forall_forall. intros c Hc. apply list_elem_of_fmap in Hc as ([t c'] & -> & Hin). cbn [snd].
  specialize (Hh t). assert (c' ∈ of_task t h) as Ht.
  { unfold of_task. apply list_elem_of_fmap. exists (t, c'). split; [done|]. by apply list_elem_of_filter. }
  destruct (programs !! t) as [p|] eqn:Hpt.
  - rewrite Forall_forall in Hp. specialize (Hp p ltac:(by eapply list_elem_of_lookup_2)).
    rewrite Forall_forall in Hp. apply Hp. destruct Hh as [k Hk]. change (p = of_task t h ++ k) in Hk. rewrite Hk. apply elem_of_app. by left.
  - apply prefix_nil_inv in Hh. rewrite Hh in Ht. by apply elem_of_nil in Ht.
Qed.

Lemma interleaved_run l s programs h :
  stands_for l s -> programs_ok l programs -> interleaves programs h ->
  log_replies (zip h.*2 (run_calls s h.*2).2) = (log_run l (omap op_of h.*2)).2 /\
  stands_for (log_run l (omap op_of h.*2)).1 (run_calls s h.*2).1 /\
  Forall (fun r => r <> Panic /\ r <> Diverge) (run_calls s h.*2).2.
Proof. intros Hst [Hcalls Hrange] Hh. apply run_calls_log; [done| |by apply Hrange]. by eapply interleaves_calls. Qed.

Lemma calls_of_history {A B} (h : list (nat * (A * B))) : (prod_map id fst <$> h).*2 = h.*2.*1.
Proof. induction h as [|[t [a b]] h IH]; [done|]. cbn [fmap list_fmap]. f_equal. exact IH. Qed.

(** The history so far, as a run of the log. *)
Lemma history_run l s programs y :
  stands_for l s -> programs_ok l programs -> system_inv s programs y ->
  log_replies (sys_history y).*2 = (log_run l (omap op_of (sys_history y).*2.*1)).2 /\
  stands_for (log_run l (omap op_of (sys_history y).*2.*1)).1 (run_calls s (sys_history y).*2.*1).1 /\
  Forall (fun r => r <> Panic /\ r <> Diverge) (sys_history y).*2.*2.
Proof.
  intros Hst Hpo Hinv. pose proof (interleaved_run l s programs _ Hst Hpo (history_interleaves _ _ _ Hinv)) as Hrun.
  rewrite calls_of_history, (si_replies _ _ _ Hinv), zip_fst_snd in Hrun. done.
Qed.

(** The call that runs next is one of the interleaving, and returns. *)
Lemma log_calls_return l s programs y t c s0 :
  stands_for l s -> programs_ok l programs -> system_inv s programs y -> ~ stuck_in y t c s0.
Proof.
  intros Hst Hpo Hinv [(code & r & todo & don & Hx) Hd].
  pose proof (si_found _ _ _ Hinv t _ s0 Hx eq_refl) as Hs0.
  assert (interleaves programs ((prod_map id fst <$> sys_history y) ++ [(t, c)])) as Hin.
  { intros t'. rewrite of_task_snoc. case_decide as Ht; [subst t'|rewrite app_nil_r; by eapply history_interleaves].
    rewrite of_task_calls. destruct (si_task _ _ _ Hinv t _ Hx) as [Hstg _ Hp _ _ _].
    cbn [tk_state] in Hstg. inversion Hstg; subst. cbn in Hp. etrans; [|exact Hp]. apply prefix_app. by exists todo. }
  destruct (interleaved_run l s programs _ Hst Hpo Hin) as (_ & _ & Hdef).
  rewrite fmap_app, calls_of_history in Hdef. cbn [fmap list_fmap snd] in Hdef. rewrite run_calls_snoc in Hdef. cbn [snd] in Hdef.
  apply Forall_app in Hdef as [_ [[_ Hne] _]%Forall_cons]. rewrite <-Hs0 in Hne. done.
Qed.

(** Without panics, a task that is done has called its whole program. *)
Lemma finished_program s programs y t p x :
  system_inv s programs y -> finished y -> programs !! t = Some p -> sys_tasks y !! t = Some x ->
  (tk_done x).*1 = p \/ Panic ∈ (tk_done x).*2.
Proof.
  intros Hinv Hf Hp Hx. destruct (Hf t x Hx) as [Hs Htodo].
  rewrite (finished_done s programs y t x Hinv Hf Hx).
  destruct (si_task _ _ _ Hinv t x Hx) as [_ _ _ Hall _ _]. unfold current in Hall.
  rewrite Hs, Htodo, Hp, !app_nil_r in Hall. done.
Qed.

Lemma of_task_elem t (h : list (nat * (call * outcome_of))) r : r ∈ (of_task t h).*2 -> r ∈ h.*2.*2.
Proof.
  intros Hr. unfold of_task in Hr. apply list_elem_of_fmap in Hr as (cr & -> & Hin).
  apply list_elem_of_fmap in Hin as (tcr & -> & Hin). apply list_elem_of_filter in Hin as [_ Hin].
  apply list_elem_of_fmap. exists tcr.2. split; [done|]. apply list_elem_of_fmap. by exists tcr.
Qed.
End SharedLog.
