(* ===== verification/Examples.v ===== *)
(** * The example programs ([examples/memory.rs], [examples/disk.rs],
      [examples/replication.rs])

    Programs that use the library from the outside: they append, clear and read
    on a core in memory or on disk, open the one on disk again, and replicate a
    core on disk to one in memory.  What they print is the text in their last
    line's comment: [memory_main_ok], [disk_main_ok] and [replication_main_ok].

    A Rust string is the list of its bytes.  The generated key pairs, the
    directory, the backends' constructors and the text of an error are arguments. *)

From stdpp Require Import base list gmap strings.
From Stdlib Require Import ZArith Lia Bool Ascii.
From S2P Require Import Prelude FlatTree Common BitfieldFixed BitfieldDynamic.
From S2P Require Import CompactEncoding Encoding Crypto OplogEntry Changeset Storage Oplog.
From S2P Require Import MerkleTree MerkleView MerkleProof MerkleBoth Core CoreOpen CoreView CoreSpec CoreReopen CoreReader CoreHonest Replication.
Open Scope Z_scope.

(** ** Strings *)

(** [b"..."] *)
Fixpoint bytes (s : string) : list Z :=
  match s with
  | EmptyString => []
  | String c s => Z.of_N (N_of_ascii c) :: bytes s
  end.

Definition between (a b x : Z) : bool := (a <=? x) && (x <=? b).

(** The well-formed byte sequences of UTF-8, as [String::from_utf8] has them. *)
Fixpoint utf8_valid (bs : list Z) : bool :=
  match bs with
  | [] => true
  | a :: bs =>
      if between 0 0x7f a then utf8_valid bs
      else match bs with
      | [] => false
      | b :: bs =>
          if between 0xc2 0xdf a then between 0x80 0xbf b && utf8_valid bs
          else match bs with
          | [] => false
          | c :: bs =>
              let first := if a =? 0xe0 then between 0xa0 0xbf b
                else if a =? 0xed then between 0x80 0x9f b
                else (between 0xe1 0xec a || between 0xee 0xef a) && between 0x80 0xbf b in
              if between 0xe0 0xef a then first && between 0x80 0xbf c && utf8_valid bs
              else match bs with
              | [] => false
              | d :: bs =>
                  let first := if a =? 0xf0 then between 0x90 0xbf b
                    else if a =? 0xf4 then between 0x80 0x8f b
                    else between 0xf1 0xf3 a && between 0x80 0xbf b in
                  first && between 0x80 0xbf c && between 0x80 0xbf d && utf8_valid bs
              end
          end
      end
  end.

(** [String::from_utf8(..).ok()] *)
Definition from_utf8 (bs : list Z) : option (list Z) := if utf8_valid bs then Some bs else None.

(** ** Programs *)

Definition assert {E} (b : bool) : outcome E unit := if b then Ok tt else Panic.

(** [.await] without [?]: the result as a value. *)
Definition attempt {S E A} (m : stateR S E A) : stateR S E (A + E) := fun s =>
  match m s with
  | (s, Ok a) => (s, Ok (inl a))
  | (s, Err e) => (s, Ok (inr e))
  | (s, Panic) => (s, Panic)
  | (s, Diverge) => (s, Diverge)
  end.

Section Programs.
Context `{FT : FlatTree} `{CE : CompactEncoding} `{B2 : Blake2b} `{ED : Ed25519} `{CR : Crc32}
  `{RA : RandomAccess} `{IO : IntMapOrder}.
Variable debug : HypercoreError -> list Z.

Definition format_res (res : option (list Z) + HypercoreError) : result (list Z) :=
  match res with
  | inl (Some bytes) => unwrap (from_utf8 bytes)
  | inl None => Ok (bytes "Got None in feed")
  | inr e => Ok (bytes "Error getting value from feed, reason = " ++ debug e)
  end.

Definition format_get (index : Z) : coreM (list Z) :=
  res ← attempt (Core.get index);
  lift (format_res res).

(** [examples/memory.rs] *)
Definition clear_batch : list (list Z) :=
  [bytes "first value to clear"; bytes "second value to clear"; bytes "third value to keep"].

Definition memory_session : coreM (list Z) :=
  _ ← expect_at (Core.append (bytes "Hello, "));
  _ ← expect_at (Core.append (bytes "from memory hypercore!"));
  outcome ← expect_at (Core.append_batch clear_batch);
  let new_length := ao_length outcome in
  start ← lift (new_length -? 3);
  end_ ← lift (new_length -? 1);
  _ ← expect_at (Core.clear start end_);
  second ← expect_at (Core.get 2);
  _ ← lift (assert (match second with None => true | Some _ => false end));
  third ← expect_at (Core.get 3);
  _ ← lift (assert (match third with None => true | Some _ => false end));
  fourth ← expect_at (Core.get 4);
  fourth ← lift (unwrap fourth);
  _ ← lift (assert (bool_decide (fourth = bytes "third value to keep")));
  a ← format_get 0;
  b ← format_get 1;
  mret (a ++ b).

Definition memory_main (generated : SigningKey) (memory_default : ra) : result (list Z) :=
  storage ← expect (Storage_new_memory memory_default);
  hypercore ← expect (Builder.build generated (Builder.new storage)).2;
  (memory_session hypercore).2.

(** [examples/disk.rs]; [disk_reopen] opens a path of the disk that a dropped
    core's storage has written to. *)
Definition disk_first_session : coreM unit :=
  _ ← expect_at (Core.append (bytes "Hello, "));
  _ ← expect_at (Core.append (bytes "from "));
  mret tt.

Definition disk_second_session : coreM (list Z) :=
  _ ← expect_at (Core.append (bytes "disk hypercore!"));
  outcome ← expect_at (Core.append_batch clear_batch);
  let new_length := ao_length outcome in
  start ← lift (new_length -? 3);
  end_ ← lift (new_length -? 1);
  _ ← expect_at (Core.clear start end_);
  third ← expect_at (Core.get 3);
  _ ← lift (assert (match third with None => true | Some _ => false end));
  fourth ← expect_at (Core.get 4);
  _ ← lift (assert (match fourth with None => true | Some _ => false end));
  fifth ← expect_at (Core.get 5);
  fifth ← lift (unwrap fifth);
  _ ← lift (assert (bool_decide (fifth = bytes "third value to keep")));
  a ← format_get 0;
  b ← format_get 1;
  c ← format_get 2;
  mret (a ++ b ++ c).

Definition disk_main (generated generated' : SigningKey) (disk_open : list string -> outcome RandomAccessError ra)
    (disk_reopen : Storage -> list string -> outcome RandomAccessError ra) (dir : list string) : result (list Z) :=
  storage ← expect (Storage_new_disk disk_open dir true);
  hypercore ← expect (Builder.build generated (Builder.new storage)).2;
  let '(hypercore, appended) := disk_first_session hypercore in
  _ ← appended;
  storage ← expect (Storage_new_disk (disk_reopen (hc_storage hypercore)) dir false);
  hypercore ← expect (Builder.build generated' (Builder.open (Builder.new storage) true)).2;
  (disk_second_session hypercore).2.

(** [examples/replication.rs]; [replicate_index] is in [Replication]. *)
Definition replication_batch : list (list Z) :=
  [bytes "Hello, "; bytes "from "; bytes "replicated "; bytes "hypercore!"].

Definition replication_session : peersM (list Z) :=
  _ ← replicate_indexes [3; 0; 2; 1];
  a ← at_replica (format_get 0);
  b ← at_replica (format_get 1);
  c ← at_replica (format_get 2);
  d ← at_replica (format_get 3);
  mret (a ++ b ++ c ++ d).

Definition replication_main (generated generated' : SigningKey)
    (disk_open : list string -> outcome RandomAccessError ra) (dir : list string) (memory_default : ra)
  : result (list Z) :=
  storage ← expect (Storage_new_disk disk_open dir true);
  origin_hypercore ← expect (Builder.build generated (Builder.new storage)).2;
  let '(origin_hypercore, appended) := Core.append_batch replication_batch origin_hypercore in
  _ ← expect appended;
  let origin_public_key := kp_public (Core.key_pair origin_hypercore) in
  storage ← expect (Storage_new_memory memory_default);
  replicated_hypercore ←
    expect (Builder.build generated' (Builder.key_pair (Builder.new storage) (mkKeypair _ origin_public_key None))).2;
  (replication_session (origin_hypercore, replicated_hypercore)).2.
End Programs.

(** ** What they print *)

Section Refinement.
Context `{FT : FlatTree} {FL : FlatTreeLaws FT} `{CE : CompactEncoding} {CL : CompactEncodingLaws CE}
  `{B2 : Blake2b} {BL : Blake2bLaws B2} `{ED : Ed25519} {EL : Ed25519Laws ED} `{CR : Crc32}
  {CRL : Crc32Laws CR} `{RA : RandomAccess} {RL : RandomAccessLaws RA}
  `{IO : IntMapOrder} {IOL : IntMapOrderLaws IO}.
Implicit Types (s : Hypercore) (l : log).
Variable debug : HypercoreError -> list Z.

(** The operations of a core that stands for a log. *)
Lemma state_append_ok b l s batch :
  log_state b l s -> log_writeable l = true -> op_ok l (OpAppendBatch batch) ->
  wp (Core.append_batch batch) s (fun o s' =>
    ao_length o = zlen (log_entries l) + zlen batch /\ log_state b (log_exec l (OpAppendBatch batch)).1 s').
Proof.
  intros Hst Hw Hok. destruct (exec_append 3 b l s batch Hst ltac:(lia) Hok) as (s' & Hex & Hst').
  cbn [core_exec log_exec] in Hex. rewrite Hw in Hex. cbn [snd] in Hex.
  apply run_bind_inv in Hex as (s1 & o & Hrun & [= -> ->]). eexists _, _. split; [exact Hrun|]. split; [|done].
  cbn [ao_length]. rewrite zlen_app. unfold zlen at 2. by rewrite length_fmap.
Qed.

Lemma state_clear_ok b l s start end_ :
  log_state b l s -> op_ok l (OpClear start end_) -> (log_exec l (OpClear start end_)).2 = Ok ReplyClear ->
  wp (Core.clear start end_) s (fun _ s' => log_state b (log_exec l (OpClear start end_)).1 s').
Proof.
  intros Hst Hok Hr. assert (failed_clear l (OpClear start end_) = 0) as Hf by (unfold failed_clear; by rewrite Hr).
  destruct (exec_clear 3 b l s start end_ Hst ltac:(lia) Hok (or_intror Hf)) as (s' & Hex & Hst').
  rewrite Hf in Hst'. rewrite Hr in Hex.
  apply run_bind_inv in Hex as (s1 & [] & Hrun & [= ->]). eexists _, _. split; [exact Hrun|done].
Qed.

Lemma state_get_ok b l s i d :
  log_state b l s -> 0 <= i < 2 ^ 64 -> (log_exec l (OpGet i)).2 = Ok (ReplyGet d) ->
  wp (Core.get i) s (fun d' s' => d' = d /\ log_state b l s').
Proof.
  intros Hst Hi Hr. destruct (exec_get 3 b l s i Hst Hi) as (s' & Hex & Hst'). rewrite Hr in Hex. cbn [core_exec] in Hex.
  apply run_bind_inv in Hex as (s1 & d' & Hrun & [= -> ->]). eexists _, _. split; [exact Hrun|done].
Qed.

(** Printing a block that is valid UTF-8. *)
Lemma format_get_ok s i bs (Q : list Z -> Hypercore -> Prop) :
  utf8_valid bs = true -> wp (Core.get i) s (fun d s' => d = Some bs /\ Q bs s') -> wp (format_get debug i) s Q.
Proof.
  intros Hv (s' & d & Hrun & -> & HQ). unfold format_get. apply wp_bind. exists s', (inl (Some bs)).
  split; [unfold attempt; by rewrite Hrun|]. eapply wp_lift; [|exact HQ]. cbn. unfold from_utf8. by rewrite Hv.
Qed.

Lemma format_log_ok b l s i bs :
  log_state b l s -> 0 <= i < 2 ^ 64 -> (log_exec l (OpGet i)).2 = Ok (ReplyGet (Some bs)) ->
  utf8_valid bs = true -> wp (format_get debug i) s (fun out s' => out = bs /\ log_state b l s').
Proof.
  intros Hst Hi Hb Hv. eapply format_get_ok; [exact Hv|]. eapply wp_mono; [by apply (state_get_ok _ _ _ _ _ Hst Hi Hb)|].
  by intros d s' [-> Hst'].
Qed.

Lemma format_replica_ok sk blocks has (r : Hypercore) i :
  replica_for sk blocks has r -> i ∈ has -> 0 <= i < 2 ^ 64 -> utf8_valid (block_at blocks i) = true ->
  wp (format_get debug i) r (fun out r' => out = block_at blocks i /\ r' = r).
Proof.
  intros [[fs Hr] _ Hbits] Hin Hi Hv. eapply format_get_ok; [exact Hv|]. exists r, (Some (block_at blocks i)).
  split; [|done]. rewrite (reader_get 3 _ _ _ i Hr Hi), Hbits by lia. by rewrite bool_decide_true.
Qed.

Definition memory_entries : list (list Z) := [bytes "Hello, "; bytes "from memory hypercore!"] ++ clear_batch.

Lemma new_memory_ok memory_default :
  contents memory_default = [] ->
  exists st, Storage_new_memory memory_default = Ok st /\ holds st (fun _ => []).
Proof.
  intros Hc. destruct (storage_open_ok (fun _ => Ok memory_default) (fun _ => memory_default) false) as (st & Hst & Hh); [done|].
  exists st. split; [done|]. intros k. by rewrite (Hh k).
Qed.

Lemma append_small l (all batch rest : list (list Z)) :
  no_blank all -> log_blocks l ++ batch ++ rest = all ->
  (zlen all <? 2 ^ 18) && (zlen (concat all) <? 2 ^ 18) = true -> op_ok l (OpAppendBatch batch).
Proof.
  intros Hnb <- [Hn Hm]%andb_prop. apply Z.ltb_lt in Hn, Hm. rewrite app_assoc in *. split_and!.
  - eapply log_fits_prefix. split; [|exact (Z.lt_trans _ _ (2 ^ 64) Hm eq_refl)]. lia.
  - eapply no_blank_prefix; [|exact Hnb]. by eexists.
  - rewrite !zlen_app in Hn. pose proof (zlen_nonneg (log_blocks l)). pose proof (zlen_nonneg rest). lia.
Qed.

(** The steps the sessions share: appending; reading back the cleared values
    and the one that is kept; printing. *)
Ltac append_step Hnb Hst :=
  apply wp_bind, wp_expect_at;
  eapply wp_mono; [eapply (state_append_ok _ _ _ _ Hst eq_refl), append_small; [exact Hnb|by vm_compute|done]|];
  let o := fresh "o" in let s := fresh "s" in let Ho := fresh "Ho" in
  clear Hst; intros o s [Ho Hst].

Ltac check_steps Hst :=
  do 2 (apply wp_bind, wp_expect_at; eapply wp_mono; [apply (state_get_ok _ _ _ _ None Hst); [lia|by vm_compute]|];
    clear Hst; intros ? ? [-> Hst]; apply wp_bind; eapply wp_lift; [done|]);
  apply wp_bind, wp_expect_at; eapply wp_mono; [apply (state_get_ok _ _ _ _ (Some (bytes "third value to keep")) Hst); [lia|by vm_compute]|];
  clear Hst; intros ? ? [-> Hst]; do 2 (apply wp_bind; eapply wp_lift; [done|]).

Ltac print_step bs Hst :=
  apply wp_bind; eapply wp_mono; [apply (format_log_ok _ _ _ _ bs Hst); [lia|by vm_compute|done]|]; clear Hst; intros ? ? [-> Hst].

(** The logs of the examples before the values are read. *)
Definition memory_log : log :=
  (log_run (mkLog [] true 0) [OpAppendBatch [bytes "Hello, "]; OpAppendBatch [bytes "from memory hypercore!"];
    OpAppendBatch clear_batch; OpClear 2 4]).1.

Lemma memory_session_ok s :
  no_blank memory_entries -> stands_for (mkLog [] true 0) s ->
  wp (memory_session debug) s (fun out _ => out = bytes "Hello, from memory hypercore!").
Proof.
  intros Hnb Hst. unfold memory_session, Core.append.
  do 3 append_step Hnb Hst. do 2 (apply wp_bind; eapply wp_lift; [by rewrite Ho1|]).
  apply wp_bind, wp_expect_at.
  eapply wp_mono; [apply (state_clear_ok _ _ _ 2 4 Hst); [by split; lia|by vm_compute]|].
  clear Hst. intros u s3 Hst. change (log_state true memory_log s3) in Hst. check_steps Hst.
  print_step (bytes "Hello, ") Hst. print_step (bytes "from memory hypercore!") Hst. by wp_step.
Qed.

(** The blocks of [examples/disk.rs], and the logs before the reopen and before
    the values are read. *)
Definition disk_entries : list (list Z) := [bytes "Hello, "; bytes "from "; bytes "disk hypercore!"] ++ clear_batch.

Definition disk_log : log := mkLog [(bytes "Hello, ", true); (bytes "from ", true)] true 12.
Definition disk_end_log : log :=
  (log_run disk_log [OpAppendBatch [bytes "disk hypercore!"]; OpAppendBatch clear_batch; OpClear 3 5]).1.

Lemma disk_first_ok s :
  no_blank disk_entries -> stands_for (mkLog [] true 0) s ->
  wp disk_first_session s (fun _ s' => log_state true disk_log s').
Proof.
  intros Hnb Hst. unfold disk_first_session, Core.append. do 2 append_step Hnb Hst. by wp_step.
Qed.

Lemma disk_second_ok s :
  no_blank disk_entries -> log_state false disk_log s ->
  wp (disk_second_session debug) s (fun out _ => out = bytes "Hello, from disk hypercore!").
Proof.
  intros Hnb Hst. unfold disk_second_session, Core.append.
  do 2 append_step Hnb Hst. do 2 (apply wp_bind; eapply wp_lift; [by rewrite Ho0|]).
  apply wp_bind, wp_expect_at.
  eapply wp_mono; [apply (state_clear_ok _ _ _ 3 5 Hst); [by split; lia|by vm_compute]|].
  clear Hst. intros u s3 Hst. change (log_state false disk_end_log s3) in Hst. check_steps Hst.
  print_step (bytes "Hello, ") Hst. print_step (bytes "from ") Hst. print_step (bytes "disk hypercore!") Hst. by wp_step.
Qed.

(** A file has the bytes that were written to it. *)
Lemma disk_main_ok generated generated' disk_open disk_reopen dir (files : Store -> ra) (reopened : Storage -> Store -> ra) :
  (forall k, disk_open (dir ++ [store_file k]) = Ok (files k)) ->
  (forall st k, disk_reopen st (dir ++ [store_file k]) = Ok (reopened st k) /\
     contents (reopened st k) = contents (get_random_access st k)) ->
  no_blank disk_entries ->
  disk_main debug generated generated' disk_open disk_reopen dir = Ok (bytes "Hello, from disk hypercore!").
Proof.
  intros Hdisk Hre Hnb. unfold disk_main, Storage_new_disk.
  destruct (storage_open_ok _ files true Hdisk) as (st & -> & Hh). cbn [expect]. rewrite bind_Ok.
  destruct (new_stands_for generated HypercoreOptions_new st Hh eq_refl) as (s & st' & Hnew & Hs).
  unfold Builder.build, Builder.open, Builder.new. cbn [Builder.b_options Builder.b_storage HypercoreOptions_new opt_key_pair].
  rewrite Hnew. cbn [snd expect]. rewrite bind_Ok.
  destruct (disk_first_ok s Hnb Hs) as (s1 & [] & -> & Hs1). rewrite bind_Ok.
  destruct (storage_open_ok (fun k => disk_reopen (hc_storage s1) (dir ++ [store_file k])) (reopened (hc_storage s1)) false)
    as (st2 & -> & Hh2); [intros k; apply Hre|]. cbn [expect]. rewrite bind_Ok.
  destruct (reopen_state generated' 3 true disk_log s1 st2 Hs1) as (s2 & Hopen & Hs2 & _); [done| |].
  { intros k. rewrite (Hh2 k). apply Hre. }
  unfold reopen in Hopen. rewrite Hopen. cbn [snd expect]. rewrite bind_Ok.
  by destruct (disk_second_ok s2 Hnb Hs2) as (s3 & out & -> & ->).
Qed.

Lemma memory_main_ok generated memory_default :
  contents memory_default = [] -> no_blank memory_entries ->
  memory_main debug generated memory_default = Ok (bytes "Hello, from memory hypercore!").
Proof.
  intros Hc Hnb. destruct (new_memory_ok _ Hc) as (st & Hst & Hh). unfold memory_main. rewrite Hst.
  destruct (new_stands_for generated HypercoreOptions_new st Hh eq_refl) as (s & st' & Hnew & Hs).
  cbn [expect]. rewrite bind_Ok. unfold Builder.build, Builder.new. cbn [Builder.b_options Builder.b_storage].
  rewrite Hnew. cbn [snd expect]. rewrite bind_Ok. cbn in Hs.
  destruct (memory_session_ok s Hnb Hs) as (s' & out & -> & ->). done.
Qed.

(** The exchanges of [examples/replication.rs], in its order. *)
Lemma replication_session_ok sk p :
  in_sync true sk (mkSync replication_batch 0 []) p ->
  wp (replication_session debug) p (fun out _ => out = bytes "Hello, from replicated hypercore!").
Proof.
  intros Hp. unfold replication_session. apply wp_bind.
  eapply wp_mono; [apply (replicate_indexes_ok sk _ _ _ Hp)|].
  { split.
    - split_and!; [done|done|apply not_elem_of_nil|right; cbn; lia|done].
    - apply replicables_known; [done|by apply (bool_decide_unpack _)|].
      intros i Hi. rewrite !elem_of_cons, elem_of_nil in Hi. cbn [sync_replicate sync_exec sy_has sy_origin].
      rewrite list_elem_of_singleton. change (zlen replication_batch) with 4. lia. }
  intros u p1 Hp1. cbn beta in Hp1. rewrite foldl_replicate in Hp1 by done. clear p Hp. destruct p1 as [o r].
  pose proof (is_replica _ _ _ _ Hp1) as Hrep. cbn [snd] in Hrep.
  do 4 (apply wp_bind, wp_at_replica; eapply wp_mono; [eapply format_replica_ok; [exact Hrep|by apply (bool_decide_unpack _)|done|done]|];
    intros ? ? [-> ->]).
  by wp_step.
Qed.

(** The origin appends; its key pair stays. *)
Lemma appended_in_sync b sk y (o r : Hypercore) batch :
  in_sync b sk y (o, r) -> sync_op_ok y (SyncAppend batch) ->
  exists o' out, Core.append_batch batch o = (o', Ok out) /\ hc_key_pair o' = hc_key_pair o /\
    in_sync b sk (sync_exec y (SyncAppend batch)) (o', r).
Proof.
  intros Hs Hok. destruct (sync_append_ok b sk y (o, r) batch Hs Hok) as (p & a & Hrun & _ & Hs').
  destruct Hok as (Hfit & Hnb & Hsz). destruct (is_origin _ _ _ _ Hs) as [[fs Hinv] Hsk _ _]. cbn [fst] in *.
  destruct (append_batch_live 3 _ batch fs o sk Hinv ltac:(lia) Hsk Hfit Hnb Hsz) as (o' & out & Happ & _ & _ & _ & Hk & _).
  exists o', out. split_and!; [done..|]. apply run_bind_inv in Hrun as (p1 & x & Hat & [= <- _]).
  unfold at_origin in Hat. cbn [fst snd] in Hat. rewrite Happ in Hat. by injection Hat as <- _.
Qed.

Lemma replication_main_ok generated generated' disk_open dir memory_default (files : Store -> ra) :
  (forall k, disk_open (dir ++ [store_file k]) = Ok (files k)) -> contents memory_default = [] ->
  no_blank replication_batch ->
  replication_main debug generated generated' disk_open dir memory_default = Ok (bytes "Hello, from replicated hypercore!").
Proof.
  intros Hdisk Hc Hnb. unfold replication_main, Storage_new_disk.
  destruct (storage_open_ok _ files true Hdisk) as (st & -> & Hh). destruct (new_memory_ok _ Hc) as (st' & Hst' & Hh').
  destruct (new_in_sync generated generated' HypercoreOptions_new st st' generated Hh Hh' eq_refl eq_refl)
    as (o & r & sto & str & Hno & Hnr & Hs).
  assert (op_ok (mkLog [] true 0) (OpAppendBatch replication_batch)) as Hok
    by (apply (append_small _ replication_batch replication_batch []); [exact Hnb|by rewrite app_nil_r|done]).
  destruct (appended_in_sync true generated sync_empty o r replication_batch Hs Hok) as (o' & out & Hrun & Hkey & Hs').
  pose proof (new_fresh_ok generated HypercoreOptions_new st Hh eq_refl) as (? & ? & Hno' & _ & Hk & _).
  rewrite Hno in Hno'. injection Hno' as <- <-.
  cbn [expect]. rewrite bind_Ok. unfold Builder.build, Builder.new, Builder.key_pair. cbn [Builder.b_options Builder.b_storage].
  rewrite Hno. cbn [snd expect]. rewrite bind_Ok, Hrun. cbn [expect]. rewrite bind_Ok, Hst'. cbn [expect]. rewrite bind_Ok.
  unfold Core.key_pair. rewrite Hkey, Hk. cbn [options_key_pair HypercoreOptions_new opt_key_pair opt_open kp_public].
  rewrite Hnr. cbn [snd expect]. rewrite bind_Ok.
  by destruct (replication_session_ok generated (o', r) Hs') as (p' & out' & -> & ->).
Qed.
End Refinement.
