(* ===== verification/Samples.v ===== *)
(** * Sample logs

    A small log over the concrete dependencies of [Models], with the facts
    that applications of the theorems need. *)

From stdpp Require Import base tactics numbers list strings gmap.
From Stdlib Require Import ZArith Lia Bool Strings.Byte.
From S2P Require Import Prelude FlatTree Common CompactEncoding Encoding Crypto OplogEntry.
From S2P Require Import Changeset Storage Oplog MerkleTree MerkleView Core CoreOpen CoreView Models.
From S2P Require Import BitfieldFixed BitfieldDynamic MerkleProof.
Import FlatTreeModel EncodingModel CryptoModel MemoryModel IntMapModel.
Open Scope Z_scope.

Definition sample_blocks : list (list Z) := [[1; 2]; [3]; [4; 5; 6]].

Lemma complete_small n d o : complete n d o -> n < 8 -> 0 <= d < 3 /\ 0 <= o < n.
Proof.
  intros (Hd & Ho & Hle) Hn. pose proof (Z.pow_pos_nonneg 2 d ltac:(lia) Hd).
  split; [|split; [done|nia]]. split; [done|]. destruct (Z.lt_ge_cases d 3); [done|].
  assert (2 ^ 3 <= 2 ^ d) by (apply Z.pow_le_mono_r; lia). nia.
Qed.

(** A log of a few blocks has no blank node if none of these is. *)
Lemma no_blank_small bs :
  (zlen bs <? 8) &&
  forallb (fun d => forallb (fun o => negb (node_blank (merkle bs d o))) (seqZ 0 (zlen bs))) (seq 0 3) = true ->
  no_blank bs.
Proof.
  intros [Hbs%Z.ltb_lt Hf]%andb_prop d o Hc. apply complete_small in Hc as [Hd Ho]; [|done].
  rewrite forallb_forall in Hf. specialize (Hf (Z.to_nat d)).
  rewrite forallb_forall in Hf. apply negb_true_iff, Hf.
  - apply in_seq. lia.
  - apply list_elem_of_In, elem_of_seqZ. lia.
Qed.

Lemma sample_take n :
  take n sample_blocks ∈ [[]; [[1; 2]]; [[1; 2]; [3]]; sample_blocks].
Proof.
  destruct n as [|[|[|n]]]; [set_solver..|]. assert (take (S (S (S n))) sample_blocks = sample_blocks) as ->
    by by destruct n. set_solver.
Qed.

(** No node of the sample log, nor of a shorter one, is blank. *)
Lemma sample_no_blank n : no_blank (take n sample_blocks).
Proof.
  pose proof (sample_take n) as Hn. rewrite !elem_of_cons, elem_of_nil in Hn.
  destruct Hn as [->|[->|[->|[->|[]]]]]; apply no_blank_small; vm_compute; reflexivity.
Qed.

Lemma sample_fits n : log_fits (take n sample_blocks).
Proof.
  pose proof (sample_take n) as Hn. rewrite !elem_of_cons, elem_of_nil in Hn.
  destruct Hn as [->|[->|[->|[->|[]]]]]; split; vm_compute; reflexivity.
Qed.

(** A proof with an upgrade from nothing to the first two blocks. *)
Definition two_blocks : list (list Z) := take 2 sample_blocks.
Definition upgrade_proof : Proof_ :=
  mkProof 0 None None None
    (Some (mkDataUpgrade 0 2 [merkle two_blocks 1 0] []
             (sig_to_bytes (ed_sign x05 (signed_bytes two_blocks 0))))).

Definition empty_storage : Storage := mkStorage [] [] [] [].

Lemma empty_storage_holds : holds empty_storage (fun _ => []).
Proof. intros k. by destruct k. Qed.

(** A new core, and the core with the sample blocks appended to it. *)
Definition the_core : Type := Hypercore (ED:=ed25519) (RA:=memory).
Definition core_of (r : Storage * result the_core) : the_core :=
  match r with
  | (_, Ok s) => s
  | (st, _) => mkHypercore (mkKeypair _ x00 None) st (mkOplog (false, false) 0 0)
                 (mkTree _ [] 0 0 0 None ∅ false 0) (mkDynamic ∅ 0 []) 0
                 (Header_new (mkKeypair _ x00 None)) []
  end.

Definition new_core : the_core := core_of (Core.new (ED:=ed25519) x05 HypercoreOptions_new empty_storage).
Definition sample_core : the_core := (Core.append_batch sample_blocks new_core).1.

Lemma new_core_ok :
  Core.new (ED:=ed25519) x05 HypercoreOptions_new empty_storage = (hc_storage new_core, Ok new_core) /\
  kp_secret (hc_key_pair new_core) = Some x05 /\ exists fs, core_inv [] fs new_core.
Proof.
  destruct (new_fresh_ok (ED:=ed25519) x05 HypercoreOptions_new empty_storage empty_storage_holds eq_refl)
    as (st & s & Hnew & Hst & Hk & _ & fs & Hinv & _).
  unfold new_core. rewrite Hnew. cbn [core_of]. rewrite Hst, Hk. split; [reflexivity|]. split; [reflexivity|by exists fs].
Qed.

Lemma sample_core_ok :
  kp_secret (hc_key_pair sample_core) = Some x05 /\ (exists fs, core_inv sample_blocks fs sample_core) /\
  forall k, 0 <= k < 3 -> dbit (hc_bitfield sample_core) k = true.
Proof.
  destruct new_core_ok as (_ & Hk & [fs Hinv]).
  destruct (append_batch_ok (ED:=ed25519) [] sample_blocks fs new_core x05 Hinv Hk (sample_fits 3) (sample_no_blank 3))
    as (s & r & Hrun & _ & Hinv' & Hk' & _ & _ & Hbits); [vm_compute; congruence|].
  unfold sample_core. rewrite Hrun. cbn [fst]. rewrite Hk', Hk. split_and!; [done..|].
  intros k Hk0. rewrite Hbits by lia. change (zlen []) with 0. change (zlen ([] ++ sample_blocks)) with 3.
  by rewrite decide_True by lia.
Qed.
