(* ===== verification/HashBE.v ===== *)
(** * The older hashes

    The functions of [crypto/hash.rs] that the protocol no longer uses: the
    hashes of leaves, parents and roots with big-endian sizes, and the key
    under which a log is announced.  The keyed BLAKE2b is a parameter. *)

From stdpp Require Import base list.
From Stdlib Require Import ZArith Lia Bool.
From S2P Require Import Prelude FlatTree Common CompactEncoding Crypto MerkleTree MerkleSound.
From S2P Require Import Changeset MerkleView Models Samples.
Open Scope Z_scope.

(** [Blake2bMac::<U32>::new_with_salt_and_personal(key, salt, personal)], fed
    with a message. *)
Class Blake2bMac := { blake2b_mac : list Z -> list Z -> list Z -> list Z -> option (list Z) }.

Definition HYPERCORE : list Z := [104; 121; 112; 101; 114; 99; 111; 114; 101].

(** [write_u64::<BigEndian>] *)
Definition u64_as_be (n : Z) : list Z := reverse (le_bytes 8 n).

Section Hashes.
Context `{B2 : Blake2b} `{ED : Ed25519} `{BM : Blake2bMac}.

Definition from_leaf (data : list Z) : list Z := blake2b256 (LEAF_TYPE ++ u64_as_be (zlen data) ++ data).

Definition from_hashes (left right : Node) : result (list Z) :=
  let '(node1, node2) :=
    if node_index left <=? node_index right then (left, right) else (right, left) in
  len ← node_length node1 +64 node_length node2;
  Ok (blake2b256 (PARENT_TYPE ++ u64_as_be len ++ node_hash node1 ++ node_hash node2)).

(** What one root adds. *)
Definition be_root_part (node : Node) : list Z :=
  node_hash node ++ u64_as_be (node_index node) ++ u64_as_be (node_length node).
Definition from_roots (roots : list Node) : list Z := blake2b256 (ROOT_TYPE ++ concat (be_root_part <$> roots)).

Definition for_discovery_key (public_key : VerifyingKey) : result (list Z) :=
  unwrap (blake2b_mac (vk_to_bytes public_key) [] [] HYPERCORE).
End Hashes.

(** ** Hashes of roots bind the roots *)

Section Binding.
Context `{CE : CompactEncoding} {CL : CompactEncodingLaws CE} `{B2 : Blake2b}.
Implicit Types (ns : list Node).

Lemma u64_as_be_inj a b : is_u64 a -> is_u64 b -> u64_as_be a = u64_as_be b -> a = b.
Proof. intros Ha Hb H. apply (inj reverse) in H. by apply le_bytes_inj in H. Qed.

(** Two inputs with one hash. *)
Definition colliding (m m' : list Z) : Prop := m <> m' /\ blake2b256 m = blake2b256 m'.

(** C32: a hash of roots binds the roots.  Two lists of roots with 32-byte
    hashes whose tree hashes agree have the same hashes, indices and lengths,
    or the inputs of the two hashes are a BLAKE2b collision; the same holds of
    the older big-endian hash. *)
Theorem roots_hash_binds ns ns' :
  Forall hashable ns -> Forall hashable ns' ->
  (Hash_tree ns = Hash_tree ns' ->
   root_fields <$> ns = root_fields <$> ns' \/ colliding (tree_preimage ns) (tree_preimage ns')) /\
  (from_roots ns = from_roots ns' -> root_fields <$> ns = root_fields <$> ns' \/
   colliding (ROOT_TYPE ++ concat (be_root_part <$> ns)) (ROOT_TYPE ++ concat (be_root_part <$> ns'))).
Proof.
  intros Hn Hn'.
  assert (forall l, Forall hashable l -> Hash_tree l = Ok (blake2b256 (tree_preimage l))) as Htree.
  { intros l Hl. apply Hash_tree_Ok. eapply Forall_impl; [exact Hl|]. by intros n (_ & ? & ?). }
  split; intros H.
  - rewrite !Htree in H by done. injection H as H.
    destruct (decide (tree_preimage ns = tree_preimage ns')) as [E|E]; [left|by right]. by apply tree_preimage_inj.
  - unfold from_roots in H.
    destruct (decide (ROOT_TYPE ++ concat (be_root_part <$> ns) = ROOT_TYPE ++ concat (be_root_part <$> ns'))) as [E|E]; [left|by right].
    apply app_inj_1 in E as [_ E]; [|done]. by apply (parts_inj u64_as_be) in E; [|done|apply u64_as_be_inj|..].
Qed.
End Binding.

Import FlatTreeModel EncodingModel CryptoModel.

Lemma roots_hash_binds_witness :
  Forall hashable (merkle_roots sample_blocks) /\
  (from_roots (merkle_roots sample_blocks) = from_roots (merkle_roots sample_blocks) ->
   root_fields <$> merkle_roots sample_blocks = root_fields <$> merkle_roots sample_blocks \/
   colliding (ROOT_TYPE ++ concat (be_root_part <$> merkle_roots sample_blocks))
     (ROOT_TYPE ++ concat (be_root_part <$> merkle_roots sample_blocks))).
Proof.
  assert (Forall hashable (merkle_roots sample_blocks)) as Hh
    by (repeat constructor; vm_compute; congruence).
  split; [exact Hh|]. exact (proj2 (roots_hash_binds _ _ Hh Hh)).
Defined.
