(* ===== verification/Sha2.v ===== *)
(** * SHA-2 as published

    SHA-256 and SHA-512 of FIPS 180-4.  SHA-512 is what Ed25519 hashes with;
    SHA-256 is what [tests/common/mod.rs] hashes the files of a core with. *)

From stdpp Require Import base tactics numbers list.
From Stdlib Require Import ZArith Lia Uint63.
From S2P Require Import Prelude.
Open Scope Z_scope.

Module Sha2.

(** ** One construction for both word sizes *)

(** Words of 64 bits are integers; words of 32 bits fit the machine's. *)
Record word_ops (W : Type) := mkWordOps {
  zero : W;
  add : W -> W -> W;
  xor : W -> W -> W;
  and : W -> W -> W;
  or : W -> W -> W;
  shr : nat -> W -> W;
  rotr : nat -> W -> W;
  of_bytes : list Z -> W;
  to_bytes : W -> list Z;
}.
Arguments zero {W} _.
Arguments add {W} _ _ _.
Arguments xor {W} _ _ _.
Arguments and {W} _ _ _.
Arguments or {W} _ _ _.
Arguments shr {W} _ _ _.
Arguments rotr {W} _ _ _.
Arguments of_bytes {W} _ _.
Arguments to_bytes {W} _ _.

Record algorithm (W : Type) := mkAlgorithm {
  ops : word_ops W;
  word_bytes : nat;
  (** the rotations of the big sigmas; the small ones end with a shift *)
  big0 : nat * nat * nat;
  big1 : nat * nat * nat;
  small0 : nat * nat * nat;
  small1 : nat * nat * nat;
  constants : list W;
  initial : list W;
}.
Arguments ops {W} _.
Arguments word_bytes {W} _.
Arguments big0 {W} _.
Arguments big1 {W} _.
Arguments small0 {W} _.
Arguments small1 {W} _.
Arguments constants {W} _.
Arguments initial {W} _.

Definition be_value (bs : list Z) : Z := foldl (fun v b => 256 * v + b) 0 bs.
Definition be_bytes (n : nat) (v : Z) : list Z := reverse (le_bytes n v).

Section Algorithm.
Context {W : Type}.
Variable a : algorithm W.
Let o : word_ops W := ops a.

Definition big '(i, j, k) (x : W) : W := xor o (rotr o i x) (xor o (rotr o j x) (rotr o k x)).
Definition small '(i, j, k) (x : W) : W := xor o (rotr o i x) (xor o (rotr o j x) (shr o k x)).
Definition choose (x y z : W) : W := xor o z (and o x (xor o y z)).
Definition majority (x y z : W) : W := or o (and o x y) (and o z (or o x y)).

Definition word_at (ws : list W) (i : nat) : W := default (zero o) (ws !! i).

(** Sixteen words are known; the next is computed from them. *)
Definition next_word (w : list W) : W :=
  add o (add o (small (small1 a) (word_at w 14)) (word_at w 9))
    (add o (small (small0 a) (word_at w 1)) (word_at w 0)).

Definition variables : Type := W * W * W * W * (W * W * W * W).

Definition round (v : variables) (k w : W) : variables :=
  let '(x0, x1, x2, x3, (x4, x5, x6, x7)) := v in
  let t1 := add o (add o x7 (big (big1 a) x4)) (add o (choose x4 x5 x6) (add o k w)) in
  let t2 := add o (big (big0 a) x0) (majority x0 x1 x2) in
  (add o t1 t2, x0, x1, x2, (add o x3 t1, x4, x5, x6)).

Fixpoint rounds (ks w : list W) (v : variables) : variables :=
  match ks with
  | [] => v
  | k :: ks => rounds ks (drop 1 w ++ [next_word w]) (round v k (word_at w 0))
  end.

Fixpoint words (n : nat) (bs : list Z) : list W :=
  match n with
  | O => []
  | S n => of_bytes o (take (word_bytes a) bs) :: words n (drop (word_bytes a) bs)
  end.

Definition block_bytes : nat := 16 * word_bytes a.

Definition compress (h : list W) (block : list Z) : list W :=
  let i := word_at h in
  let '(x0, x1, x2, x3, (x4, x5, x6, x7)) :=
    rounds (constants a) (words 16 block)
      (i 0%nat, i 1%nat, i 2%nat, i 3%nat, (i 4%nat, i 5%nat, i 6%nat, i 7%nat)) in
  zip_with (add o) h [x0; x1; x2; x3; x4; x5; x6; x7].

Fixpoint blocks (fuel : nat) (h : list W) (data : list Z) : list W :=
  match fuel with
  | O => h
  | S fuel => blocks fuel (compress h (take block_bytes data)) (drop block_bytes data)
  end.

(** A one bit, zeros, and the length in bits in the last two words. *)
Definition padded (data : list Z) : list Z :=
  let n := length data in
  let zeros := ((block_bytes - (n + 1 + 2 * word_bytes a) mod block_bytes) mod block_bytes)%nat in
  data ++ [128] ++ replicate zeros 0 ++ be_bytes (2 * word_bytes a) (8 * Z.of_nat n).

Definition digest (data : list Z) : list Z :=
  let data := padded data in
  let h := blocks (length data / block_bytes) (initial a) data in
  concat ((fun i => to_bytes o (word_at h i)) <$> seq 0 8).
End Algorithm.

(** ** The constants *)

(** The first eighty primes. *)
Definition primes : list Z :=
  List.filter (fun n => forallb (fun d => negb (n mod d =? 0)) (range 2 n)) (range 2 410).

(** The largest number whose [n]-th power is at most [x], bit by bit. *)
Fixpoint root_from (bit : nat) (n x r : Z) : Z :=
  match bit with
  | O => r
  | S bit =>
      let next := r + 2 ^ Z.of_nat bit in
      root_from bit n x (if next ^ n <=? x then next else r)
  end.

(** The first [b] bits of the fractions of the [n]-th roots. *)
Definition fractions (n : Z) (b : nat) (ps : list Z) : list Z :=
  (fun p => root_from (b + 5) n (p * 2 ^ (n * Z.of_nat b)) 0 mod 2 ^ Z.of_nat b) <$> ps.

(** ** SHA-256 *)

Definition int_rotr (n : nat) (x : int) : int :=
  let n := Uint63.of_Z (Z.of_nat n) in
  PrimInt63.lor (PrimInt63.lsr x n) (PrimInt63.land (PrimInt63.lsl x (PrimInt63.sub 32 n)) 0xffffffff).

Definition int_ops : word_ops int := {|
  zero := 0%uint63;
  add x y := PrimInt63.land (PrimInt63.add x y) 0xffffffff;
  xor := PrimInt63.lxor;
  and := PrimInt63.land;
  or := PrimInt63.lor;
  shr n x := PrimInt63.lsr x (Uint63.of_Z (Z.of_nat n));
  rotr := int_rotr;
  of_bytes bs := Uint63.of_Z (be_value bs);
  to_bytes x := be_bytes 4 (Uint63.to_Z x);
|}.

Definition K256 : list int := Eval vm_compute in Uint63.of_Z <$> fractions 3 32 (take 64 primes).
Definition H256 : list int := Eval vm_compute in Uint63.of_Z <$> fractions 2 32 (take 8 primes).

Definition sha256_algorithm : algorithm int :=
  mkAlgorithm _ int_ops 4 (2, 13, 22)%nat (6, 11, 25)%nat (7, 18, 3)%nat (17, 19, 10)%nat K256 H256.

Definition sha256 : list Z -> list Z := digest sha256_algorithm.

(** ** SHA-512 *)

Definition MASK : Z := 0xffffffffffffffff.

Definition z_rotr (n : nat) (x : Z) : Z :=
  let n := Z.of_nat n in Z.lor (Z.shiftr x n) (Z.land (Z.shiftl x (64 - n)) MASK).

Definition z_ops : word_ops Z := {|
  zero := 0;
  add x y := Z.land (x + y) MASK;
  xor := Z.lxor;
  and := Z.land;
  or := Z.lor;
  shr n x := Z.shiftr x (Z.of_nat n);
  rotr := z_rotr;
  of_bytes := be_value;
  to_bytes := be_bytes 8;
|}.

Definition K512 : list Z := Eval vm_compute in fractions 3 64 primes.
Definition H512 : list Z := Eval vm_compute in fractions 2 64 (take 8 primes).

Definition sha512_algorithm : algorithm Z :=
  mkAlgorithm _ z_ops 8 (28, 34, 39)%nat (14, 18, 41)%nat (1, 8, 7)%nat (19, 61, 6)%nat K512 H512.

Definition sha512 : list Z -> list Z := digest sha512_algorithm.
End Sha2.
