(* ===== verification/Blake2bRfc.v ===== *)
(** * BLAKE2b as published

    The hash function of RFC 7693, with the 32-byte digest, the key, the salt
    and the personalization the program asks the dependency for.  It is an
    instance of the interfaces [Blake2b] and [Blake2bMac], so that every theorem
    can be read with the real hash; the fixed values in the tests of
    [crypto/hash.rs] are evaluated with it ([HashTests]). *)

From stdpp Require Import base tactics numbers list.
From Stdlib Require Import ZArith Lia.
From S2P Require Import Prelude FlatTree Common CompactEncoding Crypto MerkleTree HashBE Sha2.
Open Scope Z_scope.

Module Blake2bRfc.

(** ** Words of 64 bits *)

Definition MASK : Z := 0xffffffffffffffff.
Definition wadd (a b : Z) : Z := Z.land (a + b) MASK.
Definition rotr (n w : Z) : Z := Z.lor (Z.shiftr w n) (Z.land (Z.shiftl w (64 - n)) MASK).
Definition word (ws : list Z) (i : nat) : Z := default 0 (ws !! i).

(** the initial values of SHA-512 *)
Definition IV : list Z := Sha2.H512.

Definition SIGMA : list (list nat) :=
  [[0; 1; 2; 3; 4; 5; 6; 7; 8; 9; 10; 11; 12; 13; 14; 15];
   [14; 10; 4; 8; 9; 15; 13; 6; 1; 12; 0; 2; 11; 7; 5; 3];
   [11; 8; 12; 0; 5; 2; 15; 13; 10; 14; 3; 6; 7; 1; 9; 4];
   [7; 9; 3; 1; 13; 12; 11; 14; 2; 6; 5; 10; 4; 0; 15; 8];
   [9; 0; 5; 7; 2; 4; 10; 15; 14; 1; 11; 12; 6; 8; 3; 13];
   [2; 12; 6; 10; 0; 11; 8; 3; 4; 13; 7; 5; 15; 14; 1; 9];
   [12; 5; 1; 15; 14; 13; 4; 10; 0; 7; 6; 3; 9; 2; 8; 11];
   [13; 11; 7; 14; 12; 1; 3; 9; 5; 0; 15; 4; 8; 6; 2; 10];
   [6; 15; 14; 9; 11; 3; 0; 8; 12; 2; 13; 7; 1; 4; 10; 5];
   [10; 2; 8; 4; 7; 6; 1; 5; 15; 11; 9; 14; 3; 12; 13; 0]]%nat.

(** ** The compression function *)

Definition mix (v : list Z) (a b c d : nat) (x y : Z) : list Z :=
  let va := wadd (wadd (word v a) (word v b)) x in
  let vd := rotr 32 (Z.lxor (word v d) va) in
  let vc := wadd (word v c) vd in
  let vb := rotr 24 (Z.lxor (word v b) vc) in
  let va := wadd (wadd va vb) y in
  let vd := rotr 16 (Z.lxor vd va) in
  let vc := wadd vc vd in
  let vb := rotr 63 (Z.lxor vb vc) in
  <[a := va]> (<[b := vb]> (<[c := vc]> (<[d := vd]> v))).

(** The columns, then the diagonals. *)
Definition positions : list (nat * nat * nat * nat) :=
  [(0, 4, 8, 12); (1, 5, 9, 13); (2, 6, 10, 14); (3, 7, 11, 15);
   (0, 5, 10, 15); (1, 6, 11, 12); (2, 7, 8, 13); (3, 4, 9, 14)]%nat.

Definition round (m v : list Z) (i : nat) : list Z :=
  let s := default [] (SIGMA !! Nat.modulo i 10) in
  let at_ k := word m (default 0%nat (s !! k)) in
  foldl (fun v '(j, (a, b, c, d)) => mix v a b c d (at_ (2 * j)%nat) (at_ (2 * j + 1)%nat))
    v (zip (seq 0 8) positions).

Fixpoint words (n : nat) (bs : list Z) : list Z :=
  match n with
  | O => []
  | S n => le_value (take 8 bs) :: words n (drop 8 bs)
  end.

(** [t] bytes are hashed when this block is. *)
Definition compress (h block : list Z) (t : Z) (last : bool) : list Z :=
  let v := h ++ IV in
  let v := <[12%nat := Z.lxor (word v 12) (Z.land t MASK)]> v in
  let v := <[13%nat := Z.lxor (word v 13) (Z.shiftr t 64)]> v in
  let v := if last then <[14%nat := Z.lxor (word v 14) MASK]> v else v in
  let v := foldl (round (words 16 block)) v (seq 0 12) in
  zip_with Z.lxor h (zip_with Z.lxor (take 8 v) (drop 8 v)).

(** ** Hashing *)

Definition pad (n : nat) (bs : list Z) : list Z := bs ++ replicate (n - length bs) 0.

(** The last block is hashed as such, also when it is full or empty. *)
Fixpoint blocks (fuel : nat) (h data : list Z) (t : Z) : list Z :=
  match fuel with
  | O => h
  | S fuel =>
      if zlen data <=? 128 then compress h (pad 128 data) (t + zlen data) true
      else blocks fuel (compress h (take 128 data) (t + 128) false) (drop 128 data) (t + 128)
  end.

Definition params (key_length : Z) (salt personal : list Z) : list Z :=
  [Z.lxor 0x01010020 (Z.shiftl key_length 8); 0; 0; 0] ++ words 2 (pad 16 salt) ++ words 2 (pad 16 personal).

Definition hash (key salt personal data : list Z) : list Z :=
  let data := (if zlen key =? 0 then [] else pad 128 key) ++ data in
  let h := blocks (S (length data / 128)) (zip_with Z.lxor IV (params (zlen key) salt personal)) data 0 in
  concat ((fun i => le_bytes 8 (word h i)) <$> seq 0 4).

Definition mac (key salt personal data : list Z) : option (list Z) :=
  if (64 <? zlen key) || (16 <? zlen salt) || (16 <? zlen personal) then None
  else Some (hash key salt personal data).

#[export] Instance blake2b_rfc : Blake2b := {| blake2b256 := hash [] [] [] |}.
#[export] Instance blake2b_mac_rfc : Blake2bMac := {| blake2b_mac := mac |}.

Lemma hash_bytes key salt personal data : is_bytes32 (hash key salt personal data).
Proof.
  unfold hash. cbn [seq fmap list_fmap concat]. split.
  - rewrite app_nil_r. repeat apply Forall_app_2; apply le_bytes_u8.
  - rewrite app_nil_r, !zlen_app, !zlen_le_bytes. done.
Qed.

#[export] Instance blake2b_rfc_laws : Blake2bLaws blake2b_rfc.
Proof. split. intros m. apply hash_bytes. Qed.
End Blake2bRfc.
