(* ===== verification/Ed25519Rfc.v ===== *)
(** * Ed25519 as published

    The signatures of RFC 8032 on the curve edwards25519, as an instance of the
    interface [Ed25519], to run the program with the real signatures.  That a
    signature verifies is a fact about the group of the curve, which is not
    proved here: the laws of the interface are satisfied by the instance in
    [Models]. *)

From stdpp Require Import base tactics numbers list.
From Stdlib Require Import ZArith Lia.
From Bignums Require Import BigZ.BigZ.
From S2P Require Import Prelude Crypto Sha2.
Open Scope Z_scope.

Module Ed25519Rfc.
Abbreviation Z' := BigZ.t_.

(** ** The field of [2 ^ 255 - 19] elements *)

Definition P : Z' := 0x7fffffffffffffffffffffffffffffffffffffffffffffffffffffffffffffed%bigZ.

Definition mul (x y : Z') : Z' := (x * y mod P)%bigZ.

Fixpoint pow (x : Z') (n : positive) : Z' :=
  match n with
  | xH => x
  | xO n => pow (mul x x) n
  | xI n => mul x (pow (mul x x) n)
  end.

(** [P - 2] *)
Definition inverse (x : Z') : Z' :=
  pow x 0x7fffffffffffffffffffffffffffffffffffffffffffffffffffffffffffffeb.

(** ** The curve *)

Definition D : Z' := 0x52036cee2b6ffe738cc740797779e89800700a4d4141d8ab75eb4dca135978a3%bigZ.
Definition SQRT_M1 : Z' := 0x2b8324804fc1df0b2b4d00993dfbd7a72f431806ad2fe478c4ee1b274a0ea0b0%bigZ.
(** the order of the base point *)
Definition L : Z := 0x1000000000000000000000000000000014def9dea2f79cd65812631a5cf5d3ed.

(** [x = X / Z], [y = Y / Z], [x * y = T / Z] *)
Record point := mkPoint { px : Z'; py : Z'; pz : Z'; pt : Z' }.

Definition neutral : point := mkPoint 0%bigZ 1%bigZ 1%bigZ 0%bigZ.
Definition negate (p : point) : point := mkPoint (- px p)%bigZ (py p) (pz p) (- pt p)%bigZ.

Definition padd (p q : point) : point :=
  let a := mul (py p - px p)%bigZ (py q - px q)%bigZ in
  let b := mul (py p + px p)%bigZ (py q + px q)%bigZ in
  let c := mul (mul (pt p) (2 * D)%bigZ) (pt q) in
  let d := mul (2 * pz p)%bigZ (pz q) in
  let e := (b - a)%bigZ in
  let f := (d - c)%bigZ in
  let g := (d + c)%bigZ in
  let h := (b + a)%bigZ in
  mkPoint (mul e f) (mul g h) (mul f g) (mul e h).

Definition base : point :=
  let x := 0x216936d3cd6e53fec0a4e231fdd6dc5c692cc7609525a7b2c9562d608f25d51a%bigZ in
  let y := 0x6666666666666666666666666666666666666666666666666666666666666658%bigZ in
  mkPoint x y 1%bigZ (mul x y).

Fixpoint doublings (n : nat) (p : point) : list point :=
  match n with
  | O => []
  | S n => p :: doublings n (padd p p)
  end.

(** The sum of the multiples that the bits of [k] select. *)
Definition select (k : Z) (ps : list point) : point :=
  (foldl (fun '(k, acc) p => (Z.div2 k, if Z.odd k then padd acc p else acc)) (k, neutral) ps).2.

Definition base_doublings : list point := doublings 256 base.
Definition times_base (k : Z) : point := select k base_doublings.
Definition times (k : Z) (p : point) : point := select k (doublings 256 p).

(** ** Encodings *)

Definition LOW : Z := 0x7fffffffffffffffffffffffffffffffffffffffffffffffffffffffffffffff.

Definition compress (p : point) : list Z :=
  let i := inverse (pz p) in
  let x := BigZ.to_Z (mul (px p) i) in
  let y := BigZ.to_Z (mul (py p) i) in
  le_bytes 32 (Z.lor y (Z.shiftl (Z.land x 1) 255)).

Definition decompress (bs : list Z) : option point :=
  if negb (zlen bs =? 32) then None else
  let v := le_value bs in
  let y := BigZ.of_Z (Z.land v LOW) in
  let yy := mul y y in
  let u := (yy - 1)%bigZ in
  let w := (mul D yy + 1)%bigZ in
  let w3 := mul (mul w w) w in
  let w7 := mul (mul w3 w3) w in
  let r := mul (mul u w3) (pow (mul u w7) 0x0ffffffffffffffffffffffffffffffffffffffffffffffffffffffffffffffd) in
  let check := mul w (mul r r) in
  let root :=
    if BigZ.eqb check (u mod P)%bigZ then Some r
    else if BigZ.eqb check (- u mod P)%bigZ then Some (mul r SQRT_M1)
    else None in
  match root with
  | None => None
  | Some x =>
      let x := if Z.land (BigZ.to_Z x) 1 =? Z.shiftr v 255 then x else (- x mod P)%bigZ in
      Some (mkPoint x y 1%bigZ (mul x y))
  end.

(** ** Keys and signatures *)

Record signing_key := mkSigningKey { seed : list Z; public : list Z }.

Definition clamp (v : Z) : Z := Z.lor (Z.land v (LOW - 7)) (Z.shiftl 1 254).
Definition scalar (seed : list Z) : Z := clamp (le_value (take 32 (Sha2.sha512 seed))).
Definition prefix (seed : list Z) : list Z := drop 32 (Sha2.sha512 seed).
Definition hash_scalar (bs : list Z) : Z := le_value (Sha2.sha512 bs) mod L.

Definition from_seed (bs : list Z) : signing_key := mkSigningKey bs (compress (times_base (scalar bs))).

Definition sign (k : signing_key) (m : list Z) : list Z :=
  let r := hash_scalar (prefix (seed k) ++ m) in
  let R := compress (times_base r) in
  let c := hash_scalar (R ++ public k ++ m) in
  R ++ le_bytes 32 ((r + c * scalar (seed k)) mod L).

Definition verify (public m sig : list Z) : bool :=
  let R := take 32 sig in
  let s := le_value (drop 32 sig) in
  match decompress public with
  | None => false
  | Some a =>
      let c := hash_scalar (R ++ public ++ m) in
      (s <? L) && bool_decide (compress (padd (times_base s) (times c (negate a))) = R)
  end.

#[export] Instance ed25519_rfc : Ed25519 := {|
  VerifyingKey := list Z;
  SigningKey := signing_key;
  Signature := list Z;
  vk_to_bytes k := k;
  vk_from_bytes bs := match decompress bs with Some _ => Some bs | None => None end;
  sk_to_bytes := seed;
  sk_from_bytes := from_seed;
  sk_verifying_key := public;
  sig_to_bytes s := s;
  sig_try_from bs := if zlen bs =? 64 then Some bs else None;
  ed_sign := sign;
  ed_verify := verify;
|}.
End Ed25519Rfc.
