(* ===== verification/UnitTests.v ===== *)
(** * The unit tests of the library

    The tests of [core.rs], [oplog/header.rs], [crypto/hash.rs],
    [crypto/key_pair.rs], [replication/shared_core.rs] and [replication/events.rs]
    as programs over the modelled operations.  A failed assertion is a panic, so
    a test passes when it returns [Ok tt].  Generated keys and the memory backend
    are arguments.  [UnitTestTheorems] shows that they pass; the tests of the
    bitfields are in [BitfieldTests]. *)

From stdpp Require Import base list gmap strings pretty.
From Stdlib Require Import ZArith Lia Bool Ascii.
From S2P Require Import Prelude FlatTree Channels Common BitfieldFixed BitfieldDynamic.
From S2P Require Import CompactEncoding Encoding Crypto OplogEntry Changeset Storage Oplog.
From S2P Require Import MerkleTree MerkleProof Core Events Replication SharedCore HashBE Examples.
Open Scope Z_scope.

Definition is_none {A} (o : option A) : bool := match o with None => true | Some _ => false end.
Definition is_err {E A} (r : outcome E A) : bool := match r with Err _ => true | _ => false end.

(** [unwrap] and [unwrap_err] of a result *)
Definition unwrap_ok {E F A} (r : outcome E A) : outcome F A :=
  match r with Ok a => Ok a | Err _ | Panic => Panic | Diverge => Diverge end.
Definition unwrap_err {E F A} (r : outcome E A) : outcome F E :=
  match r with Err e => Ok e | Ok _ | Panic => Panic | Diverge => Diverge end.

(** ** [core.rs] *)

Module CoreTests.
Section Tests.
Context `{FT : FlatTree} `{CE : CompactEncoding} `{B2 : Blake2b} `{ED : Ed25519} `{CR : Crc32}
  `{RA : RandomAccess} `{IO : IntMapOrder}.
Variables (memory_default : ra) (generated : SigningKey).

(** [format!("#{}", i).as_bytes()] *)
Definition numbered (i : Z) : list Z := bytes (String "#" (pretty (Z.to_N i))).

Fixpoint append_all (blocks : list (list Z)) : coreM unit :=
  match blocks with
  | [] => mret tt
  | b :: blocks => _ ← Core.append b; append_all blocks
  end.

Definition create_hypercore_with_data_and_key_pair (length : Z) (key_pair : PartialKeypair) : result Hypercore :=
  storage ← Storage_new_memory memory_default;
  hypercore ← (Core.new generated (mkOptions (Some key_pair) false) storage).2;
  let '(hypercore, appended) := append_all (numbered <$> seqZ 0 length) hypercore in
  _ ← appended;
  Ok hypercore.

Definition create_hypercore_with_data (length : Z) : result Hypercore :=
  create_hypercore_with_data_and_key_pair length (mkKeypair _ (sk_verifying_key generated) (Some generated)).

(** The nodes' indices, in the proof's order. *)
Definition assert_nodes (nodes : list Node) (indices : list Z) : result unit :=
  assert (bool_decide (node_index <$> nodes = indices)).

(** A core of [length] blocks creates a proof, which is checked. *)
Definition create_proof_test (length : Z) (block hash : option RequestBlock) (seek : option RequestSeek)
    (upgrade : option RequestUpgrade) (checks : Proof_ -> result unit) : result unit :=
  hypercore ← create_hypercore_with_data length;
  proof ← (Core.create_proof block hash seek upgrade hypercore).2;
  proof ← unwrap proof;
  checks proof.

Definition core_create_proof_block_only : result unit :=
  create_proof_test 10 (Some (mkRequestBlock 4 2)) None None None (fun proof =>
    block ← unwrap (proof_block proof);
    _ ← assert (is_none (proof_upgrade proof));
    _ ← assert (is_none (proof_seek proof));
    _ ← assert (db_index block =? 4);
    assert_nodes (db_nodes block) [10; 13]).

Definition core_create_proof_block_and_upgrade : result unit :=
  create_proof_test 10 (Some (mkRequestBlock 4 0)) None None (Some (mkRequestUpgrade 0 10)) (fun proof =>
    block ← unwrap (proof_block proof);
    upgrade ← unwrap (proof_upgrade proof);
    _ ← assert (is_none (proof_seek proof));
    _ ← assert (db_index block =? 4);
    _ ← assert_nodes (db_nodes block) [10; 13; 3];
    _ ← assert (du_start upgrade =? 0);
    _ ← assert (du_length upgrade =? 10);
    _ ← assert_nodes (du_nodes upgrade) [17];
    assert_nodes (du_additional_nodes upgrade) []).

Definition core_create_proof_block_and_upgrade_and_additional : result unit :=
  create_proof_test 10 (Some (mkRequestBlock 4 0)) None None (Some (mkRequestUpgrade 0 8)) (fun proof =>
    block ← unwrap (proof_block proof);
    upgrade ← unwrap (proof_upgrade proof);
    _ ← assert (is_none (proof_seek proof));
    _ ← assert (db_index block =? 4);
    _ ← assert_nodes (db_nodes block) [10; 13; 3];
    _ ← assert (du_start upgrade =? 0);
    _ ← assert (du_length upgrade =? 8);
    _ ← assert_nodes (du_nodes upgrade) [];
    assert_nodes (du_additional_nodes upgrade) [17]).

Definition core_create_proof_block_and_upgrade_from_existing_state : result unit :=
  create_proof_test 10 (Some (mkRequestBlock 1 0)) None None (Some (mkRequestUpgrade 1 9)) (fun proof =>
    block ← unwrap (proof_block proof);
    upgrade ← unwrap (proof_upgrade proof);
    _ ← assert (is_none (proof_seek proof));
    _ ← assert (db_index block =? 1);
    _ ← assert_nodes (db_nodes block) [];
    _ ← assert (du_start upgrade =? 1);
    _ ← assert (du_length upgrade =? 9);
    _ ← assert_nodes (du_nodes upgrade) [5; 11; 17];
    assert_nodes (du_additional_nodes upgrade) []).

Definition core_create_proof_block_and_upgrade_from_existing_state_with_additional : result unit :=
  create_proof_test 10 (Some (mkRequestBlock 1 0)) None None (Some (mkRequestUpgrade 1 5)) (fun proof =>
    block ← unwrap (proof_block proof);
    upgrade ← unwrap (proof_upgrade proof);
    _ ← assert (is_none (proof_seek proof));
    _ ← assert (db_index block =? 1);
    _ ← assert_nodes (db_nodes block) [];
    _ ← assert (du_start upgrade =? 1);
    _ ← assert (du_length upgrade =? 5);
    _ ← assert_nodes (du_nodes upgrade) [5; 9];
    assert_nodes (du_additional_nodes upgrade) [13; 17]).

(** The seek is in the block's part of the tree. *)
Definition core_create_proof_block_and_seek_1_no_upgrade : result unit :=
  create_proof_test 10 (Some (mkRequestBlock 4 2)) None (Some (mkRequestSeek 8)) None (fun proof =>
    block ← unwrap (proof_block proof);
    _ ← assert (is_none (proof_seek proof));
    _ ← assert (is_none (proof_upgrade proof));
    _ ← assert (db_index block =? 4);
    assert_nodes (db_nodes block) [10; 13]).

Definition core_create_proof_block_and_seek_2_no_upgrade : result unit :=
  create_proof_test 10 (Some (mkRequestBlock 4 2)) None (Some (mkRequestSeek 10)) None (fun proof =>
    block ← unwrap (proof_block proof);
    _ ← assert (is_none (proof_seek proof));
    _ ← assert (is_none (proof_upgrade proof));
    _ ← assert (db_index block =? 4);
    assert_nodes (db_nodes block) [10; 13]).

Definition core_create_proof_block_and_seek_3_no_upgrade : result unit :=
  create_proof_test 10 (Some (mkRequestBlock 4 2)) None (Some (mkRequestSeek 13)) None (fun proof =>
    block ← unwrap (proof_block proof);
    seek ← unwrap (proof_seek proof);
    _ ← assert (is_none (proof_upgrade proof));
    _ ← assert (db_index block =? 4);
    _ ← assert_nodes (db_nodes block) [10];
    assert_nodes (ds_nodes seek) [12; 14]).

Definition core_create_proof_block_and_seek_to_tree_no_upgrade : result unit :=
  create_proof_test 16 (Some (mkRequestBlock 0 4)) None (Some (mkRequestSeek 26)) None (fun proof =>
    block ← unwrap (proof_block proof);
    seek ← unwrap (proof_seek proof);
    _ ← assert (is_none (proof_upgrade proof));
    _ ← assert_nodes (db_nodes block) [2; 5; 11];
    assert_nodes (ds_nodes seek) [19; 27]).

Definition core_create_proof_block_and_seek_with_upgrade : result unit :=
  create_proof_test 10 (Some (mkRequestBlock 4 2)) None (Some (mkRequestSeek 13)) (Some (mkRequestUpgrade 8 2))
    (fun proof =>
    block ← unwrap (proof_block proof);
    seek ← unwrap (proof_seek proof);
    upgrade ← unwrap (proof_upgrade proof);
    _ ← assert (db_index block =? 4);
    _ ← assert_nodes (db_nodes block) [10];
    _ ← assert_nodes (ds_nodes seek) [12; 14];
    _ ← assert_nodes (du_nodes upgrade) [17];
    assert_nodes (du_additional_nodes upgrade) []).

Definition core_create_proof_seek_with_upgrade : result unit :=
  create_proof_test 10 None None (Some (mkRequestSeek 13)) (Some (mkRequestUpgrade 0 10)) (fun proof =>
    seek ← unwrap (proof_seek proof);
    upgrade ← unwrap (proof_upgrade proof);
    _ ← assert (is_none (proof_block proof));
    _ ← assert_nodes (ds_nodes seek) [12; 14; 9; 3];
    _ ← assert_nodes (du_nodes upgrade) [17];
    assert_nodes (du_additional_nodes upgrade) []).
End Tests.

Section Peers.
Context `{FT : FlatTree} `{CE : CompactEncoding} `{B2 : Blake2b} `{ED : Ed25519} `{CR : Crc32}
  `{RA : RandomAccess} `{IO : IntMapOrder}.
Variables (memory_default : ra).

(** The clone has a key of its own. *)
Definition core_verify_proof_invalid_signature (generated generated' : SigningKey) : result unit :=
  hypercore ← create_hypercore_with_data memory_default generated 10;
  hypercore_clone ← create_hypercore_with_data memory_default generated' 0;
  proof ← (Core.create_proof None (Some (mkRequestBlock 6 0)) None (Some (mkRequestUpgrade 0 10)) hypercore).2;
  proof ← unwrap proof;
  assert (is_err (Core.verify_and_apply_proof proof hypercore_clone).2).

(** What [core_verify_and_apply_proof] does with the two cores. *)
Definition verify_and_apply : peersM unit :=
  let index := 6 in
  nodes ← at_replica (Core.missing_nodes index);
  proof ← at_origin (Core.create_proof None (Some (mkRequestBlock index nodes)) None (Some (mkRequestUpgrade 0 10)));
  proof ← lift (unwrap proof);
  applied ← at_replica (Core.verify_and_apply_proof proof);
  _ ← lift (assert applied);
  main_info ← at_origin (gets Core.info);
  clone_info ← at_replica (gets Core.info);
  _ ← lift (assert (info_byte_length main_info =? info_byte_length clone_info));
  _ ← lift (assert (info_length main_info =? info_length clone_info));
  data ← at_origin (Core.get 6);
  _ ← lift (assert (negb (is_none data)));
  data ← at_replica (Core.get 6);
  _ ← lift (assert (is_none data));
  nodes ← at_replica (Core.missing_nodes index);
  proof ← at_origin (Core.create_proof (Some (mkRequestBlock index nodes)) None None None);
  proof ← lift (unwrap proof);
  applied ← at_replica (Core.verify_and_apply_proof proof);
  lift (assert applied).

(** The clone has the public key only. *)
Definition main_and_clone (generated : SigningKey) : result (Hypercore * Hypercore) :=
  main ← create_hypercore_with_data memory_default generated 10;
  clone ← create_hypercore_with_data_and_key_pair memory_default generated 0
    (mkKeypair _ (kp_public (hc_key_pair main)) None);
  Ok (main, clone).

Definition core_verify_and_apply_proof (generated : SigningKey) : result unit :=
  peers ← main_and_clone generated;
  (verify_and_apply peers).2.
End Peers.
End CoreTests.

(** ** [oplog/header.rs] *)

Module HeaderTests.
Section Tests.
Context `{FT : FlatTree} `{CE : CompactEncoding} `{ED : Ed25519}.

Definition encode_partial_key_pair (signing_key : SigningKey) : eresult unit :=
  let enc_state := st_new_with_start_and_end 0 0 in
  let key_pair := mkKeypair _ (sk_verifying_key signing_key) (Some signing_key) in
  enc_state ← preencode enc_state key_pair;
  let buffer := st_create_buffer enc_state in
  let expected_len := 1 + 32 + 1 + 64 in
  _ ← assert (zlen buffer =? expected_len);
  _ ← assert (st_end enc_state =? expected_len);
  _ ← assert (st_start enc_state =? 0);
  '(enc_state, buffer) ← encode enc_state key_pair buffer;
  '(_, key_pair_ret) ← decode (A:=PartialKeypair) (st_from_buffer buffer) buffer;
  _ ← assert (bool_decide (vk_to_bytes (kp_public key_pair) = vk_to_bytes (kp_public key_pair_ret)));
  secret ← unwrap (kp_secret key_pair);
  secret_ret ← unwrap (kp_secret key_pair_ret);
  assert (bool_decide (sk_to_bytes secret = sk_to_bytes secret_ret)).

Definition encode_tree : eresult unit :=
  let tree := HeaderTree_new in
  buffer ← write_value tree;
  tree_ret ← read_value (A:=HeaderTree) buffer;
  assert ((ht_fork tree =? ht_fork tree_ret) && (ht_length tree =? ht_length tree_ret) &&
    bool_decide (ht_root_hash tree = ht_root_hash tree_ret) && bool_decide (ht_signature tree = ht_signature tree_ret)).

Definition encode_header (signing_key : SigningKey) : eresult unit :=
  let header := Header_new (mkKeypair _ (sk_verifying_key signing_key) (Some signing_key)) in
  buffer ← write_value header;
  header_ret ← read_value (A:=Header) buffer;
  _ ← assert (bool_decide (vk_to_bytes (kp_public (hd_key_pair header)) = vk_to_bytes (kp_public (hd_key_pair header_ret))));
  _ ← assert (ht_fork (hd_tree header) =? ht_fork (hd_tree header_ret));
  _ ← assert (ht_length (hd_tree header) =? ht_length (hd_tree header_ret));
  _ ← assert (ht_length (hd_tree header) =? ht_length (hd_tree header_ret));
  let manifest := hd_manifest header in
  let manifest_ret := hd_manifest header_ret in
  _ ← assert (bool_decide (mf_hash manifest = mf_hash manifest_ret));
  _ ← assert (bool_decide (ms_public_key (mf_signer manifest) = ms_public_key (mf_signer manifest_ret)));
  assert (bool_decide (ms_signature (mf_signer manifest) = ms_signature (mf_signer manifest_ret))).
End Tests.
End HeaderTests.

(** ** [crypto/key_pair.rs] *)

Definition can_verify_messages `{Ed25519} (signing_key : SigningKey) : result unit :=
  let from := bytes "hello" in
  let sig := sign signing_key from in
  _ ← unwrap_ok (verify (sk_verifying_key signing_key) from (Some sig));
  _ ← unwrap_err (verify (sk_verifying_key signing_key) (bytes "oops") (Some sig));
  Ok tt.

(** ** [crypto/hash.rs] *)

Module HashTests.
Section Tests.
Context `{FT : FlatTree} `{CE : CompactEncoding} `{B2 : Blake2b} `{ED : Ed25519} `{BM : Blake2bMac}.

Definition hash_with_extra_byte (data : list Z) (byte : Z) : list Z := blake2b256 (data ++ [byte]).

(** [HEXLOWER.decode(..).unwrap()] *)
Definition hex_digit (c : ascii) : option Z :=
  let n := Z.of_N (N_of_ascii c) in
  if between 48 57 n then Some (n - 48) else if between 97 102 n then Some (n - 87) else None.

Fixpoint hex_decode (hex : string) : option (list Z) :=
  match hex with
  | EmptyString => Some []
  | String a (String b hex) =>
      h ← hex_digit a; l ← hex_digit b; bs ← hex_decode hex; Some (16 * h + l :: bs)
  | _ => None
  end.

Definition hex_bytes (hex : string) : result (list Z) := unwrap (hex_decode hex).

Definition check_hash (hash : list Z) (hex : string) : result unit :=
  expected ← hex_bytes hex; assert (bool_decide (hash = expected)).

Definition leaf_hash : result unit :=
  _ ← check_hash (from_leaf []) "5187b7a8021bf4f2c004ea3a54cfece1754f11c7624d2363c7f4cf4fddd1441e";
  check_hash (from_leaf [0; 1; 2; 3; 4; 5; 6; 7; 8; 9])
    "e1001bb0bb9322b6b202b2f737dc12181b11727168d33ca48ffe361c66cd1abe".

Definition leaf_node (index : Z) (data : list Z) : Node := Node_new index (from_leaf data) (zlen data).

Definition d1 : list Z := [0; 1; 2; 3; 4].
Definition d2 : list Z := [42; 43; 44; 45; 46; 47; 48].

Definition parent_hash : result unit :=
  let node1 := leaf_node 0 d1 in
  let node2 := leaf_node 1 d2 in
  h ← from_hashes node1 node2;
  _ ← check_hash h "6fac58578fa385f25a54c0637adaca71fdfddcea885d561f33d80c4487149a14";
  h ← from_hashes node2 node1;
  check_hash h "6fac58578fa385f25a54c0637adaca71fdfddcea885d561f33d80c4487149a14".

Definition root_hash : result unit :=
  let node1 := leaf_node 0 d1 in
  let node2 := leaf_node 1 d2 in
  _ ← check_hash (from_roots [node1; node2]) "2d117e0bb15c6e5236b6ce764649baed1c41890da901a015341503146cc20bcd";
  check_hash (from_roots [node2; node1]) "9826c8c2d28fc309cce73a4b6208e83e5e4b0433d2369bfbf8858272153849f1".

(** [VerifyingKey::from_bytes] may refuse the bytes. *)
Definition discovery_key_hashing : outcome unit unit :=
  match vk_from_bytes
    [119; 143; 141; 149; 81; 117; 201; 46; 76; 237; 94; 79; 85; 99; 246; 155; 254; 192; 200;
     108; 198; 246; 112; 53; 44; 69; 121; 67; 102; 111; 230; 57] with
  | None => Err tt
  | Some public_key =>
      hash ← unwrap_ok (for_discovery_key public_key);
      assert (bool_decide (hash =
        [37; 167; 138; 168; 22; 21; 132; 126; 186; 0; 153; 93; 242; 157; 212; 29; 126; 227; 15;
         59; 1; 248; 146; 32; 159; 121; 183; 90; 87; 217; 137; 225]))
  end.

Definition hash_leaf : result unit :=
  h ← Hash_data (bytes "hello world");
  check_hash h "9f1b578fd57a4df015493d2886aec9600eef913c3bb009768c7f0fb875996308".

Definition hash_parent : result unit :=
  let data := bytes "hello world" in
  let len := zlen data in
  h1 ← Hash_data data;
  let node1 := Node_new 0 h1 len in
  h2 ← Hash_data data;
  let node2 := Node_new 1 h2 len in
  h ← Hash_parent node1 node2;
  check_hash h "3ad0c9b58b771d1b7707e1430f37c23a23dd46e0c7c3ab9c16f79d25f7c36804".

Definition hash_tree : result unit :=
  let hash := replicate 32 0 in
  let node1 := Node_new 3 hash 11 in
  let node2 := Node_new 9 hash 2 in
  h ← Hash_tree [node1; node2];
  check_hash h "0e576a56b478cddb6ffebab8c494532b6de009466b2e9f7af9143fc54b9eaa36".

Definition hash_namespace : result unit :=
  let ns := blake2b256 HYPERCORE in
  let tree := hash_with_extra_byte ns 0 in
  assert (bool_decide (tree = TREE)).
End Tests.
End HashTests.

(** ** [replication/shared_core.rs] and [replication/events.rs] *)

(** [?] on a result with another error type. *)
Definition into {E F A} (from : E -> F) (r : outcome E A) : outcome F A :=
  match r with Ok a => Ok a | Err e => Err (from e) | Panic => Panic | Diverge => Diverge end.

#[global] Instance Info_eq_dec : EqDecision Info.
Proof. solve_decision. Defined.
#[global] Instance AppendOutcome_eq_dec : EqDecision AppendOutcome.
Proof. solve_decision. Defined.
#[global] Instance Event_eq_dec : EqDecision Event.
Proof. solve_decision. Defined.

Module SharedTests.
Section Tests.
Context `{FT : FlatTree} `{CE : CompactEncoding} `{B2 : Blake2b} `{ED : Ed25519} `{CR : Crc32}
  `{RA : RandomAccess} `{IO : IntMapOrder}.
Variable (memory_default : ra).

(** One task uses the core, so that every lock is free. *)
Definition core_session : stateR Hypercore CoreMethodsError unit :=
  info ← SharedCore.info;
  _ ← lift (assert (bool_decide (info = mkInfo 0 0 0 0 true)));
  _kp ← SharedCore.key_pair;
  has ← SharedCore.has 0;
  _ ← lift (assert (negb has));
  data ← SharedCore.get 0;
  _ ← lift (assert (bool_decide (data = None)));
  res ← SharedCore.append (bytes "foo");
  _ ← lift (assert (bool_decide (res = mkAppendOutcome 1 3)));
  has ← SharedCore.has 0;
  _ ← lift (assert has);
  data ← SharedCore.get 0;
  _ ← lift (assert (bool_decide (data = Some (bytes "foo"))));
  res ← SharedCore.append_batch [bytes "hello"; bytes "world"];
  _ ← lift (assert (bool_decide (res = mkAppendOutcome 3 13)));
  has ← SharedCore.has 2;
  _ ← lift (assert has);
  data ← SharedCore.get 2;
  lift (assert (bool_decide (data = Some (bytes "world")))).

Definition shared_core_methods (generated : SigningKey) : outcome CoreMethodsError unit :=
  core ← into CoreMethods_HypercoreError (CoreTests.create_hypercore_with_data memory_default generated 0);
  (core_session core).2.

Abbreviation shared A := (stateR (Hypercore * Hypercore) ReplicationMethodsError A).
Definition at_main {A} (m : stateR Hypercore ReplicationMethodsError A) : shared A := fun p =>
  let '(o, x) := m p.1 in ((o, p.2), x).
Definition at_clone {A} (m : stateR Hypercore ReplicationMethodsError A) : shared A := fun p =>
  let '(r, x) := m p.2 in ((p.1, r), x).
Abbreviation via_core m := (question Replication_CoreMethodsError m).

Definition replication_methods_session : shared unit :=
  let index := 6 in
  nodes ← at_clone (SharedCore.missing_nodes index);
  proof ← at_main (SharedCore.create_proof None (Some (mkRequestBlock index nodes)) None (Some (mkRequestUpgrade 0 10)));
  proof ← lift (unwrap proof);
  applied ← at_clone (SharedCore.verify_and_apply_proof proof);
  _ ← lift (assert applied);
  main_info ← at_main (via_core SharedCore.info);
  clone_info ← at_clone (via_core SharedCore.info);
  _ ← lift (assert (info_byte_length main_info =? info_byte_length clone_info));
  _ ← lift (assert (info_length main_info =? info_length clone_info));
  data ← at_main (via_core (SharedCore.get 6));
  _ ← lift (assert (negb (is_none data)));
  data ← at_clone (via_core (SharedCore.get 6));
  _ ← lift (assert (is_none data));
  nodes ← at_clone (SharedCore.missing_nodes index);
  proof ← at_main (SharedCore.create_proof (Some (mkRequestBlock index nodes)) None None None);
  proof ← lift (unwrap proof);
  applied ← at_clone (SharedCore.verify_and_apply_proof proof);
  lift (assert applied).

Definition shared_core_replication_methods (generated : SigningKey) : outcome ReplicationMethodsError unit :=
  peers ← into Replication_HypercoreError (CoreTests.main_and_clone memory_default generated);
  (replication_methods_session peers).2.
End Tests.
End SharedTests.

Module EventTests.
Section Tests.
Context `{FT : FlatTree} `{CE : CompactEncoding} `{B2 : Blake2b} `{ED : Ed25519} `{CR : Crc32}
  `{RA : RandomAccess} `{IO : IntMapOrder} `{BC : Broadcast}.

(** The task that receives until it has [n] events; it waits forever when there
    are not as many. *)
Fixpoint receive (fuel : nat) (n : nat) (rx : nat) (self : Events_) : outcome CoreMethodsError (Events_ * list Event) :=
  match n, fuel with
  | O, _ => Ok (self, [])
  | S n', S fuel =>
      let '(ch, x) := bc_try_recv rx (ev_channel self) in
      let self := mkEvents ch (ev_receiver self) in
      match x with
      | Received m => '(self, out) ← receive fuel n' rx self; Ok (self, event_of m :: out)
      | RecvOverflowed _ => receive fuel n rx self
      | RecvEmpty | RecvClosed => Diverge
      end
  | _, O => Diverge
  end.

(** The events the core has sent since it had sent [n], on its channel. *)
Definition sent_since (n : nat) (core : Hypercore) (self : Events_) : Events_ :=
  foldl (fun self e => Events.send_event e self) self (drop n (hc_events core)).

Definition queue_is_empty (rx : nat) (self : Events_) : bool :=
  match pending (ev_channel self) rx with Some [] => true | _ => false end.

Definition test_events (memory_default : ra) (generated : SigningKey) : outcome CoreMethodsError unit :=
  core ← into CoreMethods_HypercoreError (CoreTests.create_hypercore_with_data memory_default generated 0);
  let '(events, rx) := Events.event_subscribe Events.new in
  let position := length (hc_events core) in
  let '(core, appended) := Core.append (bytes "foo") core in
  _ ← into CoreMethods_HypercoreError appended;
  '(events, res) ← receive 64 2 rx (sent_since position core events);
  res0 ← unwrap (res !! 0%nat);
  _ ← assert (bool_decide (res0 = EventDataUpgrade));
  res1 ← unwrap (res !! 1%nat);
  _ ← assert (bool_decide (res1 = EventHave 0 1 false));
  _ ← assert (queue_is_empty rx events);
  let position := length (hc_events core) in
  let '(core, data) := Core.get 1 core in
  data ← into CoreMethods_HypercoreError data;
  _ ← assert (is_none data);
  '(events, res) ← receive 64 1 rx (sent_since position core events);
  res0 ← unwrap (res !! 0%nat);
  _ ← assert (bool_decide (res0 = EventGet 1));
  assert (queue_is_empty rx events).
End Tests.
End EventTests.
