(* ===== verification/BitfieldTests.v ===== *)
(** * The unit tests of the bitfields

    The tests of [bitfield/fixed.rs] and [bitfield/dynamic.rs] as programs over
    the modelled bitfields: a failed assertion is a panic.  They are evaluated in
    [UnitTestTheorems]. *)

From stdpp Require Import base list gmap.
From Stdlib Require Import ZArith Lia Bool.
From S2P Require Import Prelude Common BitfieldFixed BitfieldDynamic Examples.
Open Scope Z_scope.

(** The operations the two kinds of bitfield have in common. *)
Class Bits (S : Type) := {
  bits_get : S -> Z -> result bool;
  bits_set : Z -> bool -> stateR S HypercoreError unit;
  bits_set_range : Z -> Z -> bool -> stateR S HypercoreError unit;
  bits_index_of : S -> bool -> Z -> result (option Z);
  bits_last_index_of : S -> bool -> Z -> result (option Z);
}.

(** A method called for its effect. *)
Definition call {S A} (f : S -> result (S * A)) : stateR S HypercoreError unit := fun s =>
  match f s with
  | Ok (s, _) => (s, Ok tt)
  | Err e => (s, Err e)
  | Panic => (s, Panic)
  | Diverge => (s, Diverge)
  end.

#[export] Instance fixed_bits : Bits FixedBitfield := {|
  bits_get := Fixed.get;
  bits_set i b := call (fun s => Fixed.set s i b);
  bits_set_range i n b := call (fun s => Fixed.set_range s i n b);
  bits_index_of := Fixed.index_of;
  bits_last_index_of := Fixed.last_index_of;
|}.

#[export] Instance dynamic_bits : Bits DynamicBitfield := {|
  bits_get := Dynamic.get;
  bits_set i b := call (fun s => Dynamic.set s i b);
  bits_set_range i n b := call (fun s => s ← Dynamic.set_range s i n b; Ok (s, tt));
  bits_index_of := Dynamic.index_of;
  bits_last_index_of := Dynamic.last_index_of;
|}.

(** ** The tests *)

Section Assertions.
Context {T : Type} `{BT : !Bits T}.

(** [assert_eq!] on what a method returns. *)
Definition assert_eq `{EqDecision A} (f : T -> result A) (a : A) : stateR T HypercoreError unit := fun s =>
  (s, x ← f s; assert (bool_decide (x = a))).

Definition get_is (i : Z) (b : bool) : stateR T HypercoreError unit := assert_eq (fun s => bits_get s i) b.
Definition index_of_is (b : bool) (i : Z) (r : option Z) : stateR T HypercoreError unit :=
  assert_eq (fun s => bits_index_of s b i) r.
Definition last_index_of_is (b : bool) (i : Z) (r : option Z) : stateR T HypercoreError unit :=
  assert_eq (fun s => bits_last_index_of s b i) r.

(** [for i in start..start + length { assert_eq!(bitfield.get(i), value) }] *)
Definition assert_value_range (start length : Z) (value : bool) : stateR T HypercoreError unit :=
  foldr (fun i rest => get_is i value ;; rest) (mret tt) (range start (start + length)).
End Assertions.

Abbreviation set := bits_set.
Abbreviation set_range := bits_set_range.
Abbreviation range_is := assert_value_range.

Module FixedTests.
Abbreviation test := (stateR FixedBitfield HypercoreError unit).

Definition get_and_set : test :=
  range_is 0 9 false ;;
  index_of_is true 0 None ;;
  index_of_is false 0 (Some 0) ;;
  last_index_of_is true 9 None ;;
  last_index_of_is false 9 (Some 9) ;;
  set 0 true ;;
  get_is 0 true ;;
  index_of_is true 0 (Some 0) ;;
  index_of_is false 0 (Some 1) ;;
  last_index_of_is true 9 (Some 0) ;;
  last_index_of_is false 9 (Some 9) ;;
  last_index_of_is false 0 None ;;
  range_is 1 63 false ;;
  set 31 true ;;
  get_is 31 true ;;
  index_of_is true 1 (Some 31) ;;
  index_of_is false 31 (Some 32) ;;
  range_is 32 32 false ;;
  get_is 32 false ;;
  set 32 true ;;
  get_is 32 true ;;
  range_is 33 31 false ;;
  range_is 32760 8 false ;;
  get_is 32767 false ;;
  set 32767 true ;;
  get_is 32767 true ;;
  range_is 32760 7 false ;;
  index_of_is true 33 (Some 32767) ;;
  last_index_of_is true 9 (Some 0) ;;
  last_index_of_is true 32766 (Some 32) ;;
  mret tt.

Definition set_range_ : test :=
  set_range 0 2 true ;;
  range_is 0 2 true ;;
  range_is 3 61 false ;;
  set_range 2 3 true ;;
  range_is 0 5 true ;;
  range_is 5 59 false ;;
  set_range 1 3 false ;;
  get_is 0 true ;;
  range_is 1 3 false ;;
  range_is 4 1 true ;;
  range_is 5 59 false ;;
  set_range 30 30070 true ;;
  range_is 5 25 false ;;
  range_is 30 100 true ;;
  range_is 30050 50 true ;;
  range_is 31000 50 false ;;
  index_of_is true 20 (Some 30) ;;
  index_of_is false 30 (Some 30100) ;;
  last_index_of_is true 32000 (Some 30099) ;;
  last_index_of_is false 30099 (Some 29) ;;
  set_range 32750 18 true ;;
  range_is 32750 18 true ;;
  set_range 32765 3 false ;;
  range_is 32750 15 true ;;
  range_is 32765 3 false ;;
  mret tt.

Definition bitfield_fixed_get_and_set : result unit := (get_and_set Fixed.new).2.
Definition bitfield_fixed_set_range : result unit := (set_range_ Fixed.new).2.
End FixedTests.

Module DynamicTests.
Abbreviation test := (stateR DynamicBitfield HypercoreError unit).

Definition get_dynamic_bitfield : result DynamicBitfield :=
  r ← Dynamic.open (Some (StoreInfo.new_content Bitfield 0 []));
  match r with Left _ => Panic | Right bitfield => Ok bitfield end.

Definition get_and_set : test :=
  range_is 0 9 false ;;
  index_of_is true 0 None ;;
  index_of_is false 0 (Some 0) ;;
  last_index_of_is true 9 None ;;
  last_index_of_is false 9 (Some 9) ;;
  index_of_is true 10000000 None ;;
  index_of_is false 10000000 (Some 10000000) ;;
  last_index_of_is true 10000000 None ;;
  last_index_of_is false 10000000 (Some 10000000) ;;
  set 0 true ;;
  get_is 0 true ;;
  index_of_is true 0 (Some 0) ;;
  index_of_is false 0 (Some 1) ;;
  last_index_of_is true 9 (Some 0) ;;
  last_index_of_is false 9 (Some 9) ;;
  last_index_of_is true 10000000 (Some 0) ;;
  last_index_of_is false 10000000 (Some 10000000) ;;
  range_is 1 63 false ;;
  set 31 true ;;
  get_is 31 true ;;
  range_is 32 32 false ;;
  get_is 32 false ;;
  set 32 true ;;
  get_is 32 true ;;
  range_is 33 31 false ;;
  range_is 32760 8 false ;;
  get_is 32767 false ;;
  set 32767 true ;;
  get_is 32767 true ;;
  range_is 32760 7 false ;;
  (* over one fixed bitfield *)
  set 32768 true ;;
  range_is 32767 2 true ;;
  range_is 32769 9 false ;;
  set 10000000 true ;;
  get_is 10000000 true ;;
  range_is 9999990 10 false ;;
  range_is 10000001 9 false ;;
  index_of_is false 32767 (Some 32769) ;;
  index_of_is true 32769 (Some 10000000) ;;
  last_index_of_is true 9999999 (Some 32768) ;;
  mret tt.

Definition set_range_ : test :=
  set_range 0 2 true ;;
  range_is 0 2 true ;;
  range_is 3 61 false ;;
  set_range 2 3 true ;;
  range_is 0 5 true ;;
  range_is 5 59 false ;;
  set_range 1 3 false ;;
  get_is 0 true ;;
  range_is 1 3 false ;;
  range_is 4 1 true ;;
  range_is 5 59 false ;;
  set_range 30 30070 true ;;
  range_is 5 25 false ;;
  range_is 30 100 true ;;
  range_is 30050 50 true ;;
  range_is 31000 50 false ;;
  set_range 32750 18 true ;;
  range_is 32750 18 true ;;
  set_range 32765 3 false ;;
  range_is 32750 15 true ;;
  range_is 32765 3 false ;;
  (* over one fixed bitfield *)
  set_range 32765 15 true ;;
  range_is 32765 15 true ;;
  range_is 32780 9 false ;;
  set_range 32766 3 false ;;
  range_is 32766 3 false ;;
  set_range 10000000 50 true ;;
  range_is 9999990 9 false ;;
  range_is 10000050 9 false ;;
  index_of_is true 32780 (Some 10000000) ;;
  set_range 0 32780 false ;;
  (* empty pages, to test sorting *)
  set 900000 true ;;
  set 900000 false ;;
  set 300000 true ;;
  set 300000 false ;;
  set 200000 true ;;
  set 200000 false ;;
  set 500000 true ;;
  set 500000 false ;;
  set 100000 true ;;
  set 100000 false ;;
  set 700000 true ;;
  set 700000 false ;;
  index_of_is true 0 (Some 10000000) ;;
  last_index_of_is true 9999999 None ;;
  set_range 10000010 10 false ;;
  range_is 10000000 10 true ;;
  range_is 10000010 10 false ;;
  range_is 10000020 30 true ;;
  range_is 10000050 9 false ;;
  mret tt.

Definition bitfield_dynamic_get_and_set : result unit :=
  bitfield ← get_dynamic_bitfield; (get_and_set bitfield).2.
Definition bitfield_dynamic_set_range : result unit :=
  bitfield ← get_dynamic_bitfield; (set_range_ bitfield).2.
End DynamicTests.

(** ** What the operations promise *)

(** What was written, the last first: [(start, length, value)]. *)
Fixpoint written (h : list (Z * Z * bool)) (k : Z) : bool :=
  match h with
  | [] => false
  | (start, length, value) :: h => if (start <=? k) && (k <? start + length) then value else written h k
  end.

(** Whether all bits of [lo, hi) have a value. *)
Fixpoint constant (h : list (Z * Z * bool)) (v : bool) (lo hi : Z) : bool :=
  if hi <=? lo then true
  else match h with
  | [] => negb v
  | (start, length, value) :: h =>
      (Bool.eqb value v || (Z.min hi (start + length) <=? Z.max lo start)) &&
      constant h v lo (Z.min hi start) && constant h v (Z.max lo (start + length)) hi
  end.

Lemma constant_sound h v lo hi k : constant h v lo hi = true -> lo <= k < hi -> written h k = v.
Proof.
  revert lo hi. induction h as [|[[start length] value] h IH]; intros lo hi Hc Hk; cbn [constant written] in *;
    (destruct (Z.leb_spec hi lo); [lia|]).
  - by destruct v.
  - apply andb_true_iff in Hc as [[Hv Hlo]%andb_true_iff Hhi].
    destruct ((start <=? k) && (k <? start + length)) eqn:Hin.
    + apply andb_true_iff in Hin as [?%Z.leb_le ?%Z.ltb_lt].
      apply orb_true_iff in Hv as [?%eqb_prop|?%Z.leb_le]; [done|lia].
    + apply andb_false_iff in Hin as [?%Z.leb_gt|?%Z.ltb_ge]; [eapply (IH _ _ Hlo)|eapply (IH _ _ Hhi)]; lia.
Qed.

(** [searches_back]: whether [last_index_of(false, ..)] looks before its position. *)
Class BitsSpec (T : Type) := {
  bits_wf : T -> Prop;
  bit : T -> Z -> bool;
  limit : Z;
  searches_back : bool;
}.

#[export] Instance fixed_bits_spec : BitsSpec FixedBitfield :=
  {| bits_wf := fixed_wf; bit := fbit; limit := 32768; searches_back := true |}.
#[export] Instance dynamic_bits_spec : BitsSpec DynamicBitfield :=
  {| bits_wf := dyn_wf; bit := dbit; limit := 2 ^ 64 - 1; searches_back := false |}.

Class BitsLaws (T : Type) `{!Bits T} `{!BitsSpec T} : Prop := {
  limit_u64 : limit < 2 ^ 64;
  bits_get_law s k : bits_wf s -> 0 <= k < limit -> bits_get s k = Ok (bit s k);
  bits_set_range_law s start len v : bits_wf s -> 0 <= start -> 0 <= len -> start + len <= limit ->
    exists s', bits_set_range start len v s = (s', Ok tt) /\ bits_wf s' /\
      forall k, 0 <= k -> bit s' k = if decide (start <= k < start + len) then v else bit s k;
  bits_set_law s i v : bits_wf s -> 0 <= i < limit ->
    exists s', bits_set i v s = (s', Ok tt) /\ bits_wf s' /\
      forall k, 0 <= k -> bit s' k = if decide (k = i) then v else bit s k;
  bits_index_of_law s v pos i : bits_wf s -> 0 <= pos <= i -> i < limit ->
    (forall k, pos <= k < i -> bit s k = negb v) -> bit s i = v -> v = true \/ i = pos \/ i mod 32768 <> 0 ->
    bits_index_of s v pos = Ok (Some i);
  bits_index_of_none s pos : bits_wf s -> 0 <= pos < limit -> (forall k, pos <= k < 2 ^ 64 -> bit s k = false) ->
    bits_index_of s true pos = Ok None;
  bits_last_index_of_law s v pos i : bits_wf s -> 0 <= i <= pos -> pos < limit ->
    (forall k, i < k < pos + 1 -> bit s k = negb v) -> bit s i = v -> v = true \/ i = pos \/ searches_back = true ->
    bits_last_index_of s v pos = Ok (Some i);
  bits_last_index_of_none s v pos : bits_wf s -> 0 <= pos < limit -> (forall k, 0 <= k < pos + 1 -> bit s k = negb v) ->
    v = true \/ searches_back = true -> bits_last_index_of s v pos = Ok None;
}.

Lemma eqb_negb_l b v : b = negb v -> Bool.eqb b v = false.
Proof. intros ->. by destruct v. Qed.

#[export] Instance fixed_bits_laws : BitsLaws FixedBitfield.
Proof.
  constructor; cbn [bits_get bits_set bits_set_range bits_index_of bits_last_index_of fixed_bits bits_wf bit limit searches_back
    fixed_bits_spec].
  - done.
  - apply fixed_get_Ok.
  - intros s start len v Hwf Hs Hl Hb. destruct (fixed_set_range_Ok s start len v Hwf Hs Hl Hb) as (s' & c & Hr & Hwf' & _ & Hk & _).
    exists s'. unfold call. by rewrite Hr.
  - intros s i v Hwf Hi. destruct (fixed_set_Ok s i v Hwf Hi) as (s' & Hr & Hwf' & _ & Hk). exists s'. unfold call. by rewrite Hr.
  - intros s v pos i Hwf Hi Hlt Hb Hv _. destruct (fixed_index_of_spec s v pos Hwf ltac:(lia)) as (r & -> & Hr). f_equal.
    eapply is_first_unique; [exact Hr|]. split_and!; [lia..|by rewrite Hv, eqb_reflx|]. intros j Hj. by apply eqb_negb_l, Hb.
  - intros s pos Hwf Hp Hb. destruct (fixed_index_of_spec s true pos Hwf ltac:(lia)) as (r & -> & Hr). f_equal.
    eapply is_first_unique; [exact Hr|]. intros j Hj. apply eqb_negb_l, Hb. lia.
  - intros s v pos i Hwf Hi Hlt Hb Hv _. destruct (fixed_last_index_of_spec s v pos Hwf ltac:(lia)) as (r & -> & Hr). f_equal.
    eapply is_last_unique; [exact Hr|]. split_and!; [lia..|by rewrite Hv, eqb_reflx|]. intros j Hj. by apply eqb_negb_l, Hb.
  - intros s v pos Hwf Hp Hb _. destruct (fixed_last_index_of_spec s v pos Hwf ltac:(lia)) as (r & -> & Hr). f_equal.
    eapply is_last_unique; [exact Hr|]. intros j Hj. by apply eqb_negb_l, Hb.
Qed.

(** An unset bit is found where the search begins. *)
Lemma dyn_last_index_of_here s pos :
  dyn_wf s -> 0 <= pos < 2 ^ 64 -> dbit s pos = false -> Dynamic.last_index_of s false pos = Ok (Some pos).
Proof.
  intros Hwf Hp Hb. unfold Dynamic.last_index_of. page_split pos. cbn [Dynamic.last_index_of_false].
  rewrite Z.eqb_refl. cbn [orb]. unfold dbit in Hb.
  assert (Dynamic.hit (pos / 32768) (pos mod 32768) = Ok (Some pos)) as Hhit.
  { unfold Dynamic.hit. change DYNAMIC_BITFIELD_PAGE_SIZE with 32768. checked. do 2 f_equal. lia. }
  destruct (pages s !! (pos / 32768)) as [p|] eqn:Hpg; [|done].
  destruct (fixed_last_index_of_spec p false (pos mod 32768)) as (r & -> & Hr); [by eapply dw_page|lia|].
  rewrite bind_Ok, (is_last_unique _ _ _ _ (Some (pos mod 32768)) Hr); [done|].
  split_and!; [lia..|by rewrite Hb|]. intros j Hj. lia.
Qed.

(** The page of a set bit is not beyond the biggest one. *)
Lemma set_bit_page s k : dyn_wf s -> dbit s k = true -> k / 32768 <= biggest_page_index s.
Proof.
  intros Hwf Hb. unfold dbit in Hb. destruct (pages s !! (k / 32768)) eqn:Hp; [|done].
  apply (dw_page _ Hwf) in Hp as [_ ?]. lia.
Qed.

#[export] Instance dynamic_bits_laws : BitsLaws DynamicBitfield.
Proof.
  constructor; cbn [bits_get bits_set bits_set_range bits_index_of bits_last_index_of dynamic_bits bits_wf bit limit
    searches_back dynamic_bits_spec].
  - done.
  - intros s k Hwf Hk. apply dyn_get_Ok; [done|lia].
  - intros s start len v Hwf Hs Hl Hb. destruct (dyn_set_range_Ok s start len v Hwf Hs Hl ltac:(lia)) as (s' & Hr & Hwf' & Hk).
    exists s'. unfold call. by rewrite Hr.
  - intros s i v Hwf Hi. destruct (dyn_set_Ok s i v Hwf ltac:(lia)) as (s' & Hr & Hwf' & Hk). exists s'. unfold call. by rewrite Hr.
  - intros s v pos i Hwf Hi Hlt Hb Hv Hc. destruct v.
    + destruct (dyn_index_of_true s pos Hwf ltac:(lia)) as (r & -> & Hr). f_equal.
      eapply is_first_unique; [exact Hr|]. by split_and!; [lia..|done|].
    + destruct (dyn_index_of_false s pos Hwf ltac:(lia)) as (r & -> & Hr). f_equal.
      eapply is_first_unique; [exact Hr|]. assert (i / 32768 <= Z.max (pos / 32768) (biggest_page_index s)) as Hpage.
      { destruct Hc as [?|[->|Hc]]; [done|lia|]. destruct (decide (i = pos)) as [->|]; [lia|].
        pose proof (set_bit_page s (i - 1) Hwf ltac:(apply Hb; lia)). Z.div_mod_to_equations; lia. }
      split_and!; [lia|Z.div_mod_to_equations; lia|by rewrite Hv|]. intros j Hj. by rewrite Hb.
  - intros s pos Hwf Hp Hb. destruct (dyn_index_of_true s pos Hwf ltac:(lia)) as (r & -> & Hr). f_equal.
    eapply is_first_unique; [exact Hr|]. exact Hb.
  - intros s v pos i Hwf Hi Hlt Hb Hv [->|[->|?]]; [| |done].
    + destruct (dyn_last_index_of_true s pos Hwf ltac:(lia)) as (r & -> & Hr). f_equal.
      eapply is_last_unique; [exact Hr|]. by split_and!; [lia..|done|].
    + destruct v; [|apply dyn_last_index_of_here; [done|lia|done]].
      destruct (dyn_last_index_of_true s pos Hwf ltac:(lia)) as (r & -> & Hr). f_equal.
      eapply is_last_unique; [exact Hr|]. by split_and!; [lia..|done|].
  - intros s v pos Hwf Hp Hb [->|?]; [|done].
    destruct (dyn_last_index_of_true s pos Hwf ltac:(lia)) as (r & -> & Hr). f_equal.
    eapply is_last_unique; [exact Hr|]. exact Hb.
Qed.

(** ** Running a test on what was written *)

Section Running.
Context {T : Type} `{BT : !Bits T} `{BS : !BitsSpec T} {BL : BitsLaws T}.
Implicit Types (s : T) (h : list (Z * Z * bool)) (rest : stateR T HypercoreError unit).

Definition shows h s : Prop := bits_wf s /\ forall k, 0 <= k -> bit s k = written h k.
Definition passes (m : stateR T HypercoreError unit) s : Prop := (m s).2 = Ok tt.

Lemma passes_done s : passes (mret tt) s.
Proof. done. Qed.

Lemma passes_bind m rest s s' : m s = (s', Ok tt) -> passes rest s' -> passes (m ;; rest) s.
Proof. unfold passes, mbind, stateR_bind. by intros ->. Qed.

Lemma assert_eq_ok `{EqDecision A} (f : T -> result A) a s : f s = Ok a -> assert_eq f a s = (s, Ok tt).
Proof. intros Hf. unfold assert_eq. rewrite Hf, bind_Ok. by rewrite bool_decide_true. Qed.

Lemma passes_eq `{EqDecision A} (f : T -> result A) a rest s : f s = Ok a -> passes rest s -> passes (assert_eq f a ;; rest) s.
Proof. intros Hf. by apply passes_bind, assert_eq_ok. Qed.

Lemma run_set h s i v rest :
  shows h s -> (0 <=? i) && (i <? limit) = true ->
  (forall s', shows ((i, 1, v) :: h) s' -> passes rest s') -> passes (bits_set i v ;; rest) s.
Proof.
  intros [Hwf Hb] [?%Z.leb_le ?%Z.ltb_lt]%andb_true_iff Hrest.
  destruct (bits_set_law s i v Hwf ltac:(lia)) as (s' & Hr & Hwf' & Hb'). eapply passes_bind; [exact Hr|].
  apply Hrest. split; [done|]. intros k Hk. rewrite Hb', Hb by done. cbn [written].
  case_decide; destruct ((i <=? k) && (k <? i + 1)) eqn:E; try done; lia.
Qed.

Lemma run_set_range h s i n v rest :
  shows h s -> (0 <=? i) && (0 <=? n) && (i + n <=? limit) = true ->
  (forall s', shows ((i, n, v) :: h) s' -> passes rest s') -> passes (bits_set_range i n v ;; rest) s.
Proof.
  intros [Hwf Hb] [[?%Z.leb_le ?%Z.leb_le]%andb_true_iff ?%Z.leb_le]%andb_true_iff Hrest.
  destruct (bits_set_range_law s i n v Hwf) as (s' & Hr & Hwf' & Hb'); [done..|]. eapply passes_bind; [exact Hr|].
  apply Hrest. split; [done|]. intros k Hk. rewrite Hb', Hb by done. cbn [written].
  case_decide; destruct ((i <=? k) && (k <? i + n)) eqn:E; try done; lia.
Qed.

Lemma run_get h s i b rest :
  shows h s -> (0 <=? i) && (i <? limit) && Bool.eqb (written h i) b = true -> passes rest s -> passes (get_is i b ;; rest) s.
Proof.
  intros [Hwf Hb] [[?%Z.leb_le ?%Z.ltb_lt]%andb_true_iff Hv%eqb_prop]%andb_true_iff. apply passes_eq.
  by rewrite bits_get_law, Hb, Hv by (done || lia).
Qed.

Lemma run_range h s i n b rest :
  shows h s -> (0 <=? i) && (i + n <=? limit) && constant h b i (i + n) = true -> passes rest s ->
  passes (assert_value_range i n b ;; rest) s.
Proof.
  intros [Hwf Hb] [[?%Z.leb_le ?%Z.leb_le]%andb_true_iff Hc]%andb_true_iff. apply passes_bind. unfold assert_value_range.
  assert (forall k, k ∈ range i (i + n) -> i <= k < i + n) as Hin by (intros k; rewrite range_seqZ, elem_of_seqZ; lia).
  induction (range i (i + n)) as [|k ks IH]; [done|]. cbn [foldr].
  assert (i <= k < i + n) as Hk by (apply Hin; left). unfold mbind, stateR_bind, get_is.
  rewrite assert_eq_ok; [apply IH; intros j Hj; apply Hin; by right|].
  rewrite bits_get_law, Hb by (done || lia). by rewrite (constant_sound _ _ _ _ _ Hc Hk).
Qed.

Lemma run_index_of h s v pos i rest :
  shows h s -> (0 <=? pos) && (pos <=? i) && (i <? limit) && constant h (negb v) pos i && Bool.eqb (written h i) v &&
    (v || (i =? pos) || negb (i mod 32768 =? 0)) = true ->
  passes rest s -> passes (index_of_is v pos (Some i) ;; rest) s.
Proof.
  intros [Hwf Hb] Hc. rewrite !andb_true_iff, !orb_true_iff, negb_true_iff in Hc.
  destruct Hc as [[[[[?%Z.leb_le ?%Z.leb_le] ?%Z.ltb_lt] Hc] Hv%eqb_prop] Hd]. apply passes_eq. apply bits_index_of_law; [done|lia..| | |].
  - intros k Hk. rewrite Hb by lia. by eapply constant_sound.
  - by rewrite Hb by lia.
  - destruct Hd as [[->| ->%Z.eqb_eq]| ?%Z.eqb_neq]; eauto.
Qed.

Lemma run_index_of_none h s pos rest :
  shows h s -> (0 <=? pos) && (pos <? limit) && constant h false pos (2 ^ 64) = true ->
  passes rest s -> passes (index_of_is true pos None ;; rest) s.
Proof.
  intros [Hwf Hb] [[?%Z.leb_le ?%Z.ltb_lt]%andb_true_iff Hc]%andb_true_iff. apply passes_eq. apply bits_index_of_none; [done|lia|].
  intros k Hk. rewrite Hb by lia. by eapply constant_sound.
Qed.

Lemma run_last_index_of h s v pos i rest :
  shows h s -> (0 <=? i) && (i <=? pos) && (pos <? limit) && constant h (negb v) (i + 1) (pos + 1) && Bool.eqb (written h i) v &&
    (v || (i =? pos) || searches_back) = true ->
  passes rest s -> passes (last_index_of_is v pos (Some i) ;; rest) s.
Proof.
  intros [Hwf Hb] Hc. rewrite !andb_true_iff, !orb_true_iff in Hc.
  destruct Hc as [[[[[?%Z.leb_le ?%Z.leb_le] ?%Z.ltb_lt] Hc] Hv%eqb_prop] Hd]. apply passes_eq. apply bits_last_index_of_law; [done|lia..| | |].
  - intros k Hk. rewrite Hb by lia. eapply constant_sound; [exact Hc|lia].
  - by rewrite Hb by lia.
  - destruct Hd as [[->| ->%Z.eqb_eq]|?]; eauto.
Qed.

Lemma run_last_index_of_none h s v pos rest :
  shows h s -> (0 <=? pos) && (pos <? limit) && constant h (negb v) 0 (pos + 1) && (v || searches_back) = true ->
  passes rest s -> passes (last_index_of_is v pos None ;; rest) s.
Proof.
  intros [Hwf Hb] Hc. rewrite !andb_true_iff, !orb_true_iff in Hc. destruct Hc as [[[?%Z.leb_le ?%Z.ltb_lt] Hc] Hd].
  apply passes_eq. apply bits_last_index_of_none; [done|lia| |by destruct Hd as [->|]; eauto].
  intros k Hk. rewrite Hb by lia. by eapply constant_sound.
Qed.
End Running.

(** A statement of a test; what is known of the bitfield decides its assertion. *)
Ltac test_step :=
  match goal with
  | |- passes (mret tt) _ => apply passes_done
  | H : shows ?h ?s |- passes (mbind _ ?m) ?s =>
      lazymatch m with
      | bits_set _ _ => apply (run_set h s _ _ _ H); [vm_compute; reflexivity|clear H; clear s; intros s H]
      | bits_set_range _ _ _ => apply (run_set_range h s _ _ _ _ H); [vm_compute; reflexivity|clear H; clear s; intros s H]
      | get_is _ _ => apply (run_get h s _ _ _ H); [vm_compute; reflexivity|]
      | assert_value_range _ _ _ => apply (run_range h s _ _ _ _ H); [vm_compute; reflexivity|]
      | index_of_is _ _ (Some _) => apply (run_index_of h s _ _ _ _ H); [vm_compute; reflexivity|]
      | index_of_is _ _ None => apply (run_index_of_none h s _ _ H); [vm_compute; reflexivity|]
      | last_index_of_is _ _ (Some _) => apply (run_last_index_of h s _ _ _ _ H); [vm_compute; reflexivity|]
      | last_index_of_is _ _ None => apply (run_last_index_of_none h s _ _ _ H); [vm_compute; reflexivity|]
      end
  end.

Lemma fixed_new_shows : shows (T:=FixedBitfield) [] Fixed.new.
Proof. split; [apply fixed_new_wf|]. intros k _. apply fixed_new_bits. Qed.

Lemma fixed_tests_ok : FixedTests.bitfield_fixed_get_and_set = Ok tt /\ FixedTests.bitfield_fixed_set_range = Ok tt.
Proof.
  pose proof fixed_new_shows as H. unfold FixedTests.bitfield_fixed_get_and_set, FixedTests.bitfield_fixed_set_range.
  generalize dependent Fixed.new. intros s H. split.
  - change (passes FixedTests.get_and_set s). unfold FixedTests.get_and_set. repeat test_step.
  - change (passes FixedTests.set_range_ s). unfold FixedTests.set_range_. repeat test_step.
Qed.

Lemma dynamic_tests_ok :
  DynamicTests.bitfield_dynamic_get_and_set = Ok tt /\ DynamicTests.bitfield_dynamic_set_range = Ok tt.
Proof.
  unfold DynamicTests.bitfield_dynamic_get_and_set, DynamicTests.bitfield_dynamic_set_range.
  change DynamicTests.get_dynamic_bitfield with (Ok (E:=HypercoreError) (mkDynamic ∅ 0 [])). rewrite !bind_Ok.
  assert (shows (T:=DynamicBitfield) [] (mkDynamic ∅ 0 [])) as H by (split; [apply dyn_empty_wf|done]).
  generalize dependent (mkDynamic ∅ 0 []). intros s H. split.
  - change (passes DynamicTests.get_and_set s). unfold DynamicTests.get_and_set. repeat test_step.
  - change (passes DynamicTests.set_range_ s). unfold DynamicTests.set_range_. repeat test_step.
Qed.
