(* ===== verification/IntegrationTests.v ===== *)
(** * The integration tests

    [tests/common/mod.rs], [tests/core.rs], the steps of [tests/js_interop.rs]
    that are written in Rust, and [tests/model.rs], as programs over the modelled
    library.  The files of a directory are a [Storage]; what a core leaves there
    is opened by the next step.  The hash of the files is the parameter
    [sha256], and [file_bytes] reads a file.  [InteropTheorems] evaluates the
    steps; [ModelTest] proves that the model test passes for all operations. *)

From stdpp Require Import base list gmap strings.
From Stdlib Require Import ZArith Lia Bool Ascii.
From S2P Require Import Prelude FlatTree Common BitfieldFixed BitfieldDynamic.
From S2P Require Import CompactEncoding Encoding Crypto OplogEntry Changeset Storage Oplog.
From S2P Require Import MerkleTree MerkleProof Core Replication Examples UnitTests.
Open Scope Z_scope.

(** ** [tests/common/mod.rs] *)

Definition TEST_PUBLIC_KEY_BYTES : list Z :=
  [0x97; 0x60; 0x6c; 0xaa; 0xd2; 0xb0; 0x8c; 0x1d; 0x5f; 0xe1; 0x64; 0x2e; 0xee; 0xa5; 0x62; 0xcb;
   0x91; 0xd6; 0x55; 0xe2; 0x00; 0xc8; 0xd4; 0x3a; 0x32; 0x09; 0x1d; 0x06; 0x4a; 0x33; 0x1e; 0xe3].
Definition TEST_SECRET_KEY_BYTES : list Z :=
  [0x27; 0xe6; 0x74; 0x25; 0xc1; 0xff; 0xd1; 0xd9; 0xee; 0x62; 0x5c; 0x96; 0x2b; 0x57; 0x13; 0xc3;
   0x51; 0x0b; 0x71; 0x14; 0x15; 0xf3; 0x31; 0xf6; 0xfa; 0x9e; 0xf2; 0xbf; 0x23; 0x5f; 0x2f; 0xfe].

Record HypercoreHash := mkHypercoreHash {
  hash_bitfield : option string;
  hash_data : option string;
  hash_oplog : option string;
  hash_tree : option string;
}.

#[global] Instance HypercoreHash_eq_dec : EqDecision HypercoreHash.
Proof. solve_decision. Defined.

(** [format!("{:X}", bytes)] *)
Definition upper_hex_digit (n : Z) : ascii := ascii_of_N (Z.to_N (if n <? 10 then 48 + n else 55 + n)).
Fixpoint upper_hex (bs : list Z) : string :=
  match bs with
  | [] => EmptyString
  | b :: bs => String (upper_hex_digit (b / 16)) (String (upper_hex_digit (b mod 16)) (upper_hex bs))
  end.

(** [haystack.windows(needle.len()).any(|c| c == needle)] *)
Fixpoint is_sub (haystack needle : list Z) : bool :=
  bool_decide (take (length needle) haystack = needle) ||
  match haystack with
  | [] => false
  | _ :: haystack => is_sub haystack needle
  end.

Section Common.
Context `{FT : FlatTree} `{CE : CompactEncoding} `{B2 : Blake2b} `{ED : Ed25519} `{CR : Crc32}
  `{RA : RandomAccess} `{IO : IntMapOrder}.
Variables (sha256 : list Z -> list Z) (file_bytes : ra -> list Z).

Definition get_test_key_pair : result PartialKeypair :=
  public ← unwrap (vk_from_bytes TEST_PUBLIC_KEY_BYTES);
  let signing_key := sk_from_bytes TEST_SECRET_KEY_BYTES in
  _ ← assert (bool_decide (vk_to_bytes public = vk_to_bytes (sk_verifying_key signing_key)));
  Ok (mkKeypair _ public (Some signing_key)).

(** [RandomAccessDisk::open] in the directory with these files *)
Definition disk_open (files : Storage) (path : list string) : outcome RandomAccessError ra :=
  match List.find (fun store => bool_decide (last path = Some (store_file store))) [Tree; Data; Bitfield; Oplog] with
  | Some store => Ok (get_random_access files store)
  | None => Err RA_IO
  end.

Definition work_dir : list string := ["tests"; "js"; "work"]%string.

Definition create_hypercore (generated : SigningKey) (files : Storage) : result Hypercore :=
  key_pair ← get_test_key_pair;
  storage ← Storage_new_disk (disk_open files) work_dir true;
  (Builder.build generated (Builder.key_pair (Builder.new storage) key_pair)).2.

Definition open_hypercore (generated : SigningKey) (files : Storage) : result Hypercore :=
  storage ← Storage_new_disk (disk_open files) work_dir false;
  (Builder.build generated (Builder.open (Builder.new storage) true)).2.

(** An empty file counts as missing. *)
Definition hash_file (file : ra) : option string :=
  let hash := upper_hex (sha256 (file_bytes file)) in
  if bool_decide (hash = "E3B0C44298FC1C149AFBF4C8996FB92427AE41E4649B934CA495991B7852B855"%string) then None
  else Some hash.

Definition create_hypercore_hash (files : Storage) : HypercoreHash :=
  mkHypercoreHash (hash_file (st_bitfield files)) (hash_file (st_data files)) (hash_file (st_oplog files))
    (hash_file (st_tree files)).

Definition storage_contains_data (files : Storage) (data : list Z) : bool :=
  existsb (fun store => is_sub (file_bytes (get_random_access files store)) data) [Bitfield; Data; Oplog; Tree].
End Common.

(** ** [tests/js_interop.rs] *)

Definition multi_block : list Z := replicate (Z.to_nat (4096 * 3)) 0x61.

Section Steps.
Context `{FT : FlatTree} `{CE : CompactEncoding} `{B2 : Blake2b} `{ED : Ed25519} `{CR : Crc32}
  `{RA : RandomAccess} `{IO : IntMapOrder}.

(** The outcome of an append, and a block that is there. *)
Definition append_is (batch : list (list Z)) (len byte_len : Z) : coreM unit :=
  append_outcome ← Core.append_batch batch;
  _ ← lift (assert (ao_length append_outcome =? len));
  lift (assert (ao_byte_length append_outcome =? byte_len)).
Definition get_is (index : Z) (data : list Z) : coreM unit :=
  block ← Core.get index;
  block ← lift (unwrap block);
  lift (assert (bool_decide (block = data))).
Definition get_is_missing (index : Z) : coreM unit :=
  missing ← Core.get index;
  lift (assert (is_none missing)).

Definition step_2_append_hello_world : coreM unit := append_is [bytes "Hello"; bytes "World"] 2 10.

Definition step_3_read_and_append_unflushed : coreM unit :=
  get_is 0 (bytes "Hello") ;;
  get_is 1 (bytes "World") ;;
  append_is [bytes "first"] 3 15 ;;
  append_is [bytes "second"; bytes "third"] 5 26 ;;
  append_is [multi_block] 6 12314 ;;
  append_is [] 6 12314 ;;
  get_is 2 (bytes "first") ;;
  get_is 3 (bytes "second") ;;
  get_is 4 (bytes "third") ;;
  get_is 5 multi_block.

Definition step_4_append_with_flush : coreM unit :=
  foldr (fun i rest => append_is [[i]] (6 + i + 1) (12314 + i + 1) ;; rest) (mret tt) (seqZ 0 5).

Definition step_5_clear_some : coreM unit :=
  Core.clear 5 6 ;;
  Core.clear 7 9 ;;
  info ← gets Core.info;
  _ ← lift (assert (info_length info =? 11));
  _ ← lift (assert (info_byte_length info =? 12319));
  _ ← lift (assert (info_contiguous_length info =? 5));
  get_is_missing 5 ;;
  get_is_missing 7 ;;
  get_is_missing 8 ;;
  get_is 4 (bytes "third").

(** A step on the files of the directory: the core is opened, used and dropped. *)
Definition step_1_create (generated : SigningKey) (files : Storage) : result Storage :=
  hypercore ← create_hypercore generated files;
  Ok (hc_storage hypercore).
Definition step (generated : SigningKey) (body : coreM unit) (files : Storage) : result Storage :=
  hypercore ← open_hypercore generated files;
  let '(hypercore, r) := body hypercore in
  _ ← r;
  Ok (hc_storage hypercore).

(** ** [tests/core.rs] *)

(** The future of [build] is not awaited: nothing is built. *)
Definition hypercore_new (memory_default : ra) : result unit :=
  storage ← Storage_new_memory memory_default;
  let _hypercore := Builder.new storage in
  Ok tt.

Definition hypercore_new_with_key_pair (memory_default : ra) (generated : SigningKey) : result unit :=
  storage ← Storage_new_memory memory_default;
  key_pair ← get_test_key_pair;
  _ ← (Builder.build generated (Builder.key_pair (Builder.new storage) key_pair)).2;
  Ok tt.

Definition hypercore_open_with_key_pair_error (memory_default : ra) (generated : SigningKey) : result unit :=
  storage ← Storage_new_memory memory_default;
  key_pair ← get_test_key_pair;
  assert (is_err (Builder.build generated (Builder.open (Builder.key_pair (Builder.new storage) key_pair) true)).2).

(** The secret key is in the files before, and the half of it that the file
    system may not have overwritten is not after. *)
Definition hypercore_make_read_only (file_bytes : ra -> list Z) (generated : SigningKey) (files : Storage) : result unit :=
  hypercore ← create_hypercore generated files;
  let '(hypercore, r) := (Core.append (bytes "Hello") ;; Core.append (bytes "World!")) hypercore in
  _ ← r;
  let write_key_pair := Core.key_pair hypercore in
  let files := hc_storage hypercore in
  secret ← unwrap (kp_secret write_key_pair);
  _ ← assert (storage_contains_data file_bytes files (sk_to_bytes secret));
  _ ← assert (negb (is_none (kp_secret write_key_pair)));
  hypercore ← open_hypercore generated files;
  let '(hypercore, r) := (get_is 0 (bytes "Hello") ;; get_is 1 (bytes "World!") ;;
    changed ← Core.make_read_only; lift (assert changed)) hypercore in
  _ ← r;
  let read_key_pair := Core.key_pair hypercore in
  let files := hc_storage hypercore in
  _ ← assert (is_none (kp_secret read_key_pair));
  tail ← slice_range (sk_to_bytes secret) 16 (zlen (sk_to_bytes secret));
  _ ← assert (negb (storage_contains_data file_bytes files tail));
  hypercore ← open_hypercore generated files;
  ((get_is 0 (bytes "Hello") ;; get_is 1 (bytes "World!")) hypercore).2.
End Steps.

(** The hashes after each step. *)
Definition step_0_hash : HypercoreHash := mkHypercoreHash None None None None.
Definition step_1_hash : HypercoreHash :=
  mkHypercoreHash None None
    (Some "A30BD5326139E8650F3D53CB43291945AE92796ABAEBE1365AC1B0C37D008936"%string) None.
Definition step_2_hash : HypercoreHash :=
  mkHypercoreHash (Some "0E2E1FF956A39192CBB68D2212288FE75B32733AB0C442B9F0471E254A0382A2"%string)
    (Some "872E4E50CE9990D8B041330C47C9DDD11BEC6B503AE9386A99DA8584E9BB12C4"%string)
    (Some "C65A6867991D29FCF98B4E4549C1039CB5B3C63D891BA1EA4F0BB47211BA4B05"%string)
    (Some "8577B24ADC763F65D562CD11204F938229AD47F27915B0821C46A0470B80813A"%string).
Definition step_3_hash : HypercoreHash :=
  mkHypercoreHash (Some "DEC1593A7456C8C9407B9B8B9C89682DFFF33C3892BCC9D9F06956FEE0A1B949"%string)
    (Some "99EB5BC150A1102A7E50D15F90594660010B7FE719D54129065D1D417AA5015A"%string)
    (Some "5DCE3C7C86B0E129B32E5A07CA3DF668006A42F9D75399D6E4DB3F18256B8468"%string)
    (Some "38788609A8634DC8D34F9AE723F3169ADB20768ACFDFF266A43B7E217750DD1E"%string).
Definition step_4_hash : HypercoreHash :=
  mkHypercoreHash (Some "9B844E9378A7D13D6CDD4C1FF12FB313013E5CC472C6CB46497033563FE6B8F1"%string)
    (Some "AF3AC31CFBE1733C62496CF8E856D5F1EFB4B06CBF1E74204221C89E2F3E1CDE"%string)
    (Some "46E01E9CECDF6E7EA85807F65C5F3CEED96583F3BF97BC6835A6DA05E39FE8E9"%string)
    (Some "26339A21D606A1F731B90E8001030651D48378116B06A9C1EF87E2538194C2C6"%string).
Definition step_5_hash : HypercoreHash :=
  mkHypercoreHash (Some "40C9CED82AE0B7A397C9FDD14EEB7F70B74E8F1229F3ED931852591972DDC3E0"%string)
    (Some "D9FFCCEEE9109751F034ECDAE328672956B90A6E0B409C3173741B8A5D0E75AB"%string)
    (Some "803384F10871FB60E53A7F833E6E1E9729C6D040D960164077963092BBEBA274"%string)
    (Some "26339A21D606A1F731B90E8001030651D48378116B06A9C1EF87E2538194C2C6"%string).

(** The five steps in Rust, one after the other, with the hashes of the files
    that each one finds and leaves.  [js_interop_rs_first] and
    [js_interop_js_first] run every second one of them, on the files that the
    other implementation left, and compare with the same hashes. *)
Definition interop_steps `{FT : FlatTree} `{CE : CompactEncoding} `{B2 : Blake2b} `{ED : Ed25519} `{CR : Crc32}
    `{RA : RandomAccess} `{IO : IntMapOrder} (sha256 : list Z -> list Z) (file_bytes : ra -> list Z)
    (generated : SigningKey) (files0 : Storage) : result (list HypercoreHash) :=
  files1 ← step_1_create generated files0;
  files2 ← step generated step_2_append_hello_world files1;
  files3 ← step generated step_3_read_and_append_unflushed files2;
  files4 ← step generated step_4_append_with_flush files3;
  files5 ← step generated step_5_clear_some files4;
  Ok (create_hypercore_hash sha256 file_bytes <$> [files0; files1; files2; files3; files4; files5]).
