(* ===== verification/ModelTest.v ===== *)
(** * The model test

    [tests/model.rs]: a property-based test that runs random operations on a core
    in memory and on a list of optional blocks, and compares what they read.
    [model_test_ok]: it passes for all operations within the sizes of [CoreSpec],
    not only for the ones that are tried. *)

From stdpp Require Import base list gmap.
From Stdlib Require Import ZArith Lia Bool.
From S2P Require Import Prelude FlatTree Common BitfieldFixed BitfieldDynamic.
From S2P Require Import CompactEncoding Encoding Crypto OplogEntry Changeset Storage Oplog.
From S2P Require Import MerkleTree MerkleView MerkleProof Core CoreOpen CoreView CoreSpec CoreHonest Replication Examples.
Open Scope Z_scope.

Module ModelTest.

Inductive Op :=
  | Get (index : Z)
  | Append (data : list Z)
  | Clear (len_divisor_for_start len_divisor_for_length : Z).

Definition model : Type := list (option (list Z)).

Section Test.
Context `{FT : FlatTree} `{CE : CompactEncoding} `{B2 : Blake2b} `{ED : Ed25519} `{CR : Crc32}
  `{RA : RandomAccess} `{IO : IntMapOrder}.

(** The core and the model; the operations of the test change both. *)
Definition testM (A : Type) : Type := stateR (Hypercore * model) HypercoreError A.
Definition on_core {A} (m : coreM A) : testM A := fun p => let '(s, x) := m p.1 in ((s, p.2), x).
Definition the_model : testM model := gets snd.
Definition set_model (m : model) : testM unit := modify (fun p => (p.1, m)).

(** Division by zero panics. *)
Definition div {E} (a b : Z) : outcome E Z := if b =? 0 then Panic else Ok (a / b).

(** [model[start..end].fill(None)] *)
Definition fill_none (m : model) (start end_ : Z) : result model :=
  cleared ← slice_range m start end_;
  Ok (splice m start ((fun _ => None) <$> cleared)).

Definition exec (op : Op) : testM unit :=
  match op with
  | Append data =>
      _ ← on_core (expect_at (Core.append data));
      m ← the_model;
      set_model (m ++ [Some data])
  | Get i =>
      data ← on_core (expect_at (Core.get i));
      info ← on_core (gets Core.info);
      if info_length info <=? i then lift (assert (bool_decide (data = None)))
      else
        m ← the_model;
        expected ← lift (index m i);
        lift (assert (bool_decide (data = expected)))
  | Clear len_divisor_for_start len_divisor_for_length =>
      m ← the_model;
      let len := zlen m in
      r ← lift (div len len_divisor_for_start);
      start ← lift (if r =? len then (if is_empty m then Ok 0 else r -? 1) else Ok r);
      length ← lift (div len len_divisor_for_length);
      end_ ← lift (start +64 length);
      let model_end := if end_ <? len then end_ else len in
      _ ← on_core (expect_at (Core.clear start end_));
      m ← lift (fill_none m start model_end);
      set_model m
  end.

Fixpoint run (ops : list Op) : testM unit :=
  match ops with
  | [] => mret tt
  | op :: ops => _ ← exec op; run ops
  end.

Definition assert_implementation_matches_model (generated : SigningKey) (memory_default : ra) (ops : list Op) : result bool :=
  storage ← expect (Storage_new_memory memory_default);
  hypercore ← expect (Builder.build generated (Builder.new storage)).2;
  _ ← (run ops (hypercore, [])).2;
  Ok true.
End Test.

(** ** It passes *)

(** The operations as [proptest] generates them; no data is empty. *)
Definition test_op (op : Op) : Prop :=
  match op with
  | Get i => 0 <= i < 2 ^ 64
  | Append data => data <> []
  | Clear a b => 1 <= a /\ 1 <= b
  end.

Definition appended (ops : list Op) : list (list Z) :=
  flat_map (fun op => match op with Append data => [data] | _ => [] end) ops.

(** The model of a log. *)
Definition read_entry (e : list Z * bool) : option (list Z) := if e.2 then Some e.1 else None.
Definition model_of (l : log) : model := read_entry <$> log_entries l.

Lemma zlen_model l : zlen (model_of l) = zlen (log_entries l).
Proof. unfold model_of, zlen. by rewrite length_fmap. Qed.

Lemma model_lookup l i : 0 <= i < zlen (log_entries l) ->
  index (E:=HypercoreError) (model_of l) i = Ok (if log_has l i then Some (block_at (log_blocks l) i) else None).
Proof.
  intros Hi. unfold index, model_of, log_has, block_at, log_blocks. rewrite (proj2 (Z.leb_le _ _)), !list_lookup_fmap by lia.
  destruct (lookup_lt_is_Some_2 (log_entries l) (Z.to_nat i)) as [[b p] ->]; [unfold zlen in *; lia|]. by destruct p.
Qed.

(** Filling a range of the model is clearing it in the log, up to the end. *)
Lemma fill_model l start end_ :
  0 <= start <= zlen (log_entries l) -> start <= end_ ->
  fill_none (model_of l) start (if end_ <? zlen (log_entries l) then end_ else zlen (log_entries l)) =
    Ok (read_entry <$> clear_entries start end_ (log_entries l)).
Proof.
  intros Hs He. set (stop := if end_ <? _ then _ else _).
  assert (stop = Z.min end_ (zlen (log_entries l))) as -> by (unfold stop; destruct (Z.ltb_spec end_ (zlen (log_entries l))); lia).
  set (m := Z.min _ _). assert (start <= m <= zlen (log_entries l)) as Hm by lia. unfold fill_none, slice_range.
  rewrite zlen_model, (proj2 (Z.leb_le _ _)), (proj2 (Z.leb_le _ _)), (proj2 (Z.leb_le _ _)) by lia. cbn [andb].
  rewrite bind_Ok. f_equal. unfold model_of. cbn [log_entries].
  set (cleared := slice _ start _).
  assert (zlen ((fun _ => None (A:=list Z)) <$> cleared) = m - start) as Hz.
  { unfold zlen. rewrite length_fmap. change (zlen cleared = m - start). unfold cleared.
    apply zlen_slice; [lia..|]. unfold zlen in *. rewrite length_fmap. lia. }
  apply list_eq. intros i. rewrite lookup_splice; [|lia|rewrite Hz; unfold zlen in *; rewrite length_fmap; lia].
  rewrite Hz. unfold clear_entries. rewrite !list_lookup_fmap, list_lookup_imap. case_decide as Hi.
  - destruct (lookup_lt_is_Some_2 cleared (i - Z.to_nat start)%nat) as [x ->].
    { unfold zlen in Hz. rewrite length_fmap in Hz. lia. }
    destruct (lookup_lt_is_Some_2 (log_entries l) i) as [[b p] ->]; [unfold zlen in *; lia|]. cbn.
    unfold read_entry. cbn [snd]. by rewrite (proj2 (Z.leb_le _ _)), (proj2 (Z.ltb_lt _ _)) by lia.
  - destruct (log_entries l !! i) as [[b p]|] eqn:Hb; [|done]. cbn. unfold read_entry. cbn [fst snd].
    pose proof (lookup_lt_Some _ _ _ Hb). destruct (Z.leb_spec start (Z.of_nat i)), (Z.ltb_spec (Z.of_nat i) end_); try done.
    unfold zlen in *. lia.
Qed.

Section Passes.
Context `{FT : FlatTree} {FL : FlatTreeLaws FT} `{CE : CompactEncoding} {CL : CompactEncodingLaws CE}
  `{B2 : Blake2b} {BL : Blake2bLaws B2} `{ED : Ed25519} {EL : Ed25519Laws ED} `{CR : Crc32}
  {CRL : Crc32Laws CR} `{RA : RandomAccess} {RL : RandomAccessLaws RA}
  `{IO : IntMapOrder} {IOL : IntMapOrderLaws IO}.
Implicit Types (s : Hypercore) (l : log).

(** The core stands for a log without empty blocks, which the model shows. *)
Definition matches l (p : Hypercore * model) : Prop :=
  log_state true l p.1 /\ log_full l /\ p.2 = model_of l /\ log_writeable l = true /\ [] ∉ log_blocks l.

Lemma wp_on_core {A} (m : coreM A) p (Q : A -> Hypercore * model -> Prop) :
  wp m p.1 (fun a s => Q a (s, p.2)) -> wp (on_core m) p Q.
Proof. intros (s & a & Hm & HQ). exists (s, p.2), a. split; [|done]. unfold on_core. by rewrite Hm. Qed.

Lemma exec_append_ok l p data :
  matches l p -> data <> [] -> log_fits (log_blocks l ++ [data]) -> no_blank (log_blocks l ++ [data]) ->
  wp (exec (Append data)) p (fun _ p' => exists l', log_blocks l' = log_blocks l ++ [data] /\ matches l' p').
Proof.
  intros (Hst & Hfull & Hm & Hw & Hne) Hd Hfit Hnb. unfold exec. apply wp_bind, wp_on_core, wp_expect_at. unfold Core.append.
  eapply wp_mono; [apply (state_append_ok _ _ _ [data] Hst Hw); by split_and!|]. intros o s [_ Hst'].
  destruct (plain_exec_ok l (OpAppendBatch [data]) Hfull I) as (_ & Hfull').
  cbn [log_exec] in Hst', Hfull'. rewrite Hw in Hst', Hfull'. cbn [fst] in Hst', Hfull'. apply wp_bind. eexists _, _. split; [done|]. eexists _, _. split; [done|]. cbn [fst snd].
  exists (log_exec l (OpAppendBatch [data])).1. cbn [log_exec]. rewrite Hw. cbn [fst].
  assert (forall d, log_blocks (mkLog (log_entries l ++ ((fun b => (b, true)) <$> [data])) true d) = log_blocks l ++ [data]) as Hb
    by (intros d; unfold log_blocks; cbn [log_entries]; apply log_blocks_append).
  split; [done|]. split_and!; [done|done| |done|].
  - cbn [fst snd]. rewrite Hm. unfold model_of. cbn [log_entries]. by rewrite fmap_app.
  - rewrite Hb, elem_of_app, list_elem_of_singleton. by intros [?|?].
Qed.

Lemma exec_get_ok l p i :
  matches l p -> 0 <= i < 2 ^ 64 -> wp (exec (Get i)) p (fun _ p' => matches l p').
Proof.
  intros (Hst & Hfull & Hm & Hw & Hne) Hi. unfold exec. apply wp_bind, wp_on_core, wp_expect_at.
  pose proof (full_get l i Hfull (proj1 Hi)) as Hreply.
  eapply wp_mono; [by eapply (state_get_ok _ _ _ i _ Hst)|]. intros d s [-> Hst']. apply wp_bind.
  destruct (exec_info 3 true l s Hst') as (r & Hex & _ & Hr). specialize (Hr eq_refl). subst r.
  apply run_bind_inv in Hex as (s1 & info & Hinfo & Hret). injection Hinfo as <- <-.
  injection Hret as Hlen _ _ _. eexists _, _. split; [done|]. cbn [fst snd Core.info info_length]. rewrite Hlen.
  destruct (Z.leb_spec (zlen (log_entries l)) i).
  - rewrite log_has_bound by lia. eexists _, _. split; [done|]. done.
  - apply wp_bind. eexists _, _. split; [done|]. cbn [snd]. rewrite Hm. apply wp_bind.
    eapply wp_lift; [apply model_lookup; lia|]. eexists _, _. split; [by rewrite bool_decide_true|]. done.
Qed.

Lemma exec_clear_ok l p a b :
  matches l p -> 1 <= a -> 1 <= b -> log_fits (log_blocks l) ->
  wp (exec (Clear a b)) p (fun _ p' => exists l', log_blocks l' = log_blocks l /\ matches l' p').
Proof.
  intros (Hst & Hfull & Hm & Hw & Hne) Ha Hb [Hfit _]. rewrite zlen_blocks in Hfit. unfold exec.
  apply wp_bind. eexists _, _. split; [done|]. rewrite Hm, zlen_model. set (len := zlen (log_entries l)) in *.
  pose proof (zlen_nonneg (log_entries l)) as H0. fold len in H0.
  assert (forall d, 1 <= d -> div (E:=HypercoreError) len d = Ok (len / d) /\ 0 <= len / d <= len) as Hdiv.
  { intros d Hd. unfold div. destruct (Z.eqb_spec d 0); [lia|]. split; [done|]. split; [apply Z.div_pos; lia|].
    apply Z.div_le_upper_bound; nia. }
  destruct (Hdiv a Ha) as [Hda Hra]. destruct (Hdiv b Hb) as [Hdb Hrb].
  assert (exists start, (if len / a =? len then if is_empty (model_of l) then Ok 0 else len / a -? 1 else Ok (len / a)) =
    Ok (E:=HypercoreError) start /\ 0 <= start /\ (start < len \/ start = 0 /\ len = 0)) as (start & Hstart & Hs0 & Hs).
  { destruct (Z.eqb_spec (len / a) len) as [He|].
    - destruct (model_of l) as [|x xs] eqn:Hx; pose proof (zlen_model l) as Hz; rewrite Hx in Hz; fold len in Hz.
      + change (zlen []) with 0 in Hz. exists 0. split; [done|]. lia.
      + rewrite zlen_cons in Hz. pose proof (zlen_nonneg xs). cbn [is_empty]. rewrite He. exists (len - 1). checked. split; [done|]. lia.
    - exists (len / a). split; [done|]. lia. }
  apply wp_bind. eapply wp_lift; [exact Hda|]. apply wp_bind. eapply wp_lift; [exact Hstart|].
  apply wp_bind. eapply wp_lift; [exact Hdb|]. apply wp_bind. eapply wp_lift; [by checked|].
  apply wp_bind, wp_on_core, wp_expect_at.
  assert (op_ok l (OpClear start (start + len / b))) as Hok by (split; lia).
  destruct (plain_exec_ok l (OpClear start (start + len / b)) Hfull) as (He & Hfull').
  { split; [done|]. intros Hlt. cbn [plain_of fst]. fold len. split_and!; [lia..|]. intros k x _ Hk ->. apply Hne.
    apply (list_elem_of_fmap_2' fst _ ([], true)); [|done]. by eapply list_elem_of_lookup_2. }
  assert (log_entries (log_exec l (OpClear start (start + len / b))).1 = clear_entries start (start + len / b) (log_entries l) /\
    (log_exec l (OpClear start (start + len / b))).2 = Ok ReplyClear) as [Hes Hreply] by (by injection He).
  eapply wp_mono; [apply (state_clear_ok _ _ _ _ _ Hst Hok Hreply)|]. intros u s Hst'. apply wp_bind.
  eapply wp_lift; [apply fill_model; fold len; lia|]. eexists _, _. split; [done|].
  exists (log_exec l (OpClear start (start + len / b))).1.
  assert (log_blocks (log_exec l (OpClear start (start + len / b))).1 = log_blocks l) as Hbl
    by (unfold log_blocks; rewrite Hes; apply clear_entries_blocks).
  split; [done|]. split_and!; [done|done|by cbn [snd]; unfold model_of; rewrite Hes| |by rewrite Hbl].
  rewrite <-Hw. cbn [log_exec]. destruct (_ <=? _); [done|]. unfold log_clear. by destruct (hole_error l _).
Qed.

Lemma run_ok ops : forall l p,
  matches l p -> Forall test_op ops -> log_fits (log_blocks l ++ appended ops) -> no_blank (log_blocks l ++ appended ops) ->
  wp (run ops) p (fun _ p' => exists l', matches l' p').
Proof.
  induction ops as [|op ops IH]; intros l p Hp Hops Hfit Hnb; [eexists _, _; by eauto|].
  apply Forall_cons in Hops as [Hop Hops]. cbn [run]. apply wp_bind. destruct op as [i|data|a b]; cbn [appended flat_map app] in *; fold (appended ops) in *.
  - eapply wp_mono; [by apply (exec_get_ok l)|]. intros u p' Hp'. by apply (IH l).
  - rewrite cons_middle, app_assoc in Hfit, Hnb.
    eapply wp_mono; [apply (exec_append_ok l p data Hp Hop); [by eapply log_fits_prefix|]|].
    { eapply no_blank_prefix; [|exact Hnb]. by eexists. }
    intros u p' (l' & Hl' & Hp'). apply (IH l'); by rewrite ?Hl'.
  - eapply wp_mono; [apply (exec_clear_ok l p a b Hp); [apply Hop..|by eapply log_fits_prefix]|].
    intros u p' (l' & Hl' & Hp'). apply (IH l'); by rewrite ?Hl'.
Qed.

Lemma model_test_ok generated memory_default ops :
  contents memory_default = [] -> Forall test_op ops -> log_fits (appended ops) -> no_blank (appended ops) ->
  assert_implementation_matches_model generated memory_default ops = Ok true.
Proof.
  intros Hc Hops Hfit Hnb. destruct (new_memory_ok _ Hc) as (st & Hst & Hh). unfold assert_implementation_matches_model.
  destruct (new_stands_for generated HypercoreOptions_new st Hh eq_refl) as (s & st' & Hnew & Hs).
  rewrite Hst. cbn [expect]. rewrite bind_Ok. unfold Builder.build, Builder.new. cbn [Builder.b_options Builder.b_storage].
  rewrite Hnew. cbn [snd expect]. rewrite bind_Ok. cbn in Hs.
  destruct (run_ok ops (mkLog [] true 0) (s, [])) as (p' & [] & Hrun & _); [|done..|].
  - split_and!; [done|split; [done|]|done|done|apply not_elem_of_nil]. intros k _ Hk. done.
  - by rewrite Hrun.
Qed.
End Passes.
End ModelTest.
