(* ===== verification/CodecTheorems.v ===== *)
(** * Theorems on the encodings

    Every record the program stores or sends survives encoding and decoding. *)

From stdpp Require Import base tactics numbers list strings.
From Stdlib Require Import ZArith Lia Bool Strings.Byte.
From S2P Require Import Prelude FlatTree Common CompactEncoding Encoding Crypto OplogEntry.
From S2P Require Import Models.
Open Scope Z_scope.

Section Theorems.
Context `{FT : FlatTree} `{CE : CompactEncoding} {CL : CompactEncodingLaws CE}
  `{ED : Ed25519} {EL : Ed25519Laws ED}.

(** C34: an oplog entry that is encoded into a buffer of the size [preencode]
    computes is decoded to the same entry, whichever of its four parts are
    present. *)
Theorem entry_roundtrip e :
  entry_wf e -> zlen (entry_bytes e) < 2 ^ 64 ->
  exists buf, write_value e = Ok buf /\ read_value (A:=Entry) buf = Ok e.
Proof. apply value_roundtrip. Qed.

(** C35: an oplog header that is encoded is decoded to the same header, with
    its manifest, its key pair (with or without the secret key), its tree and
    its hints. *)
Theorem header_roundtrip h :
  header_wf h -> zlen (header_bytes h) < 2 ^ 64 ->
  exists buf, write_value h = Ok buf /\ read_value (A:=Header) buf = Ok h.
Proof. apply value_roundtrip. Qed.

(** The parts of a proof that go over the wire (block, hash, seek and
    upgrade, with their lists of nodes) are decoded to what was encoded. *)
Theorem proof_parts_roundtrip b h s u :
  data_block_wf b -> data_hash_wf h -> data_seek_wf s -> data_upgrade_wf u ->
  zlen (data_block_bytes b) < 2 ^ 64 -> zlen (data_hash_bytes h) < 2 ^ 64 ->
  zlen (data_seek_bytes s) < 2 ^ 64 -> zlen (data_upgrade_bytes u) < 2 ^ 64 ->
  (exists buf, write_value b = Ok buf /\ read_value (A:=DataBlock) buf = Ok b) /\
  (exists buf, write_value h = Ok buf /\ read_value (A:=DataHash) buf = Ok h) /\
  (exists buf, write_value s = Ok buf /\ read_value (A:=DataSeek) buf = Ok s) /\
  (exists buf, write_value u = Ok buf /\ read_value (A:=DataUpgrade) buf = Ok u).
Proof. intros. split_and!; by apply value_roundtrip. Qed.

(** Requests are decoded to what was encoded. *)
Theorem request_roundtrip b s u :
  request_block_wf b -> request_seek_wf s -> request_upgrade_wf u ->
  zlen (request_block_bytes b) < 2 ^ 64 -> zlen (request_seek_bytes s) < 2 ^ 64 ->
  zlen (request_upgrade_bytes u) < 2 ^ 64 ->
  (exists buf, write_value b = Ok buf /\ read_value (A:=RequestBlock) buf = Ok b) /\
  (exists buf, write_value s = Ok buf /\ read_value (A:=RequestSeek) buf = Ok s) /\
  (exists buf, write_value u = Ok buf /\ read_value (A:=RequestUpgrade) buf = Ok u).
Proof. intros. split_and!; by apply value_roundtrip. Qed.
End Theorems.

(** ** Witnesses *)

Import FlatTreeModel EncodingModel CryptoModel.

Definition sample_node : Node := Node_new 3 (replicate 32 7) 300.
Lemma bytes32_replicate b : is_u8 b -> is_bytes32 (replicate 32 b).
Proof. intros Hb. split; [by apply Forall_replicate|by rewrite zlen_replicate]. Qed.
Lemma sample_node_wf : node_wf sample_node.
Proof.
  unfold node_wf. split_and!; try (unfold is_u64; cbn; lia); [|done].
  apply bytes32_replicate. unfold is_u8. lia.
Qed.
Lemma sample_nodes_wf : nodes_wf [sample_node].
Proof. split; [by constructor; [apply sample_node_wf|constructor]|]. unfold is_u64, zlen. cbn. lia. Qed.

Definition sample_entry : Entry :=
  mkEntry [] [sample_node] (Some (mkEntryTreeUpgrade 0 1 70000 (replicate 64 9)))
    (Some (mkBitfieldUpdate true 3 5)).
Lemma sample_entry_wf : entry_wf sample_entry.
Proof.
  unfold entry_wf. split_and!.
  - split; [constructor|done].
  - apply sample_nodes_wf.
  - unfold opt_wf, entry_tree_upgrade_wf, is_u64. cbn. split_and!; try lia.
    split; [|done]. repeat constructor; unfold is_u8; lia.
  - unfold opt_wf, bitfield_update_wf, is_u64. cbn. lia.
Qed.
Definition sample_header : Header := Header_new (mkKeypair _ x05 (Some x05)).

Lemma entry_roundtrip_witness :
  exists buf, write_value sample_entry = Ok buf /\ read_value (A:=Entry) buf = Ok sample_entry.
Proof. apply (entry_roundtrip sample_entry); [exact sample_entry_wf|vm_compute; reflexivity]. Defined.

Lemma header_roundtrip_witness :
  exists buf, write_value sample_header = Ok buf /\ read_value (A:=Header) buf = Ok sample_header.
Proof. apply (header_roundtrip sample_header); [apply Header_new_wf|vm_compute; reflexivity]. Defined.

Definition sample_block : DataBlock := mkDataBlock 4 [1; 2; 3] [sample_node].
Definition sample_hash : DataHash := mkDataHash 4 [sample_node].
Definition sample_seek : DataSeek := mkDataSeek 40 [sample_node].
Definition sample_upgrade : DataUpgrade := mkDataUpgrade 0 5 [sample_node] [] (replicate 64 1).

Lemma sample_parts_wf :
  data_block_wf sample_block /\ data_hash_wf sample_hash /\ data_seek_wf sample_seek /\
  data_upgrade_wf sample_upgrade.
Proof.
  pose proof sample_nodes_wf as Hn.
  assert (nodes_wf []) as Hn0 by (split; [constructor|unfold is_u64, zlen; cbn; lia]).
  assert (is_bytes [1; 2; 3]) as Hb by (split; [repeat constructor; unfold is_u8; lia|done]).
  assert (is_bytes (replicate 64 1)) as Hs by (split; [repeat constructor; unfold is_u8; lia|done]).
  unfold data_block_wf, data_hash_wf, data_seek_wf, data_upgrade_wf, is_u64.
  cbn [db_index db_value db_nodes dh_index dh_nodes ds_bytes ds_nodes du_start du_length du_nodes
    du_additional_nodes du_signature sample_block sample_hash sample_seek sample_upgrade].
  split_and!; done || lia.
Qed.

Lemma proof_parts_roundtrip_witness :
  (exists buf, write_value sample_block = Ok buf /\ read_value (A:=DataBlock) buf = Ok sample_block) /\
  (exists buf, write_value sample_hash = Ok buf /\ read_value (A:=DataHash) buf = Ok sample_hash) /\
  (exists buf, write_value sample_seek = Ok buf /\ read_value (A:=DataSeek) buf = Ok sample_seek) /\
  (exists buf, write_value sample_upgrade = Ok buf /\
     read_value (A:=DataUpgrade) buf = Ok sample_upgrade).
Proof.
  destruct sample_parts_wf as (H1 & H2 & H3 & H4).
  apply (proof_parts_roundtrip sample_block sample_hash sample_seek sample_upgrade);
    first [assumption|vm_compute; reflexivity].
Defined.

Lemma request_roundtrip_witness :
  (exists buf, write_value (mkRequestBlock 4 2) = Ok buf /\
     read_value (A:=RequestBlock) buf = Ok (mkRequestBlock 4 2)) /\
  (exists buf, write_value (mkRequestSeek 9) = Ok buf /\
     read_value (A:=RequestSeek) buf = Ok (mkRequestSeek 9)) /\
  (exists buf, write_value (mkRequestUpgrade 0 7) = Ok buf /\
     read_value (A:=RequestUpgrade) buf = Ok (mkRequestUpgrade 0 7)).
Proof.
  apply (request_roundtrip (mkRequestBlock 4 2) (mkRequestSeek 9) (mkRequestUpgrade 0 7));
    first [vm_compute; reflexivity
          | unfold request_block_wf, request_seek_wf, request_upgrade_wf, is_u64;
            cbn [rb_index rb_nodes rs_bytes ru_start ru_length]; lia].
Defined.
