(* ===== verification/OplogTheorems.v ===== *)
(** * Theorems on the oplog *)

From stdpp Require Import base tactics numbers list strings.
From Stdlib Require Import ZArith Lia Bool Strings.Byte.
From S2P Require Import Prelude FlatTree Common CompactEncoding Encoding Crypto OplogEntry.
From S2P Require Import Changeset Storage Oplog Models.
Open Scope Z_scope.

Section Theorems.
Context `{FT : FlatTree} `{CE : CompactEncoding} {CL : CompactEncodingLaws CE}
  `{ED : Ed25519} {EL : Ed25519Laws ED} `{CR : Crc32} {CRL : Crc32Laws CR}.

(** C5: starting from a fresh oplog, any sequence of appended entries and
    flushes (with or without clearing traces) succeeds, and opening the file it
    leaves behind gives the header of the last flush and exactly the entries
    appended since, in order. *)
Theorem oplog_refines_spec kp ops :
  header_fits (Header_new kp) -> Forall op_fits ops -> zlen ops < 2 ^ 32 ->
  exists self infos self' f',
    Oplog.fresh kp = Ok (mkOpenOutcome self (Header_new kp) infos None) /\
    oplog_run (self, file_effects [] infos) ops = Ok (self', f') /\
    forall kp',
      Oplog.open kp' (Some (StoreInfo.new_content Oplog 0 f')) =
        let '(h, es) := foldl oplog_spec (Header_new kp, []) ops in
        Ok (Right (mkOpenOutcome (mkOplog (op_header_bits self') 0 0) h []
                     (match es with [] => None | _ => Some es end))).
Proof.
  intros Hh Hops Hlen. destruct (fresh_ok kp Hh) as (self & infos & Hf & Hfile & _).
  destruct (oplog_run_ok ops _ _ _ _ Hfile Hops) as (self' & f' & Hrun & Hfile');
    [rewrite zlen_nil; lia|].
  exists self, infos, self', f'. split_and!; [done..|]. intros kp'.
  rewrite (open_ok _ _ _ _ kp' Hfile'). by destruct (foldl oplog_spec _ ops).
Qed.

(** C27: the file stays well formed: after every operation the current slot
    holds the current header and the entries since follow at offset 8192
    without a gap.  The other slot keeps what it had when an entry is appended;
    a flush leaves there the header that was current before, or the new header
    a second time when it clears the traces. *)
Theorem oplog_file_invariant self prev h es f op :
  oplog_file self h es f -> before_holds f (op_header_bits self) prev -> op_fits op -> zlen es < 2 ^ 32 - 1 ->
  exists self' f', oplog_exec (self, f) op = Ok (self', f') /\
    oplog_file self' (oplog_spec (h, es) op).1 (oplog_spec (h, es) op).2 f' /\
    before_holds f' (op_header_bits self') (oplog_before prev h op).
Proof. apply oplog_exec_ok. Qed.

(** A damaged frame is not accepted silently.  When the bytes behind a
    leader of a positive length that fits the file do not have the stored
    checksum, [validate_leader] reports [InvalidChecksum]. *)
Theorem leader_checksum_error buf index stored word :
  0 <= index -> index + 8 + word / 4 <= zlen buf -> is_u32 stored -> is_u32 word -> 4 <= word ->
  slice buf index 4 = le_bytes 4 stored -> slice buf (index + 4) 4 = le_bytes 4 word ->
  crc32 (slice buf (index + 4) (4 + word / 4)) <> stored ->
  Oplog.validate_leader index buf = Err InvalidChecksum.
Proof.
  intros Hi Hb Hs Hw Hpos Hc Ht Hne. unfold is_u32 in *.
  assert (1 <= word / 4) by (Z.div_mod_to_equations; lia). unfold Oplog.validate_leader.
  rewrite (proj2 (Z.ltb_ge _ _)) by lia. set (st0 := st_new_with_start_and_end index (zlen buf)).
  assert (st_start st0 = index) as Hs0 by (apply new_start; lia).
  assert (st_end st0 = zlen buf) as He0 by (apply new_end; lia).
  destruct (decode_u32_law (le_bytes 4 stored) (le_bytes_u8 _ _) (zlen_le_bytes _ _) st0 buf)
    as (st1 & -> & Hs1 & He1); [rewrite ?zlen_le_bytes; lia..|by rewrite zlen_le_bytes, Hs0|].
  rewrite zlen_le_bytes in Hs1. cbn [enc_try map_err]. rewrite bind_Ok.
  destruct (decode_u32_law (le_bytes 4 word) (le_bytes_u8 _ _) (zlen_le_bytes _ _) st1 buf)
    as (st2 & -> & Hs2 & He2); [rewrite ?zlen_le_bytes; lia..|by rewrite zlen_le_bytes, Hs1, Hs0|].
  rewrite zlen_le_bytes in Hs2. cbn [enc_try map_err]. rewrite bind_Ok.
  rewrite !le_value_bytes by (change (256 ^ Z.of_nat 4) with (2 ^ 32); lia).
  rewrite Z.shiftr_div_pow2 by lia. change (2 ^ 2) with 4.
  rewrite checked_sub_Ok, bind_Ok by lia.
  rewrite (proj2 (Z.eqb_neq _ _)), (proj2 (Z.ltb_ge _ _)) by lia. cbn [orb].
  destruct (set_start_law (st_set_end st2 (index + 8 + word / 4)) (index + 8))
    as (st3 & -> & Hs3 & He3); [rewrite set_end_end; lia|].
  rewrite set_end_end in He3. cbn [enc_try map_err]. rewrite bind_Ok, He3.
  rewrite slice_range_Ok, bind_Ok by lia.
  replace (index + 8 + word / 4 - (index + 4)) with (4 + word / 4) by lia.
  by rewrite (proj2 (Z.eqb_neq _ _)).
Qed.

(** C40: the loop that is to drop the trailing partial entries only removes
    from the list of entries and tests the list of partial bits: once the last
    entry read is partial it never ends, whatever the number of turns. *)
Theorem trailing_partials_diverge fuel entries partials :
  Oplog.remove_trailing_partials fuel entries (partials ++ [true]) = Diverge.
Proof.
  revert entries. induction fuel as [|fuel IH]; intros entries; cbn [Oplog.remove_trailing_partials];
    rewrite last_snoc; [done|apply IH].
Qed.

(** Opening an oplog does not count the entries it finds: the first entry
    appended after a reopen is written at offset 8192, over the entries that
    are already there. *)
Theorem reopened_oplog_overwrites self h es f kp e atomic :
  oplog_file self h es f -> entry_fits e ->
  exists outcome self' fr,
    Oplog.open kp (Some (StoreInfo.new_content Oplog 0 f)) = Ok (Right outcome) /\
    Oplog.append_entries (oo_oplog outcome) [e] atomic =
      Ok (self', [StoreInfo.new_content Oplog (slot_offset Entries) fr]).
Proof.
  intros Hf He. rewrite (open_ok _ _ _ _ kp Hf). eexists _, _, _. split; [done|].
  cbn [oo_oplog]. rewrite append_entries_one by (done || (cbn; lia)).
  cbn [op_entries_byte_length]. by rewrite Z.add_0_r.
Qed.
End Theorems.

(** ** Witnesses *)

Import FlatTreeModel EncodingModel CryptoModel.

Definition kp0 : PartialKeypair := mkKeypair _ x05 (Some x05).
Definition clear_entry (start length : Z) : Entry :=
  mkEntry [] [] None (Some (mkBitfieldUpdate true start length)).

Lemma kp0_header_fits : header_fits (Header_new kp0).
Proof. split; [apply Header_new_wf|]. vm_compute. discriminate. Qed.

Lemma clear_entry_fits : entry_fits (clear_entry 3 5).
Proof.
  split; [|vm_compute; reflexivity]. unfold entry_wf. split_and!.
  - split; [constructor|done].
  - split; [constructor|unfold is_u64, zlen; cbn; lia].
  - done.
  - cbn. unfold bitfield_update_wf, is_u64. cbn. lia.
Qed.

Definition sample_ops : list oplog_op :=
  [OpAppend (clear_entry 3 5) false; OpFlush (Header_new kp0) true; OpAppend (clear_entry 3 5) true].
Lemma sample_ops_fit : Forall op_fits sample_ops.
Proof.
  repeat constructor; cbn [op_fits]; first [apply clear_entry_fits|apply kp0_header_fits].
Qed.

Lemma oplog_refines_spec_witness :
  exists self infos self' f',
    Oplog.fresh kp0 = Ok (mkOpenOutcome self (Header_new kp0) infos None) /\
    oplog_run (self, file_effects [] infos) sample_ops = Ok (self', f') /\
    forall kp',
      Oplog.open kp' (Some (StoreInfo.new_content Oplog 0 f')) =
        Ok (Right (mkOpenOutcome (mkOplog (op_header_bits self') 0 0) (Header_new kp0) []
                     (Some [clear_entry 3 5]))).
Proof.
  apply (oplog_refines_spec kp0 sample_ops); [apply kp0_header_fits|apply sample_ops_fit|reflexivity].
Defined.

Definition fresh_state : Oplog_ * list Z :=
  match Oplog.fresh kp0 with
  | Ok o => (oo_oplog o, file_effects [] (oo_infos_to_flush o))
  | _ => (mkOplog (false, false) 0 0, [])
  end.
Lemma fresh_state_file : oplog_file fresh_state.1 (Header_new kp0) [] fresh_state.2.
Proof.
  destruct (fresh_ok kp0 kp0_header_fits) as (self & infos & Hf & Hfile & _).
  unfold fresh_state. by rewrite Hf.
Qed.

(** The second slot of a new file is empty. *)
Lemma fresh_state_before : before_holds fresh_state.2 (op_header_bits fresh_state.1) None.
Proof. split; [vm_compute; reflexivity|]. split; [vm_compute; congruence|vm_compute; reflexivity]. Qed.

Lemma oplog_file_invariant_witness :
  exists self1 f1, oplog_exec fresh_state (OpFlush (Header_new kp0) false) = Ok (self1, f1) /\
    oplog_file self1 (Header_new kp0) [] f1 /\
    before_holds f1 (op_header_bits self1) (Some (Header_new kp0)).
Proof.
  rewrite (surjective_pairing fresh_state).
  apply (oplog_file_invariant fresh_state.1 None (Header_new kp0) [] fresh_state.2
           (OpFlush (Header_new kp0) false));
    [apply fresh_state_file|apply fresh_state_before|apply kp0_header_fits|reflexivity].
Defined.

(** A frame of two bytes whose checksum is off by one. *)
Definition damaged : list Z :=
  let bs := [1; 2] in
  le_bytes 4 (crc32 (leader_tail false false bs ++ bs) + 1) ++ leader_tail false false bs ++ bs.
Lemma leader_checksum_error_witness : Oplog.validate_leader 0 damaged = Err InvalidChecksum.
Proof.
  apply (leader_checksum_error damaged 0 (crc32 (leader_tail false false [1; 2] ++ [1; 2]) + 1) 8);
    first [unfold is_u32; vm_compute; split; (reflexivity || discriminate)
          | vm_compute; (reflexivity || discriminate) | idtac].
Defined.

Lemma reopened_oplog_overwrites_witness :
  exists outcome self' fr,
    Oplog.open None (Some (StoreInfo.new_content Oplog 0 fresh_state.2)) = Ok (Right outcome) /\
    Oplog.append_entries (oo_oplog outcome) [clear_entry 3 5] false =
      Ok (self', [StoreInfo.new_content Oplog (slot_offset Entries) fr]).
Proof.
  apply (reopened_oplog_overwrites fresh_state.1 (Header_new kp0) [] fresh_state.2);
    [apply fresh_state_file|apply clear_entry_fits].
Defined.

(** [append_entries] leaves room for several entries, but the cursor is four
    bytes past the start of the leader when the next one is written: in a batch
    of two the second entry overwrites the body of the first. *)
Definition batch_buffer : list Z :=
  match Oplog.append_entries (mkOplog (false, false) 0 0) [clear_entry 3 5; clear_entry 6 7] false with
  | Ok (_, [info]) => default [] (si_data info)
  | _ => []
  end.

(** a batch of two entries is written wrongly: nothing is found at the
    place of the first entry.  (The program only appends batches of one
    entry.) *)
Theorem batch_of_two_corrupt :
  Oplog.append_entries (mkOplog (false, false) 0 0) [clear_entry 3 5; clear_entry 6 7] false =
    Ok (mkOplog (false, false) 2 (zlen batch_buffer),
        [StoreInfo.new_content Oplog (slot_offset Entries) batch_buffer]) /\
  Oplog.validate_leader 0 batch_buffer = Ok None.
Proof. split; reflexivity. Qed.
