(* ===== verification/BitfieldTheorems.v ===== *)
(** * Theorems on the bitfields *)

From stdpp Require Import base tactics numbers list list_numbers gmap fin_maps sorting sets.
From Stdlib Require Import ZArith Lia Bool.
From S2P Require Import Prelude Common BitfieldFixed BitfieldDynamic.
Open Scope Z_scope.

(** ** Facts *)

(** Reopening the one page [flush] wrote: where each bit comes from. *)
Lemma reopen_page db :
  dyn_wf db -> unflushed db = [0] ->
  exists db1 data db2,
    Dynamic.flush db = Ok (db1, [StoreInfo.new_content Bitfield 0 data]) /\
    Dynamic.open (Some (StoreInfo.new_content Bitfield 0 data)) = Ok (Right db2) /\ dyn_wf db2 /\
    forall i k, 0 <= i -> 0 <= k < 32768 ->
      dbit db2 (32768 * i + k) = (256 * i <=? k / 32) && dbit db k.
Proof.
  intros Hwf Hun. destruct (dyn_flush_Ok db Hwf) as (db1 & Hfl & _). rewrite Hun in Hfl.
  destruct (proj1 (dw_dirty _ Hwf 0)) as (p & Hp & _); [rewrite Hun; by left|].
  destruct (dw_page _ Hwf _ _ Hp) as [Hpwf _]. pose proof Hpwf as [Hlen _].
  set (data := words_bytes (fb_bitfield p)).
  destruct (dyn_open_words data 1024) as (db2 & Ho & Hwf2 & _ & Hb);
    [apply words_bytes_u8|unfold data; rewrite zlen_words_bytes, Hlen; done|lia|].
  exists db1, data, db2. split_and!; [|done|done|].
  - rewrite Hfl. cbn [fmap list_fmap]. unfold page_info. rewrite Hp. done.
  - intros i k Hi Hk. rewrite Hb by done. unfold data. rewrite word_at_bit by done.
    rewrite (proj2 (Z.ltb_lt (k / 32) 1024)) by (Z.div_mod_to_equations; lia). rewrite andb_true_r.
    f_equal. unfold dbit. rewrite Z.div_small, Hp, Z.mod_small by lia. done.
Qed.

(** ** Runs *)

Inductive bitfield_op :=
  | BitfieldSet (index : Z) (value : bool)
  | BitfieldUpdateRange (u : BitfieldUpdate)
  | BitfieldFlush.

Definition bitfield_exec (db : DynamicBitfield) (op : bitfield_op) : result DynamicBitfield :=
  match op with
  | BitfieldSet index value => '(db, _) ← Dynamic.set db index value; Ok db
  | BitfieldUpdateRange u => Dynamic.update db u
  | BitfieldFlush => '(db, _) ← Dynamic.flush db; Ok db
  end.

Fixpoint bitfield_run (db : DynamicBitfield) (ops : list bitfield_op) : result DynamicBitfield :=
  match ops with
  | [] => Ok db
  | op :: ops => db ← bitfield_exec db op; bitfield_run db ops
  end.

Definition bitfield_op_ok (op : bitfield_op) : Prop :=
  match op with
  | BitfieldSet index _ => 0 <= index < 2 ^ 64
  | BitfieldUpdateRange u => 0 <= bu_start u /\ 0 <= bu_length u /\ bu_start u + bu_length u < 2 ^ 64
  | BitfieldFlush => True
  end.

Lemma bitfield_exec_ok db op :
  dyn_wf db -> bitfield_op_ok op -> exists db', bitfield_exec db op = Ok db' /\ dyn_wf db'.
Proof.
  intros Hwf Hop. destruct op as [index value|u|]; cbn [bitfield_exec bitfield_op_ok] in *.
  - destruct (dyn_set_Ok db index value Hwf Hop) as (db' & -> & Hwf' & _). by exists db'.
  - destruct Hop as (? & ? & ?). destruct (dyn_update_Ok db u) as (db' & -> & Hwf' & _); [done..|]. by exists db'.
  - destruct (dyn_flush_Ok db Hwf) as (db' & -> & Hwf' & _). by exists db'.
Qed.

(** ** Theorems *)

(** C22: the bitfield stays a bitfield.  Any sequence of single bits set or
    cleared, ranges updated and flushes, at any [u64] positions, runs from the
    empty bitfield without an error or a panic; every page has 1024 words of 32
    bits, no page is behind the biggest one, and exactly the dirty pages are
    listed as unflushed, each once. *)
Theorem bitfield_run_wf ops :
  Forall bitfield_op_ok ops -> exists db, bitfield_run (mkDynamic ∅ 0 []) ops = Ok db /\ dyn_wf db.
Proof.
  assert (forall db, dyn_wf db -> Forall bitfield_op_ok ops ->
    exists db', bitfield_run db ops = Ok db' /\ dyn_wf db') as Hrun; [|apply Hrun, dyn_empty_wf].
  induction ops as [|op ops IH]; intros db Hwf Hops; [by exists db|]. apply Forall_cons in Hops as [Hop Hops].
  destruct (bitfield_exec_ok db op Hwf Hop) as (db1 & Hex & Hwf1). cbn [bitfield_run]. rewrite Hex, bind_Ok. by apply IH.
Qed.

(** [set] succeeds at every [u64] position, keeps the invariant, changes
    that bit only and reports whether it changed; [get] then reads it back. *)
Theorem bitfield_set_get db k value j :
  dyn_wf db -> 0 <= k < 2 ^ 64 -> 0 <= j < 2 ^ 64 ->
  exists db' changed, Dynamic.set db k value = Ok (db', changed) /\ dyn_wf db' /\
    changed = negb (Bool.eqb (dbit db k) value) /\
    Dynamic.get db' j = if decide (j = k) then Ok value else Dynamic.get db j.
Proof.
  intros Hwf Hk Hj. destruct (dyn_set_Ok db k value Hwf Hk) as (db' & Hs & Hwf' & Hb).
  eexists db', _. split_and!; [done..|]. rewrite !dyn_get_Ok, Hb by (done || lia). by case_decide.
Qed.

(** C23: [update] of a range sets (or, for a drop, clears) exactly the bits of
    the range, across page boundaries, and keeps the invariant. *)
Theorem bitfield_update_range db u :
  dyn_wf db -> 0 <= bu_start u -> 0 <= bu_length u -> bu_start u + bu_length u < 2 ^ 64 ->
  exists db', Dynamic.update db u = Ok db' /\ dyn_wf db' /\
    forall k, 0 <= k < 2 ^ 64 ->
      Dynamic.get db' k =
        if decide (bu_start u <= k < bu_start u + bu_length u) then Ok (negb (bu_drop u))
        else Dynamic.get db k.
Proof.
  intros Hwf Hs Hl Hb. destruct (dyn_update_Ok db u Hwf Hs Hl Hb) as (db' & Hu & Hwf' & Hbits).
  exists db'. split_and!; [done..|]. intros k Hk.
  rewrite !dyn_get_Ok, Hbits by (done || lia). by case_decide.
Qed.

(** C37: [index_of(true, position)] is the first set bit at or after the
    position and [last_index_of(true, position)] the last one at or before it,
    [None] when there is none. *)
Theorem bitfield_search_set db pos :
  dyn_wf db -> 0 <= pos < 2 ^ 64 ->
  (exists r, Dynamic.index_of db true pos = Ok r /\ is_first (dbit db) pos (2 ^ 64) r) /\
  (exists r, Dynamic.last_index_of db true pos = Ok r /\ is_last (dbit db) 0 (pos + 1) r).
Proof.
  intros Hwf Hpos. split; [by apply dyn_index_of_true|by apply dyn_last_index_of_true].
Qed.

(** [index_of(false, position)] is the first unset bit at or after the
    position as long as there is one before the end of the last page; when all
    pages are full up to there the result is [None], although the next position
    is unset. *)
Theorem bitfield_search_unset db pos :
  dyn_wf db -> 0 <= pos < 2 ^ 64 ->
  exists r, Dynamic.index_of db false pos = Ok r /\
    is_first (fun k => negb (dbit db k)) pos
      (32768 * (Z.max (pos / 32768) (biggest_page_index db) + 1)) r.
Proof. apply dyn_index_of_false. Qed.

(** [flush] emits one write of 4096 bytes per changed page, each once, and
    leaves nothing unflushed; no bit changes. *)
Theorem bitfield_flush db :
  dyn_wf db ->
  exists db', Dynamic.flush db = Ok (db', page_info (pages db) <$> unflushed db) /\ dyn_wf db' /\
    unflushed db' = [] /\ NoDup (unflushed db) /\
    (forall i, i ∈ unflushed db <-> exists p, pages db !! i = Some p /\ fb_dirty p = true) /\
    (forall k, 0 <= k -> dbit db' k = dbit db k).
Proof.
  intros Hwf. destruct (dyn_flush_Ok db Hwf) as (db' & Hf & Hwf' & Hu & Hb).
  exists db'. split_and!; [done..|apply Hwf|apply Hwf|done].
Qed.

(** a bitfield of one page that is flushed and opened again has the same
    first 32768 bits. *)
Theorem bitfield_flush_open_page db :
  dyn_wf db -> unflushed db = [0] ->
  exists db1 data db2,
    Dynamic.flush db = Ok (db1, [StoreInfo.new_content Bitfield 0 data]) /\
    Dynamic.open (Some (StoreInfo.new_content Bitfield 0 data)) = Ok (Right db2) /\
    forall k, 0 <= k < 32768 -> Dynamic.get db2 k = Ok (dbit db k).
Proof.
  intros Hwf Hun. destruct (reopen_page db Hwf Hun) as (db1 & data & db2 & Hf & Ho & Hwf2 & Hb).
  exists db1, data, db2. split_and!; [done..|]. intros k Hk. rewrite dyn_get_Ok by (done || lia).
  specialize (Hb 0 k). rewrite Z.mul_0_r, Z.add_0_l in Hb. rewrite Hb by lia.
  rewrite (proj2 (Z.leb_le _ _)); [done|]. Z.div_mod_to_equations; lia.
Qed.

(** [open] steps through the file in strides of 1024 bytes, a quarter of a
    page, and makes a page of each: after reopening one page, bit [k] of its
    last three quarters is also set at position [32768 + k], where nothing was
    ever set. *)
Theorem bitfield_reopen_shadow db k :
  dyn_wf db -> unflushed db = [0] -> 8192 <= k < 32768 -> dbit db k = true ->
  dbit db (32768 + k) = false ->
  exists db1 data db2,
    Dynamic.flush db = Ok (db1, [StoreInfo.new_content Bitfield 0 data]) /\
    Dynamic.open (Some (StoreInfo.new_content Bitfield 0 data)) = Ok (Right db2) /\
    dbit db2 (32768 + k) = true.
Proof.
  intros Hwf Hun Hk Hset _. destruct (reopen_page db Hwf Hun) as (db1 & data & db2 & Hf & Ho & _ & Hb).
  exists db1, data, db2. split_and!; [done..|]. specialize (Hb 1 k).
  rewrite Z.mul_1_r in Hb. rewrite Hb, Hset by lia.
  rewrite (proj2 (Z.leb_le _ _)); [done|]. Z.div_mod_to_equations; lia.
Qed.

(** A bitfield file of more than one page cannot be opened: the page made
    at byte 1024 runs over the end of its 1024 words and panics. *)
Theorem bitfield_reopen_panic data b :
  Forall is_u8 data -> zlen data = 4 * b -> 1024 < b ->
  Dynamic.open (Some (StoreInfo.new_content Bitfield 0 data)) = Panic.
Proof. apply dyn_open_Panic. Qed.

(** A page of the bitfield is written as 4096 little-endian bytes and read
    back bit for bit. *)
Theorem fixed_bitfield_roundtrip fb :
  fixed_wf fb ->
  exists bytes, Fixed.to_bytes fb = Ok bytes /\ zlen bytes = 4096 /\ Forall is_u8 bytes /\
    Fixed.from_data 0 bytes = Ok (mkFixed false (fb_bitfield fb)).
Proof. apply fixed_bytes_roundtrip. Qed.

(** ** Witnesses *)

Definition empty_bitfield : DynamicBitfield := mkDynamic ∅ 0 [].

Lemma bitfield_run_wf_witness :
  exists db, bitfield_run (mkDynamic ∅ 0 [])
    [BitfieldSet 40000 true; BitfieldUpdateRange (mkBitfieldUpdate false 32760 20); BitfieldFlush] = Ok db /\ dyn_wf db.
Proof. apply bitfield_run_wf. repeat constructor; vm_compute; congruence. Defined.

Lemma bitfield_set_get_witness :
  exists db' changed, Dynamic.set empty_bitfield 40000 true = Ok (db', changed) /\ dyn_wf db' /\
    changed = true /\ Dynamic.get db' 40000 = Ok true.
Proof.
  apply (bitfield_set_get empty_bitfield 40000 true 40000); [apply dyn_empty_wf|lia..].
Defined.

Lemma bitfield_update_range_witness :
  exists db', Dynamic.update empty_bitfield (mkBitfieldUpdate false 32760 20) = Ok db' /\
    dyn_wf db' /\
    forall k, 0 <= k < 2 ^ 64 ->
      Dynamic.get db' k =
        if decide (32760 <= k < 32760 + 20) then Ok true else Dynamic.get empty_bitfield k.
Proof.
  apply (bitfield_update_range empty_bitfield (mkBitfieldUpdate false 32760 20));
    [apply dyn_empty_wf|cbn [bu_start bu_length]; lia..].
Defined.

Lemma bitfield_search_unset_witness :
  exists r, Dynamic.index_of empty_bitfield false 5 = Ok r /\
    is_first (fun k => negb (dbit empty_bitfield k)) 5
      (32768 * (Z.max (5 / 32768) (biggest_page_index empty_bitfield) + 1)) r.
Proof. apply (bitfield_search_unset empty_bitfield 5); [apply dyn_empty_wf|lia]. Defined.

(** A bitfield with one bit set, as [set] makes it. *)
Definition one_bit (k : Z) : DynamicBitfield :=
  match Dynamic.set empty_bitfield k true with Ok (db, _) => db | _ => empty_bitfield end.
Lemma one_bit_wf k :
  0 <= k < 2 ^ 64 ->
  dyn_wf (one_bit k) /\ forall j, 0 <= j -> dbit (one_bit k) j = bool_decide (j = k).
Proof.
  intros Hk. destruct (dyn_set_Ok empty_bitfield k true dyn_empty_wf Hk) as (db & Hs & Hwf & Hb).
  unfold one_bit. rewrite Hs. split; [done|]. intros j Hj. rewrite Hb by done.
  case_decide; [by rewrite bool_decide_eq_true_2|].
  rewrite bool_decide_eq_false_2 by done. reflexivity.
Qed.

(** From the first page the search finds the bit in the second. *)
Lemma bitfield_search_set_witness :
  Dynamic.index_of (one_bit 40000) true 5 = Ok (Some 40000) /\ Dynamic.last_index_of (one_bit 40000) true 5 = Ok None /\
  is_first (dbit (one_bit 40000)) 5 (2 ^ 64) (Some 40000) /\ is_last (dbit (one_bit 40000)) 0 6 None.
Proof.
  assert (Dynamic.index_of (one_bit 40000) true 5 = Ok (Some 40000)) as Hf by (vm_compute; reflexivity).
  assert (Dynamic.last_index_of (one_bit 40000) true 5 = Ok None) as Hl by (vm_compute; reflexivity).
  destruct (bitfield_search_set (one_bit 40000) 5 (proj1 (one_bit_wf 40000 ltac:(lia))) ltac:(lia)) as [(r & Hr & H1) (r' & Hr' & H2)].
  rewrite Hf in Hr. rewrite Hl in Hr'. injection Hr as <-. injection Hr' as <-. exact (conj Hf (conj Hl (conj H1 H2))).
Defined.

Lemma bitfield_flush_witness :
  exists db', Dynamic.flush (one_bit 9000) =
      Ok (db', page_info (pages (one_bit 9000)) <$> unflushed (one_bit 9000)) /\ dyn_wf db' /\
    unflushed db' = [] /\ NoDup (unflushed (one_bit 9000)) /\
    (forall i, i ∈ unflushed (one_bit 9000) <->
       exists p, pages (one_bit 9000) !! i = Some p /\ fb_dirty p = true) /\
    (forall k, 0 <= k -> dbit db' k = dbit (one_bit 9000) k).
Proof. apply (bitfield_flush (one_bit 9000)). apply one_bit_wf. lia. Defined.

Lemma bitfield_flush_open_page_witness :
  exists db1 data db2,
    Dynamic.flush (one_bit 9000) = Ok (db1, [StoreInfo.new_content Bitfield 0 data]) /\
    Dynamic.open (Some (StoreInfo.new_content Bitfield 0 data)) = Ok (Right db2) /\
    forall k, 0 <= k < 32768 -> Dynamic.get db2 k = Ok (dbit (one_bit 9000) k).
Proof.
  apply (bitfield_flush_open_page (one_bit 9000)); [apply one_bit_wf; lia|vm_compute; reflexivity].
Defined.

Lemma bitfield_reopen_shadow_witness :
  exists db1 data db2,
    Dynamic.flush (one_bit 9000) = Ok (db1, [StoreInfo.new_content Bitfield 0 data]) /\
    Dynamic.open (Some (StoreInfo.new_content Bitfield 0 data)) = Ok (Right db2) /\
    dbit db2 (32768 + 9000) = true.
Proof.
  apply (bitfield_reopen_shadow (one_bit 9000) 9000);
    [apply one_bit_wf; lia|vm_compute; reflexivity|lia|vm_compute; reflexivity|vm_compute; reflexivity].
Defined.

Lemma bitfield_reopen_panic_witness :
  Dynamic.open (Some (StoreInfo.new_content Bitfield 0 (replicate 4100 0))) = Panic.
Proof.
  apply (bitfield_reopen_panic (replicate 4100 0) 1025);
    [apply Forall_replicate; unfold is_u8; lia|vm_compute; reflexivity|lia].
Defined.

Lemma fixed_bitfield_roundtrip_witness :
  exists bytes, Fixed.to_bytes Fixed.new = Ok bytes /\ zlen bytes = 4096 /\ Forall is_u8 bytes /\
    Fixed.from_data 0 bytes = Ok (mkFixed false (fb_bitfield Fixed.new)).
Proof. apply (fixed_bitfield_roundtrip Fixed.new). apply fixed_new_wf. Defined.

(** A bitfield with one range set. *)
Definition range_set (start len : Z) : DynamicBitfield :=
  match Dynamic.set_range empty_bitfield start len true with Ok db => db | _ => empty_bitfield end.

(** [last_index_of(false, position)] gives up after the page of the
    position unless it is page 0 or 1: with the beginning of page 2 full it returns [None]
    although 65535 is unset, and with a full beginning of page 0 it counts below
    zero and panics. *)
Theorem bitfield_last_unset_missed :
  Dynamic.last_index_of (range_set 65536 200) false 65636 = Ok None /\
  Dynamic.get (range_set 65536 200) 65535 = Ok false /\
  Dynamic.last_index_of (range_set 0 200) false 100 = Panic.
Proof. split_and!; vm_compute; reflexivity. Qed.
