(* ===== verification/TreeTheorems.v ===== *)
(** * Theorems on the merkle tree, its changesets and its proofs *)

From stdpp Require Import base tactics numbers list strings gmap.
From Stdlib Require Import ZArith Lia Bool Strings.Byte.
From S2P Require Import Prelude FlatTree Common CompactEncoding Encoding Crypto OplogEntry.
From S2P Require Import Changeset Storage Oplog MerkleTree MerkleView MerkleProof MerkleSound.
From S2P Require Import MerkleHonest MerkleSeek NodeCache Models ChannelModels Samples.
Open Scope Z_scope.

Section Theorems.
Context `{FT : FlatTree} {FL : FlatTreeLaws FT} `{CE : CompactEncoding} {CL : CompactEncodingLaws CE}
  `{B2 : Blake2b} {BL : Blake2bLaws B2} `{ED : Ed25519} {EL : Ed25519Laws ED}
  `{IO : IntMapOrder} {IOL : IntMapOrderLaws IO}.
Implicit Types (blocks : list (list Z)) (self : MerkleTree) (cs : MerkleTreeChangeset).

(** C10: the incremental [append] computes the merkle tree.  A changeset whose
    roots, length and byte length are those of the tree over [blocks] has,
    after a block was appended, those of the tree over [blocks ++ [data]]; the
    new nodes are exactly the nodes the block completes, leaf first. *)
Theorem changeset_append_reference blocks cs data :
  cs_for blocks cs -> log_fits (blocks ++ [data]) -> cs_batch_length cs + 1 < 2 ^ 64 ->
  exists cs', Changeset.append cs data = Ok (cs', zlen data) /\ cs_for (blocks ++ [data]) cs' /\
    cs_nodes cs' = cs_nodes cs ++ merkle_peaks (blocks ++ [data]) (completed (zlen blocks)) /\
    cs_batch_length cs' = cs_batch_length cs + 1 /\ cs_upgraded cs' = true.
Proof.
  intros Hfor Hfit Hb. rewrite (append_ok _ _ _ Hfor Hfit Hb). eexists. split; [done|]. by split_and!.
Qed.

(** C33: a signed changeset verifies.  What [hash_and_sign] stores for the tree
    over [blocks] is accepted by [verify_and_set_signature] with the public key
    of the signing key, on any changeset for the same tree and fork. *)
Theorem changeset_sign_verify blocks cs cs2 sk :
  cs_for blocks cs -> cs_for blocks cs2 -> cs_fork cs2 = cs_fork cs -> log_fits blocks ->
  is_u64 (cs_fork cs) ->
  exists signed sig, Changeset.hash_and_sign cs sk = Ok signed /\ cs_signature signed = Some sig /\
    exists accepted,
      Changeset.verify_and_set_signature cs2 (sig_to_bytes sig) (sk_verifying_key sk) = Ok accepted /\
      cs_signature accepted = Some sig /\ cs_hash accepted = cs_hash signed.
Proof.
  intros Hfor Hfor2 Hfk Hfit Hf. rewrite (hash_and_sign_ok _ _ sk Hfor Hfit Hf).
  eexists _, _. split_and!; [done..|]. rewrite <-Hfk in *.
  rewrite (verify_and_set_signature_ok _ _ _ _ Hfor2 Hfit Hf), sig_from_to, ed_verify_sign.
  eexists. by split_and!.
Qed.

(** Any other signature is refused: bytes that are no signature, or a
    signature the public key does not accept for the signed bytes of this tree,
    give [InvalidSignature]. *)
Theorem changeset_verify_refuses blocks cs bytes pk :
  cs_for blocks cs -> log_fits blocks -> is_u64 (cs_fork cs) ->
  (forall sig, sig_try_from bytes = Some sig ->
     ed_verify pk (signed_bytes blocks (cs_fork cs)) sig = false) ->
  Changeset.verify_and_set_signature cs bytes pk = Err InvalidSignature.
Proof.
  intros Hfor Hfit Hf Hbad. rewrite (verify_and_set_signature_ok _ _ _ _ Hfor Hfit Hf).
  destruct (sig_try_from bytes) as [sig|] eqn:Hs; [|done]. by rewrite (Hbad sig eq_refl).
Qed.

(** C24: [byte_range] finds a block.  Given the nodes with the keys [ks] from the
    store, it returns the byte range of block [i] of the log, or instructions
    to read exactly the nodes it still misses; given those too it returns the
    range. *)
Theorem tree_byte_range blocks self f ks i :
  tree_inv blocks self f -> no_blank blocks -> log_fits blocks -> readable blocks f ks ->
  0 <= i < zlen blocks ->
  let l := unknown self ks (node_keys (needed (zlen blocks) i)) in
  Tree.byte_range self i (Some (node_read f <$> ks)) = Ok (asked l (block_range blocks i)) /\
  readable blocks f l /\
  Tree.byte_range self i (Some (node_read f <$> (ks ++ l))) = Ok (Right (block_range blocks i)).
Proof.
  intros Hinv Hnb Hfit Hks Hi l.
  assert (readable blocks f l) as Hl by (apply unknown_readable; [done|by apply needed_complete_all]).
  split_and!; [by apply byte_range_asked|done|].
  assert (readable blocks f (ks ++ l)) as Hkl
    by (intros k [?|?]%elem_of_app; [by apply Hks|by apply Hl]).
  rewrite (byte_range_asked blocks) by done. unfold l. by rewrite unknown_all.
Qed.

(** an index outside the log is refused. *)
Theorem tree_byte_range_bounds blocks self infos i :
  tree_for blocks self -> log_fits blocks -> zlen blocks <= i < 2 ^ 63 ->
  Tree.byte_range self i infos = Err BadArgument /\ Tree.byte_offset self i infos = Err BadArgument.
Proof.
  intros Ht Hfit Hi. pose proof (zlen_nonneg blocks).
  pose proof (validate_index_ok blocks self i Ht Hfit ltac:(lia)) as Hv.
  rewrite (proj2 (Z.ltb_ge _ _)) in Hv by lia.
  unfold Tree.byte_range, Tree.byte_offset. by rewrite Hv.
Qed.

(** C26: a tree written to its store is read back: after [flush] every node of
    the log is in the store at its place, and [open] with a header of that
    length first asks for the roots and then returns the tree of the log, with
    the signature of the header: the one whose bytes it has, none if it has no
    bytes (as for an empty log).  Bytes that are no signature are refused with
    [InvalidSignature]. *)
Theorem tree_flush_open blocks self fs ht :
  tree_inv blocks self (fs Common.Tree) -> log_fits blocks -> ht_length ht = zlen blocks ->
  exists self' infos ins reads, Tree.flush self = Ok (self', infos) /\ mt_unflushed self' = ∅ /\
    let fs' := update_store fs Common.Tree (file_effects (fs Common.Tree) infos) in
    tree_inv blocks self' (fs' Common.Tree) /\ Tree.open ht None = Ok (Left ins) /\
    Forall2 (fun ins info => read_effect fs' ins = Some info) ins reads /\
    (forall sig, ht_signature ht = sig_to_bytes sig -> Tree.open ht (Some reads) = Ok (Right (opened_tree blocks ht (Some sig)))) /\
    (ht_signature ht = [] -> Tree.open ht (Some reads) = Ok (Right (opened_tree blocks ht None))) /\
    (ht_signature ht <> [] -> sig_try_from (ht_signature ht) = None -> Tree.open ht (Some reads) = Err InvalidSignature).
Proof.
  intros Hinv Hfit Hlen.
  destruct (flush_ok _ _ _ Hinv Hfit) as (self' & infos & Hf & Hinv' & Hu & _ & _ & _).
  set (fs' := update_store fs Common.Tree (file_effects (fs Common.Tree) infos)).
  destruct (open_outcomes blocks ht fs') as (ins & reads & Ho & _ & Hr & Ho'); [|done|done|].
  { apply all_roots_stored. intros d o Hc. unfold fs'. rewrite update_store_same. apply Hinv'; [done|]. by rewrite Hu. }
  exists self', infos, ins, reads. rewrite Ho'. do 5 (split; [by cbv zeta in *|]). split_and!.
  - intros sig ->. pose proof (sig_bytes sig) as [_ H64]. by rewrite H64, sig_from_to.
  - by intros ->.
  - intros Hne ->. destruct (ht_signature ht) as [|x bs]; [done|]. rewrite (proj2 (Z.ltb_lt _ _)); [done|].
    rewrite zlen_cons. pose proof (zlen_nonneg bs). lia.
Qed.

(** A changeset that was made for a tree of another fork, or that upgrades
    a tree of another length, is not committed. *)
Theorem tree_commit_refuses self cs :
  cs_original_tree_fork cs <> mt_fork self \/
  (cs_upgraded cs = true /\ cs_original_tree_length cs <> mt_length self) \/
  mt_length self < cs_original_tree_length cs ->
  Tree.commit self cs = Err InvalidOperation.
Proof.
  intros Hbad. unfold Tree.commit, Tree.commitable.
  destruct (Z.eqb_spec (cs_original_tree_fork cs) (mt_fork self)); [|done]. cbn [andb].
  destruct Hbad as [|[[-> Hne]|Hlt]]; [done| |].
  - by rewrite (proj2 (Z.eqb_neq _ _)).
  - rewrite (proj2 (Z.leb_gt _ _)) by lia. destruct (cs_upgraded cs); [|done].
    by rewrite (proj2 (Z.eqb_neq _ _)) by lia.
Qed.

(** C13: a block that is accepted against known nodes is the block of the log.
    When every node the receiver knows belongs to the tree over [blocks] and
    [verify_proof] accepts a proof with a block and no upgrade, the value is
    block [db_index b] of the log, or one of the finitely many inputs that were
    hashed to verify this proof ([verifier_hashed]: its block, the pairs of the
    nodes at hand, the roots) is another input than one of the log's tree and
    has the same hash. *)
Theorem proof_block_sound blocks self nodes infos proof b pk cs :
  log_fits blocks -> trusted blocks self nodes -> infos_to_nodes infos = Ok nodes -> block_proof proof b ->
  Proofs.verify_proof self proof pk infos = Ok (Right cs) ->
  blocks !! Z.to_nat (db_index b) = Some (db_value b) \/ collision (verifier_hashed self proof cs) blocks.
Proof. apply verify_block_ok. Qed.

(** an upgrade is accepted only with a signature of the public key over the
    roots, length and fork of the changeset it results in. *)
Theorem proof_upgrade_signed self proof pk infos cs upgrade :
  proof_upgrade proof = Some upgrade -> Proofs.verify_proof self proof pk infos = Ok (Right cs) ->
  signed_by pk cs /\ cs_fork cs = proof_fork proof.
Proof. apply verify_proof_upgrade_signed. Qed.

(** The offset of a block in a changeset is looked up in the wrong list.
    When the block is the second root of the changeset and the tree has no
    roots yet, [byte_offset_in_changeset] indexes the roots of the tree and
    panics. *)
Theorem changeset_offset_panics self cs i leaf root :
  mt_length self = 0 -> mt_roots self = [] -> 0 < i < 2 ^ 56 ->
  cs_nodes cs = [leaf] -> cs_roots cs = [root; leaf] ->
  node_index leaf = 2 * i -> node_index root <> 2 * i ->
  Tree.byte_offset_in_changeset self i cs None = Panic.
Proof.
  intros Hl Hr Hi Hn Hcr Hleaf Hroot. unfold Tree.byte_offset_in_changeset.
  rewrite Hl, (proj2 (Z.eqb_neq 0 i)) by lia. unfold hypercore_index_into_merkle_tree_index.
  rewrite checked_mul_Ok, bind_Ok, Hn by lia. cbn [Tree.changeset_path].
  assert (iter_at 0 i (iter_new (node_at 0 i))) as [Hii _].
  { apply iter_new_law. split_and!; [lia..|]. change (2 ^ (0 + 1)) with 2. lia. }
  rewrite node_at_leaf in Hii. rewrite Hii, Hleaf, Z.eqb_refl, !bind_Ok, Hcr.
  cbn [Tree.root_position]. rewrite (proj2 (Z.eqb_neq _ _)) by lia. rewrite Hleaf, Z.eqb_refl.
  cbn. by rewrite Hr.
Qed.

(** C25: seeking finds the byte.  With the roots at hand, the search for byte
    number [bytes] of the log, counted from one, ends at the leaf the byte is in,
    or at a node whose last byte it is; behind the last byte it ends at the head.
    A node that it misses on the way down it asks for. *)
Theorem seek_finds_byte blocks self nodes bytes :
  view_ok blocks self nodes -> no_blank blocks -> log_fits blocks ->
  (forall d o, (d, o) ∈ peaks (zlen blocks) -> has self nodes (node_at d o) = true) -> 0 < bytes ->
  (exists d o, complete (zlen blocks) d o /\ has self nodes (node_at d o) = false /\
     Proofs.seek_from_head self (2 * zlen blocks) bytes nodes =
       Ok (Left [Instruction.new_content_allow_miss Common.Tree (40 * node_at d o) 40])) \/
  (exists index, Proofs.seek_from_head self (2 * zlen blocks) bytes nodes = Ok (Right index) /\
     if decide (bytes <= zlen (concat blocks)) then seek_at blocks bytes index else index = 2 * zlen blocks).
Proof.
  intros Hv Hnb Hfit Hhas Hb. destruct (seek_from_head_ok blocks self nodes bytes Hv Hnb Hfit Hhas Hb) as ([ins|index] & -> & Hr).
  - left. destruct Hr as (d & o & Hc & Hh & ->). by exists d, o.
  - right. by exists index.
Qed.
End Theorems.

(** The order of nodes disagrees with their equality: [cmp] looks at the index
    only, so that nodes with different hashes compare as equal. *)
Theorem node_order_ignores_hash : exists a b : Node, NodeTrait.cmp a b = Eq /\ a <> b.
Proof. by exists (mkNode 0 [1] 0 0 None false), (mkNode 0 [2] 0 0 None false). Qed.

Section Cached.
Context `{FT : FlatTree} {FL : FlatTreeLaws FT} `{CE : CompactEncoding} {CL : CompactEncodingLaws CE}
  `{B2 : Blake2b} {BL : Blake2bLaws B2} `{ED : Ed25519} {EL : Ed25519Laws ED}
  `{MC : MokaCache} {MCL : MokaCacheLaws MC}.
Implicit Types (blocks : list (list Z)) (self : MerkleTree) (node_cache : option cache).

(** C30: with the feature [cache], lookups in a log that only grows are as
    without it.  A cache that holds nodes of the log only, the one a tree is
    opened with for instance, still does so after nodes were read from the
    store, the nodes read are the same, and looking a node up gives what it
    gives without the cache or the node itself. *)
Theorem cached_node_agrees blocks self node_cache f ks d o :
  coherent blocks node_cache -> view_ok blocks self ∅ -> readable blocks f ks -> no_blank blocks ->
  log_fits blocks -> complete (zlen blocks) d o ->
  exists cache1 nodes cache2 r,
    CachedTree.infos_to_nodes node_cache (Some (node_read f <$> ks)) = Ok (cache1, nodes) /\
    infos_to_nodes (Some (node_read f <$> ks)) = Ok nodes /\
    CachedTree.node self cache1 (node_at d o) nodes false = (cache2, Ok r) /\
    coherent blocks cache1 /\ coherent blocks cache2 /\
    (r = Right (Some (merkle_at blocks d o)) \/ Tree.node self (node_at d o) nodes false = Ok r).
Proof.
  intros Hc Hv Hks Hnb Hfit Hcm.
  destruct (cached_infos_ok blocks f ks node_cache ∅ Hfit Hks Hc) as (cache1 & nodes & Hci & Hi & Hc1).
  destruct (infos_view blocks self f ks Hv Hfit Hks) as (nodes' & Hi' & Hv' & _). cbn [infos_to_nodes] in Hi'.
  rewrite Hi in Hi'. injection Hi' as <-. pose proof Hfit as [Hn _].
  destruct (cached_node_ok blocks self cache1 nodes d o Hc1 Hv' Hnb Hn Hcm) as (cache2 & r & Hnode & Hc2 & Hr).
  by exists cache1, nodes, cache2, r.
Qed.

(** The cache is asked before the tree's own state.  A node that was
    blanked or cut off by a truncation is refused without the cache and
    returned with it, as long as it is cached. *)
Theorem cache_outlives_truncation self node_cache index nodes x y :
  (CachedTree.get node_cache index).2 = Some x -> mt_unflushed self !! index = Some y ->
  node_blank y = true \/ (mt_truncated self = true /\ 2 * mt_truncate_to self <= node_index y) ->
  Tree.node self index nodes false = Err InvalidOperation /\
  (CachedTree.node self node_cache index nodes false).2 = Ok (Right (Some x)).
Proof.
  intros Hget Hy Hcut. unfold CachedTree.node, Tree.node. rewrite Hy. split.
  - destruct Hcut as [->|[-> Hle]]; [done|]. rewrite (proj2 (Z.leb_le _ _)) by done. by rewrite orb_true_r.
  - destruct (CachedTree.get node_cache index) as [c z]. cbn [snd] in Hget. by subst z.
Qed.
End Cached.

(** ** Witnesses *)

Import FlatTreeModel EncodingModel CryptoModel MemoryModel IntMapModel.

Lemma empty_changeset_for : cs_for [] (Changeset.new 0 0 0 []).
Proof. by split_and!. Qed.

Definition two_changeset : MerkleTreeChangeset := Changeset.new 2 3 0 (merkle_roots two_blocks).

Lemma two_changeset_for : cs_for two_blocks two_changeset.
Proof. split_and!; [done|vm_compute; reflexivity..]. Qed.

Lemma changeset_append_reference_witness :
  exists cs', Changeset.append two_changeset [4; 5; 6] = Ok (cs', 3) /\
    cs_for (two_blocks ++ [[4; 5; 6]]) cs' /\
    cs_nodes cs' = cs_nodes two_changeset ++
      merkle_peaks (two_blocks ++ [[4; 5; 6]]) (completed (zlen two_blocks)) /\
    cs_batch_length cs' = cs_batch_length two_changeset + 1 /\ cs_upgraded cs' = true.
Proof.
  apply (changeset_append_reference two_blocks two_changeset [4; 5; 6]);
    [apply two_changeset_for|apply (sample_fits 3)|reflexivity].
Defined.

Lemma changeset_sign_verify_witness :
  exists signed sig, Changeset.hash_and_sign two_changeset x05 = Ok signed /\
    cs_signature signed = Some sig /\
    exists accepted,
      Changeset.verify_and_set_signature two_changeset (sig_to_bytes sig) (sk_verifying_key x05)
        = Ok accepted /\
      cs_signature accepted = Some sig /\ cs_hash accepted = cs_hash signed.
Proof.
  apply (changeset_sign_verify two_blocks two_changeset two_changeset x05);
    [apply two_changeset_for|apply two_changeset_for|done|apply (sample_fits 2)|].
  unfold is_u64. cbn. lia.
Defined.

Lemma changeset_verify_refuses_witness :
  Changeset.verify_and_set_signature two_changeset [] (sk_verifying_key x05) = Err InvalidSignature.
Proof.
  apply (changeset_verify_refuses two_blocks); [apply two_changeset_for|apply (sample_fits 2)| |].
  - unfold is_u64. cbn. lia.
  - done.
Defined.

(** The tree over the two blocks with all its nodes in memory. *)
Definition two_tree : MerkleTree :=
  mkTree _ (merkle_roots two_blocks) 2 3 0 None
    (Tree.insert_nodes ∅ [merkle two_blocks 0 0; merkle two_blocks 0 1; merkle two_blocks 1 0]) false 0.

Lemma two_complete d o : complete (zlen two_blocks) d o -> (d, o) ∈ [(0, 0); (0, 1); (1, 0)].
Proof.
  intros Hc. pose proof Hc as (_ & _ & Hle). change (zlen two_blocks) with 2 in *.
  apply complete_small in Hc as [Hd Ho]; [|done].
  assert (d = 0 \/ d = 1 \/ d = 2) as [->|[->| ->]] by lia; assert (o = 0 \/ o = 1) as [->| ->] by lia;
    try (by repeat constructor); cbn in Hle; lia.
Qed.

Lemma two_tree_inv f : tree_inv two_blocks two_tree f.
Proof.
  split_and!; [by split_and!|done| |].
  - intros k x Hx. apply insert_nodes_lookup in Hx as [[Hin <-]|Hx]; [|done].
    rewrite !elem_of_cons, elem_of_nil in Hin.
    destruct Hin as [->|[->|[->|[]]]]; [exists 0, 0|exists 0, 1|exists 1, 0];
      (split; [|by split]); split_and!; vm_compute; congruence.
  - intros d o Hc%two_complete Hn. exfalso.
    destruct (insert_nodes_lookup [merkle two_blocks 0 0; merkle two_blocks 0 1; merkle two_blocks 1 0]
      ∅ (node_at d o)) as (_ & [y Hy] & _);
      [|change (mt_unflushed two_tree !! node_at d o = Some y) in Hy; by rewrite Hn in Hy].
    rewrite !elem_of_cons, elem_of_nil in Hc.
    destruct Hc as [[= -> ->]|[[= -> ->]|[[= -> ->]|[]]]];
      [exists (merkle two_blocks 0 0)|exists (merkle two_blocks 0 1)|exists (merkle two_blocks 1 0)];
      (split; [rewrite !elem_of_cons; tauto|reflexivity]).
Qed.

Lemma tree_byte_range_witness :
  Tree.byte_range two_tree 1 (Some (node_read [] <$> [])) =
    Ok (asked (unknown two_tree [] (node_keys (needed (zlen two_blocks) 1))) (block_range two_blocks 1)) /\
  readable two_blocks [] (unknown two_tree [] (node_keys (needed (zlen two_blocks) 1))) /\
  Tree.byte_range two_tree 1
    (Some (node_read [] <$> [] ++ unknown two_tree [] (node_keys (needed (zlen two_blocks) 1)))) =
    Ok (Right (block_range two_blocks 1)).
Proof.
  apply (tree_byte_range two_blocks two_tree [] [] 1);
    [apply two_tree_inv|apply (sample_no_blank 2)|apply (sample_fits 2)|by intros ? ?%elem_of_nil|].
  change (zlen two_blocks) with 2. lia.
Defined.

Lemma tree_byte_range_bounds_witness :
  Tree.byte_range two_tree 2 None = Err BadArgument /\ Tree.byte_offset two_tree 2 None = Err BadArgument.
Proof.
  apply (tree_byte_range_bounds two_blocks two_tree None 2);
    [apply (two_tree_inv [])|apply (sample_fits 2)|]. change (zlen two_blocks) with 2. lia.
Defined.

Lemma seek_finds_byte_witness :
  exists index, Proofs.seek_from_head two_tree 4 2 ∅ = Ok (Right index) /\ seek_at two_blocks 2 index.
Proof.
  destruct (seek_finds_byte two_blocks two_tree ∅ 2) as [(d & o & Hc & Hh & _)|Hfound].
  - apply (tree_inv_view _ _ _ (two_tree_inv [])).
  - apply (sample_no_blank 2).
  - apply (sample_fits 2).
  - intros d o Hin. change (peaks (zlen two_blocks)) with [(1, 0)] in Hin. by apply list_elem_of_singleton in Hin as [= -> ->].
  - done.
  - apply two_complete in Hc. rewrite !elem_of_cons, elem_of_nil in Hc.
    destruct Hc as [[= -> ->]|[[= -> ->]|[[= -> ->]|[]]]]; vm_compute in Hh; discriminate Hh.
  - exact Hfound.
Defined.

(** The header that is written for the two blocks. *)
Definition two_header_tree : HeaderTree :=
  mkHeaderTree 0 2 (blake2b256 (tree_preimage (merkle_roots two_blocks))) (sig_to_bytes (ed_sign x05 (signed_bytes two_blocks 0))).

Lemma tree_flush_open_witness :
  exists self' infos ins reads, Tree.flush two_tree = Ok (self', infos) /\ mt_unflushed self' = ∅ /\
    let fs' := update_store (fun _ => []) Common.Tree (file_effects [] infos) in
    tree_inv two_blocks self' (fs' Common.Tree) /\ Tree.open two_header_tree None = Ok (Left ins) /\
    Forall2 (fun ins info => read_effect fs' ins = Some info) ins reads /\
    Tree.open two_header_tree (Some reads) =
      Ok (Right (opened_tree two_blocks two_header_tree (Some (ed_sign x05 (signed_bytes two_blocks 0))))).
Proof.
  destruct (tree_flush_open two_blocks two_tree (fun _ => []) two_header_tree (two_tree_inv [])
    (sample_fits 2) eq_refl) as (self' & infos & ins & reads & Hf & Hu & Hinv & Ho & Hr & Hsig & _).
  exists self', infos, ins, reads. exact (conj Hf (conj Hu (conj Hinv (conj Ho (conj Hr (Hsig _ eq_refl)))))).
Defined.

Lemma tree_commit_refuses_witness :
  Tree.commit two_tree (Changeset.new 3 6 0 []) = Err InvalidOperation.
Proof. apply tree_commit_refuses. right. right. reflexivity. Defined.

(** Block 0 with its sibling. *)
Definition two_block_proof : Proof_ :=
  mkProof 0 (Some (mkDataBlock 0 [1; 2] [merkle two_blocks 0 1])) None None None.
Definition empty_tree : MerkleTree := mkTree _ [] 0 0 0 None ∅ false 0.

Definition accepted (r : result (either_instructions MerkleTreeChangeset)) : MerkleTreeChangeset :=
  match r with Ok (Right cs) => cs | _ => two_changeset end.

Definition is_accepted (r : result (either_instructions MerkleTreeChangeset)) : bool :=
  match r with Ok (Right _) => true | _ => false end.

Lemma accepted_ok r : is_accepted r = true -> r = Ok (Right (accepted r)).
Proof. by destruct r as [[]| | |]. Qed.

(** The changeset it is accepted with. *)
Definition two_block_accepted : MerkleTreeChangeset :=
  accepted (Proofs.verify_proof two_tree two_block_proof x05 None).

(** What is hashed for the two blocks. *)
Definition two_inputs : list (list Z) :=
  [leaf_preimage [1; 2]; leaf_preimage [3]; parent_preimage (merkle_at two_blocks 0 0) (merkle_at two_blocks 0 1);
   tree_preimage []; tree_preimage (merkle_roots [[1; 2]]); tree_preimage (merkle_roots two_blocks)].

Lemma two_log_hashed m : log_hashed two_blocks m -> m ∈ two_inputs.
Proof.
  intros (log & [k Hk] & H). assert (log = [] \/ log = [[1; 2]] \/ log = two_blocks) as Hlog.
  { destruct log as [|a [|b [|c log]]]; [by auto|..|discriminate Hk].
    - injection Hk as <- _. by auto.
    - injection Hk as <- <- _. by auto. }
  clear Hk. destruct H as [(i & Hi & ->)|[(d & h & (_ & Hh & Hle) & Hd & ->)| ->]].
  - destruct Hlog as [->|[->| ->]]; change (0 <= i < 0) in Hi || change (0 <= i < 1) in Hi || change (0 <= i < 2) in Hi; [lia|..].
    + assert (i = 0) as -> by lia. by left.
    + assert (i = 0 \/ i = 1) as [->| ->] by lia; [by left|by right; left].
  - rewrite pow2_succ in Hle by done. pose proof (Z.pow_pos_nonneg 2 d ltac:(lia) Hd) as Hp.
    assert (zlen log <= 2 /\ (zlen log = 2 -> log = two_blocks)) as [Hl Htwo] by (by destruct Hlog as [->|[->| ->]]).
    assert (2 ^ d = 1 /\ h = 0) as [Hp1 ->] by nia. rewrite Htwo by nia.
    assert (d = 0) as -> by (destruct (Z.eq_dec d 0); [done|]; pose proof (Z.pow_gt_1 2 d); lia).
    by do 2 right; left.
  - destruct Hlog as [->|[->| ->]]; [by do 3 right; left|by do 4 right; left|by do 5 right; left].
Qed.

Lemma no_collision_check inputs :
  forallb (fun m => forallb (fun m' => bool_decide (m = m') || negb (bool_decide (blake2b256 m = blake2b256 m'))) two_inputs) inputs = true ->
  ~ collision inputs two_blocks.
Proof.
  intros Hchk (m & m' & Hin & Hm & Hne & Heq). rewrite forallb_forall in Hchk.
  specialize (Hchk m). rewrite <-list_elem_of_In, forallb_forall in Hchk. specialize (Hchk Hin m').
  rewrite <-list_elem_of_In in Hchk. specialize (Hchk (two_log_hashed _ Hm)).
  apply orb_true_iff in Hchk as [?%bool_decide_eq_true|Hn]; [done|]. by rewrite bool_decide_true in Hn.
Qed.

(** Here the inputs collide with none of the log's, so that the block is the
    log's. *)
Lemma proof_block_sound_witness :
  (two_blocks !! Z.to_nat 0 = Some [1; 2] \/
   collision (verifier_hashed two_tree two_block_proof two_block_accepted) two_blocks) /\
  ~ collision (verifier_hashed two_tree two_block_proof two_block_accepted) two_blocks.
Proof.
  split; [|apply no_collision_check; vm_compute; reflexivity].
  apply (proof_block_sound two_blocks two_tree ∅ None two_block_proof
    (mkDataBlock 0 [1; 2] [merkle two_blocks 0 1]) x05 two_block_accepted).
  - apply (sample_fits 2).
  - intros k x [Hx|Hx]; [|done]. destruct (two_tree_inv []) as (_ & _ & Hu & _).
    destruct (Hu k x Hx) as (d & o & ? & ? & ?). by exists d, o.
  - reflexivity.
  - split_and!; try done; [|vm_compute; congruence..].
    apply Forall_cons. split; [|done]. split_and!; [split; vm_compute; congruence|vm_compute; congruence|reflexivity].
  - apply accepted_ok. vm_compute. reflexivity.
Defined.

Lemma proof_upgrade_signed_witness :
  let cs := accepted (Proofs.verify_proof empty_tree upgrade_proof x05 None) in
  signed_by x05 cs /\ cs_fork cs = 0.
Proof.
  eapply (proof_upgrade_signed empty_tree upgrade_proof x05 None); [reflexivity|].
  apply accepted_ok. vm_compute. reflexivity.
Defined.

Lemma changeset_offset_panics_witness :
  Tree.byte_offset_in_changeset empty_tree 2
    (Changeset.set_roots_nodes (Changeset.new 3 6 0 [])
       [merkle sample_blocks 1 0; merkle sample_blocks 0 2] [merkle sample_blocks 0 2]) None = Panic.
Proof.
  apply (changeset_offset_panics _ _ 2 (merkle sample_blocks 0 2) (merkle sample_blocks 1 0));
    [reflexivity|reflexivity|lia|reflexivity|reflexivity|reflexivity|].
  vm_compute. congruence.
Defined.

Import CacheModel.

Definition sample_tree : MerkleTree (H:=ed25519) := mkTree _ (merkle_roots sample_blocks) 3 6 0 None ∅ false 0.
Definition sample_cache : option cache := CachedTree.open_cache (Some CacheOptionsBuilder.new) sample_tree.

Lemma cached_node_agrees_witness :
  exists cache1 nodes cache2 r,
    CachedTree.infos_to_nodes sample_cache (Some (node_read [] <$> [])) = Ok (cache1, nodes) /\
    infos_to_nodes (Some (node_read [] <$> [])) = Ok nodes /\
    CachedTree.node sample_tree cache1 (node_at 1 0) nodes false = (cache2, Ok r) /\
    coherent sample_blocks cache1 /\ coherent sample_blocks cache2 /\
    (r = Right (Some (merkle_at sample_blocks 1 0)) \/ Tree.node sample_tree (node_at 1 0) nodes false = Ok r).
Proof.
  apply (cached_node_agrees (ED:=ed25519) sample_blocks sample_tree sample_cache [] [] 1 0).
  - apply open_cache_coherent. split_and!; reflexivity.
  - split; [reflexivity|]. intros d o _. split; intros x Hx; discriminate Hx.
  - intros k Hk. by apply elem_of_nil in Hk.
  - apply (sample_no_blank 3).
  - apply (sample_fits 3).
  - split_and!; vm_compute; congruence.
Defined.

(** The tree cut off to its first two blocks, with the leaf of the third still
    to be deleted. *)
Definition cut_tree : MerkleTree (H:=ed25519) :=
  mkTree _ [merkle_at sample_blocks 1 0] 2 3 1 None {[4 := merkle_at sample_blocks 0 2]} true 2.

Lemma cache_outlives_truncation_witness :
  Tree.node cut_tree 4 ∅ false = Err InvalidOperation /\
  (CachedTree.node cut_tree sample_cache 4 ∅ false).2 = Ok (Right (Some (merkle_at sample_blocks 0 2))).
Proof.
  apply (cache_outlives_truncation (ED:=ed25519) cut_tree sample_cache 4 ∅ (merkle_at sample_blocks 0 2)
    (merkle_at sample_blocks 0 2)).
  - vm_compute. reflexivity.
  - reflexivity.
  - right. split; [reflexivity|]. vm_compute. congruence.
Defined.
