(* ===== verification/StorageTheorems.v ===== *)
(** * Theorems on the storage and the block store *)

From stdpp Require Import base tactics numbers list gmap.
From Stdlib Require Import ZArith Lia Bool.
From S2P Require Import Prelude FlatTree Common Changeset Storage MerkleView CoreOpen CoreView Models Samples.
Open Scope Z_scope.

Section Theorems.
Context `{RA : RandomAccess} {RL : RandomAccessLaws RA}.
Implicit Types (self : Storage) (fs : Store -> list Z).

(** C38: what was flushed is read.  [flush_infos] applies every info to the file
    of its own store, in order, also when the stores alternate, and a later
    [read_infos] answers each instruction from the resulting files. *)
Theorem storage_flush_read self fs infos ins reads :
  holds self fs -> infos_ok fs infos -> Forall instruction_wf ins ->
  Forall2 (fun i info => read_effect (foldl effect fs infos) i = Some info) ins reads ->
  exists self', flush_infos infos self = (self', Ok tt) /\ holds self' (foldl effect fs infos) /\
    read_infos self' ins = Ok reads.
Proof.
  intros Hh Hok Hwf Hr. destruct (flush_infos_ok _ _ _ Hh Hok) as (self' & Hf & Hh').
  exists self'. split_and!; [done..|]. by eapply read_infos_ok.
Qed.

(** Reading past the end of a store.  An instruction that allows a miss gets
    one; any other fails with [InvalidOperation]. *)
Theorem storage_read_past_end self fs (k : Store) o n miss :
  holds self fs -> 0 <= o -> 0 <= n -> zlen (fs k) < o + n ->
  read_info self (mkInstruction k Content o (Some n) miss) =
    if (miss : bool) then Ok (StoreInfo.new_content_miss k o) else Err InvalidOperation.
Proof.
  intros Hh Ho Hn Hz. unfold read_info. cbn [read_infos_to_vec read_loop sii_store].
  rewrite decide_True by done. unfold read_instruction.
  cbn [sii_info_type sii_length sii_index sii_store sii_allow_miss]. rewrite bind_Ok.
  destruct (ra_read_bounds (get_random_access self k) o n Ho Hn) as [e ->]; [by rewrite Hh|].
  by destruct miss.
Qed.

(** Opening with [overwrite] empties all four stores; without it they keep
    their bytes. *)
Theorem storage_open_overwrite (create : Store -> ra) overwrite :
  exists self, Storage_open (fun k => Ok (create k)) overwrite = Ok self /\
    holds self (fun k => if (overwrite : bool) then [] else contents (create k)).
Proof. by apply storage_open_ok. Qed.

(** The block store gives back the blocks of a batch.  After the bytes of a
    batch were flushed at [offset], the instruction for the range of block [k]
    reads exactly that block. *)
Theorem block_store_roundtrip self fs batch offset k bl :
  holds self fs -> 0 <= offset -> 0 <= k < zlen batch ->
  let range := mkByteRange (offset + byte_sum batch k) (zlen (block_at batch k)) in
  exists self' ins info, flush_info (BlockStore.append_batch batch bl offset) self = (self', Ok tt) /\
    BlockStore.read range None = Ok (E:=HypercoreError) (Left ins) /\ read_info self' ins = Ok info /\
    BlockStore.read range (Some info) = Ok (E:=HypercoreError) (Right (block_at batch k)).
Proof.
  intros Hh Ho Hk range. pose proof (byte_sum_nonneg batch k).
  set (w := BlockStore.append_batch batch bl offset).
  destruct (flush_infos_ok self fs [w]) as (self' & Hf & Hh'); [done|by split; [split|]|].
  pose proof (at_offset_write_same (fs Data) offset (concat batch) Ho) as Hat.
  apply (at_offset_block _ _ _ k Ho Hk) in Hat as [Hle Hsl].
  eexists self', _, (StoreInfo.new_content Data _ (block_at batch k)). split_and!; [done..| |done].
  eapply read_info_ok; [done|split; [cbn; lia|intros ? [= <-]; apply zlen_nonneg]|].
  unfold read_effect. cbn [sii_info_type sii_length sii_index sii_store Instruction.new_content default].
  change (foldl effect fs [w] Data) with (file_write (fs Data) offset (BlockStore.extend_all [] batch)).
  rewrite BlockStore.extend_all_concat. subst range. cbn [nbr_index nbr_length app].
  rewrite (proj2 (Z.leb_le _ _)) by done. unfold id. by rewrite Hsl.
Qed.
End Theorems.

(** ** Applications *)

Import MemoryModel.

Definition two_writes : list StoreInfo :=
  [StoreInfo.new_content Data 1 [7; 8]; StoreInfo.new_content Oplog 0 [9]; StoreInfo.new_truncate Data 2].

Lemma storage_flush_read_witness :
  exists self', flush_infos two_writes empty_storage = (self', Ok tt) /\
    holds self' (foldl effect (fun _ => []) two_writes) /\
    read_infos self' [Instruction.new_all_content Data; Instruction.new_content Oplog 0 1] =
      Ok [StoreInfo.new_content Data 0 [0; 7]; StoreInfo.new_content Oplog 0 [9]].
Proof.
  apply storage_flush_read; [exact empty_storage_holds|by repeat split| |by repeat constructor].
  repeat apply Forall_cons_2; [split; cbn; [lia|]; intros; simplify_eq; lia..|apply Forall_nil_2].
Defined.

Lemma storage_read_past_end_witness :
  read_info empty_storage (mkInstruction Data Content 0 (Some 1) false) = Err InvalidOperation.
Proof. by apply (storage_read_past_end empty_storage (fun _ => []) Data 0 1 false empty_storage_holds). Defined.

Lemma block_store_roundtrip_witness :
  exists self' ins info, flush_info (BlockStore.append_batch sample_blocks 6 4) empty_storage = (self', Ok tt) /\
    BlockStore.read (mkByteRange 6 1) None = Ok (E:=HypercoreError) (Left ins) /\ read_info self' ins = Ok info /\
    BlockStore.read (mkByteRange 6 1) (Some info) = Ok (E:=HypercoreError) (Right [3]).
Proof.
  apply (block_store_roundtrip empty_storage (fun _ => []) sample_blocks 4 1 6 empty_storage_holds); [done|].
  change (zlen sample_blocks) with 3. lia.
Defined.
