(* ===== verification/CoreTheorems.v ===== *)
(** * Theorems on the hypercore *)

From stdpp Require Import base tactics numbers list strings gmap.
From Stdlib Require Import ZArith Lia Bool Strings.Byte.
From S2P Require Import Prelude FlatTree Common BitfieldFixed BitfieldDynamic.
From S2P Require Import CompactEncoding Encoding Crypto OplogEntry Changeset Storage.
From S2P Require Import Oplog MerkleTree MerkleView MerkleProof MerkleSound Core CoreOpen CoreView CoreSpec CoreReopen CoreHeader.
From S2P Require Import Models Samples.
Open Scope Z_scope.

Section Theorems.
Context `{FT : FlatTree} {FL : FlatTreeLaws FT} `{CE : CompactEncoding} {CL : CompactEncodingLaws CE}
  `{B2 : Blake2b} {BL : Blake2bLaws B2} `{ED : Ed25519} {EL : Ed25519Laws ED} `{CR : Crc32}
  {CRL : Crc32Laws CR} `{RA : RandomAccess} {RL : RandomAccessLaws RA}
  `{IO : IntMapOrder} {IOL : IntMapOrderLaws IO}.
Implicit Types (blocks batch : list (list Z)) (s : Hypercore) (l : log).

(** The log a new core starts with. *)
Definition new_log (generated : SigningKey) (options : HypercoreOptions) : log :=
  mkLog [] (match kp_secret (options_key_pair generated options) with Some _ => true | None => false end) 0.

(** C1: a hypercore refines a log.  A core created on empty stores, given any
    sequence of [append_batch], [get], [has], [clear], [info] and
    [make_read_only] with sizes in range, gives exactly the replies of the same
    sequence on the log of [CoreSpec], and stands for the final log.  The log is a
    list of blocks that are present or cleared, with the length of the data file:
    its replies include the two errors in which the code differs from a plain
    list, [clear] on a range behind the last block and [get] of an empty block
    behind the end of the data file. *)
Theorem core_refines_log generated options (st : Storage) ops :
  holds st (fun _ => []) -> opt_open options = false -> ops_ok (new_log generated options) ops -> zlen ops < 2 ^ 30 ->
  exists s st' s', Core.new generated options st = (st', Ok s) /\
    core_run s ops = (s', (log_run (new_log generated options) ops).2) /\
    log_within (3 + failed_clears (new_log generated options) ops) true (log_run (new_log generated options) ops).1 s'.
Proof.
  intros Hh Ho Hok Hn. destruct (new_stands_for generated options st Hh Ho) as (s & st' & Hnew & Hst).
  destruct (core_run_ok ops _ s Hst Hok Hn) as (s' & Hrun & Hst'). by exists s, st', s'.
Qed.

(** C8: away from two corners a hypercore is a plain list.  As long as every
    range that is cleared starts inside the log and has no empty block present
    behind it, [append_batch], [get], [has], [clear], [info] and
    [make_read_only] on a new core reply what a list of blocks, each of them
    present or cleared, replies: nothing fails but appending without the key. *)
Theorem core_plain_log generated options (st : Storage) ops s st' :
  holds st (fun _ => []) -> opt_open options = false -> ops_ok (new_log generated options) ops -> zlen ops < 2 ^ 30 ->
  ops_plain (plain_of (new_log generated options)) ops -> Core.new generated options st = (st', Ok s) ->
  exists s', core_run s ops = (s', (plain_run (plain_of (new_log generated options)) ops).2).
Proof.
  intros Hh Ho Hok Hn Hp Hnew. destruct (new_stands_for generated options st Hh Ho) as (s0 & st0 & Hnew' & Hst).
  rewrite Hnew in Hnew'. injection Hnew' as <- <-. destruct (core_run_ok ops _ s Hst Hok Hn) as (s' & Hrun & _).
  assert (log_full (new_log generated options)) as Hfull by (split; [done|]; intros k Hk; rewrite log_has_bound by (exact Hk); done).
  exists s'. by rewrite Hrun, (plain_run_ok ops _ Hfull Hp).
Qed.

(** C4: a hypercore is durable.  After any sequence of operations in range on a
    new core, clears that fail included, and with entries in the oplog that no flush has written to the tree
    and bitfield stores yet, opening the stores again succeeds, changes none of
    them, and gives a core with the length, byte length, key pair and fork of the
    running one whose [get] and [has] answer as the log of [CoreSpec] does.  The
    bound is the one above which the reopened bitfield is misread. *)
Theorem reopen_recovers_log generated options (st : Storage) ops s st' :
  holds st (fun _ => []) -> opt_open options = false -> ops_ok (new_log generated options) ops ->
  zlen ops < 2 ^ 30 -> zlen (log_entries (log_run (new_log generated options) ops).1) <= 8192 ->
  Core.new generated options st = (st', Ok s) ->
  let s' := (core_run s ops).1 in
  let l := (log_run (new_log generated options) ops).1 in
  exists s2, reopen generated (hc_storage s') = (hc_storage s', Ok s2) /\
    hc_key_pair s2 = hc_key_pair s' /\
    info_length (Core.info s2) = zlen (log_entries l) /\
    info_byte_length (Core.info s2) = zlen (concat (log_blocks l)) /\
    info_fork (Core.info s2) = info_fork (Core.info s') /\
    info_writeable (Core.info s2) = log_writeable l /\
    forall i, 0 <= i < 2 ^ 64 ->
      (core_exec (OpGet i) s2).2 = (log_exec l (OpGet i)).2 /\
      (core_exec (OpHas i) s2).2 = (log_exec l (OpHas i)).2.
Proof.
  intros Hh Ho Hok Hops Hn Hnew s' l. destruct (new_stands_for generated options st Hh Ho) as (s0 & st0 & Hnew' & Hst).
  rewrite Hnew in Hnew'. injection Hnew' as <- <-.
  destruct (core_run_ok ops _ s Hst Hok Hops) as (s1 & Hrun & Hst1). subst s'. rewrite Hrun. cbn [fst]. fold l in Hst1, Hn.
  destruct (reopen_state generated _ true l s1 (hc_storage s1) Hst1 Hn ltac:(done)) as (s2 & Hre & Hst2 & _ & Hk & Hf).
  exists s2. pose proof Hst2 as ((fs & Hl & _) & _ & _ & Hw). pose proof (ci_tree _ _ _ Hl) as ((_ & Hlen & Hb) & _).
  cbn [Core.info info_length info_byte_length info_fork info_writeable]. rewrite Hlen, zlen_blocks.
  split_and!; try done. intros i Hi. split.
  - destruct (exec_get 3 false l s2 i Hst2 Hi) as (s3 & -> & _). done.
  - by rewrite (exec_has 3 false l s2 i Hst2 Hi).
Qed.

(** C3: reopening goes on with the log.  A new core runs sequences of operations
    in range and is dropped and opened again after each of them.  If no [clear]
    fails, every reopen succeeds, and all the replies together are those of one
    log that was never closed; of the replies to [info], the contiguous length
    apart.  A failed [clear] is excluded because it can destroy the log of a
    reopened core ([failed_clear_loses_block]). *)
Theorem sessions_refine_log generated options (st : Storage) sessions :
  holds st (fun _ => []) -> opt_open options = false -> ops_ok (new_log generated options) (concat sessions) ->
  failed_clears (new_log generated options) (concat sessions) = 0 ->
  zlen (log_entries (log_run (new_log generated options) (concat sessions)).1) <= 8192 ->
  exists s st' s' rs, Core.new generated options st = (st', Ok s) /\
    sessions_run generated s sessions = Ok (s', rs) /\
    forget_hint <$> rs = forget_hint <$> (log_run (new_log generated options) (concat sessions)).2.
Proof.
  intros Hh Ho Hok Hf Hn. destruct (new_stands_for generated options st Hh Ho) as (s & st' & Hnew & Hst).
  destruct (sessions_ok generated sessions true _ s Hst Hok Hf Hn) as (s' & rs & Hrun & Hrs & _).
  by exists s, st', s', rs.
Qed.

(** C19: [append_batch] adds the blocks at the end of the log.  It reports the
    new length and byte length, announces an upgrade and the new range, and
    afterwards the new blocks, and all blocks that were there, are read back
    with no change to the core. *)
Theorem append_batch_get blocks batch fs s sk :
  core_inv blocks fs s -> kp_secret (hc_key_pair s) = Some sk ->
  log_fits (blocks ++ batch) -> no_blank (blocks ++ batch) -> zlen batch <= 2 ^ 18 -> batch <> [] ->
  exists s' fs', Core.append_batch batch s =
      (s', Ok (mkAppendOutcome (zlen (blocks ++ batch)) (zlen (concat (blocks ++ batch))))) /\
    core_inv (blocks ++ batch) fs' s' /\
    hc_events s' = hc_events s ++ [EventDataUpgrade; EventHave (zlen blocks) (zlen batch) false] /\
    (forall k, 0 <= k < zlen batch ->
       Core.get (zlen blocks + k) s' = (s', Ok (Some (block_at batch k)))) /\
    (forall k, 0 <= k < zlen blocks -> dbit (hc_bitfield s) k = true ->
       Core.get k s' = (s', Ok (Some (block_at blocks k)))).
Proof.
  intros Hinv Hsk Hfit Hnb Hsz Hne.
  destruct (append_batch_ok blocks batch fs s sk Hinv Hsk Hfit Hnb Hsz)
    as (s' & r & Hrun & -> & [fs' Hinv'] & _ & Hev & _ & Hbits).
  exists s', fs'. pose proof (zlen_nonneg blocks).
  rewrite Hrun. split_and!; [done..|by rewrite Hev; destruct batch| |]; intros k Hk.
  - rewrite (get_present _ _ _ _ (core_ok_read _ _ _ _ Hinv')); [|lia|].
    + rewrite block_at_app_r by lia. by replace (zlen blocks + k - zlen blocks) with k by lia.
    + rewrite Hbits, zlen_app by lia. by rewrite decide_True by lia.
  - intros Hd. rewrite (get_present _ _ _ _ (core_ok_read _ _ _ _ Hinv')); [|lia|].
    + by rewrite block_at_app_l.
    + rewrite Hbits by lia. by case_decide.
Qed.


(** a core without the secret key cannot be written: [append_batch] fails
    with [NotWritable] and neither the stores nor the state change. *)
Theorem append_read_only batch s :
  kp_secret (hc_key_pair s) = None -> Core.append_batch batch s = (s, Err NotWritable).
Proof. intros Hk. unfold Core.append_batch, mbind, stateR_bind, gets. by rewrite Hk. Qed.

(** C21: [make_read_only] erases the secret key.  Afterwards neither the key
    pair in memory nor the header holds a secret key, and the oplog file is
    exactly two padded copies of that header: no older header or entry with the
    key is left.  The log itself is unchanged. *)
Theorem make_read_only_erases_key blocks fs s sk :
  core_inv blocks fs s -> kp_secret (hc_key_pair s) = Some sk ->
  exists s' fs' b0 b1, Core.make_read_only s = (s', Ok true) /\ core_inv blocks fs' s' /\
    kp_secret (hc_key_pair s') = None /\ kp_public (hc_key_pair s') = kp_public (hc_key_pair s) /\
    kp_secret (hd_key_pair (hc_header s')) = None /\
    fs' Oplog = header_buffer b0 true (hc_header s') ++ header_buffer b1 true (hc_header s') /\
    forall k, 0 <= k -> dbit (hc_bitfield s') k = dbit (hc_bitfield s) k.
Proof.
  intros Hinv Hsk. destruct (make_read_only_ok _ _ _ _ Hinv Hsk)
    as (s' & r & Hrun & -> & Hn & Hp & fs' & b0 & b1 & Hinv' & Hf & Hh & Hd).
  by exists s', fs', b0, b1.
Qed.

(** C28: the oplog stays short.  After any sequence of operations in range on a
    new core, its oplog file is well-formed, and the entries that are not in the
    bitfield and tree stores yet are at most three, and one for each [clear] that
    failed: a failed [clear] has logged its range but skips the flush. *)
Theorem pending_entries_bounded generated options (st : Storage) ops s st' :
  holds st (fun _ => []) -> opt_open options = false -> ops_ok (new_log generated options) ops -> zlen ops < 2 ^ 30 ->
  Core.new generated options st = (st', Ok s) ->
  exists fs h es, holds (hc_storage (core_run s ops).1) fs /\
    oplog_file (hc_oplog (core_run s ops).1) h es (fs Oplog) /\
    zlen es <= 3 + failed_clears (new_log generated options) ops.
Proof.
  intros Hh Ho Hok Hn Hnew. destruct (new_stands_for generated options st Hh Ho) as (s0 & st0 & Hnew' & Hst).
  rewrite Hnew in Hnew'. injection Hnew' as <- <-.
  destruct (core_run_ok ops (new_log generated options) s Hst Hok Hn) as (s' & -> & ((fs & Hl & Hs & _) & _)). cbn [fst].
  destruct (Hs eq_refl) as (h & es & Hf). destruct (ci_oplog _ _ _ _ Hl) as (_ & _ & Hb).
  pose proof (ci_skip _ _ _ _ Hl). pose proof Hf as (_ & _ & _ & _ & _ & Hlen & _).
  exists fs, h, es. split_and!; [apply Hl|done|]. lia.
Qed.

(** C18: the header always fits its slot.  A new core appends, gets, clears
    whatever range, is made read-only and is given whatever proofs, in any order,
    and each call returns, fails or panics.  The header it then has, with the
    eight bytes of the leader, is at most the 4096 bytes the oplog file has for
    it, so that writing it never reaches the other slot or the entries. *)
Theorem header_fits_slot generated options (st : Storage) steps s st' :
  holds st (fun _ => []) -> opt_open options = false -> Forall step_typed steps ->
  Core.new generated options st = (st', Ok s) ->
  8 + zlen (header_bytes (hc_header (foldl core_after s steps))) <= HEADER_SIZE.
Proof.
  intros Hh Ho Hok Hnew. destruct (new_stands_for generated options st Hh Ho) as (s0 & st0 & Hnew' & Hst).
  rewrite Hnew in Hnew'. injection Hnew' as <- <-. destruct Hst as ((fs & Hl & _) & _).
  assert (head_ok s) as Hs.
  { split; [apply (ci_header _ _ _ _ Hl)|]. destruct (ci_tree _ _ _ Hl) as ((_ & -> & _) & _). by split. }
  apply header_small_fits, (core_steps_ok steps s Hok Hs).
Qed.

(** C31: the contiguous length follows the bitfield.  When the bits of a range
    are set, or are dropped in a range that reaches the end of the contiguous
    blocks, [update_contiguous_length] moves the contiguous length to the first
    missing block again. *)
Theorem contiguous_length_follows header db db' u :
  dyn_wf db' -> 0 <= bu_start u -> 0 <= bu_length u -> bu_start u + bu_length u < 2 ^ 63 ->
  (forall k, 2 ^ 63 <= k -> dbit db' k = false) ->
  (forall k, 0 <= k -> dbit db' k = if decide (bu_start u <= k < bu_start u + bu_length u)
                                   then negb (bu_drop u) else dbit db k) ->
  contiguous db (hh_contiguous_length (hd_hints header)) ->
  (bu_drop u = true -> hh_contiguous_length (hd_hints header) <= bu_start u + bu_length u) ->
  exists c, Core.update_contiguous_length header db' u = Ok (set_contiguous_length c header) /\
    contiguous db' c.
Proof. apply update_contiguous_ok. Qed.

(** A drop that ends inside the contiguous blocks is not noticed: the
    header stays as it is although a block before its contiguous length is
    missing now. *)
Theorem contiguous_drop_stale header db db' u :
  bu_drop u = true -> 0 <= bu_start u -> 0 < bu_length u ->
  bu_start u + bu_length u < hh_contiguous_length (hd_hints header) ->
  hh_contiguous_length (hd_hints header) < 2 ^ 64 ->
  (forall k, 0 <= k -> dbit db' k = if decide (bu_start u <= k < bu_start u + bu_length u)
                                   then false else dbit db k) ->
  Core.update_contiguous_length header db' u = Ok header /\
  ~ contiguous db' (hh_contiguous_length (hd_hints header)).
Proof.
  intros Hu Hs Hl Hlt Hc Hbits. split.
  - unfold Core.update_contiguous_length. rewrite checked_add_Ok, bind_Ok, Hu by lia.
    rewrite (proj2 (Z.leb_gt _ _)) by lia. cbn [andb]. by rewrite bind_Ok, Z.eqb_refl.
  - intros (_ & Hset & _). specialize (Hset (bu_start u)). rewrite Hbits, decide_True in Hset by lia.
    discriminate Hset. lia.
Qed.

(** [clear] behind the end of the log fails too late.  If the log is empty
    or its last block is there, the call fails with [BadArgument], but the
    cleared range is already an entry of the oplog. *)
Theorem clear_past_end blocks fs s start end_ :
  core_inv blocks fs s -> zlen blocks <= start < end_ -> end_ < 2 ^ 63 ->
  blocks = [] \/ dbit (hc_bitfield s) (zlen blocks - 1) = true ->
  exists s' fs', Core.clear start end_ s = (s', Err BadArgument) /\ core_live 4 blocks fs' s' /\
    op_entries_length (hc_oplog s') = op_entries_length (hc_oplog s) + 1.
Proof.
  intros [Hl _ Hs _] Hr He Hlast. pose proof (zlen_nonneg blocks).
  destruct (clear_log_ok 3 blocks fs s start end_ Hl) as (s1 & [] & Hrun1 & fs1 & Hmid & Hstep & _ & _ & _ & _ & Hn & Hb1); [lia..|].
  destruct (clear_data_ok 3 blocks fs1 s1 start end_ Hmid) as (hs & he & [Hlow Hbef Hfree _ _] & Hout);
    [lia|lia|intros k Hk; rewrite Hb1 by lia; by rewrite decide_True|].
  assert (hs = zlen blocks) as ->.
  { destruct Hlast as [->|Hlast].
    - change (zlen []) with 0. destruct (decide (hs = 0)); [done|]. specialize (Hbef ltac:(lia)).
      rewrite (core_bits_below _ _ _ _ (hs - 1) (proj1 Hmid)) in Hbef by (change (zlen []) with 0; lia). done.
    - destruct (Z.lt_trichotomy hs (zlen blocks)) as [Hlt|[?|Hgt]]; [|done|].
      + specialize (Hfree (zlen blocks - 1) ltac:(lia)). rewrite Hb1, decide_False in Hfree by lia. congruence.
      + specialize (Hbef ltac:(lia)). rewrite (core_bits_below _ _ _ _ (hs - 1) (proj1 Hmid)) in Hbef by lia. done. }
  unfold clear_error in Hout. rewrite Z.eqb_refl in Hout.
  exists s1, fs1. destruct (Hstep Hs) as [Hdur Hs1]. split_and!; [|constructor; [apply Hmid|done..]|done].
  unfold Core.clear. rewrite (proj2 (Z.leb_gt _ _)), (run_bind _ _ _ _ _ Hrun1) by lia.
  unfold mbind, stateR_bind. by rewrite Hout.
Qed.

(** C17: only signed trees are accepted.  When [verify_and_apply_proof] reports
    that it applied a proof, then either the roots, length, fork and signature of
    the tree are what they were, or the proof had an upgrade and they are those
    of a changeset on the same fork whose hash the core's public key signed. *)
Theorem apply_proof_signed proof s s' :
  Core.verify_and_apply_proof proof s = (s', Ok true) ->
  tree_head (hc_tree s') = tree_head (hc_tree s) \/
  exists cs, proof_upgrade proof <> None /\ signed_by (kp_public (hc_key_pair s)) cs /\
    cs_fork cs = mt_fork (hc_tree s) /\
    tree_head (hc_tree s') = (cs_roots cs, cs_length cs, cs_fork cs, cs_signature cs).
Proof.
  intros (infos & cs & t & Hf & Hv & _ & Hc & ->)%apply_proof_inv. rewrite (commit_head _ _ _ Hc).
  destruct (proof_upgrade proof) as [u|] eqn:Hu.
  - destruct (verify_proof_upgrade_signed _ _ _ _ _ _ Hu Hv) as [Hs Hfork].
    destruct (cs_upgraded cs); [right|by left]. exists cs. split_and!; [done|done|congruence|done].
  - rewrite (verify_proof_not_upgraded _ _ _ _ _ Hu Hv). by left.
Qed.

(** a proof for another fork is refused without a change:
    [verify_and_apply_proof] returns [false]. *)
Theorem apply_proof_other_fork proof s :
  proof_fork proof <> mt_fork (hc_tree s) -> Core.verify_and_apply_proof proof s = (s, Ok false).
Proof.
  intros Hf. unfold Core.verify_and_apply_proof, mbind, stateR_bind, gets.
  by rewrite (proj2 (Z.eqb_neq _ _) Hf).
Qed.

(** C39: opening needs a log and no key.  With [open] set, a key pair among the
    options is refused with [BadArgument], and stores without a log give
    [EmptyStorage]; the stores are left as they are. *)
Theorem new_open_errors generated options (st : Storage) :
  holds st (fun _ => []) -> opt_open options = true ->
  Core.new generated options st =
    (st, Err (match opt_key_pair options with Some _ => BadArgument | None => EmptyStorage Oplog end)).
Proof.
  intros Hh Ho. unfold Core.new, Core.open_key_pair, mbind, stateR_bind, lift. rewrite Ho.
  destruct (opt_key_pair options); [done|]. unfold Core.open_oplog, mbind, stateR_bind, lift, gets, id.
  change (Oplog.open None None) with
    (Ok (Left (Instruction.new_all_content Oplog)) : result (Either StoreInfoInstruction OplogOpenOutcome)).
  cbn beta iota. rewrite (read_info_ok st (fun _ => []) _ (StoreInfo.new_content Oplog 0 []));
    [|done|by split; cbn; [lia|]|done].
  by rewrite open_empty_oplog.
Qed.
End Theorems.

(** ** Applications *)

Import FlatTreeModel EncodingModel CryptoModel MemoryModel IntMapModel.

Definition sample_ops : list core_op :=
  [OpAppendBatch sample_blocks; OpGet 1; OpClear 1 2; OpGet 1; OpInfo; OpClear 3 4; OpMakeReadOnly; OpGet 2;
   OpAppendBatch []].

Lemma sample_ops_ok : ops_ok (new_log (ED:=ed25519) x05 HypercoreOptions_new) sample_ops.
Proof.
  split; [split_and!; [apply (sample_fits 3)|apply (sample_no_blank 3)|vm_compute; congruence]|].
  split; [cbn; lia|]. split; [cbn; lia|]. split; [cbn; lia|]. split; [done|]. split; [cbn; lia|]. split; [done|].
  split; [cbn; lia|]. split; [|done]. split_and!; [apply (sample_fits 3)|apply (sample_no_blank 3)|vm_compute; congruence].
Qed.

Lemma core_refines_log_witness :
  exists s st' s', Core.new (ED:=ed25519) x05 HypercoreOptions_new empty_storage = (st', Ok s) /\
    core_run s sample_ops = (s',
      [Ok (ReplyAppend (mkAppendOutcome 3 6)); Ok (ReplyGet (Some [3])); Ok ReplyClear;
       Ok (ReplyGet None); Ok (ReplyInfo 3 6 1 true); Err BadArgument; Ok (ReplyMakeReadOnly true);
       Ok (ReplyGet (Some [4; 5; 6])); Err NotWritable]) /\
    log_within 4 true (mkLog [([1; 2], true); ([3], false); ([4; 5; 6], true)] false 6) s'.
Proof.
  exact (core_refines_log (ED:=ed25519) x05 HypercoreOptions_new empty_storage sample_ops
    empty_storage_holds eq_refl sample_ops_ok eq_refl).
Defined.

Lemma reopen_recovers_log_witness :
  exists s2, reopen x05 (hc_storage (core_run new_core sample_ops).1) =
      (hc_storage (core_run new_core sample_ops).1, Ok s2) /\
    hc_key_pair s2 = hc_key_pair (core_run new_core sample_ops).1 /\
    info_length (Core.info s2) = 3 /\ info_byte_length (Core.info s2) = 6 /\
    info_fork (Core.info s2) = info_fork (Core.info (core_run new_core sample_ops).1) /\
    info_writeable (Core.info s2) = false /\
    forall i, 0 <= i < 2 ^ 64 ->
      (core_exec (OpGet i) s2).2 =
        (log_exec (mkLog [([1; 2], true); ([3], false); ([4; 5; 6], true)] false 6) (OpGet i)).2 /\
      (core_exec (OpHas i) s2).2 =
        (log_exec (mkLog [([1; 2], true); ([3], false); ([4; 5; 6], true)] false 6) (OpHas i)).2.
Proof.
  apply (reopen_recovers_log (ED:=ed25519) x05 HypercoreOptions_new empty_storage sample_ops new_core
    (hc_storage new_core) empty_storage_holds eq_refl sample_ops_ok eq_refl).
  - change (3 <= 8192). lia.
  - apply new_core_ok.
Defined.

Definition sample_sessions : list (list core_op) :=
  [[OpAppendBatch sample_blocks; OpGet 1]; [OpClear 1 2; OpGet 1; OpInfo]; [OpMakeReadOnly; OpGet 2; OpAppendBatch []]].

Lemma sample_sessions_ok : ops_ok (new_log (ED:=ed25519) x05 HypercoreOptions_new) (concat sample_sessions).
Proof.
  split; [split_and!; [apply (sample_fits 3)|apply (sample_no_blank 3)|vm_compute; congruence]|].
  split; [cbn; lia|]. split; [cbn; lia|]. split; [cbn; lia|]. split; [done|]. split; [done|].
  split; [cbn; lia|]. split; [|done]. split_and!; [apply (sample_fits 3)|apply (sample_no_blank 3)|vm_compute; congruence].
Qed.

Lemma sessions_refine_log_witness :
  exists s st' s' rs, Core.new (ED:=ed25519) x05 HypercoreOptions_new empty_storage = (st', Ok s) /\
    sessions_run x05 s sample_sessions = Ok (s', rs) /\
    forget_hint <$> rs =
      [Ok (ReplyAppend (mkAppendOutcome 3 6)); Ok (ReplyGet (Some [3])); Ok ReplyClear;
       Ok (ReplyGet None); Ok (ReplyInfo 3 6 0 true); Ok (ReplyMakeReadOnly true);
       Ok (ReplyGet (Some [4; 5; 6])); Err NotWritable].
Proof.
  apply (sessions_refine_log (ED:=ed25519) x05 HypercoreOptions_new empty_storage sample_sessions).
  - exact empty_storage_holds.
  - reflexivity.
  - exact sample_sessions_ok.
  - reflexivity.
  - change (3 <= 8192). lia.
Defined.

Lemma append_batch_get_witness :
  exists s' fs', Core.append_batch sample_blocks new_core = (s', Ok (mkAppendOutcome 3 6)) /\
    core_inv sample_blocks fs' s' /\
    hc_events s' = hc_events new_core ++ [EventDataUpgrade; EventHave 0 3 false] /\
    (forall k, 0 <= k < 3 -> Core.get (0 + k) s' = (s', Ok (Some (block_at sample_blocks k)))) /\
    (forall k, 0 <= k < 0 -> dbit (hc_bitfield new_core) k = true ->
       Core.get k s' = (s', Ok (Some (block_at [] k)))).
Proof.
  destruct new_core_ok as (_ & Hk & [fs Hinv]).
  refine (append_batch_get (ED:=ed25519) [] sample_blocks fs new_core x05 Hinv Hk (sample_fits 3)
    (sample_no_blank 3) _ _); vm_compute; congruence.
Defined.


Lemma append_read_only_witness :
  Core.append_batch [[7]] (set_key_pair (without_secret (hc_key_pair new_core)) new_core) =
    (set_key_pair (without_secret (hc_key_pair new_core)) new_core, Err NotWritable).
Proof. apply append_read_only. reflexivity. Defined.

Lemma make_read_only_erases_key_witness :
  exists s' fs' b0 b1, Core.make_read_only sample_core = (s', Ok true) /\ core_inv sample_blocks fs' s' /\
    kp_secret (hc_key_pair s') = None /\ kp_public (hc_key_pair s') = kp_public (hc_key_pair sample_core) /\
    kp_secret (hd_key_pair (hc_header s')) = None /\
    fs' Oplog = header_buffer b0 true (hc_header s') ++ header_buffer b1 true (hc_header s') /\
    forall k, 0 <= k -> dbit (hc_bitfield s') k = dbit (hc_bitfield sample_core) k.
Proof.
  destruct sample_core_ok as (Hk & [fs Hinv] & _).
  exact (make_read_only_erases_key sample_blocks fs sample_core x05 Hinv Hk).
Defined.

(** All of the sample but the clear behind the end. *)
Definition plain_ops : list core_op :=
  [OpAppendBatch sample_blocks; OpGet 1; OpClear 1 2; OpGet 1; OpInfo; OpClear 0 9; OpMakeReadOnly; OpGet 2; OpAppendBatch []].

Lemma core_plain_log_witness :
  exists s', core_run new_core plain_ops = (s',
    [Ok (ReplyAppend (mkAppendOutcome 3 6)); Ok (ReplyGet (Some [3])); Ok ReplyClear; Ok (ReplyGet None);
     Ok (ReplyInfo 3 6 1 true); Ok ReplyClear; Ok (ReplyMakeReadOnly true); Ok (ReplyGet None); Err NotWritable]).
Proof.
  destruct new_core_ok as (Hnew & _).
  apply (core_plain_log (ED:=ed25519) x05 HypercoreOptions_new empty_storage plain_ops new_core (hc_storage new_core)
    empty_storage_holds eq_refl); [|reflexivity| |exact Hnew].
  - split; [split_and!; [apply (sample_fits 3)|apply (sample_no_blank 3)|vm_compute; congruence]|].
    split; [cbn; lia|]. split; [cbn; lia|]. split; [cbn; lia|]. split; [done|]. split; [cbn; lia|]. split; [done|].
    split; [cbn; lia|]. split; [|done]. split_and!; [apply (sample_fits 3)|apply (sample_no_blank 3)|vm_compute; congruence].
  - assert (forall es : list (list Z * bool), forallb (fun e => negb (is_empty e.1)) es = true ->
      forall (k : nat) b, es !! k = Some (b, true) -> b <> []) as Hfull.
    { intros es Hes k b Hk ->. rewrite forallb_forall in Hes. specialize (Hes ([], true)). rewrite <-list_elem_of_In in Hes.
      discriminate Hes. by eapply list_elem_of_lookup_2. }
    split; [done|]. split; [cbn; lia|].
    split; [split; [lia|]; intros _; split; [vm_compute; congruence|]; intros k b _; by apply Hfull|].
    split; [cbn; lia|]. split; [done|].
    split; [split; [lia|]; intros _; split; [vm_compute; congruence|]; intros k b _; by apply Hfull|].
    split; [done|]. split; [cbn; lia|]. by split.
Defined.

Lemma pending_entries_bounded_witness :
  exists fs h es, holds (hc_storage (core_run new_core sample_ops).1) fs /\
    oplog_file (hc_oplog (core_run new_core sample_ops).1) h es (fs Oplog) /\ zlen es <= 4.
Proof.
  destruct new_core_ok as (Hnew & _).
  exact (pending_entries_bounded (ED:=ed25519) x05 HypercoreOptions_new empty_storage sample_ops new_core _
    empty_storage_holds eq_refl sample_ops_ok eq_refl Hnew).
Defined.

(** Among them a clear behind the end, which fails, and a proof. *)
Definition sample_steps : list core_step :=
  [StepApply upgrade_proof; StepOp (OpAppendBatch sample_blocks); StepOp (OpClear 7 9); StepOp (OpClear 0 2);
   StepApply upgrade_proof; StepOp OpMakeReadOnly; StepOp (OpGet 2)].

Lemma header_fits_slot_witness :
  8 + zlen (header_bytes (hc_header (foldl core_after new_core sample_steps))) <= HEADER_SIZE.
Proof.
  destruct new_core_ok as (Hnew & _).
  apply (header_fits_slot (ED:=ed25519) x05 HypercoreOptions_new empty_storage sample_steps new_core (hc_storage new_core)
    empty_storage_holds eq_refl); [|exact Hnew].
  repeat (apply Forall_cons; split); [done|done|split; lia|split; lia|done|done|done|apply Forall_nil_2].
Defined.

Definition sample_bitfield : DynamicBitfield :=
  match Dynamic.set_range (mkDynamic ∅ 0 []) 0 3 true with Ok db => db | _ => mkDynamic ∅ 0 [] end.

(** The bitfield after the first three bits were set. *)
Lemma sample_bitfield_ok :
  dyn_wf sample_bitfield /\
  forall k, 0 <= k -> dbit sample_bitfield k = if decide (0 <= k < 3) then true else false.
Proof.
  destruct (dyn_set_range_Ok (mkDynamic ∅ 0 []) 0 3 true) as (db & Hdb & Hwf & Hbits);
    [apply dyn_empty_wf|lia..|].
  unfold sample_bitfield. rewrite Hdb. split; [done|]. intros k Hk. by rewrite Hbits.
Qed.

Definition empty_header : Header (H:=ed25519) := Header_new (mkKeypair _ x05 None).

Lemma contiguous_length_follows_witness :
  exists c, Core.update_contiguous_length empty_header sample_bitfield (mkBitfieldUpdate false 0 3) =
      Ok (set_contiguous_length c empty_header) /\ contiguous sample_bitfield c.
Proof.
  destruct sample_bitfield_ok as [Hwf Hbits].
  refine (contiguous_length_follows empty_header (mkDynamic ∅ 0 []) sample_bitfield
    (mkBitfieldUpdate false 0 3) Hwf _ _ _ _ _ _ _); cbn [bu_start bu_length bu_drop]; [lia..| | | |done].
  - intros k Hk. rewrite Hbits by lia. by rewrite decide_False by lia.
  - exact Hbits.
  - split; [cbn; lia|]. split; [cbn; lia|done].
Defined.

Definition dropped_bitfield : DynamicBitfield :=
  match Dynamic.set_range sample_bitfield 0 1 false with Ok db => db | _ => sample_bitfield end.

Lemma contiguous_drop_stale_witness :
  let header := set_contiguous_length 3 empty_header in
  Core.update_contiguous_length header dropped_bitfield (mkBitfieldUpdate true 0 1) = Ok header /\
  ~ contiguous dropped_bitfield 3.
Proof.
  destruct sample_bitfield_ok as [Hwf _].
  refine (contiguous_drop_stale (set_contiguous_length 3 empty_header) sample_bitfield dropped_bitfield
    (mkBitfieldUpdate true 0 1) eq_refl _ _ _ _ _); [cbn; lia..|].
  destruct (dyn_set_range_Ok sample_bitfield 0 1 false Hwf) as (db & Hdb & _ & Hb); [lia..|].
  unfold dropped_bitfield. rewrite Hdb. exact Hb.
Defined.

Lemma clear_past_end_witness :
  exists s' fs', Core.clear 3 4 sample_core = (s', Err BadArgument) /\ core_live 4 sample_blocks fs' s' /\
    op_entries_length (hc_oplog s') = op_entries_length (hc_oplog sample_core) + 1.
Proof.
  destruct sample_core_ok as (_ & [fs Hinv] & Hd).
  refine (clear_past_end sample_blocks fs sample_core 3 4 Hinv _ _ (or_intror _)); [|lia|].
  - change (zlen sample_blocks) with 3. lia.
  - apply Hd. change (zlen sample_blocks) with 3. lia.
Defined.

Definition applied (r : the_core * result bool) : bool :=
  match r with (_, Ok b) => b | _ => false end.

Lemma applied_ok r : applied r = true -> r = (r.1, Ok true).
Proof. by destruct r as [s [[]| | |]]. Qed.

Lemma apply_proof_signed_witness :
  let s' := (Core.verify_and_apply_proof upgrade_proof new_core).1 in
  tree_head (hc_tree s') = tree_head (hc_tree new_core) \/
  exists cs, proof_upgrade upgrade_proof <> None /\ signed_by (kp_public (hc_key_pair new_core)) cs /\
    cs_fork cs = mt_fork (hc_tree new_core) /\
    tree_head (hc_tree s') = (cs_roots cs, cs_length cs, cs_fork cs, cs_signature cs).
Proof.
  apply (apply_proof_signed upgrade_proof new_core). apply applied_ok. vm_compute. reflexivity.
Defined.

Lemma apply_proof_other_fork_witness :
  Core.verify_and_apply_proof (mkProof 1 None None None None) new_core = (new_core, Ok false).
Proof. apply apply_proof_other_fork. vm_compute. congruence. Defined.

Lemma new_open_errors_witness :
  Core.new (ED:=ed25519) x05 (mkOptions None true) empty_storage = (empty_storage, Err (EmptyStorage Oplog)).
Proof.
  exact (new_open_errors (ED:=ed25519) x05 (mkOptions None true) empty_storage empty_storage_holds eq_refl).
Defined.

(** A seek that skips a stored root.  Two blocks were flushed and a third was
    not; a peer with two blocks asks for the third and seeks byte 1, which is in
    the first block.  The root of the two blocks has to be read, the search goes on
    behind it with the same number of bytes, and ends at the third block: its leaf
    is sent as the answer to the seek.  Once all is flushed the answer is
    another. *)
Definition seek_core : the_core := (Core.append_batch [[4]] (Core.append_batch two_blocks new_core).1).1.
Definition seek_request : coreM (RA:=memory) (ED:=ed25519) (option Proof_) :=
  Core.create_proof None None (Some (mkRequestSeek 1)) (Some (mkRequestUpgrade 2 1)).

Theorem seek_skips_stored_root :
  exists p p', (seek_request seek_core).2 = Ok (Some p) /\
    (seek_request (Core.flush_bitfield_and_tree_and_oplog false seek_core).1).2 = Ok (Some p') /\
    (fun seek => node_index <$> ds_nodes seek) <$> proof_seek p = Some [4] /\ proof_seek p' = None.
Proof. eexists _, _. split; [vm_compute; reflexivity|]. split; [vm_compute; reflexivity|]. by split. Qed.

(** A failed [clear] on a reopened core loses a block.  The second block is only
    in the oplog when the core is opened again; the counters of the reopened
    oplog start at zero, so that the entry of a [clear] goes over the entry of
    the block.  A [clear] that succeeds is followed by a flush, one that fails
    is not: after the next reopen the log has one block. *)
Definition lost_core : the_core := (Core.append_batch [[2]] (Core.append_batch [[1]] new_core).1).1.
Definition lost_reopened : the_core := core_of (reopen x05 (hc_storage lost_core)).
Definition lost_cleared : the_core := (Core.clear 2 3 lost_reopened).1.

Theorem failed_clear_loses_block :
  info_length (Core.info lost_reopened) = 2 /\ (Core.get 1 lost_reopened).2 = Ok (Some [2]) /\
  (Core.clear 2 3 lost_reopened).2 = Err BadArgument /\ info_length (Core.info lost_cleared) = 2 /\
  info_length (Core.info (core_of (reopen x05 (hc_storage lost_cleared)))) = 1 /\
  (Core.get 1 (core_of (reopen x05 (hc_storage lost_cleared)))).2 = Ok None.
Proof. vm_compute. split_and!; reflexivity. Qed.
