(* ===== verification/ReplicationTheorems.v ===== *)
(** * Theorems on replication, shared cores and events *)

From stdpp Require Import base tactics numbers list strings gmap relations.
From Stdlib Require Import ZArith Lia Bool Strings.Byte.
From S2P Require Import Prelude FlatTree Channels Common BitfieldFixed BitfieldDynamic.
From S2P Require Import CompactEncoding Encoding Crypto OplogEntry Changeset Storage Oplog.
From S2P Require Import MerkleTree MerkleView MerkleProof MerkleSound MerkleComplete MerkleUpgrade MerkleSparse.
From S2P Require Import MerkleHonest UpgradeHonest.
From S2P Require Import Core Events CoreOpen CoreView CoreSpec CoreReplicate CoreReader CoreHonest Replication PeerSessions SharedCore.
From S2P Require Import Models ChannelModels Samples.
Open Scope Z_scope.

Section Theorems.
Context `{FT : FlatTree} {FL : FlatTreeLaws FT} `{CE : CompactEncoding} {CL : CompactEncodingLaws CE}
  `{B2 : Blake2b} {BL : Blake2bLaws B2} `{ED : Ed25519} {EL : Ed25519Laws ED} `{CR : Crc32}
  {CRL : Crc32Laws CR} `{RA : RandomAccess} {RL : RandomAccessLaws RA}
  `{IO : IntMapOrder} {IOL : IntMapOrderLaws IO}.
Implicit Types (blocks : list (list Z)) (s o r : Hypercore) (l : log).

(** The options of a core that has only the public key. *)
Definition replica_options (sk : SigningKey) : HypercoreOptions :=
  mkOptions (Some (mkKeypair _ (sk_verifying_key sk) None)) false.

(** C2: replication works.  One core is created with a key pair, another with
    its public key only.  Appends at the first, upgrades of the second and
    block requests of the second, in any order and number, all succeed: every
    proof the first creates is accepted by the second.  At any moment between two
    exchanges either core may be dropped and opened again from its stores, with
    entries in its oplog that were not flushed.  The second then knows the length
    of the last upgrade, reads the blocks it has fetched as the first appended
    them, and reports every other block as missing. *)
Theorem replication_refines_log generated generated' generated'' options (st st' : Storage) sk ops :
  holds st (fun _ => []) -> holds st' (fun _ => []) -> opt_open options = false ->
  kp_secret (options_key_pair generated options) = Some sk -> session_ops_ok sync_empty ops ->
  exists o r sto str o' r', Core.new generated options st = (sto, Ok o) /\
    Core.new generated' (replica_options sk) st' = (str, Ok r) /\
    peers_sessions generated'' ops (o, r) = ((o', r'), Ok true) /\
    info_length (Core.info r') = Z.of_nat (sy_length (session_run sync_empty ops)) /\
    forall i, 0 <= i < 2 ^ 64 -> (Core.get i r').2 = Ok (sync_get (session_run sync_empty ops) i).
Proof.
  intros Hh Hh' Ho Hsk Hok.
  destruct (new_in_sync generated generated' options st st' sk Hh Hh' Ho Hsk) as (o & r & sto & str & Hno & Hnr & Hs).
  destruct (peers_sessions_ok generated'' sk ops _ _ (in_sync_forget _ _ _ _ Hs) Hok) as ([o' r'] & b & Hrun & -> & Hs').
  exists o, r, sto, str, o', r'. split_and!; [done..| |].
  - destruct Hs' as [Hlen _ [(fs & Hr) _ _] _ _]. cbn [snd] in Hr.
    cbn [Core.info info_length]. rewrite (known_part_length _ _ _ _ Hr). by apply zlen_known_part.
  - intros i Hi. by apply (in_sync_get false sk _ (o', r')).
Qed.

(** C15: a replica that keeps asking gets everything.  Whatever two such cores
    have exchanged before, after one more upgrade and one request for every
    block, in any order, the replica reads the whole log. *)
Theorem replica_catches_up exact sk y (p : Hypercore * Hypercore) order :
  in_sync exact sk y p -> Permutation order (seqZ 0 (zlen (sy_origin y))) ->
  exists p', peers_run (SyncUpgrade :: (SyncFetch <$> order)) p = (p', Ok true) /\
    forall i, 0 <= i < zlen (sy_origin y) -> (Core.get i p'.2).2 = Ok (Some (block_at (sy_origin y) i)).
Proof.
  intros Hs Hperm.
  assert (forall (l : list Z) n h, (forall i, i ∈ l -> 0 <= i < Z.of_nat n) ->
    sync_ops_ok (mkSync (sy_origin y) n h) (SyncFetch <$> l) /\
    sync_run (mkSync (sy_origin y) n h) (SyncFetch <$> l) = mkSync (sy_origin y) n (reverse l ++ h)) as Hall.
  { induction l as [|i l IH]; intros n h Hin; [done|]. destruct (IH n (i :: h)) as [Hok Hrun].
    { intros j Hj. apply Hin. by right. }
    split; [split; [apply Hin; by left|done]|]. cbn [fmap list_fmap sync_run foldl].
    unfold sync_run in Hrun. cbn [sync_exec sy_origin sy_length sy_has]. rewrite Hrun.
    by rewrite reverse_cons, <-app_assoc. }
  destruct (Hall order (length (sy_origin y)) (sy_has y)) as [Hok Hrun].
  { intros i Hi. rewrite Hperm, elem_of_seqZ in Hi. unfold zlen in Hi. lia. }
  destruct (peers_run_ok exact sk (SyncUpgrade :: (SyncFetch <$> order)) y p Hs) as (p' & b & Hex & -> & Hs'); [by split|].
  exists p'. split; [done|]. intros i Hi. pose proof (of_inv _ _ _ (is_origin _ _ _ _ Hs)) as [fs Hinv].
  pose proof (ci_fits _ _ _ Hinv) as [Hn _]. rewrite (in_sync_get exact sk _ p' i Hs') by lia.
  assert (sync_run y (SyncUpgrade :: (SyncFetch <$> order)) =
    sync_run (mkSync (sy_origin y) (length (sy_origin y)) (sy_has y)) (SyncFetch <$> order)) as -> by done.
  rewrite Hrun. unfold sync_get. cbn [sy_has sy_origin]. rewrite decide_True; [done|].
  apply elem_of_app. left. apply elem_of_reverse. rewrite Hperm. apply elem_of_seqZ. lia.
Qed.

(** C14: proofs round-trip.  A core that has block [i] answers a request for it,
    with [m] levels of nodes, with a proof that every tree accepts that has the
    log's node [m] levels above the block: the changeset is the tree with the
    nodes of the path added. *)
Theorem block_proof_accepted blocks fs s i (m : nat) self infos nodes pk :
  core_read blocks fs s -> 0 <= i -> dbit (hc_bitfield s) i = true ->
  complete (zlen blocks) (Z.of_nat m) (i / 2 ^ Z.of_nat m) ->
  infos_to_nodes infos = Ok nodes ->
  Tree.required_node self (node_at (Z.of_nat m) (i / 2 ^ Z.of_nat m)) nodes =
    Ok (Right (merkle_at blocks (Z.of_nat m) (i / 2 ^ Z.of_nat m))) ->
  exists p, Core.create_proof (Some (mkRequestBlock i (Z.of_nat m))) None None None s = (s, Ok (Some p)) /\
    Proofs.verify_proof self p pk infos =
      Ok (Right (Proofs.push_nodes (Tree.changeset self) (merkle_peaks blocks (verified_nodes m 0 i)))).
Proof.
  intros Hr Hi Hb Hc Hinf Hreq. eexists. split; [by apply (create_block_proof blocks fs)|].
  rewrite (verify_proof_ok blocks self infos nodes) by (done || lia || apply Hr). rewrite Z.add_0_l, Hreq, bind_Ok.
  by rewrite decide_True.
Qed.

(** C11: strangers cannot harm a replica.  A replica of the first blocks of a
    log is given any number of block proofs and upgrades, with any values,
    nodes, lengths, indices and signatures and by whomever.  It then knows as
    much of the log as before or more, reads every block as the log has it or as
    missing, and has lost no block; or one of these proofs, at its turn, is
    accepted by the replica although one of the inputs it hashes for it (the
    block of the proof, a pair of its roots and the changeset's nodes, or the
    roots it ends with) is not what the log has there and collides with what was
    hashed for the log, or although the owner of the log never signed the bytes
    of the changeset the proof led to. *)
Theorem stranger_proofs_harmless sk full blocks has r (ps : list Proof_) i :
  replica_for sk blocks has r -> blocks `prefix_of` full -> log_fits full -> no_blank full ->
  Forall stranger_proof ps -> 0 <= i < 2 ^ 64 ->
  broken full r ps \/
  (zlen blocks <= info_length (Core.info (take_proofs ps r)) <= zlen full /\
   ((i < info_length (Core.info (take_proofs ps r)) /\ (Core.get i (take_proofs ps r)).2 = Ok (Some (block_at full i))) \/
    (i ∉ has /\ (Core.get i (take_proofs ps r)).2 = Ok None))).
Proof.
  intros [[fs Hr] _ Hbits] Hpre Hfit Hnb Hps Hi.
  destruct (reader_any_proofs full ps blocks fs r Hfit Hnb Hpre Hr Hps) as [|(more & fs' & [rest ->] & Hr' & Hkeep)]; [by left|right].
  cbn [Core.info info_length]. rewrite (known_part_length _ _ _ _ Hr').
  split; [rewrite !zlen_app; pose proof (zlen_nonneg more); pose proof (zlen_nonneg rest); lia|].
  rewrite (reader_get 3 _ _ _ i Hr' Hi). destruct (dbit (hc_bitfield (take_proofs ps r)) i) eqn:Hd; [left|right].
  - destruct (rd_data _ _ _ _ Hr' i ltac:(lia) Hd) as [Hlt _]. by rewrite (block_at_app_l (blocks ++ more) rest) by lia.
  - split; [|done]. intros Hin. rewrite Hkeep in Hd; [done|lia|]. rewrite Hbits by lia. by apply bool_decide_eq_true.
Qed.

(** C12: one block proof of whomever.  It is refused and the replica is as it
    was, or it is the block of the log and the replica has that block more; or
    the replica accepts it and one of the inputs it hashes for this very proof
    collides with an input that was hashed for the log's tree. *)
Theorem stranger_block_honest sk blocks has r p b r' res :
  replica_for sk blocks has r -> block_proof p b -> Core.verify_and_apply_proof p r = (r', res) ->
  collides blocks r p \/ (r' = r /\ res <> Ok true) \/
  (res = Ok true /\ db_index b < zlen blocks /\ db_value b = block_at blocks (db_index b) /\
   (Core.get (db_index b) r').2 = Ok (Some (db_value b))).
Proof.
  intros [[fs Hr] _ _] Hp Hrun. pose proof Hp as (_ & _ & _ & _ & _ & Hi & _).
  destruct (reader_any_block _ _ _ _ _ _ _ Hr Hp Hrun) as [|[|(-> & Hlt & Hv & (fs' & Hr' & _) & Hb)]]; [by left|by auto|].
  do 2 right. split_and!; [done..|]. rewrite (reader_get 3 _ _ _ _ Hr') by lia.
  rewrite Hb, decide_True by lia. by rewrite Hv.
Qed.

(** Lengths of additional nodes are not checked.  An empty tree is given
    an upgrade to one block with the leaf of the second as an additional node;
    the signature is the one of the two blocks.  Whatever the two lengths say, if
    only their sum is right, the proof is accepted: the roots are those of the
    log, but the tree keeps the leaves with the lengths that were sent, by which
    it will look for the second block. *)
Theorem additional_lengths_unbound self pk fork sig b0 b1 (l0 l1 : Z) :
  tree_for [] self -> log_fits [b0; b1] -> is_u64 fork -> 0 <= l0 -> 0 <= l1 -> l0 + l1 = zlen b0 + zlen b1 ->
  ed_verify pk (signed_bytes [b0; b1] fork) sig = true ->
  exists cs, Proofs.verify_proof self (mkProof fork None None None (Some (two_leaves b0 b1 l0 l1 sig))) pk None = Ok (Right cs) /\
    exists self', Tree.commit self cs = Ok self' /\ tree_for [b0; b1] self' /\ mt_signature self' = Some sig /\
      mt_unflushed self' !! 0 = Some (leaf_with 0 b0 l0) /\ mt_unflushed self' !! 2 = Some (leaf_with 1 b1 l1).
Proof. apply two_leaves_accepted. Qed.

(** A request for a block that is not there is answered with no proof, and
    the block is announced as asked for. *)
Theorem missing_block_no_proof blocks fs s i (m : nat) :
  core_base blocks fs s -> 0 <= i < zlen blocks -> dbit (hc_bitfield s) i = false ->
  complete (zlen blocks) (Z.of_nat m) (i / 2 ^ Z.of_nat m) ->
  Core.create_proof (Some (mkRequestBlock i (Z.of_nat m))) None None None s =
    (push_event (EventGet i) s, Ok None).
Proof. apply create_block_missing. Qed.
End Theorems.

Section Shared.
Context `{FT : FlatTree} {FL : FlatTreeLaws FT} `{CE : CompactEncoding} {CL : CompactEncodingLaws CE}
  `{B2 : Blake2b} {BL : Blake2bLaws B2} `{ED : Ed25519} {EL : Ed25519Laws ED} `{CR : Crc32}
  {CRL : Crc32Laws CR} `{RA : RandomAccess} {RL : RandomAccessLaws RA}
  `{IO : IntMapOrder} {IOL : IntMapOrderLaws IO} `{AM : AsyncMutex} {AML : AsyncMutexLaws AM}.
Implicit Types (s : Hypercore) (l : log) (y : system).

(** C6: a shared core is linearizable.  Tasks call the ten methods of a shared
    core, in any interleaving of their steps, with the core in any state while
    one of its methods is suspended.  What they were told is what the core
    replies to one sequence of the same calls that keeps the order of each task,
    run one after the other; whenever no method runs, the core is the one this
    sequence leaves.  If the calls are those of a log in range, the replies are
    those of the log and the core stands for it. *)
Theorem shared_core_refines_log s programs y :
  rtc step (start s programs) y ->
  let h := sys_history y in
  interleaves programs (prod_map id fst <$> h) /\ (run_calls s h.*2.*1).2 = h.*2.*2 /\
  (idle (sys_tasks y) -> sys_core y = (run_calls s h.*2.*1).1) /\
  (forall t x, sys_tasks y !! t = Some x -> tk_done x `prefix_of` of_task t h) /\
  forall l, stands_for l s -> programs_ok l programs ->
    log_replies h.*2 = (log_run l (omap op_of h.*2.*1)).2 /\
    (idle (sys_tasks y) -> stands_for (log_run l (omap op_of h.*2.*1)).1 (sys_core y)).
Proof.
  intros Hr h. pose proof (reachable_inv s programs y Hr) as Hinv.
  split_and!; [by eapply history_interleaves|apply Hinv..| |].
  - intros t x Hx. destruct (si_task _ _ _ Hinv t x Hx) as [_ Hh _ _ _ _]. unfold h. rewrite Hh. by apply prefix_app_r.
  - intros l Hst Hpo. destruct (history_run l s programs y Hst Hpo Hinv) as (Hrep & Hfin & _).
    split; [done|]. intros Hi. by rewrite (si_core _ _ _ Hinv Hi).
Qed.

(** C16: a shared core adds no deadlock.  After at most seven steps per call
    nothing is left; until then some task can go on, unless a method of the core
    itself does not return; and at the end every task was answered all the calls
    of its program, up to one that panicked.  With the calls of a log in range,
    every method returns and none panics. *)
Theorem shared_core_finishes s programs n y :
  nsteps step n (start s programs) y ->
  (n <= 7 * sum_list_with length programs)%nat /\
  (finished y \/ (exists y', step y y') \/ exists t c s0, stuck_in y t c s0) /\
  (finished y -> forall t p x, programs !! t = Some p -> sys_tasks y !! t = Some x ->
     (tk_done x).*1 = p \/ Panic ∈ (tk_done x).*2) /\
  forall l, stands_for l s -> programs_ok l programs ->
    (finished y \/ exists y', step y y') /\
    (finished y -> forall t p x, programs !! t = Some p -> sys_tasks y !! t = Some x -> (tk_done x).*1 = p).
Proof.
  intros Hn. pose proof (steps_work n _ _ Hn) as Hw. rewrite start_work in Hw.
  assert (system_inv s programs y) as Hinv by (apply reachable_inv; by eapply rtc_nsteps_2).
  pose proof (system_progress s programs y Hinv) as Hprog.
  split_and!; [lia|done|intros Hf t p x; by eapply finished_program|]. intros l Hst Hpo. split.
  - destruct Hprog as [?|[?|(t & c & s0 & Hstuck)]]; [by left|by right|]. by apply (log_calls_return l s programs) in Hstuck.
  - intros Hf t p x Hp Hx. destruct (finished_program s programs y t p x Hinv Hf Hp Hx) as [?|Hpanic]; [done|exfalso].
    rewrite (finished_done s programs y t x Hinv Hf Hx) in Hpanic. apply of_task_elem in Hpanic.
    destruct (history_run l s programs y Hst Hpo Hinv) as (_ & _ & Hdef). rewrite Forall_forall in Hdef.
    by destruct (Hdef Panic Hpanic).
Qed.

(** Mutual exclusion.  At most one task is in a method of the core or holds
    its guard. *)
Theorem shared_core_exclusive s programs y t t' x x' :
  rtc step (start s programs) y -> sys_tasks y !! t = Some x -> sys_tasks y !! t' = Some x' ->
  is_holding x -> is_holding x' -> t = t'.
Proof.
  intros Hr Hx Hx' Hh Hh'. pose proof (reachable_inv s programs y Hr) as Hinv.
  destruct (si_task _ _ _ Hinv t x Hx) as [_ _ _ _ Hho _]. destruct (si_task _ _ _ Hinv t' x' Hx') as [_ _ _ _ Hho' _].
  apply Hho in Hh. apply Hho' in Hh'. congruence.
Qed.
End Shared.

Section Subscribers.
Context `{BC : Broadcast} {BCL : BroadcastLaws BC}.

(** C29: a subscriber gets the last 32 events.  Of the events sent since it
    subscribed, it receives in their order the last ones, as many as the queue
    holds; what was sent before is not received, and sending never fails. *)
Theorem subscriber_last_events before after :
  let self := foldl (flip Events.send_event) Events.new before in
  let '(self, r) := Events.event_subscribe self in
  let self := foldl (flip Events.send_event) self after in
  (event_of <$> (receive_all (MAX_EVENT_QUEUE_CAPACITY + 2) r self).2) = lastn MAX_EVENT_QUEUE_CAPACITY after.
Proof.
  destruct events_new_ok as [Hok Hnone]. cbn zeta.
  assert (foldl (flip Events.send_event) Events.new before = Events.new) as ->.
  { induction before as [|e es IH]; [done|]. cbn [foldl flip].
    destruct (send_event_message e Events.new) as (m & _ & ->). cbn [Events.send fst].
    rewrite (try_broadcast_inactive _ m _ Hnone). by destruct Events.new. }
  destruct (subscribe_sees _ Hok) as [Hok' Hs]. destruct (Events.event_subscribe Events.new) as [self r].
  destruct (send_all_sees r after [] self Hok' Hs) as [_ Hs']. by apply receive_all_sees.
Qed.
End Subscribers.

(** ** Applications *)

Import FlatTreeModel EncodingModel CryptoModel MemoryModel IntMapModel BroadcastModel MutexModel.

Definition sample_sync_ops : list session_op :=
  [Exchange (SyncAppend two_blocks); Exchange SyncUpgrade; Exchange (SyncFetch 1); ReopenReplica;
   Exchange (SyncAppend [[4; 5; 6]]); ReopenOrigin; Exchange SyncUpgrade; Exchange (SyncFetch 2); ReopenReplica].

Lemma sample_sync_ok : session_ops_ok sync_empty sample_sync_ops.
Proof.
  split; [split_and!; [apply (sample_fits 2)|apply (sample_no_blank 2)|vm_compute; congruence]|].
  split; [done|]. split; [split; vm_compute; congruence|]. split; [vm_compute; congruence|].
  split; [split_and!; [apply (sample_fits 3)|apply (sample_no_blank 3)|vm_compute; congruence]|].
  split; [vm_compute; congruence|]. split; [done|]. split; [split; vm_compute; congruence|].
  split; [vm_compute; congruence|done].
Qed.

Lemma replication_refines_log_witness :
  exists o r sto str o' r', Core.new (ED:=ed25519) x05 HypercoreOptions_new empty_storage = (sto, Ok o) /\
    Core.new (ED:=ed25519) x07 (replica_options x05) empty_storage = (str, Ok r) /\
    peers_sessions x06 sample_sync_ops (o, r) = ((o', r'), Ok true) /\
    info_length (Core.info r') = 3 /\
    forall i, 0 <= i < 2 ^ 64 -> (Core.get i r').2 = Ok (sync_get (mkSync sample_blocks 3 [2; 1]) i).
Proof.
  exact (replication_refines_log (ED:=ed25519) x05 x07 x06 HypercoreOptions_new empty_storage empty_storage x05
    sample_sync_ops empty_storage_holds empty_storage_holds eq_refl eq_refl sample_sync_ok).
Defined.

Lemma replica_catches_up_witness :
  exists (p p' : the_core * the_core), in_sync (ED:=ed25519) true x05 (mkSync two_blocks 0 []) p /\
    peers_run [SyncUpgrade; SyncFetch 1; SyncFetch 0] p = (p', Ok true) /\
    forall i, 0 <= i < 2 -> (Core.get i p'.2).2 = Ok (Some (block_at two_blocks i)).
Proof.
  destruct (new_in_sync (ED:=ed25519) x05 x07 HypercoreOptions_new empty_storage empty_storage x05
    empty_storage_holds empty_storage_holds eq_refl eq_refl) as (o & r & _ & _ & _ & _ & Hs).
  destruct (peers_run_ok (ED:=ed25519) true x05 [SyncAppend two_blocks] sync_empty (o, r) Hs) as (p & _ & _ & _ & Hp).
  { split; [|done]. split_and!; [apply (sample_fits 2)|apply (sample_no_blank 2)|vm_compute; congruence]. }
  exists p. destruct (replica_catches_up (ED:=ed25519) true x05 (mkSync two_blocks 0 []) p [1; 0] Hp) as (p' & Hrun & Hget).
  { change (Permutation [1; 0] [0; 1]). constructor. }
  exists p'. split; [exact Hp|]. split; [exact Hrun|exact Hget].
Defined.

(** A forged block with the right nodes, the right block with a wrong length,
    the honest proof, and an upgrade with an old signature. *)
Definition forged_value : Proof_ := mkProof 0 (Some (mkDataBlock 0 [9; 9] [merkle_at two_blocks 0 1])) None None None.
Definition forged_length : Proof_ :=
  mkProof 0 (Some (mkDataBlock 0 (block_at two_blocks 0)
    [Node_new 2 (node_hash (merkle_at two_blocks 0 1)) 7])) None None None.
Definition old_signature : Proof_ :=
  mkProof 0 None None None (Some (mkDataUpgrade 2 1 [merkle_at sample_blocks 0 2] []
    (sig_to_bytes (ed_sign x05 (signed_bytes two_blocks 0))))).
Definition sample_stranger_proofs : list Proof_ :=
  [forged_value; old_signature; forged_length; proof_for two_blocks 0 true 1 0 0].

Lemma wire_block_proof fork i v n :
  wire_node n -> 0 <= i < 2 ^ 56 -> zlen v < 2 ^ 64 ->
  block_proof (mkProof fork (Some (mkDataBlock i v [n])) None None None) (mkDataBlock i v [n]).
Proof. intros Hn Hi Hv. split_and!; try done; [by constructor|apply Hi..]. Qed.

Lemma sample_wire i (h : list Z) len :
  zlen h = 32 -> 0 <= len < 2 ^ 64 -> wire_node (Node_new i h len).
Proof. intros Hh Hl. split_and!; [split; [done|apply Hl]|apply Hl|done]. Qed.

Lemma sample_honest : block_proof (proof_for two_blocks 0 true 1 0 0) (mkDataBlock 0 (block_at two_blocks 0) [merkle_at two_blocks 0 1]).
Proof. apply wire_block_proof; [apply sample_wire; [reflexivity|]|lia|]; vm_compute; by split || done. Qed.

Lemma sample_strangers : Forall stranger_proof sample_stranger_proofs.
Proof.
  repeat (apply Forall_cons; split); [left|right|left|left|done].
  - eexists. apply wire_block_proof; [apply sample_wire; [reflexivity|]|lia|]; vm_compute; by split || done.
  - eexists. split_and!; try reflexivity; [|cbn; lia..].
    constructor; [|constructor]. apply sample_wire; [reflexivity|]. vm_compute. by split.
  - eexists. apply wire_block_proof; [apply sample_wire; [reflexivity|lia]|lia|]. vm_compute. done.
  - eexists. exact sample_honest.
Qed.

(** A replica of the two blocks that has the second. *)
Lemma sample_replica : exists r, replica_for (ED:=ed25519) x05 two_blocks [1] r.
Proof.
  destruct (new_in_sync (ED:=ed25519) x05 x07 HypercoreOptions_new empty_storage empty_storage x05
    empty_storage_holds empty_storage_holds eq_refl eq_refl) as (o & r & _ & _ & _ & _ & Hs).
  destruct (peers_run_ok (ED:=ed25519) true x05 [SyncAppend two_blocks; SyncUpgrade; SyncFetch 1] sync_empty (o, r) Hs) as (p & _ & _ & _ & Hp).
  { split; [split_and!; [apply (sample_fits 2)|apply (sample_no_blank 2)|vm_compute; congruence]|].
    split; [done|]. split; [split; vm_compute; congruence|done]. }
  exists p.2. exact (is_replica _ _ _ _ Hp).
Qed.

Lemma stranger_proofs_harmless_witness :
  exists r, replica_for (ED:=ed25519) x05 two_blocks [1] r /\
    (broken (ED:=ed25519) sample_blocks r sample_stranger_proofs \/
     (2 <= info_length (Core.info (take_proofs sample_stranger_proofs r)) <= 3 /\
      ((0 < info_length (Core.info (take_proofs sample_stranger_proofs r)) /\
        (Core.get 0 (take_proofs sample_stranger_proofs r)).2 = Ok (Some (block_at sample_blocks 0))) \/
       (0 ∉ [1] /\ (Core.get 0 (take_proofs sample_stranger_proofs r)).2 = Ok None)))).
Proof.
  destruct sample_replica as [r Hrep]. exists r. split; [exact Hrep|].
  apply (stranger_proofs_harmless (ED:=ed25519) x05 sample_blocks two_blocks [1] r sample_stranger_proofs 0 Hrep).
  - by eexists.
  - apply (sample_fits 3).
  - apply (sample_no_blank 3).
  - exact sample_strangers.
  - lia.
Defined.

Lemma stranger_block_honest_witness :
  exists r r' res, replica_for (ED:=ed25519) x05 two_blocks [1] r /\
    Core.verify_and_apply_proof (proof_for two_blocks 0 true 1 0 0) r = (r', res) /\
    (collides two_blocks r (proof_for two_blocks 0 true 1 0 0) \/ (r' = r /\ res <> Ok true) \/
     (res = Ok true /\ 0 < 2 /\ block_at two_blocks 0 = block_at two_blocks 0 /\
      (Core.get 0 r').2 = Ok (Some (block_at two_blocks 0)))).
Proof.
  destruct sample_replica as [r Hrep].
  destruct (Core.verify_and_apply_proof (proof_for two_blocks 0 true 1 0 0) r) as [r' res] eqn:Hrun.
  exists r, r', res. split; [exact Hrep|]. split; [exact Hrun|].
  exact (stranger_block_honest (ED:=ed25519) x05 two_blocks [1] r _ _ r' res Hrep sample_honest Hrun).
Defined.

(** A tree that has the root of the first two blocks. *)
Definition two_block_tree : MerkleTree (H:=ed25519) :=
  mkTree _ [] 0 0 0 None {[1 := merkle_at sample_blocks 1 0]} false 0.

Lemma block_proof_accepted_witness :
  exists p, Core.create_proof (Some (mkRequestBlock 0 1)) None None None sample_core = (sample_core, Ok (Some p)) /\
    Proofs.verify_proof two_block_tree p (kp_public (hc_key_pair sample_core)) None =
      Ok (Right (Proofs.push_nodes (Tree.changeset two_block_tree) (merkle_peaks sample_blocks (verified_nodes 1 0 0)))).
Proof.
  destruct sample_core_ok as (_ & [fs Hinv] & Hbits).
  apply (block_proof_accepted (ED:=ed25519) sample_blocks fs sample_core 0 1 two_block_tree None ∅).
  - apply (core_ok_read _ _ _ _ Hinv).
  - lia.
  - apply Hbits. lia.
  - split_and!; vm_compute; congruence.
  - reflexivity.
  - vm_compute. reflexivity.
Defined.

Lemma missing_block_no_proof_witness :
  exists s, Core.clear 1 2 sample_core = (s, Ok tt) /\
    Core.create_proof (Some (mkRequestBlock 1 1)) None None None s = (push_event (EventGet 1) s, Ok None).
Proof.
  destruct sample_core_ok as (_ & [fs Hinv] & Hbits).
  destruct (clear_live (ED:=ed25519) 3 sample_blocks fs sample_core 1 2 (co_live _ _ _ _ Hinv))
    as (hs & he & s & fs' & Hhole & Hrun & Hlive & _ & _ & _ & _ & Hb); [lia..|].
  rewrite (clear_error_none sample_blocks fs sample_core 1 2 hs he (co_data _ _ _ _ Hinv) Hhole) in Hrun, Hlive
    by (vm_compute; reflexivity).
  destruct Hlive as [Hinv' _].
  - exists s. split; [exact Hrun|]. apply (missing_block_no_proof (ED:=ed25519) sample_blocks fs' s 1 1).
    + apply Hinv'.
    + split; vm_compute; congruence.
    + rewrite Hb by lia. by rewrite decide_True by lia.
    + split_and!; vm_compute; congruence.
Defined.

Definition empty_tree : MerkleTree (H:=ed25519) := mkTree _ [] 0 0 0 None ∅ false 0.

(** The blocks have two and one bytes; the lengths say one and two. *)
Lemma additional_lengths_unbound_witness :
  exists cs, Proofs.verify_proof empty_tree
      (mkProof 0 None None None (Some (two_leaves [1; 2] [3] 1 2 (ed_sign x05 (signed_bytes [[1; 2]; [3]] 0))))) x05 None = Ok (Right cs) /\
    exists self', Tree.commit empty_tree cs = Ok self' /\ tree_for [[1; 2]; [3]] self' /\
      mt_signature self' = Some (ed_sign x05 (signed_bytes [[1; 2]; [3]] 0)) /\
      mt_unflushed self' !! 0 = Some (leaf_with 0 [1; 2] 1) /\ mt_unflushed self' !! 2 = Some (leaf_with 1 [3] 2).
Proof.
  apply (additional_lengths_unbound (ED:=ed25519)).
  - done.
  - split; vm_compute; reflexivity.
  - split; vm_compute; congruence.
  - lia.
  - lia.
  - reflexivity.
  - apply (ed_verify_sign (ED:=ed25519) x05).
Defined.

(** Two tasks: one appends, one reads. *)
Definition sample_programs : list (list call) := [[CallAppend [1; 2]]; [CallGet 0]].

Lemma sample_programs_ok : programs_ok (mkLog [] true 0) sample_programs.
Proof.
  assert (op_ok (mkLog [] true 0) (OpAppendBatch [[1; 2]])) as Happ.
  { split_and!; [apply (sample_fits 1)|apply (sample_no_blank 1)|vm_compute; congruence]. }
  constructor; [repeat constructor; by eexists|]. intros h Hh.
  destruct h as [|[t c] h]; [done|]. apply interleaves_cons in Hh as (rest & Ht & Hh).
  destruct t as [|[|t]]; [..|done]; injection Ht as <- <-; cbn [list_insert insert] in Hh.
  all: destruct h as [|[t c] h]; [done|]; apply interleaves_cons in Hh as (rest & Ht & Hh).
  all: destruct t as [|[|t]]; [..|done]; try done; injection Ht as <- <-; cbn [list_insert insert] in Hh.
  all: destruct h as [|[t c] h]; [done|]; apply interleaves_cons in Hh as (rest & Ht & _).
  all: by destruct t as [|[|t]].
Qed.

Lemma new_core_stands_for : stands_for (ED:=ed25519) (mkLog [] true 0) new_core.
Proof.
  destruct (new_stands_for (ED:=ed25519) x05 HypercoreOptions_new empty_storage empty_storage_holds eq_refl)
    as (s & st & Hnew & Hst).
  unfold new_core. rewrite Hnew. exact Hst.
Qed.

(** The reader has called, taken the lock and read. *)
Definition read_first : system (ED:=ed25519) :=
  let '(s, r) := exec_call (CallGet 0) new_core in
  mkSystem s (mkLock (Some 1%nat) [])
    [mkTask Ready [CallAppend [1; 2]] []; mkTask (Running (CallGet 0) [DropGuard] None (Some r)) [] []]
    [(1%nat, (CallGet 0, r))].

Lemma read_first_steps : nsteps step 5 (start new_core sample_programs) read_first.
Proof.
  eapply nsteps_l; [by apply (step_call _ 1 (CallGet 0) [] [])|].
  eapply nsteps_l; [by eapply (step_lock _ 1 (CallGet 0) _ None None [] [])|].
  eapply nsteps_l; [by eapply (step_await _ 1 (CallGet 0) _ None None [] [])|].
  eapply nsteps_l; [by apply (step_enter _ 1 (CallGet 0) [Leave; DropGuard] None None [] [] new_core)|].
  assert ((exec_call (CallGet 0) new_core).2 <> Diverge) as Hd.
  { destruct (run_calls_log [CallGet 0] (mkLog [] true 0) new_core new_core_stands_for) as (_ & _ & Hdef).
    - repeat constructor. by eexists.
    - split; [|done]. split; vm_compute; congruence.
    - cbn [run_calls] in Hdef. destruct (exec_call (CallGet 0) new_core) as [s r]. apply Forall_cons in Hdef. apply Hdef. }
  unfold read_first. destruct (exec_call (CallGet 0) new_core) as [s r] eqn:Hex.
  eapply nsteps_l; [eapply (step_leave _ 1 (CallGet 0) [DropGuard] new_core None [] [] s r); [reflexivity|exact Hex|exact Hd]|].
  apply nsteps_O.
Qed.

Lemma shared_core_refines_log_witness :
  let h := sys_history read_first in
  interleaves sample_programs (prod_map id fst <$> h) /\ (run_calls new_core h.*2.*1).2 = h.*2.*2 /\
  (idle (sys_tasks read_first) -> sys_core read_first = (run_calls new_core h.*2.*1).1) /\
  (forall t x, sys_tasks read_first !! t = Some x -> tk_done x `prefix_of` of_task t h) /\
  stands_for (mkLog [] true 0) new_core /\ programs_ok (mkLog [] true 0) sample_programs /\
  forall l, stands_for l new_core -> programs_ok l sample_programs ->
    log_replies h.*2 = (log_run l (omap op_of h.*2.*1)).2 /\
    (idle (sys_tasks read_first) -> stands_for (log_run l (omap op_of h.*2.*1)).1 (sys_core read_first)).
Proof.
  pose proof (shared_core_refines_log (ED:=ed25519) new_core sample_programs read_first
    (rtc_nsteps_2 _ _ _ read_first_steps)) as (H1 & H2 & H3 & H4 & H5).
  split; [exact H1|]. split; [exact H2|]. split; [exact H3|]. split; [exact H4|].
  split; [exact new_core_stands_for|]. split; [exact sample_programs_ok|exact H5].
Defined.

Lemma shared_core_finishes_witness :
  (5 <= 14)%nat /\ (finished read_first \/ exists y', step read_first y') /\
  (finished read_first -> forall t p x, sample_programs !! t = Some p -> sys_tasks read_first !! t = Some x ->
     (tk_done x).*1 = p).
Proof.
  pose proof (shared_core_finishes (ED:=ed25519) new_core sample_programs 5 read_first read_first_steps) as (H1 & _ & _ & H).
  split; [exact H1|]. exact (H (mkLog [] true 0) new_core_stands_for sample_programs_ok).
Defined.

Lemma read_first_reader : exists x, sys_tasks read_first !! 1%nat = Some x /\ is_holding x.
Proof. unfold read_first. destruct (exec_call (CallGet 0) new_core) as [s r]. by eexists. Qed.

Lemma shared_core_exclusive_witness :
  exists x, sys_tasks read_first !! 1%nat = Some x /\ is_holding x /\ (1 = 1)%nat.
Proof.
  destruct read_first_reader as (x & Hx & Hh). exists x. split; [exact Hx|]. split; [exact Hh|].
  exact (shared_core_exclusive (ED:=ed25519) new_core sample_programs read_first 1 1 x x
    (rtc_nsteps_2 _ _ _ read_first_steps) Hx Hx Hh Hh).
Defined.

Lemma subscriber_last_events_witness :
  let self := foldl (flip Events.send_event) Events.new [EventGet 7] in
  let '(self, r) := Events.event_subscribe self in
  let self := foldl (flip Events.send_event) self [EventDataUpgrade; EventHave 0 3 false] in
  (event_of <$> (receive_all 34 r self).2) = [EventDataUpgrade; EventHave 0 3 false].
Proof. exact (subscriber_last_events [EventGet 7] [EventDataUpgrade; EventHave 0 3 false]). Defined.
