(* ===== verification/ExampleTheorems.v ===== *)
(** * Theorems on the example programs and the exchange they use *)

From stdpp Require Import base tactics numbers list strings gmap.
From Stdlib Require Import ZArith Lia Bool Strings.Byte.
From S2P Require Import Prelude FlatTree Common BitfieldFixed BitfieldDynamic.
From S2P Require Import CompactEncoding Encoding Crypto OplogEntry Changeset Storage Oplog.
From S2P Require Import MerkleTree MerkleView MerkleProof MerkleComplete MerkleUpgrade MerkleSparse MerkleBoth.
From S2P Require Import Core CoreOpen CoreView CoreSpec CoreReplicate CoreReader CoreBoth Replication Examples.
From S2P Require Import Models Samples.
Open Scope Z_scope.

Section Theorems.
Context `{FT : FlatTree} {FL : FlatTreeLaws FT} `{CE : CompactEncoding} {CL : CompactEncodingLaws CE}
  `{B2 : Blake2b} {BL : Blake2bLaws B2} `{ED : Ed25519} {EL : Ed25519Laws ED} `{CR : Crc32}
  {CRL : Crc32Laws CR} `{RA : RandomAccess} {RL : RandomAccessLaws RA}
  `{IO : IntMapOrder} {IOL : IntMapOrderLaws IO}.
Implicit Types (blocks : list (list Z)) (s o r : Hypercore) (l : log).

(** C7: a block and an upgrade in one proof.  A core with a key pair and one with
    its public key have exchanged upgrades and blocks in any way.  Then the
    exchange of the replication example works for every list of blocks that are
    [replicable] when their turn comes: each proof is created, accepted and
    applied, and the replica reads those blocks and the ones it had before as
    the origin appended them, and every other block as missing. *)
Theorem replicate_refines_log generated generated' options (st st' : Storage) sk ops indexes :
  holds st (fun _ => []) -> holds st' (fun _ => []) -> opt_open options = false ->
  kp_secret (options_key_pair generated options) = Some sk -> sync_ops_ok sync_empty ops ->
  replicables (sync_run sync_empty ops) indexes ->
  exists o r sto str p', Core.new generated options st = (sto, Ok o) /\
    Core.new generated' (mkOptions (Some (mkKeypair _ (sk_verifying_key sk) None)) false) st' = (str, Ok r) /\
    (_ ← peers_run ops; replicate_indexes indexes) (o, r) = (p', Ok tt) /\
    forall i, 0 <= i < 2 ^ 64 ->
      (Core.get i p'.2).2 = Ok (sync_get (foldl sync_replicate (sync_run sync_empty ops) indexes) i).
Proof.
  intros Hh Hh' Ho Hsk Hok Hrep.
  destruct (new_in_sync generated generated' options st st' sk Hh Hh' Ho Hsk) as (o & r & sto & str & Hno & Hnr & Hs).
  destruct (peers_run_ok true sk ops _ _ Hs Hok) as (p1 & b & Hrun & -> & Hs1).
  destruct (replicate_indexes_ok sk indexes _ _ Hs1 Hrep) as (p' & [] & Hrun' & Hs').
  exists o, r, sto, str, p'. split_and!; [done..| |].
  - unfold mbind, stateR_bind. by rewrite Hrun.
  - intros i Hi. by eapply in_sync_get.
Qed.

(** The example in memory prints what its comment says.  The two values that
    were cleared are gone, the assertions hold and nothing panics. *)
Theorem memory_example_prints debug generated memory_default :
  contents memory_default = [] -> no_blank memory_entries ->
  memory_main debug generated memory_default = Ok (bytes "Hello, from memory hypercore!").
Proof. apply memory_main_ok. Qed.

(** C36: the example on disk prints what its comment says.  Whatever the directory
    held, the core is created anew; it is dropped after two appends, opened again
    from the files it left, and goes on appending, clearing and reading. *)
Theorem disk_example_prints debug generated generated' disk_open disk_reopen dir (files : Store -> ra)
    (reopened : Storage -> Store -> ra) :
  (forall k, disk_open (dir ++ [store_file k]) = Ok (files k)) ->
  (forall st k, disk_reopen st (dir ++ [store_file k]) = Ok (reopened st k) /\
     contents (reopened st k) = contents (get_random_access st k)) ->
  no_blank disk_entries ->
  disk_main debug generated generated' disk_open disk_reopen dir = Ok (bytes "Hello, from disk hypercore!").
Proof. apply disk_main_ok. Qed.

(** The replication example prints what its comment says.  Whatever the
    directory held, the origin is created anew on disk; the replica in memory
    takes the four blocks in the order 3, 0, 2, 1. *)
Theorem replication_example_prints debug generated generated' disk_open dir memory_default (files : Store -> ra) :
  (forall k, disk_open (dir ++ [store_file k]) = Ok (files k)) -> contents memory_default = [] ->
  no_blank replication_batch ->
  replication_main debug generated generated' disk_open dir memory_default = Ok (bytes "Hello, from replicated hypercore!").
Proof. apply replication_main_ok. Qed.

(** A block that comes with an upgrade may be stored at a wrong place.  A
    replica of three blocks asks an origin of five for the last block and for
    the upgrade.  The proof is accepted, but the offset for the bytes of block 4
    is the one of block 2: the position of its root among the new roots, one
    before it, is looked up in the old roots. *)
Theorem upgrade_block_misplaced blocks more fs o self f sig pk :
  zlen blocks = 3 -> zlen more = 2 -> core_read (blocks ++ more) fs o -> dbit (hc_bitfield o) 4 = true ->
  mt_signature (hc_tree o) = Some sig -> is_u64 (mt_fork (hc_tree o)) ->
  ed_verify pk (signed_bytes (blocks ++ more) (mt_fork (hc_tree o))) sig = true -> sparse blocks self f ->
  exists p cs, Core.create_proof (Some (mkRequestBlock 4 0)) None None (Some (mkRequestUpgrade 3 2)) o = (o, Ok (Some p)) /\
    Proofs.verify_proof self p pk None = Ok (Right cs) /\
    Tree.byte_offset_in_changeset self 4 cs None = Ok (Right (byte_sum (blocks ++ more) 2)).
Proof.
  intros Hb Hm Hr Hbit Hsig Hf Hver Hs. assert (zlen (blocks ++ more) = 5) as Hlen by (rewrite zlen_app; lia).
  pose proof (ci_fits _ _ _ Hr) as Hfit. pose proof (sp_for _ _ _ Hs) as Hfor.
  destruct (split_exists 5 3 4) as (before & m & after & Hsp); [lia..|]. rewrite <-Hlen in Hsp.
  pose proof (create_both_proof (blocks ++ more) fs o 3 4 0 before m after sig Hr ltac:(lia) ltac:(lia) Hbit Hsig Hsp) as Hcreate.
  rewrite Hlen in Hcreate. change (5 - 3) with 2 in Hcreate.
  pose proof (tree_for_prefix blocks more self Hfor) as Hpre. rewrite Hb in Hpre.
  destruct (verify_both_new (blocks ++ more) 3 self None ∅ (mt_fork (hc_tree o)) sig pk 4 before m after)
    as (cs & Hv & Hacc); try done; [lia..|].
  eexists _, cs. split; [exact Hcreate|]. split; [exact Hv|]. rewrite <-Hb in Hsp.
  destruct (both_offset blocks more self f _ sig cs 4 before m after None Hs Hfit ltac:(lia) Hsp Hacc)
    as (pre & d & x & post & Hp & Hin & ->). rewrite Hlen in Hp. change (peaks 5) with [(2, 0); (0, 4)] in Hp.
  assert (pre = [(2, 0)] /\ d = 0 /\ x = 4) as (-> & -> & ->).
  { destruct pre as [|p1 [|p2 [|p3 pre]]]; injection Hp; intros; subst; cbn in Hin; try done; lia. }
  destruct Hfor as (Hroots & _). rewrite Hroots. unfold merkle_roots. rewrite Hb. change (peaks 3) with [(1, 0); (0, 2)].
  change (2 ^ 0 * 4) with 4. rewrite Z.sub_diag. destruct Hfit as [_ Hbytes].
  pose proof (byte_sum_le (blocks ++ more) 2 ltac:(lia)). pose proof (byte_sum_app blocks more 2 ltac:(lia)) as Happ.
  pose proof (byte_sum_nonneg blocks 2). change (length [(2, 0)]) with (length [(1, 0)]).
  rewrite (sum_roots_ok blocks [(0, 2)] 2 [(1, 0)] [] 0 0) by (done || lia || (change (byte_sum blocks 0) with 0; lia)).
  rewrite bind_Ok, Happ. change (byte_sum blocks 0) with 0. do 2 f_equal. lia.
Qed.
End Theorems.

(** ** Applications *)

Import FlatTreeModel EncodingModel CryptoModel MemoryModel IntMapModel.

Definition no_text (e : HypercoreError) : list Z := [].

Lemma memory_example_prints_witness :
  memory_main (ED:=ed25519) no_text x05 [] = Ok (bytes "Hello, from memory hypercore!").
Proof.
  apply (memory_example_prints (ED:=ed25519)).
  - reflexivity.
  - apply no_blank_small. vm_compute. reflexivity.
Defined.

(** Files that are not empty. *)
Definition old_file : ra (RandomAccess:=memory) := [1; 2; 3].

Lemma replication_example_prints_witness :
  replication_main (ED:=ed25519) no_text x05 x07 (fun _ => Ok old_file) ["tmp"] [] = Ok (bytes "Hello, from replicated hypercore!").
Proof.
  apply (replication_example_prints (ED:=ed25519) no_text x05 x07 _ _ _ (fun _ => old_file)).
  - reflexivity.
  - reflexivity.
  - apply no_blank_small. vm_compute. reflexivity.
Defined.

(** The file a path names, as the storage left it. *)
Definition left_file (st : Storage) (path : list string) : outcome RandomAccessError (ra (RandomAccess:=memory)) :=
  match last path with
  | Some name =>
      if decide (name = "tree") then Ok (st_tree st) else if decide (name = "data") then Ok (st_data st)
      else if decide (name = "bitfield") then Ok (st_bitfield st) else Ok (st_oplog st)
  | None => Err RA_IO
  end.

Lemma disk_example_prints_witness :
  disk_main (ED:=ed25519) no_text x05 x07 (fun _ => Ok old_file) left_file ["tmp"] = Ok (bytes "Hello, from disk hypercore!").
Proof.
  apply (disk_example_prints (ED:=ed25519) no_text x05 x07 _ _ _ (fun _ => old_file) get_random_access).
  - reflexivity.
  - intros st k. split; [|reflexivity]. destruct k; reflexivity.
  - apply no_blank_small. vm_compute. reflexivity.
Defined.

(** Three blocks, of which the replica knows and has the first two, and the
    exchange of the example for the third. *)
Definition sample_replicate_ops : list sync_op :=
  [SyncAppend two_blocks; SyncUpgrade; SyncFetch 1; SyncFetch 0; SyncAppend [[4; 5; 6]]].

Lemma replicate_refines_log_witness :
  exists o r sto str p', Core.new (ED:=ed25519) x05 HypercoreOptions_new empty_storage = (sto, Ok o) /\
    Core.new (ED:=ed25519) x07 (mkOptions (Some (mkKeypair _ (sk_verifying_key (Ed25519:=ed25519) x05) None)) false)
      empty_storage = (str, Ok r) /\
    (_ ← peers_run sample_replicate_ops; replicate_indexes [2]) (o, r) = (p', Ok tt) /\
    forall i, 0 <= i < 2 ^ 64 -> (Core.get i p'.2).2 = Ok (sync_get (mkSync sample_blocks 3 [2; 0; 1]) i).
Proof.
  apply (replicate_refines_log (ED:=ed25519) x05 x07 HypercoreOptions_new empty_storage empty_storage x05
    sample_replicate_ops [2] empty_storage_holds empty_storage_holds eq_refl eq_refl).
  - split; [split_and!; [apply (sample_fits 2)|apply (sample_no_blank 2)|vm_compute; congruence]|].
    split; [done|]. do 2 (split; [split; vm_compute; congruence|]).
    split; [split_and!; [apply (sample_fits 3)|apply (sample_no_blank 3)|vm_compute; congruence]|done].
  - split; [|done]. split_and!; [vm_compute; congruence|vm_compute; congruence| |right|vm_compute; reflexivity].
    + change (2 ∉ [0; 1]). set_solver.
    + intros k Hk. change (0 <= k < 2) in Hk. change (k ∈ [0; 1]). rewrite !elem_of_cons. lia.
Defined.

(** The origin has five blocks, the replica knows of three. *)
Definition five_blocks : list (list Z) := sample_blocks ++ [[7]; [8; 9]].

Lemma upgrade_block_misplaced_witness :
  exists (o r : the_core) p cs, in_sync (ED:=ed25519) true x05 (mkSync five_blocks 3 []) (o, r) /\
    Core.create_proof (Some (mkRequestBlock 4 0)) None None (Some (mkRequestUpgrade 3 2)) o = (o, Ok (Some p)) /\
    Proofs.verify_proof (hc_tree r) p x05 None = Ok (Right cs) /\
    Tree.byte_offset_in_changeset (hc_tree r) 4 cs None = Ok (Right 3) /\ byte_sum five_blocks 4 = 7.
Proof.
  destruct (new_in_sync (ED:=ed25519) x05 x07 HypercoreOptions_new empty_storage empty_storage x05
    empty_storage_holds empty_storage_holds eq_refl eq_refl) as (o0 & r0 & _ & _ & _ & _ & Hs0).
  destruct (peers_run_ok (ED:=ed25519) true x05 [SyncAppend sample_blocks; SyncUpgrade; SyncAppend [[7]; [8; 9]]] sync_empty (o0, r0) Hs0)
    as ([o r] & _ & _ & _ & Hs).
  { split; [split_and!; [apply (sample_fits 3)|apply (sample_no_blank 3)|vm_compute; congruence]|]. split; [done|].
    split; [|done]. split_and!; [split; vm_compute; reflexivity|apply no_blank_small; vm_compute; reflexivity|vm_compute; congruence]. }
  change (in_sync (ED:=ed25519) true x05 (mkSync five_blocks 3 []) (o, r)) in Hs. pose proof Hs as [_ [[fs Hinv] _ Hsig Hbits] [[fsr Hr] _ _] _ _].
  destruct (upgrade_block_misplaced (ED:=ed25519) sample_blocks [[7]; [8; 9]] fs o (hc_tree r) (fsr Common.Tree)
    (ed_sign (Ed25519:=ed25519) x05 (signed_bytes five_blocks (mt_fork (hc_tree o)))) x05) as (p & cs & Hp & Hv & Hoff).
  - reflexivity.
  - reflexivity.
  - apply (core_full_read _ _ _ _ Hinv).
  - apply Hbits. by split.
  - by apply Hsig.
  - apply Hinv.
  - apply (ed_verify_sign (ED:=ed25519) x05).
  - apply Hr.
  - exists o, r, p, cs. split; [exact Hs|]. split; [exact Hp|]. split; [exact Hv|]. split; [exact Hoff|reflexivity].
Defined.
