(* ===== verification/UnitTestTheorems.v ===== *)
(** * The tests pass

    The unit tests of [UnitTests] and [BitfieldTests] and the tests of
    [IntegrationTests] and [ModelTest].  The tests of the bitfields, of the
    headers and of the model hold for every implementation of the dependencies
    that keeps its laws; the others are evaluated, with the published BLAKE2b and
    SHA-2, and with the published Ed25519 where a fixed key is used. *)

From Stdlib Require Import Strings.Byte.
From stdpp Require Import base tactics numbers list strings gmap.
From Stdlib Require Import ZArith Lia Bool.
From S2P Require Import Prelude FlatTree Channels Common BitfieldFixed BitfieldDynamic.
From S2P Require Import CompactEncoding Encoding Crypto OplogEntry Changeset Storage Oplog.
From S2P Require Import MerkleTree MerkleView MerkleProof Core CoreOpen CoreView CoreSpec Replication SharedCore Events HashBE.
From S2P Require Import Models ChannelModels Samples Blake2bRfc Sha2 Ed25519Rfc.
From S2P Require Import Examples UnitTests BitfieldTests IntegrationTests ModelTest.
Open Scope Z_scope.

Section Theorems.
Context `{FT : FlatTree} {FL : FlatTreeLaws FT} `{CE : CompactEncoding} {CL : CompactEncodingLaws CE}
  `{B2 : Blake2b} {BL : Blake2bLaws B2} `{ED : Ed25519} {EL : Ed25519Laws ED} `{CR : Crc32}
  {CRL : Crc32Laws CR} `{RA : RandomAccess} {RL : RandomAccessLaws RA}
  `{IO : IntMapOrder} {IOL : IntMapOrderLaws IO}.

(** C9: the property-based test of the repository cannot fail on non-empty data.
    Whatever operations it draws (gets at [u64] indices, appends, clears with any
    divisors), a core in memory and the list of optional blocks agree: no
    [expect] and no assertion panics, and the test returns [true]. *)
Theorem model_test_passes generated memory_default (ops : list ModelTest.Op) :
  contents memory_default = [] -> Forall ModelTest.test_op ops ->
  log_fits (ModelTest.appended ops) -> no_blank (ModelTest.appended ops) ->
  ModelTest.assert_implementation_matches_model generated memory_default ops = Ok true.
Proof. apply ModelTest.model_test_ok. Qed.

Lemma keypair_bytes_length (k : PartialKeypair) sk : kp_secret k = Some sk -> zlen (partial_keypair_bytes k) = 98.
Proof.
  intros Hk. unfold partial_keypair_bytes. rewrite Hk. destruct (vk_bytes32 (kp_public k)) as [_ Hp].
  destruct (sk_bytes32 sk) as [_ Hs]. rewrite !zlen_app, Hp, Hs. done.
Qed.

(** The tests of the oplog header pass for every key: the encoded key pair has 98
    bytes, and key pair, tree and header are decoded as they were. *)
Theorem header_tests_pass (signing_key : SigningKey) :
  HeaderTests.encode_partial_key_pair signing_key = Ok tt /\ HeaderTests.encode_tree = Ok tt /\
  HeaderTests.encode_header signing_key = Ok tt.
Proof.
  set (kp := mkKeypair _ (sk_verifying_key signing_key) (Some signing_key)).
  assert (zlen (partial_keypair_bytes kp) = 98) as Hlen by by apply (keypair_bytes_length kp signing_key).
  split_and!.
  - unfold HeaderTests.encode_partial_key_pair. fold kp. set (st0 := st_new_with_start_and_end 0 0).
    assert (st_start st0 = 0) as Hs0 by by apply new_start. assert (st_end st0 = 0) as He0 by by apply new_end.
    destruct (codec_pre kp I st0) as (st1 & -> & Hs1 & He1); [lia..|]. rewrite Hlen, He0 in He1. rewrite Hs0 in Hs1.
    rewrite bind_Ok, create_buffer_law by lia. rewrite He1, Hs1. change (zlen (replicate (Z.to_nat (0 + 98)) 0)) with 98.
    change (1 + 32 + 1 + 64) with 98. change (0 + 98) with 98. cbn [assert Z.eqb Pos.eqb]. rewrite !bind_Ok.
    destruct (codec_enc kp I st1 (replicate (Z.to_nat 98) 0)) as (st2 & -> & _); [rewrite ?zlen_replicate; lia..|].
    rewrite bind_Ok, Hs1, splice_all by (rewrite zlen_replicate; lia).
    destruct (codec_dec kp I (st_from_buffer (partial_keypair_bytes kp)) (partial_keypair_bytes kp)) as (st3 & -> & _);
      [rewrite ?from_buffer_start, ?from_buffer_end; lia..|rewrite from_buffer_start; apply slice_full|].
    rewrite bind_Ok, bool_decide_true by done. cbn [assert unwrap kp_secret kp]. rewrite !bind_Ok. by rewrite bool_decide_true.
  - unfold HeaderTests.encode_tree. destruct (value_roundtrip HeaderTree_new) as (buf & -> & Hr).
    { split_and!; done || (split; [constructor|done]). } { unfold header_tree_bytes, buffer_bytes. cbn [HeaderTree_new ht_fork ht_length ht_root_hash ht_signature].
      rewrite !zlen_app. change (zlen (@nil Z)) with 0. by rewrite (uint_bytes_small 0). }
    rewrite bind_Ok, Hr. done.
  - unfold HeaderTests.encode_header. fold kp. destruct (value_roundtrip (Header_new kp)) as (buf & -> & Hr).
    { apply Header_new_wf. } { destruct (header_small_fits _ (Header_new_small kp)) as [_ Hfit]. change HEADER_SIZE with 4096 in Hfit. lia. }
    rewrite bind_Ok, Hr, bind_Ok. rewrite !Z.eqb_refl, !bool_decide_true by done. done.
Qed.
End Theorems.

(** The unit tests of the bitfields pass.  Both kinds are set, cleared and
    searched across words and pages, up to bit ten million: every [get],
    [index_of] and [last_index_of] of the tests returns what they assert. *)
Theorem bitfield_tests_pass :
  FixedTests.bitfield_fixed_get_and_set = Ok tt /\ FixedTests.bitfield_fixed_set_range = Ok tt /\
  DynamicTests.bitfield_dynamic_get_and_set = Ok tt /\ DynamicTests.bitfield_dynamic_set_range = Ok tt.
Proof. destruct fixed_tests_ok, dynamic_tests_ok. split_and!; assumption. Qed.

(** ** Evaluated tests *)

Import FlatTreeModel EncodingModel CryptoModel MemoryModel IntMapModel BroadcastModel.
Import Blake2bRfc Ed25519Rfc.

(** The hashes are the published ones.  With BLAKE2b of RFC 7693, the hashes of
    leaves, parents and roots, old and new, the discovery key and the constant
    [TREE] have the values that the tests of the program fix, which are also the
    ones of the implementation in JavaScript. *)
Theorem hash_tests_pass :
  HashTests.leaf_hash (B2:=blake2b_rfc) = Ok tt /\ HashTests.parent_hash (B2:=blake2b_rfc) = Ok tt /\
  HashTests.root_hash (B2:=blake2b_rfc) = Ok tt /\
  HashTests.discovery_key_hashing (ED:=ed25519_rfc) (BM:=blake2b_mac_rfc) = Ok tt /\
  HashTests.hash_leaf (B2:=blake2b_rfc) = Ok tt /\ HashTests.hash_parent (B2:=blake2b_rfc) = Ok tt /\
  HashTests.hash_tree (B2:=blake2b_rfc) = Ok tt /\ HashTests.hash_namespace (B2:=blake2b_rfc) = Ok tt.
Proof. split_and!; vm_compute; reflexivity. Qed.

Definition empty_file : @ra memory := [].

(** The unit tests of the core pass.  The proofs that a core of ten or sixteen
    blocks creates for blocks, upgrades from nothing or from an older state,
    additional nodes and seeks have the nodes that the tests list; a proof of
    another key is refused; a clone that has the public key takes the upgrade and
    then the block. *)
Theorem core_tests_pass :
  Forall (fun test => test empty_file x05 = Ok tt)
    [CoreTests.core_create_proof_block_only (ED:=ed25519) (B2:=blake2b_rfc);
     CoreTests.core_create_proof_block_and_upgrade (ED:=ed25519) (B2:=blake2b_rfc);
     CoreTests.core_create_proof_block_and_upgrade_and_additional (ED:=ed25519) (B2:=blake2b_rfc);
     CoreTests.core_create_proof_block_and_upgrade_from_existing_state (ED:=ed25519) (B2:=blake2b_rfc);
     CoreTests.core_create_proof_block_and_upgrade_from_existing_state_with_additional (ED:=ed25519) (B2:=blake2b_rfc);
     CoreTests.core_create_proof_block_and_seek_1_no_upgrade (ED:=ed25519) (B2:=blake2b_rfc);
     CoreTests.core_create_proof_block_and_seek_2_no_upgrade (ED:=ed25519) (B2:=blake2b_rfc);
     CoreTests.core_create_proof_block_and_seek_3_no_upgrade (ED:=ed25519) (B2:=blake2b_rfc);
     CoreTests.core_create_proof_block_and_seek_to_tree_no_upgrade (ED:=ed25519) (B2:=blake2b_rfc);
     CoreTests.core_create_proof_block_and_seek_with_upgrade (ED:=ed25519) (B2:=blake2b_rfc);
     CoreTests.core_create_proof_seek_with_upgrade (ED:=ed25519) (B2:=blake2b_rfc);
     (fun file key => CoreTests.core_verify_proof_invalid_signature (ED:=ed25519) (B2:=blake2b_rfc) file key x06);
     CoreTests.core_verify_and_apply_proof (ED:=ed25519) (B2:=blake2b_rfc)].
Proof. repeat apply Forall_cons_2; [vm_compute; reflexivity..|apply Forall_nil_2]. Qed.

(** The unit tests of the shared core and of the events pass. *)
Theorem shared_tests_pass :
  SharedTests.shared_core_methods (ED:=ed25519) (B2:=blake2b_rfc) empty_file x05 = Ok tt /\
  SharedTests.shared_core_replication_methods (ED:=ed25519) (B2:=blake2b_rfc) empty_file x05 = Ok tt /\
  EventTests.test_events (ED:=ed25519) (B2:=blake2b_rfc) empty_file x05 = Ok tt.
Proof. split_and!; vm_compute; reflexivity. Qed.

Definition test_key : signing_key := mkSigningKey TEST_SECRET_KEY_BYTES TEST_PUBLIC_KEY_BYTES.

(** The test of the signatures and the integration tests of [tests/core.rs] pass
    with Ed25519 of RFC 8032: among them, the secret key is in the files of a
    core, and its second half is no longer once the core was made read-only. *)
Theorem integration_tests_pass :
  can_verify_messages (H:=ed25519_rfc) test_key = Ok tt /\
  hypercore_new (ED:=ed25519_rfc) empty_file = Ok tt /\
  hypercore_new_with_key_pair (ED:=ed25519_rfc) (B2:=blake2b_rfc) empty_file test_key = Ok tt /\
  hypercore_open_with_key_pair_error (ED:=ed25519_rfc) (B2:=blake2b_rfc) empty_file test_key = Ok tt /\
  hypercore_make_read_only (ED:=ed25519_rfc) (B2:=blake2b_rfc) (RA:=memory) (fun file => file) test_key
    (mkStorage [] [] [] []) = Ok tt.
Proof. split_and!; vm_compute; reflexivity. Qed.

(** ** Applications *)

Definition sample_test : list ModelTest.Op :=
  [ModelTest.Append [1; 2]; ModelTest.Append [3]; ModelTest.Get 1; ModelTest.Clear 1 1; ModelTest.Get 1;
   ModelTest.Append [4; 5; 6]; ModelTest.Clear 16 2; ModelTest.Get 0; ModelTest.Get 2; ModelTest.Get 3].

Lemma model_test_passes_witness :
  ModelTest.assert_implementation_matches_model (ED:=ed25519) (B2:=blake2b) x05 empty_file sample_test = Ok true.
Proof.
  apply (model_test_passes (ED:=ed25519) (B2:=blake2b)).
  - reflexivity.
  - repeat constructor; cbn; lia || done.
  - split; vm_compute; reflexivity.
  - apply no_blank_small. vm_compute. reflexivity.
Defined.

(** The test fails when an empty block is behind a cleared one: the data file is
    truncated, and reading the empty block is out of bounds. *)
Theorem model_test_empty_data :
  ModelTest.assert_implementation_matches_model (ED:=ed25519) (B2:=blake2b_rfc) x05 empty_file
    [ModelTest.Append [97]; ModelTest.Append []; ModelTest.Clear 16 2; ModelTest.Get 1] = Panic.
Proof. vm_compute. reflexivity. Qed.
