(* ===== verification/InteropTheorems.v ===== *)
(** * The files of a core, byte for byte

    The program is run with the published BLAKE2b, Ed25519, SHA-2, CRC-32 and
    encodings.  The steps of [tests/js_interop.rs] leave the files whose hashes
    that test expects of it and of the implementation in JavaScript. *)

From stdpp Require Import base list gmap strings.
From Stdlib Require Import ZArith Lia Bool.
From S2P Require Import Prelude FlatTree Common CompactEncoding Crypto Storage Oplog MerkleTree Core HashBE.
From S2P Require Import Models Blake2bRfc Sha2 Ed25519Rfc UnitTests IntegrationTests.
Import FlatTreeModel EncodingModel CryptoModel MemoryModel IntMapModel.
Import Blake2bRfc Ed25519Rfc.
Open Scope Z_scope.

(** A key that no step generates, and an empty directory. *)
Definition no_key : signing_key := mkSigningKey [] [].
Definition no_files : Storage (RA:=memory) := mkStorage [] [] [] [].

(** The files are the ones of the other implementation.  A core with the test
    key pair is created on disk, opened again for each step, appended to, read
    from, flushed and cleared.  Every assertion of the steps holds, and after
    each of them the SHA-256 hashes of its four files are the ones that the test
    expects, whichever of the two implementations ran the step. *)
Theorem interop_files :
  interop_steps (ED:=ed25519_rfc) (B2:=blake2b_rfc) (RA:=memory) Sha2.sha256 (fun file => file) no_key no_files =
    Ok [step_0_hash; step_1_hash; step_2_hash; step_3_hash; step_4_hash; step_5_hash].
Proof. vm_compute. reflexivity. Qed.
